(* ===== verification/_CoqProject ===== *)
-Q . S2P
Prelude.v
Ring.v
WrappingIntegers.v
ByteStream.v
UnAssembleBuffer.v
StreamReassembler.v
Buffer.v
Parser.v
Checksum.v
TCPHeader.v
TCPSegment.v
IPv4Header.v
IPv4Datagram.v
Ethernet.v
ARPMessage.v
TCPReceiver.v
TCPSender.v
Transfer.v
TCPState.v
TCPConnection.v
Handshake.v
Address.v
TCPOverIP.v
RandomGenerator.v
NetworkInterface.v
Kernel.v
FileDescriptor.v
EventLoop.v
Socket.v
WireSafety.v
SegmentBounds.v
ConnectionStatus.v
ConnectionLife.v
DatagramAdapters.v
TCPSpongeSocket.v
SocketThread.v
StreamCopy.v
Threads.v
Duplex.v
Aborted.v
Resets.v
GivingUp.v
ReliableLink.v
DuplexCompletes.v
Recovery.v
Printing.v
ErrorText.v
Usage.v
CommandLine.v
PacketDump.v
WebGet.v
Startup.v
NativePrograms.v
Programs.v
WebProgram.v
Benchmark.v
