(* ===== verification/Prelude.v ===== *)
(** * Sponge: a verification library for the CS144 TCP implementation

    The program (src/libsponge) is a user-level TCP in C++: a bounded byte
    stream, a reassembler that puts substrings in order, a receiver and a
    sender of one direction of a connection, the connection that joins them,
    the wire formats (TCP, IPv4, Ethernet, ARP), and the adapters that carry
    segments over a TUN device, a UDP socket or Ethernet; below them wrappers
    of system calls (file descriptors, sockets) and an event loop over poll(2),
    above them the socket class that runs a connection in a thread, and the
    programs of src/apps.  The library translates these parts to executable
    definitions with the names of the source, and proves what makes each of
    them correct.

    ** Parts, files and sources

    - Prelude (this file): machine integers, faults and the error monad, the
      state monad of the parsers, bytes and strings, [memcpy].
    - Ring: reading and writing a circular vector in one or two pieces, the
      copies that byte_stream.cc and stream_reassembler.cc share.
    - WrappingIntegers: wrapping_integers.{hh,cc}, 32-bit sequence numbers.
    - ByteStream: byte_stream.{hh,cc}, the ring buffer between writer and
      reader; the specification is the bounded queue [fifo].
    - UnAssembleBuffer and StreamReassembler: stream_reassembler.{hh,cc}, the
      buffer of bytes received out of order with its map of intervals
      (specified by a finite map from stream index to byte), and the
      reassembler around it.
    - Buffer, Parser, Checksum: util/buffer.{hh,cc}, util/parser.{hh,cc} and
      the class InternetChecksum of util/util.{hh,cc}.
    - TCPHeader, TCPSegment, IPv4Header, IPv4Datagram, Ethernet, ARPMessage:
      the formats of tcp_helpers/, with their parsers and serializers.
    - TCPReceiver, TCPSender (with Timer), TCPState, TCPConnection: the files
      of those names.  Transfer: a sender and a receiver joined by a network
      that loses, reorders and duplicates.  Handshake: two connections joined
      by their queues.
    - Address: util/address.{hh,cc}.  TCPOverIP: tcp_over_ip.{hh,cc},
      fd_adapter.{hh,cc}, lossy_fd_adapter.hh and the TUN adapter of
      tuntap_adapter.hh.  RandomGenerator: get_random_generator of util.cc, with
      the generator and the seed sequence of the C++ standard.
      NetworkInterface: network_interface.{hh,cc} and the Ethernet adapter of
      tuntap_adapter.{hh,cc}.
    - Kernel: the system calls as a data type, [SystemCall] of util.cc, the
      interface [Kernel] with the laws [KernelLaws], and a small kernel in
      memory that satisfies them.  FileDescriptor, EventLoop, Socket: the files
      of those names in util/, and tun.{hh,cc}.
    - WireSafety, SegmentBounds, ConnectionStatus: what the parsers answer on
      arbitrary bytes, how large segments get, and how a connection ends and
      is reset, lemmas the layers above need.  ConnectionLife: a connection
      under any calls, before and after it was reset.
    - DatagramAdapters: the adapters on their descriptors.  TCPSpongeSocket:
      tcp_sponge_socket.{hh,cc}, its four rules, its loop and its life;
      SocketThread: the thread with the rest of the world around it.
      StreamCopy: apps/bidirectional_stream_copy.cc.
    - Duplex: two connections joined by an unreliable network.  Aborted: what
      the calls do on a connection of such a pair that was aborted.  Resets:
      the pair with connections that give up, are reset or are destroyed, and
      are used afterwards.
      GivingUp: a connection at which nothing arrives any more.  ReliableLink:
      two connections over a link that loses nothing.  DuplexCompletes and
      Recovery: two connections on the unreliable network get to the end.
      Benchmark: apps/tcp_benchmark.cc.
    - Printing: to_string, summary, str and name of the formats and [hexdump],
      over a model of output streams.  ErrorText: tagged_error and unix_error
      of util.hh and gai_error_category of address.cc, what an exception says.
    - Usage: the usage texts of the programs.  CommandLine: get_config of
      apps/tcp_ipv4.cc, tcp_udp.cc and tcp_ip_ethernet.cc, with the texts and
      codes they exit with.  PacketDump: apps/udp_tcpdump.cc with its main.
      WebGet: get_URL of apps/webget.cc on a socket.
    - Startup: the constructors of sockets, devices and adapters, for every
      kernel.  Threads: the owner's thread of a TCPSpongeSocket beside the
      socket's own, as interleaved histories of system calls joined by the
      socket pair.
    - NativePrograms: main of apps/tcp_native.cc and tun.cc.  Programs: main of
      tcp_ipv4.cc, tcp_udp.cc and tcp_ip_ethernet.cc.  WebProgram: main of
      webget.cc.

    A C++ class is a [Record] with the members of the class; a method that
    changes the object takes it and returns the new one; a method that can
    throw, fail an assertion or have undefined behaviour returns [res].
    Assertions are kept as faults: the theorems that a call returns [Ok] show
    that none fails, so that the result does not depend on NDEBUG.  Queues
    ([std::queue]) are lists with the front first.  The components meet
    through the functions the source calls; the adapters meet their clients
    through the class [Adapter], and their addresses through [AddressOps] and
    [AddressLaws], which Address implements over a C library that satisfies
    [LibcLaws].  Code that makes system calls is written in the state monad
    over [sys K] for any kernel [K]; a FileDescriptor is a pointer into a store
    of shared, counted wrappers, as in the source.  TCPSpongeSocket uses the
    adapters through [DatagramAdapter] with its laws, the three option chains
    meet their loop through [OptionTable], and the three programs on a
    TCPSpongeSocket meet what they share through [Program] and [ProgramLaws].

    ** What the theorems show

    - Sequence numbers: [wrap] and [unwrap] are inverse within half the range
      of the checkpoint, and [unwrap] finds the closest candidate.
    - ByteStream: over every sequence of calls the stream is a FIFO; each
      operation refines the queue.  The constructor's capacity must be
      positive: capacity 0 divides by zero.
    - Reassembly: [MergeInterval] keeps the interval map canonical,
      [push_substring] implements its specification, and for every arrival
      order of fragments inside the window the output is the longest received
      prefix of the stream, ended exactly at its end.  What happens outside
      the window (a failed assertion, a corrupted output) is proved too.
    - Formats: what is serialized parses back, for every format; what parsing
      answers on arbitrary bytes for TCP and IPv4; the checksum is the
      complement of the one's complement sum and detects every change of one
      byte.
    - Transfer: over an unreliable network the reader gets a prefix of what
      was written and the end only at its end, no step fails (the probes of a
      closed window included), and from every state the transfer can be
      completed.
    - Receiver: it delivers and acknowledges exactly the received prefix.
    - Sender: every segment it hands out is the part of the stream its
      sequence number claims; it respects and uses the window; what
      acknowledgments and ticks do; it never faults and [fill_window] ends.
    - Connection: before and after a reset it delivers a prefix of the peer's
      stream, and every call returns but one: a segment other than a reset
      throws at a connection that was reset before it heard the peer's SYN.
      It answers every segment that occupies sequence numbers; how it is
      reset; the three-way handshake; the abandoned data in CLOSING.
    - Adapters: a segment written by one side is read by the other; only
      segments of the connection are accepted; the lossy adapter only drops.
      Its generator, whatever the random device returns, yields 32-bit words
      and never degenerates.
    - Duplex and Resets: two whole connections deliver prefixes of both streams
      and no call faults, whatever the network does within the age limit; a
      call is shown to be steps of two one-way transfers.  An aborted connection
      keeps a receiver that is, up to its error flag, that of a transfer and a
      sender that sends parts of its stream only, so that all its calls return
      too, but for the late segment that the connection group singles out.  A
      connection is aborted only after one of the two gave up.
    - GivingUp: a connection at which nothing arrives any more is inactive
      within a time that depends on the initial timeout and on the length of
      the ticks only, when segments are outstanding in an open window or it
      lingers.  (With a closed window it probes for ever, as TCP asks.)
    - DuplexCompletes and Recovery: from every state two connections reach, both
      streams can be delivered to their ends and both connections closed; so
      they can when both owners have ended their streams and everything sent so
      far is lost for good, by ticks, reads and the arrival of what is sent then,
      while one more retransmission is allowed.
    - Benchmark: over a link that loses nothing everything sent is acknowledged
      in the same round, so that no connection gives up and every round gets
      on; both loops end, within the length of the string plus a constant, with
      the string received, and main returns success.
    - Descriptors: a write hands over exactly its bytes, in order; a shared
      descriptor is closed once; datagrams are whole or refused; a system call
      that fails throws its errno and a text that names the call.
    - Event loop: rules that keep their side of the contract never cause the
      "busy wait" exception; the index of the second loop stays in step with
      the erased rules; what each outcome of poll leads to.
    - Sockets: over the whole life of the thread the application reads a prefix
      of the peer's stream and the connection is given a prefix of what the
      application wrote; the thread stops early only with an exception; the
      abort flag ends it in one round.  Stream copies lose and reorder nothing.
      The environment is assumed to deliver resets and segments of one peer
      inside the window, the probe of a closed window and pure acknowledgments
      included ([environment], [good_world]): beyond the window the reassembler
      fails an assertion.
    - Programs: from main on, and for every interleaving of the two threads,
      tcp_ipv4, tcp_udp and tcp_ip_ethernet give the connection a prefix of
      their input and print a prefix of what the peer sent; tcp_native copies
      in the same way, on the socket that the kernel connected or accepted for
      the address of its arguments; webget sends a prefix of its request (of at
      most 1023 bytes of it) and prints a prefix of the answer.  The command lines are
      read exactly, wrong ones are refused with a text and a code.
    - Printers: udp_tcpdump and tun read no byte outside a packet except where
      a header is short (and a null pointer where libpcap has no description of
      the link type); the texts of headers determine the headers; the layout
      of a dump.

    ** Bounds and fuel

    - 64-bit counters are kept modulo 2^64.  The theorems on streams assume
      what the code relies on: the stream and the capacity stay below 2^63,
      and received segments are within 2^31 of the acknowledgment number, as
      the definitions [admissible], [cfg_ok], [reach] and [step] of each
      component state.  Where a network that keeps every segment must be able
      to deliver it (DuplexCompletes, Recovery, Benchmark), the streams are no
      longer than 2^31, so that no segment is too old.
    - [fill_loop] (the loop of [fill_window]) has fuel: [fill_fuel] is the
      number of buffered bytes plus two, and [sender_never_faults] shows that
      it is enough.  [fold_sum] (the folding loop of the checksum) needs two
      steps for a 32-bit sum, shown by [checksum_value].  [dec_loop] prints 20
      digits and [hex_loop] 16, enough for 64 bits.  [write_loop] has a round
      for every byte and one more, [option_loop] and [parse_loop] one for every
      argument, [skip_headers] one for every byte of the packet, [write_input]
      one for every byte: each is shown to be enough.  [tcp_loop], [copy_loop],
      [read_all] and [tun_loop] run as long as the peer or the application
      wants: their fuel is a number of rounds, and the theorems hold for every
      number.  [loop_until] ends: [benchmark_succeeds] gives the number of
      rounds that is enough.  All other loops recurse on their data.
    - The numbers of the random device (initial sequence numbers, ports, the
      seed of the loss generator) and what devices deliver are arguments.

    ** Not modelled

    - Debugging output, which is reduced to the calls in it that can throw;
      joins of threads, which only wait: the end of a run is the end of both
      histories.
    - Which exception a program prints: a fault carries its class and not its
      text, so [what] of the programs is a parameter, and ErrorText gives the
      text of each failing call.  Floating-point loss rates and libpcap
      (parameters), time measurement and output of the benchmark.
    - What is left of the sources are declarations (prototypes, forwarding
      constructors, access specifiers), which have no behaviour of their own. *)

From Stdlib Require Import ZArith Lia.
From Stdlib Require Export Strings.Byte.
From stdpp Require Export base list list_numbers numbers strings gmap.

#[global] Open Scope Z_scope.

(** ** Machine integers

    A C++ unsigned integer of width [w] is a [Z] in [0, 2^w); every arithmetic
    operation of the source that can leave that range is followed by the
    reduction the language prescribes. *)

Abbreviation M8 := 256.
Abbreviation M16 := 65536.
Abbreviation M31 := 2147483648.
Abbreviation M32 := 4294967296.
Abbreviation M63 := 9223372036854775808.
Abbreviation M64 := 18446744073709551616.

Definition u8 (x : Z) : Z := x mod M8.
Definition u16 (x : Z) : Z := x mod M16.
Definition u32 (x : Z) : Z := x mod M32.
Definition u64 (x : Z) : Z := x mod M64.

(** Conversion to [int32_t] (two's complement). *)
Definition i32 (x : Z) : Z :=
  let y := u32 x in if y <? M31 then y else y - M32.

Lemma u8_small x : 0 <= x < M8 -> u8 x = x.
Proof. intros. by apply Z.mod_small. Qed.
Lemma u16_small x : 0 <= x < M16 -> u16 x = x.
Proof. intros. by apply Z.mod_small. Qed.
Lemma u32_small x : 0 <= x < M32 -> u32 x = x.
Proof. intros. by apply Z.mod_small. Qed.
Lemma u64_small x : 0 <= x < M64 -> u64 x = x.
Proof. intros. by apply Z.mod_small. Qed.

Lemma u8_range x : 0 <= u8 x < M8.
Proof. by apply Z.mod_pos_bound. Qed.
Lemma u16_range x : 0 <= u16 x < M16.
Proof. by apply Z.mod_pos_bound. Qed.
Lemma u32_range x : 0 <= u32 x < M32.
Proof. by apply Z.mod_pos_bound. Qed.
Lemma u64_range x : 0 <= u64 x < M64.
Proof. by apply Z.mod_pos_bound. Qed.

(** [wrap_lia]: unfold the width reductions and let [lia] solve the euclidean
    equations.  It is complete for linear facts about a few reductions. *)
Ltac wrap_lia :=
  unfold i32, u8, u16, u32, u64 in *;
  repeat case_match; Z.to_euclidean_division_equations; lia.

(** ** Fallible computations

    [Fail] carries the reason a C++ call does not return normally: an
    exception (of the standard library, or [tagged_error] of util.hh), a failed [assert], or undefined
    behaviour (an access outside an object, a division by zero).
    The standard library's [runtime_error] is [RuntimeError]; the three that
    the theorems single out by their message have a name of their own:
    [BusyWait] and [PollError] (EventLoop: "busy wait detected", "error on
    polled file descriptor") and [ShortAccept] (TCPSpongeSocket:
    "TCPConnection::write() accepted less than advertised length").
    [OutOfFuel] is not a C++ outcome: a loop of the model reports it when its
    bound was too small, and the theorems that a loop returns [Ok] show it
    never is. *)

Inductive fault : Type :=
  | OutOfRange
  | RuntimeError
  | BadOptionalAccess
  | AssertionFailure
  | MemoryFault
  | DivisionByZero
  | InvalidArgument
  | TaggedError
  | LengthError
  | BusyWait
  | PollError
  | ShortAccept
  | OutOfFuel.

#[export] Instance fault_eq_dec : EqDecision fault.
Proof. solve_decision. Defined.

Inductive res (A : Type) : Type :=
  | Ok (a : A)
  | Fail (f : fault).
Arguments Ok {A} a.
Arguments Fail {A} f.

#[export] Instance res_ret : MRet res := fun A a => Ok a.
#[export] Instance res_bind : MBind res := fun A B k m =>
  match m with Ok a => k a | Fail f => Fail f end.

Lemma bind_Ok {A B} (m : res A) (k : A -> res B) b :
  m ≫= k = Ok b <-> exists a, m = Ok a /\ k a = Ok b.
Proof.
  destruct m as [a|f]; cbn; split; [by eauto|by intros (? & [= <-] & ?)|done|by intros (? & ? & ?)].
Qed.

Lemma bind_Ok_l {A B} (a : A) (k : A -> res B) : Ok a ≫= k = k a.
Proof. done. Qed.

(** [simplify_res]: decompose every successful bind in the context. *)
Ltac simplify_res :=
  repeat match goal with
  | H : mbind _ _ = Ok _ |- _ => apply bind_Ok in H as (? & ? & ?)
  | H : Ok _ = Ok _ |- _ => injection H as H
  | H : Fail _ = Ok _ |- _ => discriminate H
  | H : Ok _ = Fail _ |- _ => discriminate H
  | p : (_ * _)%type |- _ => destruct p
  end; simplify_eq/=.

(** [assert(b)] of <cassert>. *)
Definition assert_ (b : bool) : res unit :=
  if b then Ok tt else Fail AssertionFailure.

(** [a % b] on unsigned operands. *)
Definition umod (a b : Z) : res Z :=
  if b =? 0 then Fail DivisionByZero else Ok (a mod b).

Lemma umod_pos a b : 0 < b -> umod a b = Ok (a mod b).
Proof. intros. unfold umod. destruct (Z.eqb_spec b 0); [lia|done]. Qed.

(** ** State and faults

    [M S A]: a computation that threads an object of type [S] and may fault,
    with the notation of stdpp's monads. *)

Definition M (S A : Type) : Type := S -> res (A * S).

#[export] Instance M_ret S : MRet (M S) := fun A a s => Ok (a, s).
#[export] Instance M_bind S : MBind (M S) := fun A B k m s =>
  match m s with Ok (a, s') => k a s' | Fail f => Fail f end.

Definition get_state {S} : M S S := fun s => Ok (s, s).

Lemma M_bind_Ok {S A B} (m : M S A) (k : A -> M S B) s a s' :
  m s = Ok (a, s') -> (m ≫= k) s = k a s'.
Proof. intros H. unfold mbind, M_bind. by rewrite H. Qed.

Lemma M_bind_assoc {S A B C} (m : M S A) (k : A -> M S B) (j : B -> M S C) s :
  ((m ≫= k) ≫= j) s = (m ≫= (fun a => k a ≫= j)) s.
Proof. unfold mbind, M_bind. by destruct (m s) as [[a s']|]. Qed.

(** [wp m Q F s]: started at [s], [m] returns with a result and a state that
    satisfy [Q], or fails for a reason in [F].  The rules below run a
    computation step by step. *)
Definition wp {S A} (m : M S A) (Q : A -> S -> Prop) (F : fault -> Prop) (s : S) : Prop :=
  match m s with Ok (a, s') => Q a s' | Fail f => F f end.

Lemma wp_bind {S A B} (m : M S A) (k : A -> M S B) Q F s :
  wp m (fun a => wp (k a) Q F) F s -> wp (m ≫= k) Q F s.
Proof. unfold wp, mbind, M_bind. by destruct (m s) as [[a s']|]. Qed.

Lemma wp_ret {S A} (a : A) (Q : A -> S -> Prop) F s : Q a s -> wp (mret a) Q F s.
Proof. done. Qed.

Lemma wp_mono {S A} (m : M S A) (Q Q' : A -> S -> Prop) (F F' : fault -> Prop) s :
  wp m Q F s -> (forall a s', Q a s' -> Q' a s') -> (forall f, F f -> F' f) -> wp m Q' F' s.
Proof. unfold wp. intros Hm HQ HF. destruct (m s) as [[a s']|f]; auto. Qed.

Lemma wp_Ok {S A} (m : M S A) (Q : A -> S -> Prop) F s a s' : m s = Ok (a, s') -> Q a s' -> wp m Q F s.
Proof. unfold wp. by intros ->. Qed.

(** ** Bytes *)

#[export] Instance byte_eq_dec : EqDecision byte := Byte.byte_eq_dec.

Definition b2z (b : byte) : Z := Z.of_N (Byte.to_N b).
Definition z2b (z : Z) : byte :=
  match Byte.of_N (Z.to_N (u8 z)) with Some b => b | None => x00 end.

Lemma b2z_range b : 0 <= b2z b < M8.
Proof. unfold b2z. pose proof (Byte.to_N_bounded b). lia. Qed.

Lemma z2b_b2z b : z2b (b2z b) = b.
Proof.
  unfold z2b. rewrite u8_small by apply b2z_range.
  unfold b2z. rewrite N2Z.id. by rewrite Byte.of_to_N.
Qed.

Lemma b2z_z2b z : b2z (z2b z) = u8 z.
Proof.
  unfold z2b, b2z. pose proof (u8_range z).
  destruct (Byte.of_N (Z.to_N (u8 z))) as [b|] eqn:E.
  - apply Byte.to_of_N in E. rewrite E. lia.
  - apply Byte.of_N_None_iff in E. lia.
Qed.

Lemma b2z_inj a b : b2z a = b2z b -> a = b.
Proof. intros H. rewrite <-(z2b_b2z a), <-(z2b_b2z b). congruence. Qed.

(** ** Strings of bytes and memory blocks

    [zlen] is [size()].  [memcpy dst off src soff n] is
    [::memcpy(dst + off, src + soff, n)] on the two objects: it fails when
    either range leaves its object. *)

Definition zlen {A} (l : list A) : Z := Z.of_nat (length l).
Definition ztake {A} (n : Z) (l : list A) : list A := take (Z.to_nat n) l.
Definition zdrop {A} (n : Z) (l : list A) : list A := drop (Z.to_nat n) l.
Definition zreplicate {A} (n : Z) (x : A) : list A := replicate (Z.to_nat n) x.

(** [std::string::resize(n)]: cut, or pad with zero bytes. *)
Definition resize (n : Z) (l : list byte) : list byte :=
  ztake n l ++ zreplicate (n - zlen l) x00.

Definition splice {A} (off : nat) (src dst : list A) : list A :=
  take off dst ++ src ++ drop (off + length src) dst.

Definition memcpy (dst : list byte) (off : Z) (src : list byte) (soff n : Z) : res (list byte) :=
  if (0 <=? off) && (off + n <=? zlen dst) && (0 <=? soff) && (soff + n <=? zlen src) && (0 <=? n)
  then Ok (splice (Z.to_nat off) (ztake n (zdrop soff src)) dst)
  else Fail MemoryFault.

Lemma zlen_nonneg {A} (l : list A) : 0 <= zlen l.
Proof. unfold zlen; lia. Qed.
Lemma zlen_nil {A} : zlen (@nil A) = 0.
Proof. done. Qed.
Lemma zlen_cons {A} (x : A) l : zlen (x :: l) = 1 + zlen l.
Proof. unfold zlen; cbn; lia. Qed.
Lemma zlen_app {A} (l k : list A) : zlen (l ++ k) = zlen l + zlen k.
Proof. unfold zlen. rewrite length_app. lia. Qed.
Lemma zlen_ztake {A} n (l : list A) : 0 <= n -> zlen (ztake n l) = Z.min n (zlen l).
Proof. unfold zlen, ztake. rewrite length_take. lia. Qed.
Lemma zlen_zdrop {A} n (l : list A) : 0 <= n -> zlen (zdrop n l) = Z.max 0 (zlen l - n).
Proof. unfold zlen, zdrop. rewrite length_drop. lia. Qed.
Lemma zlen_zreplicate {A} n (x : A) : 0 <= n -> zlen (zreplicate n x) = n.
Proof. unfold zlen, zreplicate. rewrite length_replicate. lia. Qed.
Lemma zlen_0_inv {A} (l : list A) : zlen l = 0 -> l = [].
Proof. unfold zlen. destruct l; cbn; [done|lia]. Qed.

Lemma zdrop_zdrop {A} m n (l : list A) : 0 <= m -> 0 <= n -> zdrop m (zdrop n l) = zdrop (n + m) l.
Proof. intros. unfold zdrop. rewrite drop_drop. f_equal. lia. Qed.

Lemma zdrop_app_ge {A} n (l k : list A) : zlen l <= n -> zdrop n (l ++ k) = zdrop (n - zlen l) k.
Proof.
  intros. unfold zdrop, zlen in *. rewrite drop_app, (drop_ge l) by lia. cbn. f_equal. lia.
Qed.

Lemma zdrop_app_le {A} n (l k : list A) : 0 <= n <= zlen l -> zdrop n (l ++ k) = zdrop n l ++ k.
Proof. intros. unfold zdrop, zlen in *. apply drop_app_le. lia. Qed.

Lemma zdrop_0 {A} (l : list A) : zdrop 0 l = l.
Proof. done. Qed.

Lemma zdrop_all {A} (l : list A) : zdrop (zlen l) l = [].
Proof. unfold zdrop, zlen. apply drop_ge. lia. Qed.

Lemma ztake_zdrop {A} n (l : list A) : ztake n l ++ zdrop n l = l.
Proof. apply take_drop. Qed.

Lemma ztake_app_exact {A} n (l k : list A) : zlen l = n -> ztake n (l ++ k) = l.
Proof. intros <-. unfold ztake, zlen. rewrite Nat2Z.id. apply take_app_length. Qed.

Lemma zdrop_app_exact {A} n (l k : list A) : zlen l = n -> zdrop n (l ++ k) = k.
Proof. intros <-. unfold zdrop, zlen. rewrite Nat2Z.id. apply drop_app_length. Qed.

Lemma zlen_resize n l : 0 <= n -> zlen (resize n l) = n.
Proof.
  intros. unfold resize. rewrite zlen_app, zlen_ztake by lia.
  unfold zlen at 2, zreplicate. rewrite length_replicate. lia.
Qed.

Lemma resize_ge n l : zlen l <= n -> resize n l = l ++ zreplicate (n - zlen l) x00.
Proof. intros. unfold resize, ztake, zlen in *. by rewrite take_ge by lia. Qed.

Create HintDb sponge.
Create Rewrite HintDb zlen.
#[export] Hint Resolve zlen_nonneg b2z_range u8_range u16_range u32_range u64_range : sponge.
#[export] Hint Rewrite @zlen_app @zlen_cons @zlen_nil : zlen.
#[export] Hint Rewrite @zlen_ztake @zlen_zdrop @zlen_zreplicate using lia : zlen.
