(* ===== verification/Ring.v ===== *)
(** * Cyclic buffers

    Both [ByteStream] and [UnAssembleBuffer] keep their bytes in a
    [std::vector<char>] used as a ring: a logical offset [k] from [start_pos_]
    lives at position [(start_pos_ + k) % capacity], and a copy that crosses
    the end of the vector is split into two [memcpy] calls.  This file holds
    the list lemmas about that representation: [ring buf start] is the vector
    unrolled from [start_pos_], a split copy into the vector is a plain copy
    into the unrolled list, and advancing [start_pos_] rotates it. *)

From Stdlib Require Import Lia.
From S2P Require Import Prelude.

Local Open Scope nat_scope.

Section ring.
Context {A : Type}.
Implicit Types (buf src dst : list A).

Definition ring buf (start : nat) : list A := drop start buf ++ take start buf.

Lemma length_ring buf start : length (ring buf start) = length buf.
Proof. unfold ring. rewrite length_app, length_drop, length_take. lia. Qed.

Lemma lookup_ring buf start i :
  start <= length buf ->
  ring buf start !! i =
    if decide (start + i < length buf) then buf !! (start + i)
    else if decide (i < length buf) then buf !! (start + i - length buf) else None.
Proof.
  intros Hs. unfold ring. rewrite lookup_app, lookup_drop.
  destruct (buf !! (start + i)) as [x|] eqn:E.
  - apply lookup_lt_Some in E. by rewrite decide_True.
  - apply lookup_ge_None in E. rewrite decide_False by lia.
    rewrite length_drop. case_decide.
    + rewrite lookup_take_lt by lia. f_equal. lia.
    + apply lookup_take_ge. lia.
Qed.

Lemma length_splice off src dst :
  off + length src <= length dst -> length (splice off src dst) = length dst.
Proof.
  intros. unfold splice. rewrite !length_app, length_take, length_drop. lia.
Qed.

Lemma lookup_splice off src dst i :
  off + length src <= length dst ->
  splice off src dst !! i =
    if decide (off <= i < off + length src) then src !! (i - off) else dst !! i.
Proof.
  intros Hb. unfold splice. rewrite lookup_app.
  destruct (decide (i < off)).
  - rewrite lookup_take_lt by lia. rewrite decide_False by lia.
    destruct (dst !! i) eqn:E; [done|]. apply lookup_ge_None in E. lia.
  - rewrite lookup_take_ge by lia. rewrite length_take, lookup_app.
    replace (off `min` length dst) with off by lia.
    destruct (src !! (i - off)) eqn:E.
    + apply lookup_lt_Some in E as ?. by rewrite decide_True by lia.
    + apply lookup_ge_None in E. rewrite decide_False by lia.
      rewrite lookup_drop. f_equal. lia.
Qed.

(** The two-part copy into the vector at position [pos], ... *)
Definition ring_write buf (pos : nat) src : list A :=
  if decide (pos + length src <= length buf) then splice pos src buf
  else splice 0 (drop (length buf - pos) src)
         (splice pos (take (length buf - pos) src) buf).

(** ... and out of it. *)
Definition ring_read buf (pos n : nat) : list A :=
  if decide (pos + n <= length buf) then take n (drop pos buf)
  else take (length buf - pos) (drop pos buf) ++ take (n - (length buf - pos)) buf.

Lemma length_ring_write buf pos src :
  pos <= length buf -> length src <= length buf ->
  length (ring_write buf pos src) = length buf.
Proof.
  intros. unfold ring_write. case_decide.
  - by apply length_splice.
  - assert (length (splice pos (take (length buf - pos) src) buf) = length buf) as E
      by (apply length_splice; rewrite length_take; lia).
    rewrite length_splice; [done|]. rewrite E, length_drop. lia.
Qed.

(** The position of logical offset [k]. *)
Definition ring_pos (cap start k : nat) : nat :=
  if decide (start + k < cap) then start + k else start + k - cap.

Lemma ring_pos_mod cap start k :
  start < cap -> k <= cap -> ring_pos cap start k = (start + k) mod cap.
Proof.
  intros. unfold ring_pos. case_decide; [by rewrite Nat.mod_small|].
  replace (start + k) with (start + k - cap + 1 * cap) at 2 by lia.
  rewrite Nat.Div0.mod_add. by rewrite Nat.mod_small by lia.
Qed.

(** A split copy is a plain copy into the unrolled buffer. *)
Lemma ring_write_spec buf start k src :
  start < length buf -> k + length src <= length buf ->
  ring (ring_write buf (ring_pos (length buf) start k) src) start =
    splice k src (ring buf start).
Proof.
  intros Hs Hk.
  assert (ring_pos (length buf) start k <= length buf) as Hp.
  { unfold ring_pos. case_decide; lia. }
  apply list_eq. intros i.
  rewrite lookup_splice by (rewrite length_ring; lia).
  rewrite lookup_ring by (rewrite length_ring_write by lia; lia).
  rewrite length_ring_write by lia.
  rewrite lookup_ring by lia.
  unfold ring_write, ring_pos in *.
  repeat (case_decide; try lia);
    rewrite ?lookup_splice by (rewrite ?length_splice; rewrite ?length_take, ?length_drop; lia);
    rewrite ?length_take, ?length_drop;
    repeat (case_decide; try lia);
    rewrite ?lookup_drop, ?lookup_take_lt by lia;
    try (f_equal; lia);
    try (rewrite lookup_ge_None_2 by lia; done).
Qed.

Lemma ring_read_spec buf pos n :
  pos < length buf -> n <= length buf ->
  ring_read buf pos n = take n (ring buf pos).
Proof.
  intros Hp Hn. unfold ring_read, ring. case_decide.
  - rewrite take_app_le by (rewrite length_drop; lia). done.
  - rewrite take_app_ge by (rewrite length_drop; lia). rewrite length_drop.
    rewrite take_take, (take_ge (drop pos buf)) by (rewrite length_drop; lia).
    f_equal. f_equal. lia.
Qed.

(** Advancing the start position rotates the unrolled buffer. *)
Lemma ring_advance buf start n :
  start < length buf -> n <= length buf ->
  ring buf (ring_pos (length buf) start n) =
    drop n (ring buf start) ++ take n (ring buf start).
Proof.
  intros Hs Hn.
  assert (ring_pos (length buf) start n <= length buf) as Hp.
  { unfold ring_pos. case_decide; lia. }
  change (drop n (ring buf start) ++ take n (ring buf start)) with (ring (ring buf start) n).
  apply list_eq. intros i.
  rewrite (lookup_ring (ring buf start)) by (rewrite length_ring; lia).
  rewrite length_ring, !(lookup_ring buf) by lia.
  unfold ring_pos in *. repeat (case_decide; try lia); f_equal; lia.
Qed.

Lemma take_splice_end k src dst :
  k + length src <= length dst ->
  take (k + length src) (splice k src dst) = take k dst ++ src.
Proof.
  intros. unfold splice. rewrite app_assoc.
  rewrite take_app_le by (rewrite length_app, length_take; lia).
  apply take_ge. rewrite length_app, length_take. lia.
Qed.
End ring.

(** ** The copies as the sources write them

    [split_write]/[split_read] are the one-or-two [memcpy] patterns; under the
    bounds the callers establish they never leave the two objects and compute
    [ring_write]/[ring_read]. *)

Local Open Scope Z_scope.

Lemma memcpy_ok dst off src soff n :
  0 <= off -> off + n <= zlen dst -> 0 <= soff -> soff + n <= zlen src -> 0 <= n ->
  memcpy dst off src soff n = Ok (splice (Z.to_nat off) (ztake n (zdrop soff src)) dst).
Proof.
  intros. unfold memcpy.
  repeat (match goal with |- context[?a <=? ?b] => destruct (Z.leb_spec a b); [|lia] end). done.
Qed.

Definition split_write (buf : list byte) (pos : Z) (src : list byte) (n : Z) : res (list byte) :=
  if pos + n <=? zlen buf then memcpy buf pos src 0 n
  else
    buf1 ← memcpy buf pos src 0 (zlen buf - pos);
    memcpy buf1 0 src (zlen buf - pos) (n - (zlen buf - pos)).

Definition split_read (buf : list byte) (pos n : Z) : res (list byte) :=
  let ret := zreplicate n x00 in
  if pos + n <=? zlen buf then memcpy ret 0 buf pos n
  else
    ret1 ← memcpy ret 0 buf pos (zlen buf - pos);
    memcpy ret1 (zlen buf - pos) buf 0 (n - (zlen buf - pos)).

Lemma split_write_ok buf pos src n :
  0 <= pos < zlen buf -> 0 <= n <= zlen src -> n <= zlen buf ->
  split_write buf pos src n = Ok (ring_write buf (Z.to_nat pos) (ztake n src)).
Proof.
  intros Hp Hn Hb. unfold split_write, ring_write.
  assert (length (ztake n src) = Z.to_nat n) as Hl.
  { unfold ztake. rewrite length_take. unfold zlen in *. lia. }
  destruct (Z.leb_spec (pos + n) (zlen buf)).
  - rewrite memcpy_ok by lia. rewrite decide_True by (unfold zlen in *; lia). done.
  - rewrite decide_False by (unfold zlen in *; lia).
    rewrite memcpy_ok by lia. cbn [mbind res_bind].
    assert (length (ztake (zlen buf - pos) (zdrop 0 src)) = Z.to_nat (zlen buf - pos)) as Hl2.
    { unfold ztake, zdrop. rewrite drop_0, length_take. unfold zlen in *. lia. }
    assert (zlen (splice (Z.to_nat pos) (ztake (zlen buf - pos) (zdrop 0 src)) buf) = zlen buf) as Hs.
    { unfold zlen at 1. rewrite length_splice; rewrite ?Hl2; unfold zlen in *; lia. }
    rewrite memcpy_ok by (rewrite ?Hs; lia). f_equal. change (Z.to_nat 0) with 0%nat.
    unfold ztake, zdrop. rewrite drop_0. f_equal.
    + rewrite take_drop_commute.
      replace (length buf - Z.to_nat pos)%nat with (Z.to_nat (zlen buf - pos)) by (unfold zlen; lia).
      do 2 f_equal. lia.
    + f_equal. rewrite take_take. f_equal. unfold zlen in *. lia.
Qed.

Lemma splice_all {A} (src dst : list A) : length src = length dst -> splice 0 src dst = src.
Proof.
  intros H. unfold splice. rewrite take_0, drop_ge by lia. by rewrite app_nil_r.
Qed.

Lemma split_read_ok buf pos n :
  0 <= pos < zlen buf -> 0 <= n <= zlen buf ->
  split_read buf pos n = Ok (ring_read buf (Z.to_nat pos) (Z.to_nat n)).
Proof.
  intros Hp Hn. unfold split_read, ring_read.
  destruct (Z.leb_spec (pos + n) (zlen buf)).
  - rewrite memcpy_ok by (rewrite ?zlen_zreplicate by lia; lia).
    rewrite decide_True by (unfold zlen in *; lia). f_equal.
    rewrite splice_all; [done|]. unfold ztake, zdrop, zreplicate.
    rewrite length_take, length_drop, length_replicate. unfold zlen in *. lia.
  - rewrite decide_False by (unfold zlen in *; lia).
    rewrite memcpy_ok by (rewrite ?zlen_zreplicate by lia; lia). cbn [mbind res_bind].
    set (c := zlen buf - pos) in *. change (Z.to_nat 0) with 0%nat.
    assert (length (ztake c (zdrop pos buf)) = Z.to_nat c) as Hl.
    { unfold ztake, zdrop. rewrite length_take, length_drop. unfold zlen in *. lia. }
    assert (zlen (splice 0 (ztake c (zdrop pos buf)) (zreplicate n x00)) = n) as Hs.
    { unfold zlen at 1. rewrite length_splice; unfold zreplicate;
        rewrite ?length_replicate; lia. }
    rewrite memcpy_ok by lia. f_equal.
    replace (length buf - Z.to_nat pos)%nat with (Z.to_nat c) by (unfold zlen in *; lia).
    replace (Z.to_nat n - Z.to_nat c)%nat with (Z.to_nat (n - c)) by lia.
    unfold splice at 1. rewrite drop_ge; [|rewrite length_splice; unfold zreplicate;
      rewrite ?length_replicate; unfold ztake, zdrop; rewrite ?length_take, ?length_drop;
      unfold zlen in *; lia].
    rewrite app_nil_r. unfold splice. rewrite take_0. cbn [app].
    rewrite take_app_le by lia. rewrite (take_ge (ztake c _)) by lia. done.
Qed.
