(* ===== verification/WrappingIntegers.v ===== *)
(** * 32-bit sequence numbers (libsponge/wrapping_integers.{hh,cc})

    [WrappingInt32] and the conversions [wrap]/[unwrap] between absolute
    64-bit sequence numbers and 32-bit sequence numbers relative to an ISN.
    Every sub-expression keeps the width and signedness it has in C++. *)

From Stdlib Require Import ZArith Lia.
From S2P Require Import Prelude.

Record WrappingInt32 : Type := mkWrappingInt32 { raw_value : Z }.

#[export] Instance WrappingInt32_eq_dec : EqDecision WrappingInt32.
Proof. solve_decision. Defined.

(** The constructor takes a [uint32_t], so its argument is converted. *)
Definition WrappingInt32_of (v : Z) : WrappingInt32 := mkWrappingInt32 (u32 v).

(** [operator-(WrappingInt32, WrappingInt32)], an [int32_t]. *)
Definition wi_diff (a b : WrappingInt32) : Z := i32 (u32 (raw_value a - raw_value b)).

Definition wi_eqb (a b : WrappingInt32) : bool := raw_value a =? raw_value b.

Definition wi_neqb (a b : WrappingInt32) : bool := negb (wi_eqb a b).

(** [operator+(WrappingInt32, uint32_t)]. *)
Definition wi_add (a : WrappingInt32) (b : Z) : WrappingInt32 :=
  WrappingInt32_of (u32 (raw_value a + u32 b)).

(** [operator-(WrappingInt32, uint32_t)]: [a + -b]. *)
Definition wi_sub (a : WrappingInt32) (b : Z) : WrappingInt32 := wi_add a (u32 (- u32 b)).

(** [wrap]: the 64-bit argument is truncated to [uint32_t] by the call. *)
Definition wrap (n : Z) (isn : WrappingInt32) : WrappingInt32 := wi_add isn n.

Definition unwrap (n isn : WrappingInt32) (checkpoint : Z) : Z :=
  let cp := wrap checkpoint isn in
  let '(diff_p, diff_n) :=
    if raw_value cp <? raw_value n
    then (u32 (wi_diff n cp), u32 (M32 - 1 - raw_value n + raw_value cp + 1))
    else (u32 (M32 - 1 - raw_value cp + raw_value n + 1), u32 (wi_diff cp n)) in
  if (diff_p <? diff_n) || (checkpoint <? diff_n)
  then u64 (checkpoint + diff_p)
  else u64 (checkpoint - diff_n).

(** A value a [uint32_t] can hold. *)
Definition wi_ok (n : WrappingInt32) : Prop := 0 <= raw_value n < M32.

(** ** Lemmas *)

Lemma wi_eq a b : raw_value a = raw_value b -> a = b.
Proof. destruct a, b; cbn; congruence. Qed.

Lemma wi_eqb_eq a b : wi_eqb a b = true <-> a = b.
Proof. unfold wi_eqb. rewrite Z.eqb_eq. split; [apply wi_eq | congruence]. Qed.

Lemma wi_add_ok a b : wi_ok (wi_add a b).
Proof. apply u32_range. Qed.

Lemma wrap_ok n isn : wi_ok (wrap n isn).
Proof. apply wi_add_ok. Qed.
#[export] Hint Resolve wi_add_ok wrap_ok : sponge.

Lemma raw_wrap n isn : raw_value (wrap n isn) = u32 (raw_value isn + n).
Proof.
  unfold wrap, wi_add, WrappingInt32_of, u32; cbn.
  rewrite Zplus_mod_idemp_r, Z.mod_mod by lia. done.
Qed.

Lemma raw_wi_add a b : raw_value (wi_add a b) = u32 (raw_value a + b).
Proof. apply raw_wrap. Qed.

Lemma wi_add_wrap n isn b : wi_add (wrap n isn) b = wrap (n + b) isn.
Proof.
  apply wi_eq. rewrite raw_wi_add, !raw_wrap. unfold u32.
  rewrite Zplus_mod_idemp_l. f_equal. lia.
Qed.

Lemma wrap_0 isn : wi_ok isn -> wrap 0 isn = isn.
Proof. intros H. apply wi_eq. rewrite raw_wrap, Z.add_0_r. by apply u32_small. Qed.

Lemma wi_add_0 a : wi_ok a -> wi_add a 0 = a.
Proof. apply wrap_0. Qed.

Lemma wi_sub_wrap n isn b : wi_sub (wrap n isn) b = wrap (n - b) isn.
Proof.
  unfold wi_sub. apply wi_eq. rewrite raw_wi_add, !raw_wrap. unfold u32.
  rewrite Zplus_mod_idemp_l, Zplus_mod_idemp_r.
  replace (raw_value isn + n + - (b mod M32)) with (raw_value isn + n - b mod M32) by lia.
  rewrite Zminus_mod_idemp_r. f_equal. lia.
Qed.

(** The wrapped distance from the checkpoint to [n], in [0, 2^32), decides
    both differences. *)
Lemma unwrap_dist n isn cp :
  wi_ok n ->
  let d := u32 (raw_value n - raw_value isn - cp) in
  unwrap n isn cp =
    if (d <? u32 (- d)) || (cp <? u32 (- d)) then u64 (cp + d) else u64 (cp - u32 (- d)).
Proof.
  intros Hn d. unfold unwrap. pose proof (wrap_ok cp isn) as Hc. unfold wi_ok in *.
  assert (d = u32 (raw_value n - raw_value (wrap cp isn))) as Hd.
  { subst d. rewrite raw_wrap. unfold u32. rewrite Zminus_mod_idemp_r. f_equal. lia. }
  clearbody d. subst d. set (c := raw_value (wrap cp isn)) in *. set (r := raw_value n) in *.
  assert ((if c <? r
    then (u32 (wi_diff n (wrap cp isn)), u32 (M32 - 1 - r + c + 1))
    else (u32 (M32 - 1 - c + r + 1), u32 (wi_diff (wrap cp isn) n)))
    = (u32 (r - c), u32 (- u32 (r - c)))) as ->; [|done].
  assert (u32 (wi_diff n (wrap cp isn)) = u32 (r - c)
          /\ u32 (wi_diff (wrap cp isn) n) = u32 (c - r)) as [-> ->].
  { unfold wi_diff; fold c r. split; wrap_lia. }
  destruct (c <? r) eqn:E; f_equal; wrap_lia.
Qed.

(** An absolute sequence number within 2^31 of the checkpoint is recovered. *)
Lemma unwrap_wrap_near x cp isn :
  0 <= x < M64 -> 0 <= cp < M64 -> - M31 <= x - cp < M31 ->
  unwrap (wrap x isn) isn cp = x.
Proof.
  intros Hx Hc Hd. rewrite unwrap_dist by apply wrap_ok.
  assert (u32 (raw_value (wrap x isn) - raw_value isn - cp) = u32 (x - cp)) as ->.
  { rewrite raw_wrap. unfold u32. rewrite <-Z.sub_add_distr, Zminus_mod_idemp_l. f_equal. lia. }
  unfold u32, u64. destruct (Z_lt_le_dec x cp).
  - replace ((x - cp) mod M32) with (x - cp + M32) by wrap_lia.
    replace ((- (x - cp + M32)) mod M32) with (cp - x) by wrap_lia.
    destruct (Z.ltb_spec (x - cp + M32) (cp - x)); [lia|].
    destruct (Z.ltb_spec cp (cp - x)); [lia|]. cbn. rewrite Z.mod_small; lia.
  - rewrite (Z.mod_small (x - cp)) by lia.
    destruct (Z.eq_dec x cp) as [->|].
    + rewrite Z.sub_diag, Z.add_0_r. change ((- 0) mod M32) with 0. rewrite Z.sub_0_r.
      case_match; apply Z.mod_small; lia.
    + replace ((- (x - cp)) mod M32) with (M32 - (x - cp)) by wrap_lia.
      destruct (Z.ltb_spec (x - cp) (M32 - (x - cp))); [|lia].
      cbn. rewrite Z.mod_small; lia.
Qed.

(** The result of [unwrap] always wraps to the sequence number given. *)
Lemma wrap_unwrap_id n isn cp : wi_ok n -> wrap (unwrap n isn cp) isn = n.
Proof.
  intros Hn. rewrite unwrap_dist by done. apply wi_eq. rewrite raw_wrap.
  set (d := raw_value n - raw_value isn - cp). unfold wi_ok in *.
  assert (forall z, u32 (raw_value isn + u64 z) = u32 (raw_value isn + z)) as Hu.
  { intros z. unfold u32, u64. rewrite <-Zplus_mod_idemp_r.
    rewrite <-(Zplus_mod_idemp_r z). f_equal. f_equal.
    rewrite Z.mod_mod_divide; [done|]. by exists M32. }
  case_match; rewrite Hu; subst d.
  - unfold u32. rewrite (Z.add_comm cp), Z.add_assoc, Z.add_shuffle0, Zplus_mod_idemp_r.
    rewrite <-(Z.mod_small (raw_value n) M32) at 2 by lia. f_equal. lia.
  - unfold u32. rewrite Z.add_sub_assoc, Zminus_mod_idemp_r.
    rewrite Z.sub_opp_r, Zplus_mod_idemp_r.
    rewrite <-(Z.mod_small (raw_value n) M32) at 2 by lia. f_equal. lia.
Qed.

(** No absolute number that wraps to [n] is closer to the checkpoint. *)
Lemma unwrap_minimal n isn cp y :
  wi_ok n -> 0 <= cp -> cp + M32 <= M64 -> 0 <= y -> wrap y isn = n ->
  Z.abs (unwrap n isn cp - cp) <= Z.abs (y - cp).
Proof.
  intros Hn Hc Ht Hy <-. rewrite unwrap_dist by done.
  assert (u32 (raw_value (wrap y isn) - raw_value isn - cp) = u32 (y - cp)) as ->.
  { rewrite raw_wrap. unfold u32. rewrite <-Z.sub_add_distr, Zminus_mod_idemp_l. f_equal. lia. }
  assert (exists k, y - cp = u32 (y - cp) + M32 * k) as [k Hk].
  { exists ((y - cp) / M32). unfold u32. pose proof (Z.div_mod (y - cp) M32). lia. }
  pose proof (u32_range (y - cp)) as Hr. set (d := u32 (y - cp)) in *. clearbody d.
  assert (u32 (- d) = if d =? 0 then 0 else M32 - d) as ->.
  { unfold u32. destruct (Z.eqb_spec d 0) as [->|]; [done|]. wrap_lia. }
  destruct (Z.eqb_spec d 0) as [->|].
  - rewrite Z.add_0_r, Z.sub_0_r. case_match; rewrite u64_small by lia; lia.
  - destruct (Z.ltb_spec d (M32 - d)), (Z.ltb_spec cp (M32 - d)); cbn;
      rewrite u64_small by lia; lia.
Qed.

(** ** Properties *)

(** C33: [wrap] and [unwrap] are inverse conversions: an absolute sequence
    number within 2^31 of the checkpoint is recovered exactly from its 32-bit
    form whatever the ISN, and what [unwrap] returns always wraps back to the
    sequence number it was given. *)
Theorem wrap_unwrap_roundtrip (x cp : Z) (n isn : WrappingInt32) :
  0 <= x < M64 -> 0 <= cp < M64 -> - M31 <= x - cp < M31 -> wi_ok n ->
  unwrap (wrap x isn) isn cp = x /\ wrap (unwrap n isn cp) isn = n.
Proof. split; [by apply unwrap_wrap_near | by apply wrap_unwrap_id]. Qed.

Lemma wrap_unwrap_roundtrip_witness :
  let isn := mkWrappingInt32 4294967290 in
  unwrap (wrap 4294967300 isn) isn 4294967290 = 4294967300
  /\ wrap (unwrap (mkWrappingInt32 3) isn 4294967290) isn = mkWrappingInt32 3.
Proof. apply wrap_unwrap_roundtrip; unfold wi_ok; cbn; lia. Defined.

(** [unwrap] returns the candidate closest to the checkpoint: no other
    absolute sequence number that wraps to [n] is nearer, as long as the
    checkpoint is at least 2^32 below the end of the 64-bit space. *)
Theorem unwrap_closest (n isn : WrappingInt32) (cp y : Z) :
  wi_ok n -> 0 <= cp -> cp + M32 <= M64 -> 0 <= y -> wrap y isn = n ->
  wrap (unwrap n isn cp) isn = n
  /\ Z.abs (unwrap n isn cp - cp) <= Z.abs (y - cp).
Proof. intros. split; [by apply wrap_unwrap_id | by apply unwrap_minimal]. Qed.

Lemma unwrap_closest_witness :
  let isn := mkWrappingInt32 10 in
  wrap (unwrap (mkWrappingInt32 7) isn 100) isn = mkWrappingInt32 7
  /\ Z.abs (unwrap (mkWrappingInt32 7) isn 100 - 100) <= Z.abs (8589934589 - 100).
Proof.
  apply (unwrap_closest (mkWrappingInt32 7) (mkWrappingInt32 10) 100 8589934589);
    unfold wi_ok; cbn; try lia; vm_compute; reflexivity.
Defined.

(** Near the top of the 64-bit space [unwrap] overflows: with checkpoint
    2^64 - 1 and the next sequence number it returns 0, although 2^64 - 2^32
    also wraps to it and is far closer. *)
Theorem unwrap_overflows_at_top (isn : WrappingInt32) :
  let n := wrap 0 isn in
  let cp := M64 - 1 in
  unwrap n isn cp = 0
  /\ wrap (M64 - M32) isn = n
  /\ Z.abs (M64 - M32 - cp) < Z.abs (unwrap n isn cp - cp).
Proof.
  intros n cp. assert (unwrap n isn cp = 0) as E.
  { unfold n. rewrite unwrap_dist by apply wrap_ok.
    assert (u32 (raw_value (wrap 0 isn) - raw_value isn - cp) = 1) as ->; [|done].
    rewrite raw_wrap. unfold u32, cp.
    rewrite <-Z.sub_add_distr, Zminus_mod_idemp_l.
    replace (raw_value isn + 0 - (raw_value isn + (M64 - 1))) with (1 + (- M32) * M32) by lia.
    by rewrite Z.mod_add by lia. }
  rewrite E. split; [done|split].
  - unfold n. apply wi_eq. rewrite !raw_wrap. unfold u32.
    replace (raw_value isn + (M64 - M32)) with (raw_value isn + 0 + (M32 - 1) * M32) by lia.
    by rewrite Z.mod_add by lia.
  - unfold cp. lia.
Qed.
