(* ===== verification/ByteStream.v ===== *)
(** * The in-order byte stream (libsponge/byte_stream.{hh,cc})

    The state is the C++ object: a vector used as a ring ([buffer_],
    [start_pos_], [used_size_]), the two counters and the two flags.  All
    sizes are [size_t].  [capacity] is [buffer_.capacity()], which for a
    vector built by [buffer_(capacity, 0)] and never resized is its size.

    The abstract specification is a bounded FIFO ([fifo]); [fifo_of] is the
    abstraction function and every operation is shown to implement the FIFO
    operation of the same name. *)

From Stdlib Require Import ZArith Lia.
From S2P Require Import Prelude Ring.

Record ByteStream : Type := mkByteStream {
  buffer_ : list byte;
  used_size_ : Z;
  start_pos_ : Z;
  bytes_read_ : Z;
  bytes_written_ : Z;
  input_ended_ : bool;
  error_ : bool
}.

#[export] Instance ByteStream_eq_dec : EqDecision ByteStream.
Proof. solve_decision. Defined.

(** [ByteStream(const size_t capacity)] *)
Definition new (capacity : Z) : ByteStream :=
  mkByteStream (zreplicate capacity x00) 0 0 0 0 false false.

Definition capacity (bs : ByteStream) : Z := zlen (buffer_ bs).

Definition input_ended (bs : ByteStream) : bool := input_ended_ bs.
Definition buffer_size (bs : ByteStream) : Z := used_size_ bs.
Definition buffer_empty (bs : ByteStream) : bool := used_size_ bs =? 0.
Definition eof (bs : ByteStream) : bool := (used_size_ bs =? 0) && input_ended_ bs.
Definition bytes_written (bs : ByteStream) : Z := bytes_written_ bs.
Definition bytes_read (bs : ByteStream) : Z := bytes_read_ bs.
Definition error (bs : ByteStream) : bool := error_ bs.
Definition remaining_capacity (bs : ByteStream) : Z := u64 (capacity bs - used_size_ bs).
Definition end_pos (bs : ByteStream) : res Z :=
  umod (u64 (start_pos_ bs + used_size_ bs)) (capacity bs).

Definition set_error (bs : ByteStream) : ByteStream :=
  mkByteStream (buffer_ bs) (used_size_ bs) (start_pos_ bs) (bytes_read_ bs)
    (bytes_written_ bs) (input_ended_ bs) true.

Definition end_input (bs : ByteStream) : ByteStream :=
  mkByteStream (buffer_ bs) (used_size_ bs) (start_pos_ bs) (bytes_read_ bs)
    (bytes_written_ bs) true (error_ bs).

Definition write (bs : ByteStream) (data : list byte) : res (Z * ByteStream) :=
  let write_size := Z.min (zlen data) (remaining_capacity bs) in
  if write_size =? 0 then Ok (0, bs) else
  end_ ← end_pos bs;
  buf ←
    (if (end_ <? start_pos_ bs) || (u64 (end_ + write_size) <=? capacity bs)
     then memcpy (buffer_ bs) end_ data 0 write_size
     else
       let copy1 := u64 (capacity bs - end_) in
       buf1 ← memcpy (buffer_ bs) end_ data 0 copy1;
       memcpy buf1 0 data copy1 (u64 (write_size - copy1)));
  let used := u64 (used_size_ bs + write_size) in
  assert_ (used <=? zlen buf) ;;
  Ok (write_size,
      mkByteStream buf used (start_pos_ bs) (bytes_read_ bs)
        (u64 (bytes_written_ bs + write_size)) (input_ended_ bs) (error_ bs)).

Definition peek_output (bs : ByteStream) (len : Z) : res (list byte) :=
  let read_size := Z.min len (used_size_ bs) in
  let ret := zreplicate read_size x00 in
  if u64 (start_pos_ bs + read_size) <=? capacity bs
  then memcpy ret 0 (buffer_ bs) (start_pos_ bs) read_size
  else
    let copy1 := u64 (capacity bs - start_pos_ bs) in
    ret1 ← memcpy ret 0 (buffer_ bs) (start_pos_ bs) copy1;
    memcpy ret1 copy1 (buffer_ bs) 0 (u64 (read_size - copy1)).

Definition pop_output (bs : ByteStream) (len : Z) : res ByteStream :=
  let pop_size := Z.min len (used_size_ bs) in
  start ← umod (u64 (start_pos_ bs + pop_size)) (capacity bs);
  Ok (mkByteStream (buffer_ bs) (u64 (used_size_ bs - pop_size)) start
        (u64 (bytes_read_ bs + pop_size)) (bytes_written_ bs)
        (input_ended_ bs) (error_ bs)).

Definition read (bs : ByteStream) (len : Z) : res (list byte * ByteStream) :=
  ret ← peek_output bs len;
  bs' ← pop_output bs len;
  Ok (ret, bs').

(** ** Invariant and abstraction *)

(** The bytes held, oldest first. *)
Definition contents (bs : ByteStream) : list byte :=
  ztake (used_size_ bs) (ring (buffer_ bs) (Z.to_nat (start_pos_ bs))).

Record wf (bs : ByteStream) : Prop := {
  wf_cap : 0 < capacity bs < M63;
  wf_used : 0 <= used_size_ bs <= capacity bs;
  wf_start : 0 <= start_pos_ bs < capacity bs;
  wf_read : 0 <= bytes_read_ bs < M64;
  wf_written : bytes_written_ bs = u64 (bytes_read_ bs + used_size_ bs)
}.

(** The specification: a bounded queue with counters and flags. *)
Record fifo : Type := mkFifo {
  f_cap : Z;
  f_data : list byte;
  f_read : Z;
  f_written : Z;
  f_ended : bool;
  f_error : bool
}.

Definition fifo_of (bs : ByteStream) : fifo :=
  mkFifo (capacity bs) (contents bs) (bytes_read_ bs) (bytes_written_ bs)
    (input_ended_ bs) (error_ bs).

Definition fifo_accepted (q : fifo) (data : list byte) : list byte :=
  ztake (f_cap q - zlen (f_data q)) data.

Definition fifo_write (q : fifo) (data : list byte) : fifo :=
  let acc := fifo_accepted q data in
  mkFifo (f_cap q) (f_data q ++ acc) (f_read q) (u64 (f_written q + zlen acc))
    (f_ended q) (f_error q).

Definition fifo_pop (q : fifo) (len : Z) : fifo :=
  mkFifo (f_cap q) (zdrop len (f_data q))
    (u64 (f_read q + Z.min len (zlen (f_data q)))) (f_written q) (f_ended q) (f_error q).

(** ** Lemmas *)

Section wf_lemmas.
Context (bs : ByteStream) (Hwf : wf bs).

Let Hcap := wf_cap bs Hwf.
Let Hused := wf_used bs Hwf.
Let Hstart := wf_start bs Hwf.

Lemma length_contents : zlen (contents bs) = used_size_ bs.
Proof using Hwf.
  unfold contents. rewrite zlen_ztake by lia.
  unfold zlen at 1. rewrite length_ring. fold (zlen (buffer_ bs)). fold (capacity bs). lia.
Qed.

Lemma remaining_capacity_eq : remaining_capacity bs = capacity bs - used_size_ bs.
Proof using Hwf. apply u64_small. lia. Qed.

Lemma ring_pos_Z k :
  0 <= k <= capacity bs ->
  Z.to_nat ((start_pos_ bs + k) mod capacity bs)
  = ring_pos (length (buffer_ bs)) (Z.to_nat (start_pos_ bs)) (Z.to_nat k).
Proof using Hwf.
  intros Hk. unfold capacity, zlen in *. rewrite ring_pos_mod by lia.
  rewrite Z2Nat.inj_mod by lia. f_equal; lia.
Qed.

Lemma mod_range k : 0 <= (start_pos_ bs + k) mod capacity bs < capacity bs.
Proof using Hwf. apply Z.mod_pos_bound. lia. Qed.

Lemma mod_cases k :
  0 <= k <= capacity bs ->
  (start_pos_ bs + k) mod capacity bs =
    if start_pos_ bs + k <? capacity bs then start_pos_ bs + k
    else start_pos_ bs + k - capacity bs.
Proof using Hwf.
  intros Hk. destruct (Z.ltb_spec (start_pos_ bs + k) (capacity bs)).
  - apply Z.mod_small. lia.
  - replace (start_pos_ bs + k) with (start_pos_ bs + k - capacity bs + 1 * capacity bs) at 1 by lia.
    rewrite Z.mod_add by lia. apply Z.mod_small. lia.
Qed.
End wf_lemmas.

Lemma bs_wf_new c : 0 < c < M63 -> wf (new c).
Proof.
  intros. split; cbn; unfold capacity; cbn; rewrite ?zlen_zreplicate; try lia. done.
Qed.

Lemma contents_new c : contents (new c) = [].
Proof. done. Qed.

(** What [write] stores. *)
Definition accepted (bs : ByteStream) (data : list byte) : list byte :=
  ztake (capacity bs - used_size_ bs) data.

Lemma zlen_accepted bs data :
  wf bs -> zlen (accepted bs data) = Z.min (zlen data) (capacity bs - used_size_ bs).
Proof.
  intros Hwf. pose proof (wf_used bs Hwf).
  unfold accepted. rewrite zlen_ztake by lia. lia.
Qed.

(** What fits is accepted whole. *)
Lemma accepted_all bs data : wf bs -> zlen data <= remaining_capacity bs -> accepted bs data = data.
Proof.
  intros Hwf Hl. pose proof (wf_used bs Hwf). pose proof (wf_cap bs Hwf). unfold remaining_capacity in Hl.
  rewrite u64_small in Hl by lia. unfold accepted, ztake. apply take_ge. unfold zlen in Hl. lia.
Qed.

Lemma ztake_min {A} n (l : list A) : ztake (Z.min (zlen l) n) l = ztake n l.
Proof.
  unfold ztake, zlen. destruct (Z.le_ge_cases (Z.of_nat (length l)) n).
  - rewrite !take_ge by lia. done.
  - f_equal. lia.
Qed.

Lemma write_ok bs data :
  wf bs -> data <> [] -> used_size_ bs < capacity bs ->
  exists buf,
    write bs data = Ok (zlen (accepted bs data),
      mkByteStream buf (used_size_ bs + zlen (accepted bs data)) (start_pos_ bs)
        (bytes_read_ bs) (u64 (bytes_written_ bs + zlen (accepted bs data)))
        (input_ended_ bs) (error_ bs))
    /\ zlen buf = capacity bs
    /\ ring buf (Z.to_nat (start_pos_ bs)) =
         splice (Z.to_nat (used_size_ bs)) (accepted bs data)
           (ring (buffer_ bs) (Z.to_nat (start_pos_ bs))).
Proof.
  intros Hwf Hne Hroom. destruct (Hwf) as [Hcap Hused Hstart _ _].
  rewrite !zlen_accepted by done. unfold write. cbv zeta.
  rewrite remaining_capacity_eq by done.
  set (w := Z.min (zlen data) (capacity bs - used_size_ bs)).
  assert (0 < zlen data) as Hd.
  { destruct data; [done|]. rewrite zlen_cons. pose proof (zlen_nonneg data). lia. }
  destruct (Z.eqb_spec w 0) as [|_]; [lia|].
  unfold end_pos. rewrite (u64_small (start_pos_ bs + used_size_ bs)) by lia. rewrite umod_pos by lia. rewrite bind_Ok_l.
  set (e := (start_pos_ bs + used_size_ bs) mod capacity bs).
  pose proof (mod_range bs Hwf (used_size_ bs)) as He. fold e in He.
  pose proof (mod_cases bs Hwf (used_size_ bs) ltac:(lia)) as Hc. fold e in Hc.
  assert ((if (e <? start_pos_ bs) || (u64 (e + w) <=? capacity bs)
     then memcpy (buffer_ bs) e data 0 w
     else buf1 ← memcpy (buffer_ bs) e data 0 (u64 (capacity bs - e));
          memcpy buf1 0 data (u64 (capacity bs - e)) (u64 (w - u64 (capacity bs - e))))
    = split_write (buffer_ bs) e data w) as Hsw.
  { unfold split_write. fold (capacity bs). rewrite (u64_small (e + w)) by lia.
    destruct (Z.leb_spec (e + w) (capacity bs)).
    - by rewrite orb_true_r.
    - destruct (Z.ltb_spec (start_pos_ bs + used_size_ bs) (capacity bs)).
      + destruct (Z.ltb_spec e (start_pos_ bs)); [lia|]. cbn.
        by rewrite !u64_small by (rewrite ?u64_small by lia; lia).
      + lia. }
  rewrite Hsw, split_write_ok by (unfold capacity in *; lia). rewrite bind_Ok_l.
  assert (ztake w data = accepted bs data) as Ha by apply ztake_min. rewrite Ha.
  assert (length (accepted bs data) = Z.to_nat w) as Hla.
  { rewrite <-Ha. unfold ztake. rewrite length_take. unfold zlen in *. lia. }
  assert (zlen (ring_write (buffer_ bs) (Z.to_nat e) (accepted bs data)) = capacity bs) as Hl.
  { unfold zlen. rewrite length_ring_write; unfold capacity, zlen in *; lia. }
  rewrite Hl, ?(u64_small (used_size_ bs + w)) by lia.
  destruct (Z.leb_spec (used_size_ bs + w) (capacity bs)); [|lia].
  eexists. split_and!; [reflexivity|done|].
  unfold e. rewrite ring_pos_Z by (done || lia).
  rewrite ring_write_spec; [done|..]; unfold capacity, zlen in *; lia.
Qed.

Lemma write_nothing bs data :
  wf bs -> data = [] \/ used_size_ bs = capacity bs -> write bs data = Ok (0, bs).
Proof.
  intros Hwf H. unfold write. rewrite remaining_capacity_eq by done.
  pose proof (wf_used bs Hwf). pose proof (zlen_nonneg data).
  destruct (Z.eqb_spec (Z.min (zlen data) (capacity bs - used_size_ bs)) 0) as [_|Hn]; [done|].
  destruct H as [->|]; [rewrite zlen_nil in Hn|]; lia.
Qed.

(** [write] accepts as much of [data] as fits, never faults, and keeps the
    invariant. *)
Lemma write_spec bs data :
  wf bs ->
  exists bs', write bs data = Ok (zlen (accepted bs data), bs')
    /\ wf bs' /\ fifo_of bs' = fifo_write (fifo_of bs) data.
Proof.
  intros Hwf. destruct (Hwf) as [Hcap Hused Hstart Hread Hwr].
  assert (fifo_accepted (fifo_of bs) data = accepted bs data) as Hacc.
  { unfold fifo_accepted, accepted; cbn. by rewrite length_contents. }
  unfold fifo_write. rewrite Hacc. clear Hacc.
  destruct (decide (data = [] \/ used_size_ bs = capacity bs)) as [Hn|Hn].
  - exists bs. rewrite write_nothing by done.
    assert (accepted bs data = []) as ->.
    { apply zlen_0_inv. rewrite zlen_accepted by done.
      pose proof (zlen_nonneg data). destruct Hn as [->|]; [rewrite zlen_nil|]; lia. }
    split_and!; [done|done|]. rewrite zlen_nil, Z.add_0_r, app_nil_r.
    unfold fifo_of; cbn. rewrite Hwr. unfold u64. by rewrite Z.mod_mod by lia.
  - apply Decidable.not_or in Hn as [Hn1 Hn2].
    destruct (write_ok bs data Hwf Hn1 ltac:(lia)) as (buf & -> & Hl & Hr).
    pose proof (zlen_accepted bs data Hwf) as Ha. pose proof (zlen_nonneg data).
    eexists. split_and!; [reflexivity| |].
    + split; unfold capacity; cbn; rewrite ?Hl; try lia; try done.
      rewrite Hwr. unfold u64. rewrite Zplus_mod_idemp_l. f_equal. lia.
    + unfold fifo_of; cbn. f_equal; [exact Hl|].
      unfold contents; cbn. rewrite Hr. unfold ztake.
      rewrite <-take_splice_end; [|rewrite length_ring; unfold capacity, zlen in *; lia].
      f_equal. unfold zlen. lia.
Qed.

Lemma peek_output_spec bs len :
  wf bs -> 0 <= len -> peek_output bs len = Ok (ztake len (contents bs)).
Proof.
  intros Hwf Hlen. destruct (Hwf) as [Hcap Hused Hstart Hread Hwr]. unfold peek_output.
  set (n := Z.min len (used_size_ bs)).
  assert (peek_output bs len = split_read (buffer_ bs) (start_pos_ bs) n) as E.
  { unfold peek_output, split_read. fold n (capacity bs). rewrite u64_small by lia.
    destruct (Z.leb_spec (start_pos_ bs + n) (capacity bs)); [done|].
    by rewrite !u64_small by (rewrite ?u64_small by lia; lia). }
  unfold peek_output in E. fold n in E. rewrite E. clear E.
  rewrite split_read_ok, ring_read_spec by (unfold capacity, zlen in *; lia).
  unfold contents, ztake. rewrite take_take. do 2 f_equal. lia.
Qed.

Lemma pop_output_spec bs len :
  wf bs -> 0 <= len ->
  exists bs', pop_output bs len = Ok bs' /\ wf bs' /\ fifo_of bs' = fifo_pop (fifo_of bs) len.
Proof.
  intros Hwf Hlen. destruct (Hwf) as [Hcap Hused Hstart Hread Hwr]. unfold pop_output.
  set (n := Z.min len (used_size_ bs)).
  rewrite (u64_small (start_pos_ bs + n)), umod_pos by lia. rewrite bind_Ok_l.
  pose proof (mod_range bs Hwf n) as Hm. rewrite (u64_small (used_size_ bs - n)) by lia.
  eexists. split_and!; [reflexivity| |].
  - split; unfold capacity in *; cbn; try lia; try done; [apply u64_range|].
    rewrite Hwr. unfold u64. rewrite Zplus_mod_idemp_l. f_equal. lia.
  - unfold fifo_of, fifo_pop; cbn. rewrite length_contents by done. fold n.
    f_equal. unfold contents; cbn.
    rewrite ring_pos_Z by (done || lia).
    rewrite ring_advance by (unfold capacity, zlen in *; lia).
    unfold ztake, zdrop. rewrite take_app_le; cycle 1.
    { rewrite length_drop, length_ring. unfold capacity, zlen in *. lia. }
    rewrite take_drop_commute.
    destruct (Z.le_ge_cases len (used_size_ bs)).
    + replace (Z.to_nat n) with (Z.to_nat len) by lia. do 2 f_equal. lia.
    + rewrite !drop_ge; [done|..]; rewrite length_take; lia.
Qed.

Lemma read_spec bs len :
  wf bs -> 0 <= len ->
  exists bs', read bs len = Ok (ztake len (contents bs), bs')
    /\ wf bs' /\ fifo_of bs' = fifo_pop (fifo_of bs) len.
Proof.
  intros Hwf Hlen. unfold read. rewrite peek_output_spec by done. cbn.
  destruct (pop_output_spec bs len Hwf Hlen) as (bs' & -> & ? & ?). eauto.
Qed.

(** Projections of the refinement, in the form clients use. *)
Lemma write_contents bs data :
  wf bs ->
  exists bs', write bs data = Ok (zlen (accepted bs data), bs') /\ wf bs'
    /\ capacity bs' = capacity bs
    /\ contents bs' = contents bs ++ accepted bs data
    /\ bytes_read_ bs' = bytes_read_ bs
    /\ bytes_written_ bs' = u64 (bytes_written_ bs + zlen (accepted bs data))
    /\ input_ended_ bs' = input_ended_ bs /\ error_ bs' = error_ bs.
Proof.
  intros Hwf. destruct (write_spec bs data Hwf) as (bs' & Hw & Hwf' & Hf).
  exists bs'. unfold fifo_write, fifo_of in Hf; cbn in Hf.
  assert (fifo_accepted (fifo_of bs) data = accepted bs data) as Hacc.
  { unfold fifo_accepted, accepted; cbn. by rewrite length_contents. }
  unfold fifo_of in Hacc. rewrite Hacc in Hf. injection Hf. intros. split_and!; done.
Qed.

Lemma read_contents bs len :
  wf bs -> 0 <= len ->
  exists bs', read bs len = Ok (ztake len (contents bs), bs') /\ wf bs'
    /\ capacity bs' = capacity bs
    /\ contents bs' = zdrop len (contents bs)
    /\ bytes_read_ bs' = u64 (bytes_read_ bs + Z.min len (used_size_ bs))
    /\ bytes_written_ bs' = bytes_written_ bs
    /\ input_ended_ bs' = input_ended_ bs /\ error_ bs' = error_ bs.
Proof.
  intros Hwf Hlen. destruct (read_spec bs len Hwf Hlen) as (bs' & Hr & Hwf' & Hf).
  exists bs'. unfold fifo_pop, fifo_of in Hf; cbn in Hf.
  rewrite length_contents in Hf by done. injection Hf. intros. split_and!; done.
Qed.

Lemma wf_end_input bs : wf bs -> wf (end_input bs).
Proof. intros []; by split. Qed.
Lemma wf_set_error bs : wf bs -> wf (set_error bs).
Proof. intros []; by split. Qed.
#[export] Hint Resolve bs_wf_new wf_end_input wf_set_error : sponge.

(** Writing and reading leave the error flag alone. *)
Lemma write_error bs data n bs' : write bs data = Ok (n, bs') -> error_ bs' = error_ bs.
Proof.
  unfold write. destruct (_ =? 0); [by intros [= <- <-]|]. intros H. by simplify_res.
Qed.

Lemma read_error bs len s bs' : read bs len = Ok (s, bs') -> error_ bs' = error_ bs.
Proof. unfold read, pop_output. intros H. by simplify_res. Qed.

(** ** Histories

    A history is a sequence of calls; running it returns, besides the final
    state, the bytes the writer got accepted and the bytes the reader took. *)

Inductive call : Type :=
  | Write (data : list byte)
  | Read (len : Z)
  | Pop (len : Z)
  | EndInput
  | SetError.

Definition call_ok (c : call) : Prop :=
  match c with Read len | Pop len => 0 <= len < M64 | _ => True end.

Definition exec (bs : ByteStream) (c : call) : res (list byte * list byte * ByteStream) :=
  match c with
  | Write data => '(n, bs') ← write bs data; Ok (ztake n data, [], bs')
  | Read len => '(s, bs') ← read bs len; Ok ([], s, bs')
  | Pop len => s ← peek_output bs len; bs' ← pop_output bs len; Ok ([], s, bs')
  | EndInput => Ok ([], [], end_input bs)
  | SetError => Ok ([], [], set_error bs)
  end.

Fixpoint run (bs : ByteStream) (cs : list call) : res (list byte * list byte * ByteStream) :=
  match cs with
  | [] => Ok ([], [], bs)
  | c :: cs =>
      '(acc, out, bs1) ← exec bs c;
      '(acc', out', bs2) ← run bs1 cs;
      Ok (acc ++ acc', out ++ out', bs2)
  end.

(** One call keeps the invariant and moves bytes in order from the writer to
    the queue and from the queue to the reader. *)
Lemma exec_spec bs c :
  wf bs -> call_ok c ->
  exists acc out bs', exec bs c = Ok (acc, out, bs') /\ wf bs'
    /\ out ++ contents bs' = contents bs ++ acc
    /\ capacity bs' = capacity bs
    /\ bytes_written_ bs' = u64 (bytes_written_ bs + zlen acc)
    /\ bytes_read_ bs' = u64 (bytes_read_ bs + zlen out).
Proof.
  intros Hwf Hc. destruct (Hwf) as [Hcap Hused Hstart Hread Hwr].
  assert (u64 (bytes_written_ bs + 0) = bytes_written_ bs) as Hw0.
  { rewrite Z.add_0_r, Hwr. unfold u64. by rewrite Z.mod_mod by lia. }
  assert (u64 (bytes_read_ bs + 0) = bytes_read_ bs) as Hr0 by (rewrite Z.add_0_r; by apply u64_small).
  destruct c as [data|len|len| |]; cbn [exec].
  - destruct (write_contents bs data Hwf) as (bs' & -> & ? & ? & Hct & Hbr & Hbw & _).
    assert (ztake (zlen (accepted bs data)) data = accepted bs data) as E.
    { rewrite zlen_accepted by done. apply ztake_min. }
    cbn. rewrite E. do 3 eexists. split_and!; try done; cbn; rewrite ?Hct; try done.
    by rewrite zlen_nil, Hr0.
  - cbn in Hc. destruct (read_contents bs len Hwf ltac:(lia)) as (bs' & -> & ? & ? & Hct & Hbr & Hbw & _).
    cbn. do 3 eexists. split_and!; try done.
    + rewrite Hct, app_nil_r. apply take_drop.
    + by rewrite zlen_nil, Hw0, Hbw.
    + rewrite Hbr, zlen_ztake, length_contents by (done || lia). done.
  - cbn in Hc. rewrite peek_output_spec by (done || lia). cbn.
    destruct (pop_output_spec bs len Hwf ltac:(lia)) as (bs' & -> & ? & Hf).
    unfold fifo_pop, fifo_of in Hf; cbn in Hf. injection Hf as Hcp Hct Hbr Hbw _ _.
    cbn. do 3 eexists. split_and!; try done.
    + rewrite Hct, app_nil_r. apply take_drop.
    + by rewrite zlen_nil, Hw0, Hbw.
    + rewrite Hbr, zlen_ztake by lia. done.
  - do 3 eexists. split_and!; eauto using wf_end_input; cbn; rewrite ?app_nil_r; try done.
  - do 3 eexists. split_and!; eauto using wf_set_error; cbn; rewrite ?app_nil_r; try done.
Qed.

Lemma run_spec cs : forall bs,
  wf bs -> Forall call_ok cs ->
  exists acc out bs', run bs cs = Ok (acc, out, bs') /\ wf bs'
    /\ out ++ contents bs' = contents bs ++ acc
    /\ capacity bs' = capacity bs
    /\ bytes_written_ bs' = u64 (bytes_written_ bs + zlen acc)
    /\ bytes_read_ bs' = u64 (bytes_read_ bs + zlen out).
Proof.
  induction cs as [|c cs IH]; intros bs Hwf Hcs; cbn [run].
  - exists [], [], bs. destruct (Hwf) as [Hcap Hused Hstart Hread Hwr].
    rewrite zlen_nil, !Z.add_0_r, app_nil_r. split_and!; try done.
    + rewrite Hwr. unfold u64. by rewrite Z.mod_mod by lia.
    + symmetry. by apply u64_small.
  - apply Forall_cons in Hcs as [Hc Hcs].
    destruct (exec_spec bs c Hwf Hc) as (acc & out & bs1 & -> & Hwf1 & E1 & Hc1 & W1 & R1).
    destruct (IH bs1 Hwf1 Hcs) as (acc' & out' & bs2 & E & Hwf2 & E2 & Hc2 & W2 & R2).
    cbn. rewrite E. cbn. do 3 eexists. split_and!; try done; try congruence.
    + by rewrite <-app_assoc, E2, app_assoc, E1, <-app_assoc.
    + rewrite W2, W1, zlen_app. unfold u64. rewrite Zplus_mod_idemp_l. f_equal. lia.
    + rewrite R2, R1, zlen_app. unfold u64. rewrite Zplus_mod_idemp_l. f_equal. lia.
Qed.

(** ** Properties *)

(** C12: a byte stream is a FIFO: over any sequence of calls on a new stream of
    positive capacity no call faults (no out-of-range copy, no failed
    assertion), the bytes taken by the reader followed by the bytes still held
    are exactly the bytes accepted from the writer, in order, the stream never
    holds more than its capacity, and the two counters are the totals modulo
    2^64. *)
Theorem byte_stream_fifo (cap : Z) (cs : list call) :
  0 < cap < M63 -> Forall call_ok cs ->
  exists acc out bs, run (new cap) cs = Ok (acc, out, bs)
    /\ out ++ contents bs = acc
    /\ buffer_size bs = zlen (contents bs) /\ buffer_size bs <= cap
    /\ bytes_written bs = u64 (zlen acc) /\ bytes_read bs = u64 (zlen out).
Proof.
  intros Hcap Hcs.
  destruct (run_spec cs (new cap) (bs_wf_new _ Hcap) Hcs) as (acc & out & bs & E & Hwf & Ho & Hc & W & R).
  exists acc, out, bs. split_and!; try done.
  - symmetry. by apply length_contents.
  - assert (capacity (new cap) = cap) as Hn
      by (unfold capacity; cbn; apply zlen_zreplicate; lia).
    unfold buffer_size. pose proof (wf_used bs Hwf). lia.
Qed.

Lemma byte_stream_fifo_witness :
  exists acc out bs,
    run (new 3) [Write [x61; x62]; Read 1; Write [x63; x64; x65]; Pop 2; EndInput] = Ok (acc, out, bs)
    /\ out ++ contents bs = acc
    /\ buffer_size bs = zlen (contents bs) /\ buffer_size bs <= 3
    /\ bytes_written bs = u64 (zlen acc) /\ bytes_read bs = u64 (zlen out).
Proof.
  apply (byte_stream_fifo 3); [lia|]. repeat constructor; cbn; lia.
Defined.

(** C34: the ring-buffer implementation refines the bounded queue [fifo]:
    [write] accepts exactly the prefix that fits and reports its length,
    [peek_output] shows the first bytes without removing them, [pop_output]
    and [read] remove them, and none of them faults. *)
Theorem byte_stream_refines_fifo (bs : ByteStream) (data : list byte) (len : Z) :
  wf bs -> 0 <= len < M64 ->
  (exists bs', write bs data = Ok (zlen (fifo_accepted (fifo_of bs) data), bs')
     /\ wf bs' /\ fifo_of bs' = fifo_write (fifo_of bs) data)
  /\ peek_output bs len = Ok (ztake len (f_data (fifo_of bs)))
  /\ (exists bs', pop_output bs len = Ok bs'
     /\ wf bs' /\ fifo_of bs' = fifo_pop (fifo_of bs) len)
  /\ (exists bs', read bs len = Ok (ztake len (f_data (fifo_of bs)), bs')
     /\ wf bs' /\ fifo_of bs' = fifo_pop (fifo_of bs) len)
  /\ eof bs = bool_decide (f_data (fifo_of bs) = []) && f_ended (fifo_of bs)
  /\ remaining_capacity bs = f_cap (fifo_of bs) - zlen (f_data (fifo_of bs)).
Proof.
  intros Hwf Hlen. split_and!.
  - assert (fifo_accepted (fifo_of bs) data = accepted bs data) as ->.
    { unfold fifo_accepted, accepted; cbn. by rewrite length_contents. }
    by apply write_spec.
  - apply peek_output_spec; [done|lia].
  - apply pop_output_spec; [done|lia].
  - apply read_spec; [done|lia].
  - unfold eof; cbn. f_equal. pose proof (length_contents bs Hwf) as Hl.
    destruct (Z.eqb_spec (used_size_ bs) 0) as [E|E]; symmetry.
    + apply bool_decide_eq_true. apply zlen_0_inv. lia.
    + apply bool_decide_eq_false. intros H. rewrite H, zlen_nil in Hl. lia.
  - cbn. rewrite length_contents by done. by apply remaining_capacity_eq.
Qed.

Definition sample_stream : ByteStream :=
  mkByteStream [x63; x61; x62] 3 1 4 7 false false.

Lemma byte_stream_refines_fifo_witness :
  (exists bs', write sample_stream [x64] = Ok (zlen (fifo_accepted (fifo_of sample_stream) [x64]), bs')
     /\ wf bs' /\ fifo_of bs' = fifo_write (fifo_of sample_stream) [x64])
  /\ peek_output sample_stream 2 = Ok (ztake 2 (f_data (fifo_of sample_stream)))
  /\ (exists bs', pop_output sample_stream 2 = Ok bs'
     /\ wf bs' /\ fifo_of bs' = fifo_pop (fifo_of sample_stream) 2)
  /\ (exists bs', read sample_stream 2 = Ok (ztake 2 (f_data (fifo_of sample_stream)), bs')
     /\ wf bs' /\ fifo_of bs' = fifo_pop (fifo_of sample_stream) 2)
  /\ eof sample_stream
     = bool_decide (f_data (fifo_of sample_stream) = []) && f_ended (fifo_of sample_stream)
  /\ remaining_capacity sample_stream
     = f_cap (fifo_of sample_stream) - zlen (f_data (fifo_of sample_stream)).
Proof.
  apply (byte_stream_refines_fifo sample_stream [x64] 2); [|lia].
  split; cbn; unfold capacity, zlen; cbn; try lia. reflexivity.
Defined.

(** A stream of capacity 0 divides by zero on [pop_output] and on [read],
    even when nothing is to be removed, while [write] and [peek_output] are
    harmless. *)
Theorem zero_capacity_pop_faults (data : list byte) (len : Z) :
  0 <= len ->
  pop_output (new 0) len = Fail DivisionByZero
  /\ read (new 0) len = Fail DivisionByZero
  /\ write (new 0) data = Ok (0, new 0)
  /\ peek_output (new 0) len = Ok [].
Proof.
  intros Hlen.
  assert (peek_output (new 0) len = Ok []) as Hp.
  { unfold peek_output. cbn. replace (Z.min len 0) with 0 by lia. done. }
  assert (pop_output (new 0) len = Fail DivisionByZero) as Hq.
  { unfold pop_output. cbn. done. }
  split_and!; [done| |  |done].
  - unfold read. rewrite Hp. cbn. by rewrite Hq.
  - unfold write. change (remaining_capacity (new 0)) with 0.
    pose proof (zlen_nonneg data). replace (Z.min (zlen data) 0) with 0 by lia. done.
Qed.

Lemma zero_capacity_pop_faults_witness :
  pop_output (new 0) 0 = Fail DivisionByZero
  /\ read (new 0) 0 = Fail DivisionByZero
  /\ write (new 0) [x61] = Ok (0, new 0)
  /\ peek_output (new 0) 0 = Ok [].
Proof. apply (zero_capacity_pop_faults [x61] 0). lia. Defined.

(** Ending the input does not stop the writer: after [end_input] the
    stream still accepts bytes, [eof] turns back to false and the bytes are
    delivered to the reader. *)
Theorem write_after_end_input_accepted (bs : ByteStream) (b : byte) :
  wf bs -> used_size_ bs < capacity bs ->
  exists bs', write (end_input bs) [b] = Ok (1, bs')
    /\ input_ended bs' = true /\ eof bs' = false
    /\ contents bs' = contents bs ++ [b].
Proof.
  intros Hwf Hroom.
  destruct (write_contents (end_input bs) [b] (wf_end_input _ Hwf))
    as (bs' & Hw & Hwf' & Hc & Hct & _ & _ & Hi & _).
  assert (accepted (end_input bs) [b] = [b]) as Ha.
  { unfold accepted, ztake. apply take_ge. unfold capacity; cbn. unfold capacity in Hroom. lia. }
  rewrite Ha in *. exists bs'. split_and!; try done.
  unfold eof. rewrite andb_false_iff. left. apply Z.eqb_neq.
  rewrite <-(length_contents bs') by done. rewrite Hct, zlen_app, zlen_cons.
  pose proof (zlen_nonneg (contents (end_input bs))). pose proof (zlen_nonneg (@nil byte)). lia.
Qed.

Lemma write_after_end_input_accepted_witness :
  exists bs', write (end_input (new 2)) [x61] = Ok (1, bs')
    /\ input_ended bs' = true /\ eof bs' = false
    /\ contents bs' = contents (new 2) ++ [x61].
Proof.
  apply write_after_end_input_accepted; [apply bs_wf_new; lia|reflexivity].
Defined.
