(* ===== verification/UnAssembleBuffer.v ===== *)
(** * The buffer of unassembled substrings
    (class UnAssembleBuffer of libsponge/stream_reassembler.{hh,cc})

    [index_map_] is a [std::map<size_t, size_t>] from the first index of an
    interval to its length, kept as the association list sorted by key that a
    traversal of the map yields.  An iterator is the split of that list into
    the entries before it (reversed) and the entries from it on.

    The specification side is a finite map from stream index to byte
    ([pending]); [push_substring] adds the new bytes to it and removes the
    longest run that starts at the first unassembled index. *)

From Stdlib Require Import ZArith Lia.
From S2P Require Import Prelude Ring.

Record UnAssembleBuffer : Type := mkUnAssembleBuffer {
  buffer_ : list byte;
  index_map_ : list (Z * Z);
  used_size_ : Z;
  start_pos_ : Z
}.

#[export] Instance UnAssembleBuffer_eq_dec : EqDecision UnAssembleBuffer.
Proof. solve_decision. Defined.

Definition new (capacity : Z) : UnAssembleBuffer :=
  mkUnAssembleBuffer (zreplicate capacity x00) [] 0 0.

Definition capacity (b : UnAssembleBuffer) : Z := zlen (buffer_ b).

Definition empty (b : UnAssembleBuffer) : bool := used_size_ b =? 0.

Definition used_size (b : UnAssembleBuffer) : Z := used_size_ b.

(** [std::map::emplace_hint]: insert unless the key is present. *)
Fixpoint map_emplace (m : list (Z * Z)) (k v : Z) : list (Z * Z) :=
  match m with
  | [] => [(k, v)]
  | (k', v') :: m' =>
      if k <? k' then (k, v) :: m
      else if k =? k' then m
      else (k', v') :: map_emplace m' k v
  end.

(** [std::map::lower_bound]: the iterator to the first key not below [k]. *)
Fixpoint lower_bound (rpre m : list (Z * Z)) (k : Z) : list (Z * Z) * list (Z * Z) :=
  match m with
  | [] => (rpre, [])
  | (k', v') :: m' => if k' <? k then lower_bound ((k', v') :: rpre) m' k else (rpre, m)
  end.

(** [iter--] (the callers never decrement [begin()]). *)
Definition iter_dec (it : list (Z * Z) * list (Z * Z)) : list (Z * Z) * list (Z * Z) :=
  match it with
  | (x :: rpre, suf) => (rpre, x :: suf)
  | ([], suf) => ([], suf)
  end.

(** The loop of [MergeInterval] from iterator [(rpre, suf)]; returns the map
    and the new [used_size_]. *)
Fixpoint merge_loop (rpre suf : list (Z * Z)) (index str_size used : Z) : list (Z * Z) * Z :=
  match suf with
  | [] => (map_emplace (reverse rpre) index str_size, u64 (used + str_size))
  | (first, second) :: suf' =>
      if u64 (index + str_size) <? first then
        (map_emplace (reverse rpre ++ suf) index str_size, u64 (used + str_size))
      else if u64 (first + second) <? index then
        merge_loop ((first, second) :: rpre) suf' index str_size used
      else
        let last := Z.max (u64 (index + str_size)) (u64 (first + second)) in
        let index' := Z.min index first in
        merge_loop rpre suf' index' (u64 (last - index')) (u64 (used - second))
  end.

(** Where the loop starts: [lower_bound], or the entry before it. *)
Definition merge_iter (m : list (Z * Z)) (index : Z) : list (Z * Z) * list (Z * Z) :=
  match lower_bound [] m index with
  | (rpre, []) => iter_dec (rpre, [])
  | (rpre, (first, second) :: suf) =>
      if (index <? first) && negb (bool_decide (rpre = []))
      then iter_dec (rpre, (first, second) :: suf)
      else (rpre, (first, second) :: suf)
  end.

Definition MergeInterval (b : UnAssembleBuffer) (index str_size : Z) : UnAssembleBuffer :=
  match index_map_ b with
  | [] =>
      mkUnAssembleBuffer (buffer_ b) [(index, str_size)] (u64 (used_size_ b + str_size))
        (start_pos_ b)
  | _ =>
      let it := merge_iter (index_map_ b) index in
      let '(m, used) := merge_loop (fst it) (snd it) index str_size (used_size_ b) in
      mkUnAssembleBuffer (buffer_ b) m used (start_pos_ b)
  end.

(** The second half of [push_substring]: pop the first interval when it starts
    at [start_index]. *)
Definition pop_front (b : UnAssembleBuffer) (start_index : Z) : res (list byte * UnAssembleBuffer) :=
  match index_map_ b with
  | [] => Ok ([], b)
  | (first, str_size) :: rest =>
      if negb (first =? start_index) then Ok ([], b) else
      let used := u64 (used_size_ b - str_size) in
      let popped := zreplicate str_size x00 in
      popped ←
        (if u64 (start_pos_ b + str_size) <=? capacity b
         then memcpy popped 0 (buffer_ b) (start_pos_ b) str_size
         else
           let copy1 := u64 (capacity b - start_pos_ b) in
           popped1 ← memcpy popped 0 (buffer_ b) (start_pos_ b) copy1;
           memcpy popped1 copy1 (buffer_ b) 0 (u64 (str_size - copy1)));
      start ← umod (u64 (start_pos_ b + str_size)) (capacity b);
      Ok (popped, mkUnAssembleBuffer (buffer_ b) rest used start)
  end.

Definition push_substring (b : UnAssembleBuffer) (data : list byte) (index start_index : Z)
    : res (list byte * UnAssembleBuffer) :=
  assert_ (start_index <=? index) ;;
  assert_ (u64 (index - start_index) <? capacity b) ;;
  pos ← umod (u64 (start_pos_ b + index - start_index)) (capacity b);
  buf ←
    (if u64 (pos + zlen data) <=? capacity b
     then memcpy (buffer_ b) pos data 0 (zlen data)
     else
       let copy1 := u64 (capacity b - pos) in
       buf1 ← memcpy (buffer_ b) pos data 0 copy1;
       memcpy buf1 0 data copy1 (u64 (zlen data - copy1)));
  let b1 :=
    MergeInterval (mkUnAssembleBuffer buf (index_map_ b) (used_size_ b) (start_pos_ b))
      index (zlen data) in
  pop_front b1 start_index.

(** ** Interval maps

    [seg lo hi m]: the intervals of [m] are non-empty, lie in (lo, hi], are
    sorted and no two of them overlap or touch. *)

Fixpoint seg (lo hi : Z) (m : list (Z * Z)) : Prop :=
  match m with
  | [] => True
  | (f, s) :: m' => lo < f /\ 0 < s /\ f + s <= hi /\ seg (f + s) hi m'
  end.

Fixpoint total (m : list (Z * Z)) : Z :=
  match m with [] => 0 | (_, s) :: m' => s + total m' end.

Fixpoint last_end (lo : Z) (m : list (Z * Z)) : Z :=
  match m with [] => lo | (f, s) :: m' => last_end (f + s) m' end.

Definition covers (m : list (Z * Z)) (k : Z) : Prop :=
  Exists (fun '(f, s) => f <= k < f + s) m.

Lemma covers_nil k : covers [] k <-> False.
Proof. unfold covers. by rewrite Exists_nil. Qed.
Lemma covers_cons f s m k : covers ((f, s) :: m) k <-> f <= k < f + s \/ covers m k.
Proof. unfold covers. by rewrite Exists_cons. Qed.
Lemma covers_app m1 m2 k : covers (m1 ++ m2) k <-> covers m1 k \/ covers m2 k.
Proof. unfold covers. by rewrite Exists_app. Qed.
Create Rewrite HintDb covers.
#[export] Hint Rewrite covers_nil covers_cons covers_app : covers.

Lemma seg_app lo hi m1 m2 :
  seg lo hi (m1 ++ m2) <-> seg lo hi m1 /\ seg (last_end lo m1) hi m2.
Proof.
  revert lo. induction m1 as [|[f s] m1 IH]; intros lo; cbn; [tauto|].
  rewrite IH. tauto.
Qed.

Lemma seg_weaken lo lo' hi m : seg lo hi m -> lo' <= lo -> seg lo' hi m.
Proof. destruct m as [|[f s] m]; cbn; [done|]. intros (?&?&?&?) ?. split_and!; try done; lia. Qed.

Lemma seg_mono_hi lo hi hi' m : seg lo hi m -> hi <= hi' -> seg lo hi' m.
Proof.
  intros Hm Hh. revert lo Hm. induction m as [|[f s] m IH]; intros lo; cbn; [done|].
  intros (?&?&?&?). split_and!; try lia. by apply IH.
Qed.

Lemma last_end_app lo m1 m2 : last_end lo (m1 ++ m2) = last_end (last_end lo m1) m2.
Proof. revert lo. induction m1 as [|[f s] m1 IH]; intros; cbn; auto. Qed.

Lemma last_end_ge lo hi m : seg lo hi m -> lo <= last_end lo m.
Proof.
  revert lo. induction m as [|[f s] m IH]; intros lo; cbn; [lia|].
  intros (?&?&?&H). apply IH in H. lia.
Qed.

Lemma total_app m1 m2 : total (m1 ++ m2) = total m1 + total m2.
Proof. induction m1 as [|[f s] m1 IH]; cbn; lia. Qed.

Lemma total_bound lo hi m : seg lo hi m -> 0 <= total m /\ (m <> [] -> total m < hi - lo).
Proof.
  revert lo. induction m as [|[f s] m IH]; intros lo; cbn; [done|].
  intros (?&?&?&H). apply IH in H as [Hnn Hlt]. split; [lia|]. intros _.
  destruct m as [|p m]; [cbn in *; lia|]. specialize (Hlt ltac:(done)). lia.
Qed.

Lemma covers_range lo hi m k : seg lo hi m -> covers m k -> lo < k < hi.
Proof.
  revert lo. induction m as [|[f s] m IH]; intros lo; cbn.
  - by rewrite covers_nil.
  - rewrite covers_cons. intros (?&?&?&H) [?|Hc]; [lia|]. apply (IH _ H) in Hc. lia.
Qed.

(** Emplacing between the entries that end before [k] and the entries that
    start after it keeps the list sorted. *)
Lemma map_emplace_between lo hi pre suf k v :
  seg lo hi pre -> last_end lo pre < k ->
  (forall f s suf', suf = (f, s) :: suf' -> k < f) ->
  map_emplace (pre ++ suf) k v = pre ++ (k, v) :: suf.
Proof.
  revert lo. induction pre as [|[f s] pre IH]; intros lo; cbn.
  - intros _ _ Hs. destruct suf as [|[f s] suf]; [done|].
    specialize (Hs _ _ _ eq_refl). cbn. destruct (Z.ltb_spec k f); [done|lia].
  - intros (?&?&?&Hseg) Hk Hs. pose proof (last_end_ge _ _ _ Hseg).
    destruct (Z.ltb_spec k f); [lia|]. destruct (Z.eqb_spec k f); [lia|].
    f_equal. by apply (IH (f + s)).
Qed.

Lemma merge_loop_spec lo hi suf : forall rpre index str_size used,
  -1 <= lo -> hi < M64 ->
  seg lo hi (reverse rpre ++ suf) ->
  last_end lo (reverse rpre) < index -> 0 < str_size -> index + str_size <= hi ->
  used = total (reverse rpre ++ suf) ->
  exists m', merge_loop rpre suf index str_size used = (m', total m')
    /\ seg lo hi m'
    /\ forall k, covers m' k <-> covers (reverse rpre ++ suf) k \/ index <= k < index + str_size.
Proof.
  induction suf as [|[f s] suf IH]; intros rpre index str_size used Hlo Hhi Hseg Hle Hsz Hub ->;
    cbn [merge_loop]; apply seg_app in Hseg as Hs; destruct Hs as [Hpre Hsuf];
    pose proof (last_end_ge _ _ _ Hpre) as Hge;
    pose proof (total_bound _ _ _ Hseg) as [Ht0 Ht].
  - rewrite !app_nil_r in *.
    pose proof (map_emplace_between lo hi (reverse rpre) [] index str_size Hpre Hle ltac:(done)) as Hm.
    rewrite app_nil_r in Hm. rewrite Hm. clear Hm.
    assert (seg lo hi (reverse rpre ++ [(index, str_size)])) as Hseg'.
    { apply seg_app. split; [done|]. cbn. split_and!; done || lia. }
    pose proof (total_bound _ _ _ Hseg') as [_ Hb].
    assert (total (reverse rpre ++ [(index, str_size)]) = total (reverse rpre) + str_size) as Htt.
    { rewrite total_app. cbn. lia. }
    eexists. split_and!; [|exact Hseg'|].
    + f_equal. rewrite Htt in *. apply u64_small. specialize (Hb ltac:(by destruct (reverse rpre))). lia.
    + intros k. autorewrite with covers. tauto.
  - cbn in Hsuf. destruct Hsuf as (Hf & Hs & Hfs & Hsuf).
    assert (seg lo hi (reverse rpre ++ suf)) as Hseg1.
    { apply seg_app. split; [done|]. apply (seg_weaken (f + s)); [done|lia]. }
    rewrite !(u64_small (index + str_size)), !(u64_small (f + s)) by lia.
    destruct (Z.ltb_spec (index + str_size) f) as [Hlt|Hnlt].
    + rewrite (map_emplace_between lo hi); [|done|done|naive_solver lia].
      assert (seg lo hi (reverse rpre ++ (index, str_size) :: (f, s) :: suf)) as Hseg'.
      { apply seg_app. split; [done|]. cbn. split_and!; done || lia. }
      pose proof (total_bound _ _ _ Hseg') as [_ Hb]. rewrite !total_app in *. cbn in *.
      eexists. split_and!; [|exact Hseg'|].
      * f_equal. rewrite total_app. cbn. rewrite u64_small; [lia|].
        specialize (Hb ltac:(by destruct (reverse rpre))). lia.
      * intros k. autorewrite with covers. tauto.
    + destruct (Z.ltb_spec (f + s) index) as [Hgt|Hngt].
      * destruct (IH ((f, s) :: rpre) index str_size (total (reverse rpre ++ (f, s) :: suf)))
          as (m' & -> & Hm1 & Hm2); try done; rewrite ?reverse_cons, <-?app_assoc; try done.
        { rewrite last_end_app. cbn. lia. }
        eexists. split_and!; [done|done|]. intros k. rewrite Hm2.
        rewrite reverse_cons, <-app_assoc. done.
      * set (e := Z.max (index + str_size) (f + s)). set (i := Z.min index f).
        rewrite total_app in *. cbn [total] in *.
        pose proof (total_bound _ _ _ Hseg1) as [Ht1 _]. rewrite total_app in Ht1.
        specialize (Ht ltac:(by destruct (reverse rpre))).
        rewrite (u64_small (e - i)), u64_small by lia.
        destruct (IH rpre i (e - i) (total (reverse rpre) + (s + total suf) - s))
          as (m' & -> & Hm1 & Hm2); try done; try lia; [rewrite total_app; lia|].
        eexists. split_and!; [done|done|]. intros k. rewrite Hm2.
        autorewrite with covers. unfold e, i.
        assert (i <= k < i + (e - i) <-> f <= k < f + s \/ index <= k < index + str_size) as Hk by lia.
        unfold e, i in Hk. rewrite Hk. tauto.
Qed.

Lemma lower_bound_spec k m : forall rpre,
  exists pre suf, lower_bound rpre m k = (reverse pre ++ rpre, suf) /\ m = pre ++ suf
    /\ Forall (fun p => fst p < k) pre
    /\ match suf with (f, _) :: _ => k <= f | [] => True end.
Proof.
  induction m as [|[f s] m IH]; intros rpre; cbn.
  - exists [], []. by split_and!.
  - destruct (Z.ltb_spec f k).
    + destruct (IH ((f, s) :: rpre)) as (pre & suf & -> & -> & Hp & Hs).
      exists ((f, s) :: pre), suf. rewrite reverse_cons, <-app_assoc.
      split_and!; try done. by constructor.
    + exists [], ((f, s) :: m). by split_and!.
Qed.

Lemma reverse_eq_nil {A} (l : list A) : reverse l = [] -> l = [].
Proof. intros E. apply (f_equal reverse) in E. by rewrite reverse_involutive in E. Qed.

(** Stepping back from the lower bound leaves only intervals that end before
    [index] behind the iterator. *)
Lemma iter_dec_spec lo hi pre suf index :
  pre <> [] -> seg lo hi (pre ++ suf) -> Forall (fun p => fst p < index) pre ->
  exists rpre' suf', iter_dec (reverse pre, suf) = (rpre', suf')
    /\ reverse rpre' ++ suf' = pre ++ suf /\ last_end lo (reverse rpre') < index.
Proof.
  intros Hne Hseg Hp. destruct (reverse pre) as [|[f s] rp] eqn:Er.
  { by apply reverse_eq_nil in Er. }
  assert (pre = reverse rp ++ [(f, s)]) as ->.
  { by rewrite <-(reverse_involutive pre), Er, reverse_cons. }
  rewrite <-app_assoc in *. exists rp, ((f, s) :: suf). split_and!; [done..|].
  apply Forall_app in Hp as [_ Hp]. apply Forall_inv in Hp.
  apply seg_app in Hseg as [_ Hx]. cbn in Hp, Hx. lia.
Qed.

Lemma merge_iter_spec lo hi m index :
  m <> [] -> seg lo hi m -> lo < index ->
  exists rpre suf, merge_iter m index = (rpre, suf)
    /\ reverse rpre ++ suf = m /\ last_end lo (reverse rpre) < index.
Proof.
  intros Hne Hseg Hi. unfold merge_iter.
  destruct (lower_bound_spec index m []) as (pre & suf & -> & -> & Hp & Hs).
  rewrite app_nil_r. destruct suf as [|[f s] suf].
  - apply (iter_dec_spec lo hi); [intros ->; done|done|done].
  - assert (last_end lo pre < f) as Hlt by (apply seg_app in Hseg as [_ Hx]; cbn in Hx; lia).
    case_bool_decide as Er; cbn [negb]; rewrite ?andb_false_r, ?andb_true_r.
    + apply reverse_eq_nil in Er as ->. by eexists _, _.
    + destruct (Z.ltb_spec index f).
      * apply (iter_dec_spec lo hi); [intros ->; done|done|done].
      * eexists _, _. rewrite reverse_involutive. split_and!; [done|done|lia].
Qed.

(** [MergeInterval] keeps the map canonical, covers exactly the old indices
    and the new interval, and counts every covered index once. *)
Lemma MergeInterval_spec lo hi b index str_size :
  -1 <= lo -> hi < M64 ->
  seg lo hi (index_map_ b) -> used_size_ b = total (index_map_ b) ->
  lo < index -> 0 < str_size -> index + str_size <= hi ->
  exists m', MergeInterval b index str_size
      = mkUnAssembleBuffer (buffer_ b) m' (total m') (start_pos_ b)
    /\ seg lo hi m'
    /\ forall k, covers m' k <-> covers (index_map_ b) k \/ index <= k < index + str_size.
Proof.
  intros Hlo Hhi Hseg Hused Hi Hsz Hub. unfold MergeInterval.
  destruct (index_map_ b) as [|p m0] eqn:Em.
  - cbn in Hused. exists [(index, str_size)]. split_and!.
    + rewrite Hused. cbn. f_equal. rewrite u64_small; lia.
    + cbn. lia.
    + intros k. autorewrite with covers. tauto.
  - rewrite <-Em in *. assert (index_map_ b <> []) as Hne by (by rewrite Em). clear Em p m0.
    destruct (merge_iter_spec lo hi _ index Hne Hseg Hi) as (rpre & suf & -> & Happ & Hle).
    destruct (index_map_ b) as [|p m0] eqn:Em; [done|]. rewrite <-Em in *. cbn [fst snd].
    rewrite <-Happ in *.
    destruct (merge_loop_spec lo hi suf rpre index str_size (used_size_ b))
      as (m' & -> & Hm1 & Hm2); try done.
    eauto.
Qed.

(** ** Abstraction: the pending bytes

    [interval_bytes m next r]: the finite map that sends every index covered
    by [m] to the byte the unrolled buffer [r] (whose first byte has index
    [next]) holds for it. *)

Fixpoint interval_bytes (m : list (Z * Z)) (next : Z) (r : list byte) : gmap Z byte :=
  match m with
  | [] => ∅
  | (f, s) :: m' => map_seqZ f (ztake s (zdrop (f - next) r)) ∪ interval_bytes m' next r
  end.

Definition pending (b : UnAssembleBuffer) (next : Z) : gmap Z byte :=
  interval_bytes (index_map_ b) next (ring (buffer_ b) (Z.to_nat (start_pos_ b))).

(** The longest run of consecutive indices from [k], as far as the fuel goes. *)
Fixpoint run_from (g : gmap Z byte) (fuel : nat) (k : Z) : list byte :=
  match fuel with
  | O => []
  | S n => match g !! k with Some x => x :: run_from g n (k + 1) | None => [] end
  end.

(** A run cannot be longer than the map, so its size is enough fuel. *)
Definition assembled (g : gmap Z byte) (next : Z) : list byte := run_from g (size g) next.

Definition from_index (k : Z) (g : gmap Z byte) : gmap Z byte :=
  filter (fun p => k <= fst p) g.

(** The specification of [push_substring]. *)
Definition spec_push (g : gmap Z byte) (next : Z) (data : list byte) (index : Z)
    : list byte * gmap Z byte :=
  let g' := map_seqZ index data ∪ g in
  let out := assembled g' next in
  (out, from_index (next + zlen out) g').

Record wf (b : UnAssembleBuffer) (next : Z) : Prop := {
  wf_cap : 0 < capacity b < M63;
  wf_start : 0 <= start_pos_ b < capacity b;
  wf_next : 0 <= next;
  wf_map : seg next (next + capacity b) (index_map_ b);
  wf_used : used_size_ b = total (index_map_ b)
}.

Lemma lookup_map_seqZ_Z (l : list byte) f k :
  (map_seqZ f l : gmap Z byte) !! k =
    if decide (f <= k < f + zlen l) then l !! Z.to_nat (k - f) else None.
Proof.
  rewrite lookup_map_seqZ. unfold zlen. case_guard; cbn.
  - case_decide; [done|]. apply lookup_ge_None. lia.
  - rewrite decide_False; [done|lia].
Qed.

Lemma lookup_slice (r : list byte) off n i :
  0 <= off -> 0 <= i < n ->
  ztake n (zdrop off r) !! Z.to_nat i = r !! Z.to_nat (off + i).
Proof.
  intros. unfold ztake, zdrop. rewrite lookup_take_lt by lia.
  rewrite lookup_drop. f_equal. lia.
Qed.

Lemma lookup_interval_bytes m : forall lo next r k,
  next - 1 <= lo -> seg lo (next + zlen r) m ->
  (covers m k -> interval_bytes m next r !! k = r !! Z.to_nat (k - next))
  /\ (~ covers m k -> interval_bytes m next r !! k = None).
Proof.
  induction m as [|[f s] m IH]; intros lo next r k Hlo; cbn [seg interval_bytes].
  - intros _. rewrite covers_nil. split; [done|]. by rewrite lookup_empty.
  - intros (Hf & Hs & Hfs & Hseg). destruct (IH (f + s) next r k ltac:(lia) Hseg) as [IH1 IH2].
    rewrite covers_cons, lookup_union, lookup_map_seqZ_Z.
    rewrite zlen_ztake, zlen_zdrop by lia.
    replace (Z.min s (Z.max 0 (zlen r - (f - next)))) with s by lia.
    case_decide as Hk.
    + split; [|tauto]. intros _. rewrite lookup_slice by lia.
      replace (f - next + (k - f)) with (k - next) by lia.
      destruct (r !! Z.to_nat (k - next)) eqn:E; [by rewrite union_Some_l|].
      apply lookup_ge_None in E. unfold zlen in Hfs. lia.
    + rewrite (left_id_L None (∪)). split; intros; [apply IH1|apply IH2]; tauto.
Qed.

Lemma size_map_seqZ (l : list byte) f : size (map_seqZ f l : gmap Z byte) = length l.
Proof.
  revert f. induction l as [|x l IH]; intros f; [apply map_size_empty|].
  rewrite map_seqZ_cons, map_size_insert_None, IH; [done|]. apply map_seqZ_cons_disjoint.
Qed.

Lemma size_interval_bytes m : forall lo next r,
  next - 1 <= lo -> seg lo (next + zlen r) m ->
  Z.of_nat (size (interval_bytes m next r)) = total m.
Proof.
  induction m as [|[f s] m IH]; intros lo next r Hlo; cbn [seg interval_bytes total].
  - intros _. by rewrite map_size_empty.
  - intros (Hf & Hs & Hfs & Hseg). rewrite map_size_disj_union.
    + rewrite size_map_seqZ, Nat2Z.inj_add, (IH (f + s)) by (done || lia).
      fold (zlen (ztake s (zdrop (f - next) r))). rewrite zlen_ztake, zlen_zdrop by lia. lia.
    + apply map_disjoint_spec. intros k x y Hx Hy.
      rewrite lookup_map_seqZ_Z in Hx. case_decide as Hk; [|done].
      rewrite zlen_ztake, zlen_zdrop in Hk by lia.
      destruct (lookup_interval_bytes m (f + s) next r k ltac:(lia) Hseg) as [_ Hn].
      rewrite Hn in Hy; [done|]. intros Hc. apply (covers_range _ _ _ _ Hseg) in Hc. lia.
Qed.

Lemma run_from_eq (g : gmap Z byte) l : forall fuel k,
  (length l <= fuel)%nat ->
  (forall i x, l !! i = Some x -> g !! (k + Z.of_nat i) = Some x) ->
  g !! (k + zlen l) = None ->
  run_from g fuel k = l.
Proof.
  induction l as [|x l IH]; intros fuel k Hf Hl Hn.
  - rewrite zlen_nil, Z.add_0_r in Hn. destruct fuel; cbn; [done|]. by rewrite Hn.
  - destruct fuel as [|fuel]; cbn in Hf; [lia|]. cbn.
    specialize (Hl 0%nat x eq_refl) as H0. rewrite Z.add_0_r in H0. rewrite H0.
    f_equal. apply IH; [lia| |].
    + intros i y Hi. specialize (Hl (S i) y Hi). rewrite <-Hl. f_equal. lia.
    + rewrite zlen_cons in Hn. rewrite <-Hn. f_equal. lia.
Qed.

(** [assembled] is the run that ends at the first missing index. *)
Lemma assembled_eq (g : gmap Z byte) l k :
  (forall i x, l !! i = Some x -> g !! (k + Z.of_nat i) = Some x) ->
  g !! (k + zlen l) = None ->
  assembled g k = l.
Proof.
  intros Hl Hn. apply run_from_eq; [|done|done].
  rewrite <-(size_map_seqZ l k). apply map_subseteq_size.
  apply map_subseteq_spec. intros i x Hi. rewrite lookup_map_seqZ_Z in Hi.
  case_decide; [|done]. apply Hl in Hi. rewrite <-Hi. f_equal. lia.
Qed.

(** Conversely, it consists of bytes of the map and stops at a missing one. *)
Lemma assembled_lookup (g : gmap Z byte) k :
  (forall i x, assembled g k !! i = Some x -> g !! (k + Z.of_nat i) = Some x).
Proof.
  unfold assembled. generalize (size g). intros fuel. revert k.
  induction fuel as [|fuel IH]; intros k i x; cbn; [done|].
  destruct (g !! k) eqn:E; [|done]. destruct i as [|i]; cbn.
  - intros [= ->]. by rewrite Z.add_0_r.
  - intros Hi. apply IH in Hi. rewrite <-Hi. f_equal. lia.
Qed.

Lemma run_from_stop (g : gmap Z byte) fuel : forall k,
  length (run_from g fuel k) = fuel \/ g !! (k + zlen (run_from g fuel k)) = None.
Proof.
  induction fuel as [|fuel IH]; intros k; cbn; [by left|].
  destruct (g !! k) eqn:E.
  - destruct (IH (k + 1)) as [H|H]; [left; cbn; lia|right].
    rewrite zlen_cons. rewrite <-H. f_equal. lia.
  - right. by rewrite zlen_nil, Z.add_0_r.
Qed.

Lemma assembled_stop (g : gmap Z byte) k : g !! (k + zlen (assembled g k)) = None.
Proof.
  destruct (run_from_stop g (size g) k) as [Hl|]; [|done].
  destruct (g !! (k + zlen (assembled g k))) as [x|] eqn:E; [exfalso|done].
  assert (map_seqZ k (assembled g k ++ [x]) ⊆ g) as Hsub.
  { apply map_subseteq_spec. intros i y Hi. rewrite lookup_map_seqZ_Z in Hi.
    case_decide as Hk; [|done]. rewrite zlen_app in Hk.
    destruct (decide (i = k + zlen (assembled g k))) as [->|].
    - rewrite lookup_app_r in Hi by (unfold zlen; lia).
      replace (Z.to_nat _ - _)%nat with 0%nat in Hi by (unfold zlen; lia). by injection Hi as ->.
    - change (zlen [x]) with 1 in Hk. rewrite lookup_app_l in Hi by (unfold zlen in *; lia).
      apply assembled_lookup in Hi. rewrite <-Hi. f_equal. lia. }
  apply map_subseteq_size in Hsub. rewrite size_map_seqZ, length_app in Hsub.
  unfold assembled in Hsub. cbn in Hsub. lia.
Qed.

(** ** [push_substring] *)

Lemma zlen_ring (buf : list byte) start : zlen (ring buf start) = zlen buf.
Proof. unfold zlen. by rewrite length_ring. Qed.

(** Copying the data in and merging its interval adds it to the pending map. *)
Lemma interval_bytes_push m m' lo next r data index :
  next - 1 <= lo -> seg lo (next + zlen r) m ->
  next <= index -> index + zlen data <= next + zlen r ->
  seg (next - 1) (next + zlen r) m' ->
  (forall k, covers m' k <-> covers m k \/ index <= k < index + zlen data) ->
  interval_bytes m' next (splice (Z.to_nat (index - next)) data r)
  = map_seqZ index data ∪ interval_bytes m next r.
Proof.
  intros Hlo Hm Hi Hd Hm' Hcov. apply map_eq. intros k.
  assert (zlen (splice (Z.to_nat (index - next)) data r) = zlen r) as Hr.
  { unfold zlen. rewrite length_splice; unfold zlen in *; lia. }
  destruct (lookup_interval_bytes m lo next r k Hlo Hm) as [L1 L2].
  destruct (lookup_interval_bytes m' (next - 1) next
    (splice (Z.to_nat (index - next)) data r) k ltac:(lia)) as [P1 P2]; [by rewrite Hr|].
  rewrite lookup_union, lookup_map_seqZ_Z.
  destruct (decide (covers m' k)) as [Hc|Hc].
  - rewrite P1 by done. apply Hcov in Hc as Hc'.
    assert (next <= k) by (apply (covers_range _ _ _ _ Hm') in Hc; lia).
    rewrite lookup_splice by (unfold zlen in *; lia).
    destruct (decide (index <= k < index + zlen data)) as [Hk|Hk].
    + rewrite decide_True by (unfold zlen in *; lia).
      replace (Z.to_nat (k - next) - Z.to_nat (index - next))%nat with (Z.to_nat (k - index)) by lia.
      destruct (data !! Z.to_nat (k - index)) eqn:E; [by rewrite union_Some_l|].
      apply lookup_ge_None in E. unfold zlen in Hk. lia.
    + rewrite decide_False by (unfold zlen in *; lia).
      rewrite (left_id_L None (∪)), L1; tauto.
  - rewrite P2 by done. rewrite decide_False by (intros ?; apply Hc, Hcov; tauto).
    rewrite (left_id_L None (∪)), L2; [done|]. intros ?; apply Hc, Hcov; tauto.
Qed.

(** Dropping the first interval, which starts at [next], advances the map. *)
Lemma interval_bytes_pop rest next s r r' :
  0 < s -> next + s <= next + zlen r -> seg (next + s) (next + zlen r) rest ->
  zlen r' = zlen r -> (forall i, 0 <= i < zlen r - s -> r' !! Z.to_nat i = r !! Z.to_nat (s + i)) ->
  interval_bytes rest (next + s) r'
  = from_index (next + s) (interval_bytes ((next, s) :: rest) next r).
Proof.
  intros Hs Hb Hseg Hr' Hshift. apply map_eq. intros k. unfold from_index.
  assert (seg (next - 1) (next + zlen r) ((next, s) :: rest)) as Hall.
  { cbn. split_and!; done || lia. }
  destruct (lookup_interval_bytes _ (next - 1) next r k ltac:(lia) Hall) as [L1 L2].
  assert (seg (next + s) (next + s + zlen r') rest) as Hseg'.
  { apply (seg_mono_hi _ (next + zlen r)); [done|lia]. }
  destruct (lookup_interval_bytes rest (next + s) (next + s) r' k ltac:(lia) Hseg') as [P1 P2].
  destruct (decide (covers rest k)) as [Hc|Hc].
  - assert (next + s < k < next + zlen r) as Hk by (by apply (covers_range _ _ _ _ Hseg)).
    rewrite P1 by done. rewrite map_lookup_filter, L1 by (rewrite covers_cons; tauto).
    rewrite Hshift by lia.
    replace (s + (k - (next + s))) with (k - next) by lia.
    destruct (r !! Z.to_nat (k - next)); cbn; [|done]. case_guard; cbn; [done|lia].
  - rewrite P2 by done. symmetry. apply map_lookup_filter_None.
    destruct (decide (k < next + s)).
    + right. intros ? _. cbn. lia.
    + left. apply L2. rewrite covers_cons. intros [?|?]; [lia|done].
Qed.

(** The copy into the ring, as [push_substring] performs it. *)
Lemma push_copy_ok b next data index :
  wf b next -> next + capacity b < M64 -> data <> [] ->
  next <= index -> index + zlen data <= next + capacity b ->
  exists buf,
    (pos ← umod (u64 (start_pos_ b + index - next)) (capacity b);
     if u64 (pos + zlen data) <=? capacity b
     then memcpy (buffer_ b) pos data 0 (zlen data)
     else
       buf1 ← memcpy (buffer_ b) pos data 0 (u64 (capacity b - pos));
       memcpy buf1 0 data (u64 (capacity b - pos)) (u64 (zlen data - u64 (capacity b - pos))))
    = Ok buf
    /\ zlen buf = capacity b
    /\ ring buf (Z.to_nat (start_pos_ b))
       = splice (Z.to_nat (index - next)) data (ring (buffer_ b) (Z.to_nat (start_pos_ b))).
Proof.
  intros [Hcap Hst Hnx _ _] Hov Hne Hi Hd. pose proof (zlen_nonneg data) as Hz.
  rewrite u64_small, umod_pos by lia. rewrite bind_Ok_l.
  set (k := index - next). replace (start_pos_ b + index - next) with (start_pos_ b + k) by lia.
  set (pos := (start_pos_ b + k) mod capacity b).
  assert (0 <= pos < capacity b) as Hp by (apply Z.mod_pos_bound; lia).
  assert (Z.to_nat pos = ring_pos (length (buffer_ b)) (Z.to_nat (start_pos_ b)) (Z.to_nat k)) as Hrp.
  { unfold pos, capacity, zlen in *. rewrite ring_pos_mod by lia.
    rewrite Z2Nat.inj_mod by lia. f_equal; lia. }
  exists (ring_write (buffer_ b) (Z.to_nat pos) data).
  pose proof (split_write_ok (buffer_ b) pos data (zlen data)) as Hs.
  assert (ztake (zlen data) data = data) as Ht.
  { unfold ztake, zlen. apply take_ge. lia. }
  rewrite Ht in Hs. split_and!.
  - rewrite <-Hs by (unfold capacity in *; lia). unfold split_write. fold (capacity b).
    rewrite (u64_small (pos + zlen data)) by lia.
    destruct (Z.leb_spec (pos + zlen data) (capacity b)); [done|].
    rewrite (u64_small (capacity b - pos)) by lia. by rewrite u64_small by lia.
  - unfold zlen. rewrite length_ring_write; unfold capacity, zlen in *; lia.
  - rewrite Hrp. rewrite ring_write_spec; [done|..]; unfold capacity, zlen in *; lia.
Qed.

(** The copy out of the ring. *)
Lemma pop_copy_ok buf start s :
  0 <= start < zlen buf -> 0 <= s <= zlen buf -> zlen buf < M63 ->
  (if u64 (start + s) <=? zlen buf
   then memcpy (zreplicate s x00) 0 buf start s
   else
     popped1 ← memcpy (zreplicate s x00) 0 buf start (u64 (zlen buf - start));
     memcpy popped1 (u64 (zlen buf - start)) buf 0 (u64 (s - u64 (zlen buf - start))))
  = Ok (ztake s (ring buf (Z.to_nat start))).
Proof.
  intros Hst Hs Hb. pose proof (split_read_ok buf start s Hst Hs) as Hr.
  rewrite ring_read_spec in Hr by (unfold zlen in *; lia).
  unfold ztake. rewrite <-Hr. unfold split_read. rewrite (u64_small (start + s)) by lia.
  destruct (Z.leb_spec (start + s) (zlen buf)); [done|].
  rewrite (u64_small (zlen buf - start)) by lia. by rewrite u64_small by lia.
Qed.

(** The result of popping the first interval of a canonical map. *)
Lemma assembled_first next s rest r :
  0 < s -> seg (next - 1) (next + zlen r) ((next, s) :: rest) ->
  assembled (interval_bytes ((next, s) :: rest) next r) next = ztake s r.
Proof.
  intros Hs Hseg.
  assert (zlen (ztake s r) = s) as Hl by (cbn in Hseg; rewrite zlen_ztake; lia).
  apply assembled_eq.
  - intros i x Hx. apply lookup_lt_Some in Hx as Hi.
    destruct (lookup_interval_bytes _ (next - 1) next r (next + Z.of_nat i) ltac:(lia) Hseg) as [L _].
    rewrite L.
    + unfold ztake in Hx. rewrite lookup_take_lt in Hx by (unfold zlen in *; lia).
      rewrite <-Hx. f_equal. lia.
    + rewrite covers_cons. left. unfold zlen in Hl. lia.
  - rewrite Hl. destruct (lookup_interval_bytes _ (next - 1) next r (next + s) ltac:(lia) Hseg) as [_ L].
    apply L. rewrite covers_cons. intros [?|Hc]; [lia|].
    cbn in Hseg. destruct Hseg as (_ & _ & _ & Hseg). apply (covers_range _ _ _ _ Hseg) in Hc. lia.
Qed.

Lemma assembled_none (g : gmap Z byte) next : g !! next = None -> assembled g next = [].
Proof. intros H. apply assembled_eq; [done|]. by rewrite zlen_nil, Z.add_0_r. Qed.

Lemma from_index_id (g : gmap Z byte) k :
  (forall i x, g !! i = Some x -> k <= i) -> from_index k g = g.
Proof. intros H. apply map_filter_id. intros i x Hi. cbn. eauto. Qed.

(** What holds between the two halves of [push_substring]: the map may start
    at [next] itself. *)
Record wf_pushed (b : UnAssembleBuffer) (next : Z) : Prop := {
  wfp_cap : 0 < capacity b < M63;
  wfp_start : 0 <= start_pos_ b < capacity b;
  wfp_next : 0 <= next;
  wfp_map : seg (next - 1) (next + capacity b) (index_map_ b);
  wfp_used : used_size_ b = total (index_map_ b)
}.

(** The first interval starts at [next]: it is returned and removed. *)
Lemma pop_front_first b next s rest :
  wf_pushed b next -> index_map_ b = (next, s) :: rest ->
  let out := assembled (pending b next) next in
  exists b', pop_front b next = Ok (out, b')
    /\ pending b' (next + zlen out) = from_index (next + zlen out) (pending b next)
    /\ wf b' (next + zlen out) /\ capacity b' = capacity b.
Proof.
  intros [Hcap Hst Hnx Hmap Hused] Em out. unfold pop_front. rewrite Em in *.
  rewrite Z.eqb_refl. cbn [negb]. cbv zeta.
  set (r := ring (buffer_ b) (Z.to_nat (start_pos_ b))).
  assert (zlen r = capacity b) as Hr by apply zlen_ring.
  pose proof Hmap as Hm. cbn in Hm. destruct Hm as (_ & Hs & Hfs & Hrest).
  pose proof (total_bound _ _ _ Hmap) as [_ Ht]. specialize (Ht ltac:(done)). cbn [total] in *.
  pose proof (total_bound _ _ _ Hrest) as [Ht0 _].
  assert (out = ztake s r) as ->.
  { unfold out, pending. rewrite Em. fold r. apply assembled_first; [done|]. by rewrite Hr. }
  assert (zlen (ztake s r) = s) as Hl by (rewrite zlen_ztake; lia).
  pose proof (pop_copy_ok (buffer_ b) (start_pos_ b) s) as Hpc. fold (capacity b) in Hpc.
  rewrite Hpc by lia. rewrite bind_Ok_l. fold r.
  rewrite (u64_small (start_pos_ b + s)), umod_pos, bind_Ok_l, Hl by lia.
  eexists. split_and!; [reflexivity| | |by unfold capacity].
  - unfold pending; cbn [index_map_ buffer_ start_pos_]. rewrite Em. fold r.
    apply interval_bytes_pop; rewrite ?Hr, ?zlen_ring; try done; try lia.
    intros i Hi.
    assert (Z.to_nat ((start_pos_ b + s) mod capacity b)
      = ring_pos (length (buffer_ b)) (Z.to_nat (start_pos_ b)) (Z.to_nat s)) as ->.
    { unfold capacity, zlen in *. rewrite ring_pos_mod by lia.
      rewrite Z2Nat.inj_mod by lia. f_equal; lia. }
    rewrite ring_advance by (unfold capacity, zlen in *; lia). fold r.
    rewrite lookup_app_l by (rewrite length_drop; unfold zlen in *; lia).
    rewrite lookup_drop. f_equal. lia.
  - split; unfold capacity in *; cbn; try lia.
    + apply Z.mod_pos_bound. lia.
    + apply (seg_mono_hi _ (next + zlen (buffer_ b))); [done|lia].
    + rewrite u64_small; lia.
Qed.

(** No interval starts at [next]: nothing is assembled. *)
Lemma pop_front_gap b next f s rest :
  wf_pushed b next -> index_map_ b = (f, s) :: rest -> f <> next ->
  pop_front b next = Ok ([], b)
  /\ assembled (pending b next) next = []
  /\ from_index next (pending b next) = pending b next
  /\ wf b next.
Proof.
  intros [Hcap Hst Hnx Hmap Hused] Em Hf. unfold pop_front, pending. rewrite Em in *.
  set (r := ring (buffer_ b) (Z.to_nat (start_pos_ b))).
  assert (zlen r = capacity b) as Hr by apply zlen_ring.
  pose proof Hmap as Hm. cbn in Hm. destruct Hm as (Hfn & Hs & Hfs & Hrest).
  rewrite <-Hr in Hmap. split_and!.
  - destruct (Z.eqb_spec f next); [done|]. done.
  - apply assembled_none.
    destruct (lookup_interval_bytes _ (next - 1) next r next ltac:(lia) Hmap) as [_ Hn].
    apply Hn. rewrite covers_cons. intros [?|Hc]; [lia|].
    apply (covers_range _ _ _ _ Hrest) in Hc. lia.
  - apply from_index_id. intros i x Hx.
    destruct (lookup_interval_bytes _ (next - 1) next r i ltac:(lia) Hmap) as [_ Hn].
    destruct (decide (covers ((f, s) :: rest) i)) as [Hc|Hc].
    + apply (covers_range _ _ _ _ Hmap) in Hc. lia.
    + rewrite Hn in Hx by done. done.
  - split; rewrite ?Em; try done. cbn. split_and!; done || lia.
Qed.

(** The first half: the data becomes pending. *)
Lemma push_copy_merge b next data index :
  wf b next -> next + capacity b < M64 -> data <> [] ->
  next <= index -> index + zlen data <= next + capacity b ->
  exists b1, push_substring b data index next = pop_front b1 next
    /\ wf_pushed b1 next /\ capacity b1 = capacity b /\ index_map_ b1 <> []
    /\ pending b1 next = map_seqZ index data ∪ pending b next.
Proof.
  intros Hwf Hov Hne Hi Hd. destruct (Hwf) as [Hcap Hst Hnx Hmap Hused].
  assert (0 < zlen data) as Hz.
  { destruct data; [done|]. rewrite zlen_cons. pose proof (zlen_nonneg data). lia. }
  unfold push_substring. cbv zeta.
  rewrite (u64_small (index - next)) by lia.
  destruct (Z.leb_spec next index); [|lia].
  destruct (Z.ltb_spec (index - next) (capacity b)); [|lia]. cbn [assert_]. rewrite !bind_Ok_l.
  destruct (push_copy_ok b next data index Hwf Hov Hne Hi Hd) as (buf & Hbuf & Hbl & Hring).
  apply bind_Ok in Hbuf as (pos & -> & Hbuf). rewrite bind_Ok_l, Hbuf, bind_Ok_l. clear pos Hbuf.
  destruct (MergeInterval_spec (next - 1) (next + capacity b)
    (mkUnAssembleBuffer buf (index_map_ b) (used_size_ b) (start_pos_ b)) index (zlen data))
    as (m' & -> & Hm' & Hcov); cbn [index_map_ used_size_ buffer_ start_pos_]; try done; try lia.
  { apply (seg_weaken next); [done|lia]. }
  cbn [index_map_ used_size_ buffer_ start_pos_] in *.
  eexists. split_and!; [reflexivity| |by unfold capacity| |].
  - split; unfold capacity in *; cbn; rewrite ?Hbl; done.
  - cbn. intros ->. assert (covers [] index) as Hc by (apply Hcov; lia). by apply covers_nil in Hc.
  - unfold pending at 1; cbn [index_map_ buffer_ start_pos_]. rewrite Hring.
    apply (interval_bytes_push _ _ next); rewrite ?zlen_ring; fold (capacity b); try done; lia.
Qed.

(** [push_substring] implements [spec_push] for every substring that lies in
    the window [next, next + capacity): it never fails an assertion nor
    copies out of range, returns the longest assembled run and leaves the
    rest pending. *)
Lemma push_substring_spec b next data index :
  wf b next -> next + capacity b < M64 -> data <> [] ->
  next <= index -> index + zlen data <= next + capacity b ->
  exists out b', push_substring b data index next = Ok (out, b')
    /\ (out, pending b' (next + zlen out)) = spec_push (pending b next) next data index
    /\ wf b' (next + zlen out) /\ capacity b' = capacity b.
Proof.
  intros Hwf Hov Hne Hi Hd.
  destruct (push_copy_merge b next data index Hwf Hov Hne Hi Hd) as (b1 & -> & Hw1 & Hc1 & Hm1 & Hp1).
  unfold spec_push. rewrite <-Hp1.
  destruct (index_map_ b1) as [|[f s] rest] eqn:Em; [done|].
  destruct (decide (f = next)) as [->|Hf].
  - destruct (pop_front_first b1 next s rest Hw1 Em) as (b' & -> & Hp & Hw & Hc).
    eexists _, b'. rewrite Hp. split_and!; try done. congruence.
  - destruct (pop_front_gap b1 next f s rest Hw1 Em Hf) as (-> & -> & Hfi & Hw).
    eexists _, b1. rewrite zlen_nil, Z.add_0_r, Hfi. by split_and!.
Qed.

Lemma ub_wf_new c : 0 < c < M63 -> wf (new c) 0.
Proof. intros. split; unfold capacity; cbn; rewrite ?zlen_zreplicate by lia; done || lia. Qed.

Lemma used_size_pending b next : wf b next -> used_size b = Z.of_nat (size (pending b next)).
Proof.
  intros [Hcap Hst Hnx Hmap Hused]. unfold used_size, pending.
  rewrite (size_interval_bytes _ next); [done|lia|]. by rewrite zlen_ring.
Qed.

Lemma pending_range b next k x :
  wf b next -> pending b next !! k = Some x -> next < k < next + capacity b.
Proof.
  intros [Hcap Hst Hnx Hmap Hused] Hk. unfold pending in Hk.
  set (r := ring (buffer_ b) (Z.to_nat (start_pos_ b))) in *.
  assert (zlen r = capacity b) as Hr by apply zlen_ring.
  destruct (lookup_interval_bytes (index_map_ b) next next r k ltac:(lia)) as [_ Hn];
    [by rewrite Hr|].
  destruct (decide (covers (index_map_ b) k)) as [Hc|Hc].
  - by apply (covers_range _ _ _ _ Hmap).
  - rewrite Hn in Hk by done. done.
Qed.

Lemma pending_nil b next : wf b next -> index_map_ b = [] -> pending b next = ∅.
Proof. intros _ H. unfold pending. by rewrite H. Qed.

(** Nothing pending means an empty map, and then the index is free. *)
Lemma pending_empty b next : wf b next -> pending b next = ∅ -> index_map_ b = [].
Proof.
  intros Hwf Hp. pose proof (used_size_pending b next Hwf) as Hu. destruct Hwf as [Hcap Hst Hnx Hmap Hused].
  rewrite Hp, map_size_empty in Hu. unfold used_size in Hu. rewrite Hused in Hu.
  destruct (index_map_ b) as [|[f s] m]; [done|]. cbn in Hmap, Hu. destruct Hmap as (_ & ? & _ & Hm).
  pose proof (total_bound _ _ _ Hm). lia.
Qed.

Lemma wf_rebase b next next' : wf b next -> index_map_ b = [] -> 0 <= next' -> wf b next'.
Proof. intros [Hcap Hst Hnx Hmap Hused] He Hn. split; rewrite ?He; try done. by rewrite Hused, He. Qed.

(** A substring that starts at or beyond the end of the window trips the
    second assertion. *)
Lemma push_substring_outside b data index next :
  0 <= next -> index < M64 -> next + capacity b <= index ->
  push_substring b data index next = Fail AssertionFailure.
Proof.
  intros Hn Hi Hw. unfold push_substring. pose proof (zlen_nonneg (buffer_ b)) as Hz.
  fold (capacity b) in Hz.
  destruct (Z.leb_spec next index); [|lia]. cbn [assert_]. rewrite bind_Ok_l.
  rewrite (u64_small (index - next)) by lia.
  destruct (Z.ltb_spec (index - next) (capacity b)); [lia|done].
Qed.

(** ** Properties *)

(** C31: [MergeInterval] keeps the interval map canonical: after merging an
    interval into a sorted map of non-empty intervals that neither overlap nor
    touch, the result is again such a map, it covers exactly the old indices
    and the new interval, and [used_size_] is the total length of its
    intervals. *)
Theorem merge_interval_canonical (lo hi : Z) (b : UnAssembleBuffer) (index str_size : Z) :
  -1 <= lo -> hi < M64 ->
  seg lo hi (index_map_ b) -> used_size_ b = total (index_map_ b) ->
  lo < index -> 0 < str_size -> index + str_size <= hi ->
  let b' := MergeInterval b index str_size in
  seg lo hi (index_map_ b')
  /\ (forall k, covers (index_map_ b') k <-> covers (index_map_ b) k \/ index <= k < index + str_size)
  /\ used_size_ b' = total (index_map_ b')
  /\ buffer_ b' = buffer_ b /\ start_pos_ b' = start_pos_ b.
Proof.
  intros Hlo Hhi Hseg Hu Hi Hs Hb b'.
  destruct (MergeInterval_spec lo hi b index str_size Hlo Hhi Hseg Hu Hi Hs Hb) as (m' & E & Hm & Hc).
  unfold b'. rewrite E. cbn. by split_and!.
Qed.

Lemma merge_interval_canonical_witness :
  let b := mkUnAssembleBuffer (zreplicate 16 x00) [(2, 3); (7, 2); (12, 1)] 6 0 in
  let b' := MergeInterval b 5 3 in
  seg 0 16 (index_map_ b')
  /\ (forall k, covers (index_map_ b') k <-> covers (index_map_ b) k \/ 5 <= k < 5 + 3)
  /\ used_size_ b' = total (index_map_ b')
  /\ buffer_ b' = buffer_ b /\ start_pos_ b' = start_pos_ b.
Proof.
  apply (merge_interval_canonical 0 16
    (mkUnAssembleBuffer (zreplicate 16 x00) [(2, 3); (7, 2); (12, 1)] 6 0) 5 3);
    cbn; lia.
Defined.

(** C11: [UnAssembleBuffer::push_substring] implements its specification on
    every substring inside the window [start_index, start_index + capacity):
    no assertion fails and no copy leaves the vector; the string returned is
    the longest run of pending bytes that starts at [start_index]; exactly the
    bytes after it remain pending; and [used_size] counts each pending byte
    once. *)
Theorem push_substring_refines (b : UnAssembleBuffer) (next : Z) (data : list byte) (index : Z) :
  wf b next -> next + capacity b < M64 -> data <> [] ->
  next <= index -> index + zlen data <= next + capacity b ->
  exists out b', push_substring b data index next = Ok (out, b')
    /\ (out, pending b' (next + zlen out)) = spec_push (pending b next) next data index
    /\ wf b' (next + zlen out) /\ capacity b' = capacity b
    /\ used_size b' = Z.of_nat (size (pending b' (next + zlen out))).
Proof.
  intros Hwf Hov Hne Hi Hd.
  destruct (push_substring_spec b next data index Hwf Hov Hne Hi Hd) as (out & b' & E & Hs & Hw & Hc).
  exists out, b'. split_and!; try done. by apply used_size_pending.
Qed.

Lemma push_substring_refines_witness :
  exists out b', push_substring (new 4) [x61; x62] 1 0 = Ok (out, b')
    /\ (out, pending b' (0 + zlen out)) = spec_push (pending (new 4) 0) 0 [x61; x62] 1
    /\ wf b' (0 + zlen out) /\ capacity b' = capacity (new 4)
    /\ used_size b' = Z.of_nat (size (pending b' (0 + zlen out))).
Proof.
  apply (push_substring_refines (new 4) 0 [x61; x62] 1); [apply ub_wf_new; lia|done|done|lia|done].
Defined.
