(* ===== verification/StreamReassembler.v ===== *)
(** * The stream reassembler (class StreamReassembler of
    libsponge/stream_reassembler.{hh,cc})

    The component owns the buffer of unassembled substrings and the output
    byte stream.  Its contract is stated against the stream [S] the peer is
    sending: as long as every substring pushed is a fragment of [S] that fits
    the advertised window (it ends at most [capacity] bytes after the last
    byte read), the bytes written to the output are a prefix of [S], every
    byte received is either written or pending, and the output is ended
    exactly when all of [S] is written and its end is known. *)

From Stdlib Require Import ZArith Lia.
From S2P Require Import Prelude Ring ByteStream UnAssembleBuffer.

Record StreamReassembler : Type := mkStreamReassembler {
  buffer_ : UnAssembleBuffer;
  output_ : ByteStream;
  capacity_ : Z;
  eof_index_ : option Z
}.

#[export] Instance StreamReassembler_eq_dec : EqDecision StreamReassembler.
Proof. solve_decision. Defined.

Definition new (capacity : Z) : StreamReassembler :=
  mkStreamReassembler (UnAssembleBuffer.new capacity) (ByteStream.new capacity) capacity None.

Definition stream_out (sr : StreamReassembler) : ByteStream := output_ sr.

(** Writing through the mutable reference [stream_out()]. *)
Definition set_stream_out (sr : StreamReassembler) (out : ByteStream) : StreamReassembler :=
  mkStreamReassembler (buffer_ sr) out (capacity_ sr) (eof_index_ sr).

Definition unassembled_bytes (sr : StreamReassembler) : Z := UnAssembleBuffer.used_size (buffer_ sr).

Definition empty (sr : StreamReassembler) : bool := UnAssembleBuffer.empty (buffer_ sr).

(** [std::string_view::remove_prefix]: undefined beyond the end. *)
Definition remove_prefix (sv : list byte) (n : Z) : res (list byte) :=
  if n <=? zlen sv then Ok (zdrop n sv) else Fail MemoryFault.

(** The final test of [push_substring]. *)
Definition end_if_complete (eof_index : option Z) (out : ByteStream) : ByteStream :=
  match eof_index with
  | Some e => if ByteStream.bytes_written out =? e then ByteStream.end_input out else out
  | None => out
  end.

Definition push_substring (sr : StreamReassembler) (data : list byte) (index : Z) (eof : bool)
    : res StreamReassembler :=
  let bytes_written := ByteStream.bytes_written (output_ sr) in
  if u64 (index + zlen data) <? bytes_written then Ok sr else
  '(sv, index) ←
    (if index <? bytes_written
     then sv ← remove_prefix data (u64 (bytes_written - index)); Ok (sv, bytes_written)
     else Ok (data, index));
  assert_ (bytes_written <=? index) ;;
  let max_len := u64 (capacity_ sr - u64 (index - bytes_written)) in
  let sv := if max_len <? zlen sv then ztake max_len sv else sv in
  let eof_index := if eof then Some (u64 (index + zlen sv)) else eof_index_ sr in
  '(buf, out) ←
    (if negb (bool_decide (sv = []))
     then
       '(popped, buf) ← UnAssembleBuffer.push_substring (buffer_ sr) sv index bytes_written;
       if negb (bool_decide (popped = []))
       then '(_, out) ← ByteStream.write (output_ sr) popped; Ok (buf, out)
       else Ok (buf, output_ sr)
     else Ok (buffer_ sr, output_ sr));
  Ok (mkStreamReassembler buf (end_if_complete eof_index out) (capacity_ sr) eof_index).

(** ** Invariant *)

Definition next (sr : StreamReassembler) : Z := ByteStream.bytes_written_ (output_ sr).
Definition consumed (sr : StreamReassembler) : Z := ByteStream.bytes_read_ (output_ sr).
Definition pending (sr : StreamReassembler) : gmap Z byte :=
  UnAssembleBuffer.pending (buffer_ sr) (next sr).

Record wf (sr : StreamReassembler) : Prop := {
  wf_output : ByteStream.wf (output_ sr);
  wf_buffer : UnAssembleBuffer.wf (buffer_ sr) (next sr);
  wf_cap_out : ByteStream.capacity (output_ sr) = capacity_ sr;
  wf_cap_buf : UnAssembleBuffer.capacity (buffer_ sr) = capacity_ sr;
  wf_window : forall k x, pending sr !! k = Some x -> k < consumed sr + capacity_ sr;
  wf_written : next sr = consumed sr + ByteStream.used_size_ (output_ sr);
  wf_room : consumed sr + 2 * capacity_ sr < M64
}.

(** What a push leaves behind, as a function of the previous state. *)
Definition spec_push_substring (sr : StreamReassembler) (data : list byte) (index : Z)
    : list byte * gmap Z byte :=
  UnAssembleBuffer.spec_push (pending sr) (next sr)
    (zdrop (next sr - index) data) (Z.max index (next sr)).

Lemma sr_wf_new c : 0 < c < M63 -> 2 * c < M64 -> wf (new c).
Proof.
  intros Hc Hr. split; cbn; unfold consumed; cbn.
  - by apply bs_wf_new.
  - by apply ub_wf_new.
  - unfold ByteStream.capacity; cbn. apply zlen_zreplicate. lia.
  - unfold UnAssembleBuffer.capacity; cbn. apply zlen_zreplicate. lia.
  - intros k x H. unfold pending, UnAssembleBuffer.pending in H. cbn in H.
    by rewrite lookup_empty in H.
  - done.
  - lia.
Qed.

Lemma next_range sr : wf sr -> 0 <= consumed sr <= next sr /\ next sr <= consumed sr + capacity_ sr.
Proof.
  intros [Hout _ Hco _ _ Hw _]. unfold consumed in *. destruct Hout. lia.
Qed.

Lemma spec_push_nil g n index :
  (forall k x, g !! k = Some x -> n < k) -> UnAssembleBuffer.spec_push g n [] index = ([], g).
Proof.
  intros Hg. unfold UnAssembleBuffer.spec_push. cbn [map_seqZ].
  rewrite (left_id_L ∅ (∪)).
  assert (g !! n = None) as Hn.
  { destruct (g !! n) eqn:E; [|done]. apply Hg in E. lia. }
  rewrite UnAssembleBuffer.assembled_none by done. f_equal.
  apply UnAssembleBuffer.from_index_id. intros k x Hk. apply Hg in Hk. rewrite zlen_nil. lia.
Qed.

(** Bytes assembled out of [spec_push] come from the data or were pending. *)
Lemma spec_push_lookup g n data index out g' :
  UnAssembleBuffer.spec_push g n data index = (out, g') ->
  (forall i x, out !! i = Some x ->
     (map_seqZ index data ∪ g : gmap Z byte) !! (n + Z.of_nat i) = Some x)
  /\ (forall k, g' !! k = if decide (n + zlen out <= k)
        then (map_seqZ index data ∪ g : gmap Z byte) !! k else None).
Proof.
  unfold UnAssembleBuffer.spec_push. intros [= <- <-]. split.
  - apply UnAssembleBuffer.assembled_lookup.
  - intros k. unfold UnAssembleBuffer.from_index. rewrite map_lookup_filter.
    destruct (decide (n + _ <= k)) as [Hk|Hk], ((map_seqZ index data ∪ g : gmap Z byte) !! k);
      cbn [mbind option_bind]; try done; case_guard; done.
Qed.

(** Every index stays accounted for: assembled, or still pending. *)
Lemma spec_push_dom g n data index out g' :
  UnAssembleBuffer.spec_push g n data index = (out, g') ->
  (forall k, k ∈ dom g' <-> n + zlen out <= k /\ (index <= k < index + zlen data \/ k ∈ dom g))
  /\ (forall k, n <= k < n + zlen out -> index <= k < index + zlen data \/ k ∈ dom g).
Proof.
  intros E. destruct (spec_push_lookup _ _ _ _ _ _ E) as [Ho Hg].
  assert (forall k, is_Some ((map_seqZ index data ∪ g : gmap Z byte) !! k)
    <-> index <= k < index + zlen data \/ k ∈ dom g) as Hu.
  { intros k. by rewrite lookup_union_is_Some, lookup_map_seqZ_is_Some, elem_of_dom. }
  split; intros k.
  - rewrite elem_of_dom, Hg, <-Hu. destruct (decide (n + zlen out <= k)); [tauto|].
    split; [by intros [? ?]|tauto].
  - intros Hk. apply Hu.
    destruct (lookup_lt_is_Some_2 out (Z.to_nat (k - n))) as [x Hx]; [unfold zlen in *; lia|].
    apply Ho in Hx. replace (n + Z.of_nat (Z.to_nat (k - n))) with k in Hx by lia. eauto.
Qed.

(** The window bounds everything that can be assembled or stay pending. *)
Lemma spec_push_window g n data index hi out g' :
  UnAssembleBuffer.spec_push g n data index = (out, g') ->
  index + zlen data <= hi -> n <= hi -> (forall k x, g !! k = Some x -> k < hi) ->
  n + zlen out <= hi /\ (forall k x, g' !! k = Some x -> k < hi).
Proof.
  intros E Hd Hn Hg. destruct (spec_push_lookup _ _ _ _ _ _ E) as [H1 H2].
  assert (forall k x, (map_seqZ index data ∪ g : gmap Z byte) !! k = Some x -> k < hi) as Hu.
  { intros k x. rewrite lookup_union_Some_raw, lookup_map_seqZ_Z.
    case_decide; [lia|]. intros [?|[_ ?]]; [done|eauto]. }
  split.
  - destruct (decide (out = [])) as [->|Ho]; [rewrite zlen_nil; lia|].
    destruct (lookup_lt_is_Some_2 out (length out - 1)) as [x Hx].
    { destruct out; [done|]. cbn. lia. }
    apply H1, Hu in Hx. unfold zlen. destruct out; [done|]. cbn in *. lia.
  - intros k x. rewrite H2. case_decide; [apply Hu|done].
Qed.

Lemma zdrop_nonpos {A} n (l : list A) : n <= 0 -> zdrop n l = l.
Proof. intros. unfold zdrop. replace (Z.to_nat n) with 0%nat by lia. apply drop_0. Qed.

(** The substring is cut at the first unassembled index. *)
Lemma trim_ok sr data index :
  wf sr -> 0 <= index -> next sr <= index + zlen data ->
  (if index <? next sr
   then sv ← remove_prefix data (u64 (next sr - index)); Ok (sv, next sr)
   else Ok (data, index))
  = Ok (zdrop (next sr - index) data, Z.max index (next sr))
  /\ Z.max index (next sr) + zlen (zdrop (next sr - index) data) = index + zlen data.
Proof.
  intros Hwf Hi Hd. pose proof (next_range sr Hwf). pose proof (wf_room sr Hwf).
  destruct (Z.ltb_spec index (next sr)).
  - rewrite u64_small by lia. unfold remove_prefix.
    destruct (Z.leb_spec (next sr - index) (zlen data)); [|lia]. cbn.
    rewrite zlen_zdrop by lia. split; [do 2 f_equal|]; lia.
  - rewrite zdrop_nonpos by lia. split; [do 2 f_equal|]; lia.
Qed.

(** Storing a substring of the window and writing out what it assembles. *)
Lemma store_ok sr sv index :
  wf sr -> next sr <= index -> index + zlen sv <= consumed sr + capacity_ sr ->
  let '(out, g') := UnAssembleBuffer.spec_push (pending sr) (next sr) sv index in
  exists buf bs,
    (if negb (bool_decide (sv = []))
     then
       '(popped, buf) ← UnAssembleBuffer.push_substring (buffer_ sr) sv index (next sr);
       if negb (bool_decide (popped = []))
       then '(_, out) ← ByteStream.write (output_ sr) popped; Ok (buf, out)
       else Ok (buf, output_ sr)
     else Ok (buffer_ sr, output_ sr)) = Ok (buf, bs)
    /\ ByteStream.wf bs /\ ByteStream.capacity bs = capacity_ sr
    /\ ByteStream.contents bs = ByteStream.contents (output_ sr) ++ out
    /\ ByteStream.bytes_read_ bs = consumed sr
    /\ ByteStream.bytes_written_ bs = next sr + zlen out
    /\ ByteStream.input_ended_ bs = ByteStream.input_ended_ (output_ sr)
    /\ ByteStream.error_ bs = ByteStream.error_ (output_ sr)
    /\ UnAssembleBuffer.wf buf (next sr + zlen out)
    /\ UnAssembleBuffer.capacity buf = capacity_ sr
    /\ UnAssembleBuffer.pending buf (next sr + zlen out) = g'.
Proof.
  intros Hwf Hi Hd. pose proof (next_range sr Hwf) as Hn.
  destruct (Hwf) as [Hout Hbuf Hco Hcb Hwin Hwr Hroom].
  destruct (bool_decide_reflect (sv = [])) as [->|Hne]; cbn [negb].
  - rewrite spec_push_nil by (intros k x Hk; apply (pending_range _ _ _ _ Hbuf) in Hk; lia).
    rewrite zlen_nil, Z.add_0_r, app_nil_r. eexists _, _. by split_and!.
  - destruct (UnAssembleBuffer.push_substring_spec (buffer_ sr) (next sr) sv index)
      as (out & buf & -> & Hs & Hbuf' & Hcb'); try done; rewrite ?Hcb; try lia.
    fold (pending sr) in Hs. rewrite <-Hs. rewrite bind_Ok_l.
    destruct (spec_push_window _ _ _ _ (consumed sr + capacity_ sr) _ _ (eq_sym Hs)) as [Ho _];
      [lia|lia|done|].
    destruct (bool_decide_reflect (out = [])) as [->|Hne']; cbn [negb].
    + rewrite zlen_nil, Z.add_0_r, app_nil_r in *. eexists _, _. split_and!; try done. congruence.
    + destruct (ByteStream.write_contents (output_ sr) out Hout)
        as (bs & -> & Hbs & Hc & Hct & Hbr & Hbw & Hie & Her).
      assert (ByteStream.accepted (output_ sr) out = out) as Hacc.
      { unfold ByteStream.accepted, ztake. apply take_ge. unfold zlen in *. lia. }
      rewrite Hacc in *. eexists _, _. split_and!; try done; try congruence.
      rewrite Hbw. unfold next. apply u64_small. fold (next sr).
      pose proof (zlen_nonneg out). lia.
Qed.

Lemma end_if_complete_spec e bs :
  ByteStream.wf bs ->
  let bs' := end_if_complete e bs in
  ByteStream.wf bs' /\ ByteStream.capacity bs' = ByteStream.capacity bs
  /\ ByteStream.contents bs' = ByteStream.contents bs
  /\ ByteStream.bytes_read_ bs' = ByteStream.bytes_read_ bs
  /\ ByteStream.bytes_written_ bs' = ByteStream.bytes_written_ bs
  /\ ByteStream.input_ended_ bs' =
       ByteStream.input_ended_ bs || bool_decide (e = Some (ByteStream.bytes_written_ bs))
  /\ ByteStream.error_ bs' = ByteStream.error_ bs.
Proof.
  intros Hwf. cbn zeta. unfold end_if_complete, ByteStream.bytes_written.
  destruct e as [e|]; [destruct (Z.eqb_spec (ByteStream.bytes_written_ bs) e)|].
  - rewrite bool_decide_true, orb_true_r by congruence.
    split_and!; try done. by apply ByteStream.wf_end_input.
  - rewrite bool_decide_false, orb_false_r by congruence. by split_and!.
  - rewrite bool_decide_false, orb_false_r by congruence. by split_and!.
Qed.

(** A push of data that is already written changes nothing. *)
Lemma push_stale sr data index eof :
  0 <= index -> index + zlen data < next sr -> next sr < M64 ->
  push_substring sr data index eof = Ok sr.
Proof.
  intros Hi Hd Hn. unfold push_substring, ByteStream.bytes_written. fold (next sr).
  pose proof (zlen_nonneg data). rewrite u64_small by lia.
  destruct (Z.ltb_spec (index + zlen data) (next sr)); [done|lia].
Qed.

Lemma push_in_window sr data index eof :
  wf sr -> 0 <= index -> next sr <= index + zlen data ->
  index + zlen data <= consumed sr + capacity_ sr ->
  let '(out, g') := spec_push_substring sr data index in
  exists sr', push_substring sr data index eof = Ok sr' /\ wf sr'
    /\ ByteStream.contents (output_ sr') = ByteStream.contents (output_ sr) ++ out
    /\ next sr' = next sr + zlen out /\ consumed sr' = consumed sr
    /\ capacity_ sr' = capacity_ sr /\ pending sr' = g'
    /\ eof_index_ sr' = (if eof then Some (index + zlen data) else eof_index_ sr)
    /\ ByteStream.input_ended_ (output_ sr') =
         ByteStream.input_ended_ (output_ sr) || bool_decide (eof_index_ sr' = Some (next sr'))
    /\ ByteStream.error_ (output_ sr') = ByteStream.error_ (output_ sr).
Proof.
  intros Hwf Hi Hd Hw. pose proof (next_range sr Hwf) as Hn. pose proof (wf_room sr Hwf) as Hroom.
  pose proof (zlen_nonneg data) as Hz.
  destruct (trim_ok sr data index Hwf Hi Hd) as [Htrim Hend].
  unfold spec_push_substring. set (sv := zdrop (next sr - index) data) in *.
  set (i := Z.max index (next sr)) in *.
  pose proof (zlen_nonneg sv) as Hzs.
  pose proof (store_ok sr sv i Hwf ltac:(lia) ltac:(lia)) as Hst.
  destruct (UnAssembleBuffer.spec_push (pending sr) (next sr) sv i) as [out g'] eqn:Es.
  destruct Hst as (buf & bs & Hst & Hbs & Hc & Hct & Hbr & Hbw & Hie & Her & Hbuf & Hcb & Hp).
  destruct (spec_push_window _ _ _ _ (consumed sr + capacity_ sr) _ _ Es) as [Ho Hg'];
    [lia|lia|by apply wf_window|].
  unfold push_substring, ByteStream.bytes_written. fold (next sr).
  rewrite (u64_small (index + zlen data)) by lia.
  destruct (Z.ltb_spec (index + zlen data) (next sr)); [lia|].
  rewrite Htrim, bind_Ok_l. cbv zeta.
  destruct (Z.leb_spec (next sr) i); [|lia]. cbn [assert_]. rewrite bind_Ok_l.
  rewrite (u64_small (i - next sr)), (u64_small (capacity_ sr - (i - next sr))) by lia.
  destruct (Z.ltb_spec (capacity_ sr - (i - next sr)) (zlen sv)); [lia|].
  rewrite Hst, bind_Ok_l, Hend, (u64_small (index + zlen data)) by lia.
  set (e := if eof then Some (index + zlen data) else eof_index_ sr).
  destruct (end_if_complete_spec e bs Hbs) as (Hwf' & Hc' & Hct' & Hbr' & Hbw' & Hie' & Her').
  rewrite Hbw in Hbw', Hie'. rewrite Hbr in Hbr'. rewrite Hct in Hct'.
  eexists. split; [reflexivity|]. unfold next, consumed, pending, next; cbn.
  rewrite Hbw', Hbr', Hct', Hp. split_and!; try done; [|by rewrite Hie', Hie|congruence].
  split; unfold next, consumed, pending, next; cbn; rewrite ?Hbw', ?Hbr', ?Hp; try done; [congruence|].
  rewrite <-(ByteStream.length_contents _ Hwf'), Hct', zlen_app.
  rewrite ByteStream.length_contents by apply Hwf. pose proof (wf_written sr Hwf). lia.
Qed.

(** ** Reassembling a stream

    [reach S cap sr dlv rcv fin]: starting from a new reassembler of capacity
    [cap], pushes of fragments of [S] inside the advertised window and reads
    of the output lead to [sr]; [dlv] are the bytes the reader has taken,
    [rcv] the indices received so far and [fin] whether the end of [S] was
    announced. *)

Definition fragment (S data : list byte) (index : Z) (eof : bool) : Prop :=
  0 <= index /\ index + zlen data <= zlen S
  /\ data = ztake (zlen data) (zdrop index S)
  /\ (eof = true -> index + zlen data = zlen S).

Definition in_window (sr : StreamReassembler) (data : list byte) (index : Z) : Prop :=
  index + zlen data <= consumed sr + capacity_ sr.

Definition indices (index : Z) (data : list byte) : gset Z :=
  list_to_set (seqZ index (zlen data)).

Inductive reach (S : list byte) (cap : Z)
    : StreamReassembler -> list byte -> gset Z -> bool -> Prop :=
  | reach_new : reach S cap (new cap) [] ∅ false
  | reach_push sr dlv rcv fin data index eof sr' :
      reach S cap sr dlv rcv fin ->
      fragment S data index eof -> in_window sr data index ->
      push_substring sr data index eof = Ok sr' ->
      reach S cap sr' dlv (rcv ∪ indices index data) (fin || eof)
  | reach_read sr dlv rcv fin len s out :
      reach S cap sr dlv rcv fin -> 0 <= len < M64 ->
      ByteStream.read (stream_out sr) len = Ok (s, out) ->
      reach S cap (set_stream_out sr out) (dlv ++ s) rcv fin.

Record inv (S : list byte) (cap : Z) (sr : StreamReassembler)
    (dlv : list byte) (rcv : gset Z) (fin : bool) : Prop := {
  inv_wf : wf sr;
  inv_cap : capacity_ sr = cap;
  inv_prefix : dlv ++ ByteStream.contents (output_ sr) = ztake (next sr) S;
  inv_next : next sr <= zlen S;
  inv_consumed : consumed sr = zlen dlv;
  inv_pending : forall k x, pending sr !! k = Some x -> S !! Z.to_nat k = Some x;
  inv_rcv : dom (pending sr) = filter (fun k => next sr <= k) rcv;
  inv_seen : forall k, 0 <= k < next sr -> k ∈ rcv;
  inv_eof : eof_index_ sr = if fin then Some (zlen S) else None;
  inv_ended : ByteStream.input_ended_ (output_ sr) = fin && (next sr =? zlen S)
}.

Lemma elem_of_indices k index data : k ∈ indices index data <-> index <= k < index + zlen data.
Proof. unfold indices. rewrite elem_of_list_to_set, elem_of_seqZ. done. Qed.

(** Bytes of a fragment are bytes of the stream, also after trimming. *)
Lemma fragment_lookup S data index eof n k x :
  fragment S data index eof -> 0 <= n ->
  (map_seqZ (Z.max index n) (zdrop (n - index) data) : gmap Z byte) !! k = Some x ->
  S !! Z.to_nat k = Some x.
Proof.
  intros (Hi & Hb & Hd & _) Hn. rewrite lookup_map_seqZ_Z. case_decide as Hk; [|done].
  unfold zdrop. rewrite lookup_drop. rewrite Hd. unfold ztake, zdrop in *.
  intros Hx. rewrite lookup_take, lookup_drop in Hx. case_decide; [|done].
  rewrite <-Hx. f_equal. lia.
Qed.

Lemma ztake_app_lookup (S out : list byte) n :
  0 <= n -> (forall i x, out !! i = Some x -> S !! Z.to_nat (n + Z.of_nat i) = Some x) ->
  n <= zlen S ->
  ztake n S ++ out = ztake (n + zlen out) S /\ n + zlen out <= zlen S.
Proof.
  intros Hn Ho HS. split.
  - unfold ztake, zlen. rewrite Z2Nat.inj_add, Nat2Z.id by lia.
    rewrite <-(take_drop (Z.to_nat n) S) at 2.
    rewrite take_app_ge by (rewrite length_take; unfold zlen in *; lia).
    f_equal. rewrite length_take.
    replace (_ - _)%nat with (length out) by (unfold zlen in *; lia).
    apply list_eq. intros i. destruct (decide (i < length out)%nat).
    + rewrite lookup_take_lt, lookup_drop by done.
      destruct (lookup_lt_is_Some_2 out i) as [x Hx]; [done|].
      rewrite Hx. apply Ho in Hx. rewrite <-Hx. f_equal. lia.
    + rewrite lookup_take_ge by lia. apply lookup_ge_None. lia.
  - destruct out as [|b out] using rev_ind; [rewrite zlen_nil; lia|].
    assert (((out ++ [b]) !! length out) = Some b) as Hx by (by rewrite lookup_app_r, Nat.sub_diag by lia).
    apply Ho, lookup_lt_Some in Hx. rewrite zlen_app. unfold zlen in *. cbn. lia.
Qed.

Lemma inv_new S cap : 0 < cap < M63 -> 2 * cap < M64 -> inv S cap (new cap) [] ∅ false.
Proof.
  intros Hc Hr. split; try done.
  - by apply sr_wf_new.
  - unfold next; cbn. apply zlen_nonneg.
  - intros k Hk. unfold next in Hk; cbn in Hk. lia.
Qed.

Section push.
Context (S : list byte) (cap : Z) (sr : StreamReassembler) (dlv : list byte) (rcv : gset Z) (fin : bool).
Context (Hinv : inv S cap sr dlv rcv fin) (HS : zlen S + 2 * cap < M64).
Context (data : list byte) (index : Z) (eof : bool).
Context (Hfr : fragment S data index eof) (Hwin : in_window sr data index).

Let bnd : 0 <= consumed sr <= next sr /\ next sr <= consumed sr + capacity_ sr.
Proof. apply next_range, Hinv. Qed.

Lemma inv_push_stale :
  index + zlen data < next sr ->
  push_substring sr data index eof = Ok sr
  /\ inv S cap sr dlv (rcv ∪ indices index data) (fin || eof).
Proof using All.
  intros Hst. destruct Hfr as (Hi & Hb & Hd & He). destruct Hinv as [Hwf Hc Hp Hn Hco Hpe Hr Hs Hef Hen].
  split; [apply push_stale; try done; lia|].
  assert (eof = false) as ->.
  { destruct eof; [|done]. specialize (He eq_refl). lia. }
  rewrite orb_false_r. split; try done.
  - rewrite Hr. apply set_eq. intros k. rewrite !elem_of_filter, elem_of_union, elem_of_indices.
    split; [tauto|]. intros [? [?|?]]; [tauto|lia].
  - intros k Hk. apply elem_of_union_l. by apply Hs.
Qed.

Lemma inv_push_fresh :
  next sr <= index + zlen data ->
  exists sr', push_substring sr data index eof = Ok sr'
  /\ inv S cap sr' dlv (rcv ∪ indices index data) (fin || eof).
Proof using All.
  intros Hfresh. destruct (Hfr) as (Hi & Hb & Hd & He).
  destruct (Hinv) as [Hwf Hc Hp Hn Hco Hpe Hr Hs Hef Hen].
  pose proof (push_in_window sr data index eof Hwf Hi Hfresh Hwin) as Hpush.
  destruct (spec_push_substring sr data index) as [out g'] eqn:Es.
  destruct Hpush as (sr' & E & Hwf' & Hct' & Hn' & Hco' & Hc' & Hp' & Hef' & Hen' & _).
  exists sr'. split; [done|]. unfold spec_push_substring in Es.
  destruct (spec_push_lookup _ _ _ _ _ _ Es) as [Ho Hg].
  destruct (spec_push_dom _ _ _ _ _ _ Es) as [Hdom Hasm].
  destruct (trim_ok sr data index Hwf Hi Hfresh) as [_ Hend].
  assert (forall k x, (map_seqZ (Z.max index (next sr)) (zdrop (next sr - index) data) ∪ pending sr
    : gmap Z byte) !! k = Some x -> S !! Z.to_nat k = Some x) as HuS.
  { intros k x. rewrite lookup_union_Some_raw. intros [Hx|[_ Hx]]; [|by apply Hpe].
    eapply fragment_lookup; [done| |done]. lia. }
  destruct (ztake_app_lookup S out (next sr)) as [Hpre Hle]; [lia| |lia|].
  { intros i x Hx. apply HuS. by apply Ho. }
  pose proof (zlen_nonneg out) as Hz.
  split.
  - done.
  - congruence.
  - rewrite Hct', app_assoc, Hp, Hn'. done.
  - lia.
  - congruence.
  - rewrite Hp'. intros k x. rewrite Hg.
    destruct (decide (next sr + zlen out <= k)); [apply HuS|done].
  - rewrite Hp', Hn'. apply set_eq. intros k.
    rewrite Hdom, Hr, !elem_of_filter, elem_of_union, elem_of_indices.
    split; intros [Hk Hor]; (split; [done|]).
    + destruct Hor as [?|[_ ?]]; [right; lia|by left].
    + destruct Hor as [?|?]; [right; split; [lia|done]|left; lia].
  - intros k Hk. rewrite elem_of_union, elem_of_indices.
    destruct (decide (k < next sr)); [left; apply Hs; lia|].
    destruct (Hasm k ltac:(lia)) as [?|Hd2]; [right; lia|].
    left. rewrite Hr in Hd2. by apply elem_of_filter in Hd2 as [_ ?].
  - rewrite Hef', Hef. destruct eof; [|by rewrite orb_false_r]. rewrite orb_true_r. by rewrite He.
  - rewrite Hen', Hen, Hef', Hef, Hn'.
    assert (forall a c : Z, bool_decide (Some a = Some c) = (c =? a)) as Hbd.
    { intros a c. destruct (Z.eqb_spec c a) as [->|];
        [by apply bool_decide_true|apply bool_decide_false; congruence]. }
    destruct eof; [rewrite orb_true_r, (He eq_refl)|rewrite orb_false_r]; destruct fin; rewrite ?Hbd;
      destruct (Z.eqb_spec (next sr) (zlen S)), (Z.eqb_spec (next sr + zlen out) (zlen S)); done || lia.
Qed.

Lemma inv_push :
  exists sr', push_substring sr data index eof = Ok sr'
  /\ inv S cap sr' dlv (rcv ∪ indices index data) (fin || eof).
Proof using All.
  destruct (Z_lt_le_dec (index + zlen data) (next sr)).
  - exists sr. by apply inv_push_stale.
  - by apply inv_push_fresh.
Qed.
End push.

Lemma inv_read S cap sr dlv rcv fin len :
  inv S cap sr dlv rcv fin -> zlen S + 2 * cap < M64 -> 0 <= len < M64 ->
  exists s out, ByteStream.read (stream_out sr) len = Ok (s, out)
    /\ s = ztake len (ByteStream.contents (stream_out sr))
    /\ inv S cap (set_stream_out sr out) (dlv ++ s) rcv fin.
Proof.
  intros [Hwf Hc Hp Hn Hco Hpe Hr Hs Hef Hen] HS Hlen.
  pose proof (next_range sr Hwf) as Hrg.
  destruct (Hwf) as [Hout Hbuf Hcu Hcb Hwin Hwr Hroom].
  destruct (ByteStream.read_contents (output_ sr) len Hout ltac:(lia))
    as (out & E & Hwf' & Hcap' & Hct & Hbr & Hbw & Hie & Her).
  exists (ztake len (ByteStream.contents (output_ sr))), out.
  pose proof (ByteStream.length_contents _ Hout) as Hlc. pose proof (ByteStream.length_contents _ Hwf') as Hlc'.
  rewrite Hct, zlen_zdrop in Hlc' by lia.
  assert (ByteStream.bytes_read_ out = consumed sr + Z.min len (ByteStream.used_size_ (output_ sr))) as Hbr'.
  { rewrite Hbr. fold (consumed sr). apply u64_small. unfold consumed in *. lia. }
  split_and!; [done|done|].
  split; unfold pending, next, consumed, set_stream_out in *; cbn in *; rewrite ?Hbw, ?Hbr'; try done.
  - split; unfold pending, next, consumed; cbn; rewrite ?Hbw, ?Hbr'; try done; try congruence; try lia.
    intros k x Hk. apply Hwin in Hk. lia.
  - rewrite Hct, <-app_assoc. unfold ztake, zdrop. by rewrite take_drop.
  - rewrite zlen_app, zlen_ztake by lia. lia.
  - by rewrite Hie.
Qed.

Lemma reach_inv S cap sr dlv rcv fin :
  0 < cap < M63 -> zlen S + 2 * cap < M64 ->
  reach S cap sr dlv rcv fin -> inv S cap sr dlv rcv fin.
Proof.
  intros Hcap HS. pose proof (zlen_nonneg S). induction 1 as [|sr dlv rcv fin data index eof sr' Hr IH Hfr Hw E
    |sr dlv rcv fin len s out Hr IH Hlen E].
  - apply inv_new; [done|lia].
  - destruct (inv_push S cap sr dlv rcv fin IH HS data index eof Hfr Hw) as (sr'' & E' & Hi).
    rewrite E in E'. injection E' as <-. done.
  - destruct (inv_read S cap sr dlv rcv fin len IH HS Hlen) as (s' & out' & E' & _ & Hi).
    rewrite E in E'. injection E' as <- <-. done.
Qed.

(** Data that starts beyond the capacity trips an assertion. *)
Lemma push_beyond_window (sr : StreamReassembler) (data : list byte) (index : Z) (eof : bool) :
  wf sr -> data <> [] -> next sr + capacity_ sr < index -> index + zlen data < M64 ->
  zlen data <= M64 - (index - next sr) ->
  push_substring sr data index eof = Fail AssertionFailure.
Proof.
  intros Hwf Hne Hi Hov Hl. pose proof (next_range sr Hwf) as Hn.
  destruct (Hwf) as [Hout Hbuf Hco Hcb Hwin Hwr Hroom]. destruct (Hout) as [Hcap _ _ _ _].
  pose proof (zlen_nonneg data) as Hz.
  unfold push_substring, ByteStream.bytes_written. fold (next sr).
  rewrite (u64_small (index + zlen data)) by lia.
  destruct (Z.ltb_spec (index + zlen data) (next sr)); [lia|].
  destruct (Z.ltb_spec index (next sr)); [lia|]. rewrite bind_Ok_l. cbv zeta.
  destruct (Z.leb_spec (next sr) index); [|lia]. cbn [assert_]. rewrite bind_Ok_l.
  rewrite (u64_small (index - next sr)) by lia.
  replace (u64 (capacity_ sr - (index - next sr))) with (M64 + capacity_ sr - (index - next sr)) by wrap_lia.
  destruct (Z.ltb_spec (M64 + capacity_ sr - (index - next sr)) (zlen data)); [lia|].
  rewrite bool_decide_false by done. cbn [negb].
  rewrite UnAssembleBuffer.push_substring_outside by (rewrite ?Hcb; lia). done.
Qed.

(** A single byte at the next index while the output is full, the probe of a
    closed window, is lost without a trace. *)
Lemma push_full S cap sr dlv rcv fin x :
  inv S cap sr dlv rcv fin -> zlen S + 2 * cap < M64 -> next sr = consumed sr + capacity_ sr -> next sr < zlen S ->
  exists sr', push_substring sr [x] (next sr) false = Ok sr' /\ inv S cap sr' dlv rcv fin /\ output_ sr' = output_ sr.
Proof.
  intros Hinv HS Hfull Hlt. destruct (Hinv) as [Hwf Hc Hp Hn Hco Hpe Hr Hs Hef Hen].
  pose proof (next_range sr Hwf) as Hrg. destruct (Hwf) as [Hout Hbuf Hcu Hcb Hwin Hwr Hroom].
  destruct (Hout) as [Hcap _ _ _ _].
  assert (pending sr = ∅) as Hpend.
  { apply map_empty. intros k. destruct (pending sr !! k) eqn:E; [|done].
    pose proof (Hwin _ _ E). pose proof (pending_range _ _ _ _ Hbuf E). lia. }
  destruct (UnAssembleBuffer.push_substring_spec (buffer_ sr) (next sr) [x] (next sr))
    as (out & buf & E & Hsp & Hbuf' & Hcb'); [done|rewrite Hcb; lia|done|lia|change (zlen [x]) with 1; lia|].
  fold (pending sr) in Hsp. rewrite Hpend in Hsp. unfold UnAssembleBuffer.spec_push in Hsp.
  rewrite (right_id_L ∅ (∪)) in Hsp. injection Hsp as Ho Hpb.
  assert (out = [x]) as ->.
  { rewrite Ho. apply UnAssembleBuffer.assembled_eq.
    - intros [|i] y Hi; [|done]. injection Hi as <-. rewrite Z.add_0_r. apply lookup_insert_eq.
    - change (zlen [x]) with 1. rewrite lookup_insert_ne by lia. apply lookup_empty. }
  assert (UnAssembleBuffer.pending buf (next sr + zlen [x]) = ∅) as Hpe'.
  { rewrite Hpb, <-Ho. apply map_empty. intros k. unfold UnAssembleBuffer.from_index.
    apply map_lookup_filter_None. change (zlen [x]) with 1. destruct (decide (k = next sr)) as [->|Hk].
    - right. intros y _. cbn. lia.
    - left. rewrite lookup_insert_ne by done. apply lookup_empty. }
  pose proof (UnAssembleBuffer.pending_empty _ _ Hbuf' Hpe') as Hmap.
  assert (UnAssembleBuffer.wf buf (next sr)) as Hbuf2 by (by eapply UnAssembleBuffer.wf_rebase; [|done|lia]).
  pose proof (UnAssembleBuffer.pending_nil _ _ Hbuf2 Hmap) as Hpb2.
  assert (end_if_complete (eof_index_ sr) (output_ sr) = output_ sr) as Hend.
  { rewrite Hef. unfold end_if_complete, ByteStream.bytes_written. fold (next sr).
    destruct fin; [|done]. destruct (Z.eqb_spec (next sr) (zlen S)); [lia|done]. }
  eexists (mkStreamReassembler buf (output_ sr) (capacity_ sr) (eof_index_ sr)). split; [|split; [|done]].
  - unfold push_substring, ByteStream.bytes_written. fold (next sr). change (zlen [x]) with 1.
    rewrite (u64_small (next sr + 1)) by lia. destruct (Z.ltb_spec (next sr + 1) (next sr)); [lia|].
    rewrite Z.ltb_irrefl. cbn [mbind res_bind]. rewrite Z.leb_refl. cbn [assert_ mbind res_bind].
    rewrite Z.sub_diag. change (u64 0) with 0. rewrite Z.sub_0_r, u64_small by lia.
    change (zlen [x]) with 1. destruct (Z.ltb_spec (capacity_ sr) 1); [lia|]. cbn [negb]. rewrite bool_decide_false by done.
    cbn [negb]. rewrite E. cbn [mbind res_bind]. rewrite bool_decide_false by done. cbn [negb].
    rewrite ByteStream.write_nothing; [|done|right; lia]. cbn [mbind res_bind]. by rewrite Hend.
  - split; unfold pending, next, consumed in *; cbn; try done.
    + split; unfold pending, next, consumed; cbn; try done; [congruence|].
      intros k y. rewrite Hpb2. by rewrite lookup_empty.
    + rewrite Hpb2. intros k y. by rewrite lookup_empty.
    + rewrite Hpb2, <-Hr, Hpend. done.
Qed.

(** The next index is the first one not received. *)
Lemma next_least S cap sr dlv rcv fin : inv S cap sr dlv rcv fin -> next sr ∉ rcv.
Proof.
  intros [Hwf Hc Hp Hn Hco Hpe Hr Hs Hef Hen] Hin.
  assert (next sr ∈ dom (pending sr)) as [x Hx]%elem_of_dom by (rewrite Hr; apply elem_of_filter; done).
  pose proof (pending_range _ _ _ _ (wf_buffer _ Hwf) Hx). lia.
Qed.

Lemma next_mono S S' cap cap' sr sr' dlv dlv' (rcv rcv' : gset Z) fin fin' :
  inv S cap sr dlv rcv fin -> inv S' cap' sr' dlv' rcv' fin' -> rcv ⊆ rcv' -> next sr <= next sr'.
Proof.
  intros H H' Hsub. pose proof (next_least _ _ _ _ _ _ H') as Hn.
  destruct (Z_le_gt_dec (next sr) (next sr')) as [|Hgt]; [done|]. destruct Hn. apply Hsub.
  apply (inv_seen _ _ _ _ _ _ H). pose proof (next_range _ (inv_wf _ _ _ _ _ _ H')). lia.
Qed.

(** The invariant survives a longer stream as long as its end is not known. *)
Lemma inv_extend S more cap sr dlv rcv :
  inv S cap sr dlv rcv false -> inv (S ++ more) cap sr dlv rcv false.
Proof.
  intros [Hwf Hc Hp Hn Hco Hpe Hr Hs Hef Hen]. pose proof (next_range sr Hwf). pose proof (zlen_nonneg more).
  split; try done.
  - rewrite Hp. unfold ztake, zlen in *. rewrite take_app_le by lia. done.
  - rewrite zlen_app. lia.
  - intros k x Hk. apply lookup_app_l_Some. by apply Hpe.
Qed.

(** No push touches the error flag of the output. *)
Lemma push_error sr data index eof sr' :
  push_substring sr data index eof = Ok sr' ->
  ByteStream.error_ (output_ sr') = ByteStream.error_ (output_ sr).
Proof.
  assert (forall e bs, ByteStream.error_ (end_if_complete e bs) = ByteStream.error_ bs) as He.
  { intros [e|] bs; cbn; [by destruct (_ =? e)|done]. }
  unfold push_substring. destruct (_ <? _); [by intros [= <-]|].
  intros H. simplify_res. rewrite He. repeat (case_match; simplify_res); try done.
  all: match goal with H : ByteStream.write _ _ = Ok _ |- _ => by apply ByteStream.write_error in H end.
Qed.

(** An empty substring that does not end the stream changes nothing. *)
Lemma push_nothing S cap sr dlv rcv fin index :
  inv S cap sr dlv rcv fin -> zlen S + 2 * cap < M64 -> 0 <= index < M64 ->
  push_substring sr [] index false = Ok sr.
Proof.
  intros [Hwf Hc Hp Hn Hco Hpe Hr Hs Hef Hen] HS Hi. pose proof (next_range sr Hwf) as Hrg.
  unfold push_substring, ByteStream.bytes_written. fold (next sr). rewrite zlen_nil, Z.add_0_r, u64_small by done.
  destruct (Z.ltb_spec index (next sr)); [done|]. cbn [mbind res_bind].
  destruct (Z.leb_spec (next sr) index); [|lia]. cbn [assert_ mbind res_bind].
  assert (forall n : Z, (if n <? 0 then ztake n [] else []) = @nil byte) as Hnil.
  { intros n. unfold ztake. rewrite take_nil. by destruct (n <? 0). }
  rewrite Hnil. cbn. f_equal.
  assert (end_if_complete (eof_index_ sr) (output_ sr) = output_ sr) as ->; [|by destruct sr].
  rewrite Hef. destruct fin; [|done]. cbn. unfold ByteStream.bytes_written. fold (next sr).
  destruct (Z.eqb_spec (next sr) (zlen S)) as [E|E]; [|done].
  cbn [andb] in Hen. unfold ByteStream.end_input. destruct (output_ sr); cbn in *. by rewrite Hen.
Qed.

(** ** Properties *)

(** C10: reassembly is correct: whatever fragments of the peer's stream [S]
    arrive (reordered, overlapping, duplicated) inside the advertised window
    and however the reader drains the output, every byte delivered and every
    byte waiting in the output are, in order, a prefix of [S]; the prefix
    extends up to the first index not yet received; [unassembled_bytes]
    counts the indices received beyond it, each once; and the output is ended
    exactly when the end of [S] was announced and all of [S] is written. *)
Theorem reassembler_delivers_stream (S : list byte) (cap : Z) (sr : StreamReassembler)
    (dlv : list byte) (rcv : gset Z) (fin : bool) :
  0 < cap < M63 -> zlen S + 2 * cap < M64 -> reach S cap sr dlv rcv fin ->
  let written := ByteStream.bytes_written (stream_out sr) in
  dlv ++ ByteStream.contents (stream_out sr) = ztake written S
  /\ (forall k, 0 <= k < written -> k ∈ rcv) /\ (written ∉ rcv)
  /\ unassembled_bytes sr = Z.of_nat (size (filter (fun k => written <= k) rcv))
  /\ (ByteStream.input_ended (stream_out sr) = true <-> fin = true /\ written = zlen S).
Proof.
  intros Hcap HS Hr. apply reach_inv in Hr as [Hwf Hc Hp Hn Hco Hpe Hrv Hs Hef Hen]; [|done..].
  cbn. unfold stream_out, ByteStream.bytes_written, unassembled_bytes, ByteStream.input_ended.
  fold (next sr). split_and!; try done.
  - intros Hin. assert (next sr ∈ dom (pending sr)) as Hd by (rewrite Hrv; apply elem_of_filter; split; [lia|done]).
    apply elem_of_dom in Hd as [x Hx]. apply (pending_range _ _ _ _ (wf_buffer sr Hwf)) in Hx. lia.
  - rewrite (UnAssembleBuffer.used_size_pending _ (next sr)) by apply Hwf.
    fold (pending sr). rewrite <-(size_dom (pending sr)), Hrv. done.
  - rewrite Hen, andb_true_iff, Z.eqb_eq. done.
Qed.

Lemma reassembler_delivers_stream_witness :
  exists sr,
    let written := ByteStream.bytes_written (stream_out sr) in
    [] ++ ByteStream.contents (stream_out sr) = ztake written [x61; x62; x63]
    /\ (forall k, 0 <= k < written -> k ∈ (∅ ∪ indices 1 [x62; x63] : gset Z))
    /\ (written ∉ (∅ ∪ indices 1 [x62; x63] : gset Z))
    /\ unassembled_bytes sr
       = Z.of_nat (size (filter (fun k => written <= k) (∅ ∪ indices 1 [x62; x63] : gset Z)))
    /\ (ByteStream.input_ended (stream_out sr) = true <-> false || true = true /\ written = zlen [x61; x62; x63]).
Proof.
  destruct (push_substring (new 4) [x62; x63] 1 true) as [sr|f] eqn:E; [|vm_compute in E; discriminate].
  exists sr.
  apply (reassembler_delivers_stream [x61; x62; x63] 4 sr [] (∅ ∪ indices 1 [x62; x63]) (false || true));
    [lia|done|].
  apply (reach_push _ _ (new 4) [] ∅ false [x62; x63] 1 true sr); [constructor| | |exact E].
  - split_and!; [lia|done|reflexivity|reflexivity].
  - vm_compute. discriminate.
Defined.

(** Inside the window the reassembler never fails: in every reachable
    state each in-window fragment of [S] is accepted without a failed
    assertion, an out-of-range copy or any other fault, and so is each read. *)
Theorem reassembler_never_faults (S : list byte) (cap : Z) (sr : StreamReassembler)
    (dlv : list byte) (rcv : gset Z) (fin : bool) (data : list byte) (index : Z) (eof : bool) (len : Z) :
  0 < cap < M63 -> zlen S + 2 * cap < M64 -> reach S cap sr dlv rcv fin ->
  fragment S data index eof -> in_window sr data index -> 0 <= len < M64 ->
  (exists sr', push_substring sr data index eof = Ok sr')
  /\ (exists out, ByteStream.read (stream_out sr) len
        = Ok (ztake len (ByteStream.contents (stream_out sr)), out)).
Proof.
  intros Hcap HS Hr Hfr Hw Hlen. apply reach_inv in Hr as Hinv; [|done..]. split.
  - destruct (inv_push S cap sr dlv rcv fin Hinv HS data index eof Hfr Hw) as (sr' & E & _). eauto.
  - destruct (inv_read S cap sr dlv rcv fin len Hinv HS Hlen) as (s & out & E & -> & _). eauto.
Qed.

Lemma reassembler_never_faults_witness :
  (exists sr', push_substring (new 2) [x62] 1 true = Ok sr')
  /\ (exists out, ByteStream.read (stream_out (new 2)) 5
        = Ok (ztake 5 (ByteStream.contents (stream_out (new 2))), out)).
Proof.
  apply (reassembler_never_faults [x61; x62] 2 (new 2) [] ∅ false [x62] 1 true 5);
    [lia|done|constructor| | |lia].
  - split_and!; [lia|done|reflexivity|reflexivity].
  - vm_compute. discriminate.
Defined.

(** Data that starts beyond [bytes_written + capacity] is not discarded:
    the unsigned subtraction that computes [max_len] wraps, nothing is cut,
    and the push trips the assertion of the unassembled buffer. *)
Theorem push_beyond_window_asserts (sr : StreamReassembler) (data : list byte) (index : Z) (eof : bool) :
  wf sr -> data <> [] -> next sr + capacity_ sr < index -> index + zlen data < M64 ->
  zlen data <= M64 - (index - next sr) ->
  push_substring sr data index eof = Fail AssertionFailure.
Proof. apply push_beyond_window. Qed.

Lemma push_beyond_window_asserts_witness :
  push_substring (new 8) [x61] 9 false = Fail AssertionFailure.
Proof.
  apply push_beyond_window_asserts; [apply sr_wf_new; lia|done|reflexivity|reflexivity|vm_compute; discriminate].
Defined.

(** When the last substring does not fit the capacity, the stream is
    ended too early: the end-of-stream index is taken after cutting the data,
    so the output reports end of file although only [cap] of its bytes were
    written. *)
Theorem truncated_eof_ends_stream_early (cap : Z) (data : list byte) :
  0 < cap -> 3 * cap < M64 -> cap < zlen data -> zlen data < M64 ->
  exists sr, push_substring (new cap) data 0 true = Ok sr
    /\ ByteStream.contents (stream_out sr) = ztake cap data
    /\ ByteStream.bytes_written (stream_out sr) < zlen data
    /\ ByteStream.input_ended (stream_out sr) = true.
Proof.
  intros Hcap Hr Hl Hov.
  (* the push behaves as the push of the cut data *)
  assert (zlen (ztake cap data) = cap) as Hlt by (rewrite zlen_ztake; lia).
  pose proof (inv_new (ztake cap data) cap ltac:(lia) ltac:(lia)) as Hinv.
  assert (zlen (ztake cap data) + 2 * cap < M64) as HS by (rewrite Hlt; lia).
  destruct (inv_push _ _ _ _ _ _ Hinv HS (ztake cap data) 0 true) as (sr & E & Hi).
  { split_and!; try lia. unfold ztake at 1, zdrop. cbn. rewrite Hlt. unfold ztake.
    rewrite drop_0, take_take. f_equal. lia. }
  { unfold in_window, consumed; cbn. lia. }
  exists sr. destruct Hi as [Hwf Hc Hp Hn Hco Hpe Hrv Hs Hef Hen].
  assert (next sr = cap) as Hnx.
  { destruct (Z.eq_dec (next sr) cap) as [|Hne]; [done|exfalso].
    pose proof (next_range sr Hwf).
    assert (next sr ∈ dom (pending sr)) as Hd.
    { rewrite Hrv, elem_of_filter, elem_of_union, elem_of_indices. split; [lia|right; lia]. }
    apply elem_of_dom in Hd as [x Hx]. apply (pending_range _ _ _ _ (wf_buffer sr Hwf)) in Hx. lia. }
  split_and!.
  - rewrite <-E. unfold push_substring. cbn -[UnAssembleBuffer.push_substring].
    assert (u64 (cap - u64 (0 - 0)) = cap) as Hu.
    { change (u64 (0 - 0)) with 0. rewrite Z.sub_0_r. apply u64_small. lia. }
    pose proof (u64_range (0 + zlen data)). pose proof (u64_range (0 + zlen (ztake cap data))).
    rewrite Hu.
    destruct (Z.ltb_spec (u64 (0 + zlen data)) 0); [lia|].
    destruct (Z.ltb_spec (u64 (0 + zlen (ztake cap data))) 0); [lia|].
    destruct (Z.ltb_spec cap (zlen data)); [|lia].
    destruct (Z.ltb_spec cap (zlen (ztake cap data))); [lia|]. done.
  - rewrite app_nil_l in Hp. unfold stream_out. rewrite Hp, Hnx. unfold ztake.
    rewrite take_take. f_equal. lia.
  - unfold stream_out, ByteStream.bytes_written. fold (next sr). lia.
  - unfold stream_out, ByteStream.input_ended. rewrite Hen, Hnx, Hlt, Z.eqb_refl. done.
Qed.

Lemma truncated_eof_ends_stream_early_witness :
  exists sr, push_substring (new 2) [x61; x62; x63] 0 true = Ok sr
    /\ ByteStream.contents (stream_out sr) = ztake 2 [x61; x62; x63]
    /\ ByteStream.bytes_written (stream_out sr) < zlen [x61; x62; x63]
    /\ ByteStream.input_ended (stream_out sr) = true.
Proof. apply (truncated_eof_ends_stream_early 2 [x61; x62; x63]); try lia; reflexivity. Defined.

(** When a peer ignores the advertised window, correct fragments of its
    stream can come out corrupted: with capacity 4, the fragments "abc" at 0,
    "g" at 6 and "de" at 3 (the last one only partly accepted by the full
    output), a read of 4 bytes, and then "e" at 4 and "f" at 5 leave the
    output holding a string that is not the stream "efg". *)
Theorem window_violation_corrupts_stream :
  exists sr out sr',
    (sr1 ← push_substring (new 4) [x61; x62; x63] 0 false;
     sr2 ← push_substring sr1 [x67] 6 false;
     push_substring sr2 [x64; x65] 3 false) = Ok sr
    /\ ByteStream.read (stream_out sr) 4 = Ok ([x61; x62; x63; x64], out)
    /\ (sr4 ← push_substring (set_stream_out sr out) [x65] 4 false;
        push_substring sr4 [x66] 5 false) = Ok sr'
    /\ ByteStream.contents (stream_out sr') = [x65; x66; x64]
    /\ [x65; x66; x64] <> ztake 3 (zdrop 4 [x61; x62; x63; x64; x65; x66; x67]).
Proof.
  eexists _, _, _. split_and!; [vm_compute; reflexivity..|]. vm_compute. discriminate.
Qed.
