(* ===== verification/Buffer.v ===== *)
(** * Reference-counted strings (libsponge/util/buffer.{hh,cc})

    A [Buffer] is a shared pointer to an immutable string and a starting
    offset; the string is never written after construction, so sharing is not
    observable and the pointer is modelled by the string it owns.  A
    [BufferList] is the deque of buffers a packet is built from, a
    [BufferViewList] the deque of views handed to [writev].  Each list is
    refined against the concatenated string. *)

From Stdlib Require Import ZArith Lia.
From S2P Require Import Prelude.

(** ** Buffer *)

Record Buffer : Type := mkBuffer {
  _storage : option (list byte);
  _starting_offset : Z
}.

#[export] Instance Buffer_eq_dec : EqDecision Buffer.
Proof. solve_decision. Defined.

Definition empty_buffer : Buffer := mkBuffer None 0.
Definition of_string (s : list byte) : Buffer := mkBuffer (Some s) 0.

(** [str()]: the view that starts at the offset. *)
Definition str (b : Buffer) : list byte :=
  match _storage b with
  | None => []
  | Some s => zdrop (_starting_offset b) s
  end.

Definition size (b : Buffer) : Z := zlen (str b).
Definition copy (b : Buffer) : list byte := str b.

(** [at(n)]: [string_view::at] throws [out_of_range]. *)
Definition at_ (b : Buffer) (n : Z) : res Z :=
  if n <? zlen (str b)
  then match str b !! Z.to_nat n with Some c => Ok (b2z c) | None => Fail OutOfRange end
  else Fail OutOfRange.

Definition remove_prefix (b : Buffer) (n : Z) : res Buffer :=
  if zlen (str b) <? n then Fail OutOfRange else
  let off := u64 (_starting_offset b + n) in
  Ok match _storage b with
     | Some s => if off =? zlen s then mkBuffer None off else mkBuffer (Some s) off
     | None => mkBuffer None off
     end.

(** The offset stays inside the string it indexes; strings are smaller than
    the address space. *)
Definition buffer_wf (b : Buffer) : Prop :=
  0 <= _starting_offset b < M63
  /\ match _storage b with Some s => _starting_offset b <= zlen s < M63 | None => True end.

(** ** BufferList *)

Definition BufferList : Type := list Buffer.

Definition list_of_buffer (b : Buffer) : BufferList := [b].
Definition list_of_string (s : list byte) : BufferList := [of_string s].
Definition append (l other : BufferList) : BufferList := l ++ other.

(** [operator Buffer()] *)
Definition to_buffer (l : BufferList) : res Buffer :=
  match l with
  | [] => Ok empty_buffer
  | [b] => Ok b
  | _ => Fail RuntimeError
  end.

Fixpoint concatenate (l : BufferList) : list byte :=
  match l with
  | [] => []
  | b :: l => str b ++ concatenate l
  end.

Fixpoint list_size_from (ret : Z) (l : BufferList) : Z :=
  match l with
  | [] => ret
  | b :: l => list_size_from (u64 (ret + size b)) l
  end.
Definition list_size (l : BufferList) : Z := list_size_from 0 l.

(** The loop removes one buffer per iteration until [n] is used up, so it is
    structural in the deque. *)
Fixpoint list_remove_prefix (l : BufferList) (n : Z) : res BufferList :=
  if 0 <? n then
    match l with
    | [] => Fail OutOfRange
    | b :: l' =>
        if n <? size b then b' ← remove_prefix b n; Ok (b' :: l')
        else list_remove_prefix l' (u64 (n - size b))
    end
  else Ok l.

(** ** BufferViewList *)

Definition BufferViewList : Type := list (list byte).

Definition views_of_string (s : list byte) : BufferViewList := [s].
Definition views_of_list (l : BufferList) : BufferViewList := map str l.

Fixpoint views_remove_prefix (l : BufferViewList) (n : Z) : res BufferViewList :=
  if 0 <? n then
    match l with
    | [] => Fail OutOfRange
    | v :: l' =>
        if n <? zlen v then Ok (zdrop n v :: l')
        else views_remove_prefix l' (u64 (n - zlen v))
    end
  else Ok l.

Fixpoint views_size_from (ret : Z) (l : BufferViewList) : Z :=
  match l with
  | [] => ret
  | v :: l => views_size_from (u64 (ret + zlen v)) l
  end.
Definition views_size (l : BufferViewList) : Z := views_size_from 0 l.

(** An [iovec] is the start of a view, here the bytes found there, and its
    length. *)
Record iovec : Type := mkIovec { iov_base : list byte; iov_len : Z }.

Definition as_iovecs (l : BufferViewList) : list iovec :=
  map (fun v => mkIovec v (zlen v)) l.

(** ** Lemmas *)

Lemma str_of_string s : str (of_string s) = s.
Proof. done. Qed.

Lemma of_string_wf s : zlen s < M63 -> buffer_wf (of_string s).
Proof. split; cbn; pose proof (zlen_nonneg s); lia. Qed.

Lemma empty_buffer_wf : buffer_wf empty_buffer.
Proof. split; cbn; [lia|done]. Qed.

Lemma at_ok b n c : str b !! Z.to_nat n = Some c -> 0 <= n -> at_ b n = Ok (b2z c).
Proof.
  intros H Hn. unfold at_. apply lookup_lt_Some in H as Hl.
  rewrite H. destruct (Z.ltb_spec n (zlen (str b))); [done|]. unfold zlen in *. lia.
Qed.

Lemma zlen_str_le b : buffer_wf b -> zlen (str b) < M63.
Proof.
  intros [Ho Hs]. unfold str. destruct (_storage b); [|rewrite zlen_nil; lia].
  rewrite zlen_zdrop by lia. lia.
Qed.

Lemma remove_prefix_ok b n :
  buffer_wf b -> 0 <= n <= zlen (str b) ->
  exists b', remove_prefix b n = Ok b' /\ buffer_wf b' /\ str b' = zdrop n (str b).
Proof.
  intros [Ho Hs] Hn. unfold remove_prefix. destruct (Z.ltb_spec (zlen (str b)) n); [lia|].
  unfold str in *. destruct (_storage b) as [s|] eqn:E.
  - rewrite zlen_zdrop in * by lia. rewrite u64_small by lia.
    rewrite zdrop_zdrop by lia.
    destruct (Z.eqb_spec (_starting_offset b + n) (zlen s)) as [e|ne]; eexists; split_and!; try done.
    + split; cbn; [lia|done].
    + cbn. by rewrite e, zdrop_all.
    + split; cbn; lia.
  - rewrite zlen_nil in *. eexists; split_and!; [done| |].
    + rewrite u64_small by lia. split; cbn; [lia|done].
    + cbn. unfold zdrop. by rewrite drop_nil.
Qed.

Lemma remove_prefix_too_long b n : zlen (str b) < n -> remove_prefix b n = Fail OutOfRange.
Proof. intros. unfold remove_prefix. destruct (Z.ltb_spec (zlen (str b)) n); [done|lia]. Qed.

Lemma concatenate_app l k : concatenate (l ++ k) = concatenate l ++ concatenate k.
Proof. induction l as [|b l IH]; cbn; [done|]. by rewrite IH, app_assoc. Qed.

Lemma list_size_from_spec l : forall r,
  list_size_from (u64 r) l = u64 (r + zlen (concatenate l)).
Proof.
  induction l as [|b l IH]; intros r; cbn.
  - f_equal. rewrite zlen_nil. lia.
  - rewrite zlen_app. fold (size b). rewrite <-(IH (r + size b)) || idtac.
    replace (u64 (u64 r + size b)) with (u64 (r + size b)) by (unfold u64; by rewrite Zplus_mod_idemp_l).
    rewrite IH. f_equal. unfold size. lia.
Qed.

Lemma list_size_spec l : list_size l = u64 (zlen (concatenate l)).
Proof. unfold list_size. change 0 with (u64 0) at 1. by rewrite list_size_from_spec. Qed.

Lemma list_remove_prefix_spec l : forall n,
  Forall buffer_wf l -> 0 <= n < M64 ->
  if n <=? zlen (concatenate l)
  then exists l', list_remove_prefix l n = Ok l' /\ Forall buffer_wf l'
         /\ concatenate l' = zdrop n (concatenate l)
  else list_remove_prefix l n = Fail OutOfRange.
Proof.
  induction l as [|b l IH]; intros n Hwf Hn; cbn [list_remove_prefix concatenate].
  - rewrite zlen_nil. destruct (Z.leb_spec n 0), (Z.ltb_spec 0 n); try lia; [|done].
    exists []. split_and!; try done. by assert (n = 0) as -> by lia.
  - apply Forall_cons in Hwf as [Hb Hl]. rewrite zlen_app.
    pose proof (zlen_nonneg (concatenate l)). pose proof (zlen_nonneg (str b)).
    destruct (Z.ltb_spec 0 n); cycle 1.
    { assert (n = 0) as -> by lia. destruct (Z.leb_spec 0 (zlen (str b) + zlen (concatenate l))); [|lia].
      eexists. split_and!; [done|by constructor|done]. }
    unfold size. destruct (Z.ltb_spec n (zlen (str b))).
    + destruct (Z.leb_spec n (zlen (str b) + zlen (concatenate l))); [|lia].
      destruct (remove_prefix_ok b n Hb ltac:(lia)) as (b' & -> & Hb' & Hs). cbn.
      eexists. split_and!; [done|by constructor|]. cbn. by rewrite Hs, zdrop_app_le by lia.
    + rewrite u64_small by lia. specialize (IH (n - zlen (str b)) Hl ltac:(lia)).
      destruct (Z.leb_spec (n - zlen (str b)) (zlen (concatenate l))),
        (Z.leb_spec n (zlen (str b) + zlen (concatenate l))); try lia; [|done].
      destruct IH as (l' & -> & Hl' & Hc). eexists. split_and!; [done|done|].
      by rewrite Hc, zdrop_app_ge by lia.
Qed.

Lemma concat_views l : concat (views_of_list l) = concatenate l.
Proof. induction l as [|b l IH]; cbn; [done|]. by rewrite <-IH. Qed.

(** The two [remove_prefix] loops run in lock step. *)
Lemma views_remove_prefix_sim l : forall n,
  Forall buffer_wf l -> 0 <= n < M64 ->
  views_remove_prefix (views_of_list l) n = (l' ← list_remove_prefix l n; Ok (views_of_list l')).
Proof.
  induction l as [|b l IH]; intros n Hwf Hn; cbn [views_of_list map views_remove_prefix list_remove_prefix].
  - by destruct (0 <? n).
  - apply Forall_cons in Hwf as [Hb Hl]. destruct (Z.ltb_spec 0 n); [|done].
    unfold size. destruct (Z.ltb_spec n (zlen (str b))).
    + destruct (remove_prefix_ok b n Hb ltac:(lia)) as (b' & -> & _ & Hs). cbn. by rewrite Hs.
    + pose proof (zlen_nonneg (str b)). rewrite u64_small by lia. apply (IH (n - zlen (str b)) Hl). lia.
Qed.

Lemma views_size_from_sim l : forall r, views_size_from r (views_of_list l) = list_size_from r l.
Proof. induction l as [|b l IH]; intros r; cbn; [done|]. apply IH. Qed.

(** ** Properties *)

(** C40: a discontiguous packet behaves as the string it stands for:
    [BufferList::remove_prefix] of [n] bytes drops exactly the first [n] bytes
    of the concatenation, whatever the boundaries of the parts, and throws
    [out_of_range] exactly when [n] exceeds the size; [size] is the length of
    the concatenation, and appending concatenates. *)
Theorem buffer_list_refines_string (l k : BufferList) (n : Z) :
  Forall buffer_wf l -> 0 <= n < M64 -> zlen (concatenate l) < M64 ->
  (if n <=? list_size l
   then exists l', list_remove_prefix l n = Ok l' /\ Forall buffer_wf l'
          /\ concatenate l' = zdrop n (concatenate l)
   else list_remove_prefix l n = Fail OutOfRange)
  /\ list_size l = zlen (concatenate l)
  /\ concatenate (append l k) = concatenate l ++ concatenate k.
Proof.
  intros Hwf Hn Hl. pose proof (zlen_nonneg (concatenate l)).
  assert (list_size l = zlen (concatenate l)) as Hs by (rewrite list_size_spec; apply u64_small; lia).
  split_and!; [|done|apply concatenate_app].
  rewrite Hs. by apply list_remove_prefix_spec.
Qed.

Definition sample_packet : BufferList := [of_string [x61; x62]; empty_buffer; of_string [x63; x64; x65]].

Lemma buffer_list_refines_string_witness :
  (if 3 <=? list_size sample_packet
   then exists l', list_remove_prefix sample_packet 3 = Ok l' /\ Forall buffer_wf l'
          /\ concatenate l' = zdrop 3 (concatenate sample_packet)
   else list_remove_prefix sample_packet 3 = Fail OutOfRange)
  /\ list_size sample_packet = zlen (concatenate sample_packet)
  /\ concatenate (append sample_packet [of_string [x66]]) = concatenate sample_packet ++ [x66].
Proof.
  apply (buffer_list_refines_string sample_packet [of_string [x66]] 3); [|lia|reflexivity].
  repeat constructor; cbn; unfold zlen; cbn; lia.
Defined.

(** The views handed to [writev] agree with the buffers they were made
    from: after removing the same prefix the views are the views of the
    remaining buffers, both loops throw for the same arguments, and the
    [iovec]s list the same bytes with their lengths and the same total size. *)
Theorem buffer_views_agree (l : BufferList) (n : Z) :
  Forall buffer_wf l -> 0 <= n < M64 ->
  views_remove_prefix (views_of_list l) n = (l' ← list_remove_prefix l n; Ok (views_of_list l'))
  /\ concat (map iov_base (as_iovecs (views_of_list l))) = concatenate l
  /\ map iov_len (as_iovecs (views_of_list l)) = map size l
  /\ views_size (views_of_list l) = list_size l.
Proof.
  intros Hwf Hn. split_and!.
  - by apply views_remove_prefix_sim.
  - unfold as_iovecs. rewrite map_map. cbn. rewrite map_id. apply concat_views.
  - unfold as_iovecs, views_of_list. rewrite !map_map. done.
  - apply views_size_from_sim.
Qed.

Lemma buffer_views_agree_witness :
  views_remove_prefix (views_of_list sample_packet) 3
    = (l' ← list_remove_prefix sample_packet 3; Ok (views_of_list l'))
  /\ concat (map iov_base (as_iovecs (views_of_list sample_packet))) = concatenate sample_packet
  /\ map iov_len (as_iovecs (views_of_list sample_packet)) = map size sample_packet
  /\ views_size (views_of_list sample_packet) = list_size sample_packet.
Proof.
  apply (buffer_views_agree sample_packet 3); [|lia].
  repeat constructor; cbn; unfold zlen; cbn; lia.
Defined.
