(* ===== verification/Parser.v ===== *)
(** * Network-order integers (libsponge/util/parser.{hh,cc})

    [NetParser] consumes integers from the front of a [Buffer] and remembers
    the first-found shortage in [_error]; [NetUnparser] appends integers to a
    string.  A parsing method is a computation of the monad [M NetParser]. *)

From Stdlib Require Import ZArith Lia.
From S2P Require Import Prelude Buffer.

Inductive ParseResult : Type :=
  | NoError
  | BadChecksum
  | PacketTooShort
  | WrongIPVersion
  | HeaderTooShort
  | TruncatedPacket
  | Unsupported.

#[export] Instance ParseResult_eq_dec : EqDecision ParseResult.
Proof. solve_decision. Defined.

(** [static_cast<size_t>(r)] *)
Definition ParseResult_index (r : ParseResult) : nat :=
  match r with
  | NoError => 0 | BadChecksum => 1 | PacketTooShort => 2 | WrongIPVersion => 3
  | HeaderTooShort => 4 | TruncatedPacket => 5 | Unsupported => 6
  end.

(** The array [_names] is indexed without a bounds check. *)
Definition as_string (r : ParseResult) : res string :=
  match ["NoError"; "BadChecksum"; "PacketTooShort"; "WrongIPVersion";
         "HeaderTooShort"; "TruncatedPacket"]%string !! ParseResult_index r with
  | Some s => Ok s
  | None => Fail MemoryFault
  end.

Record NetParser : Type := mkNetParser {
  _buffer : Buffer;
  _error : ParseResult
}.

Definition net_parser (b : Buffer) : NetParser := mkNetParser b NoError.

Definition get_error (p : NetParser) : ParseResult := _error p.
Definition set_error (r : ParseResult) (p : NetParser) : NetParser := mkNetParser (_buffer p) r.
Definition error (p : NetParser) : bool := bool_decide (get_error p <> NoError).

Definition _check_size (size : Z) (p : NetParser) : NetParser :=
  if Buffer.size (_buffer p) <? size then set_error PacketTooShort p else p.

(** [for (i = 0; i < len; i++) { ret <<= 8; ret += uint8_t(_buffer.at(i)); }]
    in an unsigned type of [len] bytes; [k] iterations are left, the next one
    at index [i]. *)
Fixpoint parse_int_loop (len : nat) (b : Buffer) (k i : nat) (ret : Z) : res Z :=
  match k with
  | O => Ok ret
  | S k =>
      c ← at_ b (Z.of_nat i);
      parse_int_loop len b k (S i)
        (((Z.shiftl ret 8) mod 2 ^ (8 * Z.of_nat len) + c) mod 2 ^ (8 * Z.of_nat len))
  end.

Definition _parse_int (len : nat) : M NetParser Z := fun p =>
  let p := _check_size (Z.of_nat len) p in
  if error p then Ok (0, p) else
  ret ← parse_int_loop len (_buffer p) len 0 0;
  b ← remove_prefix (_buffer p) (Z.of_nat len);
  Ok (ret, mkNetParser b (_error p)).

Definition p_u32 : M NetParser Z := _parse_int 4.
Definition p_u16 : M NetParser Z := _parse_int 2.
Definition p_u8 : M NetParser Z := _parse_int 1.

Definition p_remove_prefix (n : Z) : M NetParser unit := fun p =>
  let p := _check_size n p in
  if error p then Ok (tt, p) else
  b ← remove_prefix (_buffer p) n;
  Ok (tt, mkNetParser b (_error p)).

(** [_unparse_int<T>(s, val)] with [sizeof(T) = len], from iteration [i] on,
    [k] iterations left. *)
Fixpoint unparse_int_loop (len : nat) (s : list byte) (val : Z) (k i : nat) : list byte :=
  match k with
  | O => s
  | S k =>
      let the_byte := Z.land (Z.shiftr val (Z.of_nat (len - i - 1) * 8)) 255 in
      unparse_int_loop len (s ++ [z2b the_byte]) val k (S i)
  end.

Definition _unparse_int (len : nat) (s : list byte) (val : Z) : list byte :=
  unparse_int_loop len s val len 0.

Definition un_u32 (s : list byte) (val : Z) : list byte := _unparse_int 4 s val.
Definition un_u16 (s : list byte) (val : Z) : list byte := _unparse_int 2 s val.
Definition un_u8 (s : list byte) (val : Z) : list byte := _unparse_int 1 s val.

(** ** Big-endian numbers *)

Fixpoint be_val (l : list byte) (acc : Z) : Z :=
  match l with
  | [] => acc
  | b :: l => be_val l (256 * acc + b2z b)
  end.

Fixpoint be_bytes (k : nat) (v : Z) : list byte :=
  match k with
  | O => []
  | S k => z2b (v / 256 ^ Z.of_nat k) :: be_bytes k v
  end.

Definition parser_wf (p : NetParser) : Prop := buffer_wf (_buffer p) /\ _error p = NoError.

Lemma zlen_be_bytes k v : zlen (be_bytes k v) = Z.of_nat k.
Proof. induction k as [|k IH]; [done|]. cbn [be_bytes]. rewrite zlen_cons, IH. lia. Qed.

Lemma be_bytes_2 v : be_bytes 2 v = [z2b (v / 256); z2b v].
Proof.
  cbn [be_bytes]. change (256 ^ Z.of_nat 1) with 256. change (256 ^ Z.of_nat 0) with 1.
  by rewrite Z.div_1_r.
Qed.

Lemma be_val_acc l : forall acc, be_val l acc = acc * 256 ^ zlen l + be_val l 0.
Proof.
  induction l as [|b l IH]; intros acc; cbn [be_val].
  - rewrite zlen_nil. lia.
  - rewrite (IH (256 * acc + b2z b)), (IH (256 * 0 + b2z b)), zlen_cons.
    pose proof (zlen_nonneg l). rewrite Z.pow_add_r by lia. lia.
Qed.

Lemma be_val_range l : 0 <= be_val l 0 < 256 ^ zlen l.
Proof.
  induction l as [|b l IH]; cbn [be_val]; [done|].
  rewrite be_val_acc, zlen_cons. pose proof (zlen_nonneg l). rewrite Z.pow_add_r by lia.
  pose proof (b2z_range b). nia.
Qed.

Lemma be_val_bytes k v : 0 <= v -> be_val (be_bytes k v) 0 = v mod 256 ^ Z.of_nat k.
Proof.
  intros Hv. induction k as [|k IH]; cbn [be_bytes be_val].
  - change (256 ^ Z.of_nat 0) with 1. by rewrite Z.mod_1_r.
  - rewrite be_val_acc, IH, zlen_be_bytes, b2z_z2b. unfold u8.
    replace (Z.of_nat (S k)) with (Z.of_nat k + 1) by lia. rewrite Z.pow_add_r by lia.
    change (256 ^ 1) with 256.
    assert (0 < 256 ^ Z.of_nat k) by (apply Z.pow_pos_nonneg; lia).
    rewrite Z.rem_mul_r by lia. lia.
Qed.

Lemma be_bytes_val l : be_bytes (length l) (be_val l 0) = l.
Proof.
  assert (forall l r, be_bytes (length l) (r * 256 ^ zlen l + be_val l 0) = l) as H.
  { clear l. induction l as [|b l IH]; intros r; cbn [be_val be_bytes length]; [done|].
    rewrite be_val_acc, zlen_cons. fold (zlen l). pose proof (zlen_nonneg l) as Hl.
    rewrite Z.pow_add_r by lia. pose proof (be_val_range l). pose proof (b2z_range b).
    f_equal.
    - replace (r * (256 ^ 1 * 256 ^ zlen l) + ((256 * 0 + b2z b) * 256 ^ zlen l + be_val l 0))
        with ((256 * r + b2z b) * 256 ^ zlen l + be_val l 0) by lia.
      rewrite Z.div_add_l, Z.div_small by lia. rewrite Z.add_0_r.
      apply b2z_inj. rewrite b2z_z2b. unfold u8.
      rewrite Z.mul_comm, Z.add_comm, Z_mod_plus_full. apply Z.mod_small. lia.
    - etrans; [|apply (IH (256 * r + b2z b))]. f_equal. lia. }
  specialize (H l 0). by rewrite Z.mul_0_l in H.
Qed.

(** ** The loops compute big-endian numbers *)

Lemma unparse_int_loop_spec len val k : forall i s,
  (i + k = len)%nat -> unparse_int_loop len s val k i = s ++ be_bytes k val.
Proof.
  induction k as [|k IH]; intros i s Hi; cbn [unparse_int_loop be_bytes].
  - by rewrite app_nil_r.
  - rewrite IH by lia. rewrite <-app_assoc. cbn. do 2 f_equal. apply b2z_inj. rewrite !b2z_z2b.
    replace (len - i - 1)%nat with k by lia.
    rewrite Z.shiftr_div_pow2 by lia. change 255 with (Z.ones 8). rewrite Z.land_ones by lia.
    rewrite Z.mul_comm, Z.pow_mul_r by lia. change (2 ^ 8) with 256.
    unfold u8. by rewrite Z.mod_mod by lia.
Qed.

Lemma unparse_int_spec len s val : _unparse_int len s val = s ++ be_bytes len val.
Proof. by apply unparse_int_loop_spec. Qed.

Lemma parse_int_loop_spec len b k : forall i ret bs rest,
  drop i (str b) = bs ++ rest -> length bs = k -> 0 <= ret -> ret * 256 ^ Z.of_nat k < 256 ^ Z.of_nat len ->
  (k <= len)%nat ->
  parse_int_loop len b k i ret = Ok (be_val bs ret).
Proof.
  induction k as [|k IH]; intros i ret bs rest Hd Hl Hr Hb Hk; cbn [parse_int_loop].
  - destruct bs; done.
  - destruct bs as [|c bs]; [done|]. cbn in Hl.
    assert (str b !! i = Some c) as Hc.
    { rewrite <-(Nat.add_0_r i), <-lookup_drop, Hd. done. }
    rewrite (at_ok b (Z.of_nat i) c) by (rewrite ?Nat2Z.id; done || lia). rewrite bind_Ok_l.
    replace (2 ^ (8 * Z.of_nat len)) with (256 ^ Z.of_nat len)
      by (rewrite Z.pow_mul_r by lia; done).
    replace (256 ^ Z.of_nat (S k)) with (256 * 256 ^ Z.of_nat k) in Hb
      by (rewrite Nat2Z.inj_succ, Z.pow_succ_r by lia; done).
    rewrite Z.shiftl_mul_pow2 by lia. change (2 ^ 8) with 256. pose proof (b2z_range c).
    assert (256 ^ Z.of_nat k > 0) by (apply Z.lt_gt, Z.pow_pos_nonneg; lia).
    assert (256 ^ Z.of_nat len = 256 ^ Z.of_nat k * (256 * 256 ^ Z.of_nat (len - S k))) as Hle.
    { replace (Z.of_nat len) with (Z.of_nat k + (1 + Z.of_nat (len - S k))) by lia.
      rewrite !Z.pow_add_r by lia. lia. }
    assert (ret * 256 + 256 <= 256 * 256 ^ Z.of_nat (len - S k)) as Hs.
    { assert (ret < 256 ^ Z.of_nat (len - S k)); nia. }
    assert (256 * 256 ^ Z.of_nat (len - S k) <= 256 ^ Z.of_nat len) by nia.
    rewrite (Z.mod_small (ret * 256)) by lia. rewrite Z.mod_small by lia.
    cbn [be_val]. rewrite (Z.mul_comm 256 ret).
    apply (IH (S i) _ bs rest); [|lia|lia| |lia].
    + replace (S i) with (i + 1)%nat by lia. rewrite <-drop_drop, Hd. done.
    + nia.
Qed.

Lemma error_false p : _error p = NoError -> error p = false.
Proof. intros H. unfold error, get_error. rewrite H. reflexivity. Qed.

Lemma error_true p : _error p <> NoError -> error p = true.
Proof. intros H. unfold error, get_error. by apply bool_decide_eq_true. Qed.

Lemma check_size_ok n p : n <= zlen (str (_buffer p)) -> _check_size n p = p.
Proof. intros. unfold _check_size, size. destruct (Z.ltb_spec (zlen (str (_buffer p))) n); [lia|done]. Qed.

Lemma check_size_short n p :
  zlen (str (_buffer p)) < n -> _check_size n p = mkNetParser (_buffer p) PacketTooShort.
Proof. intros. unfold _check_size, size. destruct (Z.ltb_spec (zlen (str (_buffer p))) n); [done|lia]. Qed.

(** Enough data: the integer is read and removed. *)
Lemma parse_int_ok len p bs rest :
  parser_wf p -> str (_buffer p) = bs ++ rest -> length bs = len ->
  exists p', _parse_int len p = Ok (be_val bs 0, p') /\ parser_wf p' /\ str (_buffer p') = rest.
Proof.
  intros [Hb He] Hs Hl. unfold _parse_int.
  assert (Z.of_nat len <= zlen (str (_buffer p))).
  { rewrite Hs, zlen_app. pose proof (zlen_nonneg rest). unfold zlen. lia. }
  rewrite check_size_ok, error_false by done.
  rewrite (parse_int_loop_spec len _ len 0 0 bs rest)
    by first [done | lia | rewrite Z.mul_0_l; apply Z.pow_pos_nonneg; lia].
  cbn. destruct (remove_prefix_ok (_buffer p) (Z.of_nat len) Hb ltac:(lia)) as (b' & -> & Hb' & Hs').
  cbn. eexists. split_and!; [done|by split|]. cbn. rewrite Hs', Hs.
  apply zdrop_app_exact. unfold zlen. lia.
Qed.

(** Not enough data, or an earlier shortage: 0 is returned, nothing is removed
    and the error stays. *)
Lemma parse_int_short len p :
  zlen (str (_buffer p)) < Z.of_nat len \/ _error p <> NoError ->
  exists r, r <> NoError /\ _parse_int len p = Ok (0, mkNetParser (_buffer p) r).
Proof.
  intros H. unfold _parse_int.
  destruct (Z.lt_ge_cases (zlen (str (_buffer p))) (Z.of_nat len)).
  - rewrite check_size_short by done. exists PacketTooShort. done.
  - rewrite check_size_ok by done. destruct H as [H|H]; [lia|]. rewrite error_true by done.
    exists (_error p). by destruct p.
Qed.

Lemma p_remove_prefix_ok p n :
  parser_wf p -> 0 <= n <= zlen (str (_buffer p)) ->
  exists p', p_remove_prefix n p = Ok (tt, p') /\ parser_wf p' /\ str (_buffer p') = zdrop n (str (_buffer p)).
Proof.
  intros [Hb He] Hn. unfold p_remove_prefix. rewrite check_size_ok, error_false by (done || lia).
  destruct (remove_prefix_ok (_buffer p) n Hb Hn) as (b' & -> & Hb' & Hs').
  cbn. eexists. split_and!; [done|by split|done].
Qed.

Lemma p_remove_prefix_short p n :
  zlen (str (_buffer p)) < n \/ _error p <> NoError ->
  exists r, r <> NoError /\ p_remove_prefix n p = Ok (tt, mkNetParser (_buffer p) r).
Proof.
  intros H. unfold p_remove_prefix. destruct (Z.lt_ge_cases (zlen (str (_buffer p))) n).
  - rewrite check_size_short by done. exists PacketTooShort. done.
  - rewrite check_size_ok by done. destruct H as [H|H]; [lia|]. rewrite error_true by done.
    exists (_error p). by destruct p.
Qed.

(** ** Stepping through a sequence of fields *)

Lemma split_be (len : nat) (l : list byte) :
  Z.of_nat len <= zlen l ->
  exists v rest, l = be_bytes len v ++ rest /\ 0 <= v < 256 ^ Z.of_nat len.
Proof.
  intros H. exists (be_val (take len l) 0), (drop len l).
  assert (length (take len l) = len) as Hl by (rewrite length_take; unfold zlen in H; lia).
  split.
  - rewrite <-Hl at 1. by rewrite be_bytes_val, take_drop.
  - pose proof (be_val_range (take len l)) as Hr. unfold zlen in Hr. by rewrite Hl in Hr.
Qed.

(** The value [v] is in front. *)
Lemma bind_parse_int {A} (len : nat) (k : Z -> M NetParser A) (p : NetParser) v rest :
  parser_wf p -> str (_buffer p) = be_bytes len v ++ rest -> 0 <= v < 256 ^ Z.of_nat len ->
  exists p', (_parse_int len ≫= k) p = k v p' /\ parser_wf p' /\ str (_buffer p') = rest.
Proof.
  intros Hw Hs Hv.
  destruct (parse_int_ok len p (be_bytes len v) rest Hw Hs) as (p' & Hp & Hw' & Hs').
  { apply Nat2Z.inj. apply zlen_be_bytes. }
  exists p'. split_and!; [|done|done].
  rewrite (M_bind_Ok _ _ _ _ _ Hp), be_val_bytes, Z.mod_small by lia. done.
Qed.

(** No data is left, or a shortage was found before. *)
Lemma bind_parse_int_short {A} (len : nat) (k : Z -> M NetParser A) (p : NetParser) :
  zlen (str (_buffer p)) < Z.of_nat len ->
  (_parse_int len ≫= k) p = k 0 (mkNetParser (_buffer p) PacketTooShort).
Proof.
  intros H. apply M_bind_Ok. unfold _parse_int. by rewrite check_size_short.
Qed.

Lemma bind_parse_int_failed {A} (len : nat) (k : Z -> M NetParser A) b :
  (_parse_int len ≫= k) (mkNetParser b PacketTooShort) = k 0 (mkNetParser b PacketTooShort).
Proof.
  apply M_bind_Ok. unfold _parse_int, _check_size, set_error; cbn. by destruct (_ <? _).
Qed.

Lemma bind_remove_prefix {A} n (k : unit -> M NetParser A) (p : NetParser) :
  parser_wf p -> 0 <= n <= zlen (str (_buffer p)) ->
  exists p', (p_remove_prefix n ≫= k) p = k tt p' /\ parser_wf p'
    /\ str (_buffer p') = zdrop n (str (_buffer p)).
Proof.
  intros Hw Hn. destruct (p_remove_prefix_ok p n Hw Hn) as (p' & Hp & ? & ?).
  exists p'. split_and!; [|done|done]. by apply M_bind_Ok.
Qed.

Lemma bind_remove_prefix_short {A} n (k : unit -> M NetParser A) (p : NetParser) :
  zlen (str (_buffer p)) < n ->
  (p_remove_prefix n ≫= k) p = k tt (mkNetParser (_buffer p) PacketTooShort).
Proof. intros H. apply M_bind_Ok. unfold p_remove_prefix. by rewrite check_size_short. Qed.

Lemma bind_remove_prefix_failed {A} n (k : unit -> M NetParser A) b :
  (p_remove_prefix n ≫= k) (mkNetParser b PacketTooShort) = k tt (mkNetParser b PacketTooShort).
Proof.
  apply M_bind_Ok. unfold p_remove_prefix, _check_size, set_error; cbn. by destruct (_ <? _).
Qed.

Lemma bind_get_state {A} (k : NetParser -> M NetParser A) p : (get_state ≫= k) p = k p p.
Proof. done. Qed.

Lemma bind_ret {S A B} (a : A) (k : A -> M S B) (s : S) : (mret a ≫= k) s = k a s.
Proof. done. Qed.

(** [parse_step]: run the next field of a goal about [(field ≫= k) p], given
    what the buffer of [p] starts with. *)
Ltac parse_step :=
  unfold p_u8, p_u16, p_u32;
  lazymatch goal with
  | Hw : parser_wf ?p, Hs : str (_buffer ?p) = be_bytes ?len ?v ++ ?rest
    |- context [mbind ?k (_parse_int ?len) ?p] =>
      let p' := fresh "p" in let E := fresh "E" in
      let w := eval vm_compute in (256 ^ Z.of_nat len) in
      destruct (bind_parse_int len k p v rest Hw Hs) as (p' & E & ? & ?);
      [change (256 ^ Z.of_nat len) with w; lia|];
      rewrite E; clear E Hw Hs
  end; cbv beta.

(** [parse_any v]: the next field of an arbitrary input, either read as [v]
    or found missing, which leaves all the following ones missing. *)
Ltac parse_any v :=
  unfold p_u8, p_u16, p_u32;
  lazymatch goal with
  | Hw : parser_wf ?p |- context [mbind ?k (_parse_int ?len) ?p] =>
      destruct (Z.lt_ge_cases (zlen (str (_buffer p))) (Z.of_nat len));
      [rewrite bind_parse_int_short by assumption; cbv beta; rewrite ?bind_parse_int_failed; cbv beta
      |let r := fresh "rest" in let Hr := fresh "Hr" in
       destruct (split_be len (str (_buffer p))) as (v & r & Hr & ?); [lia|];
       assert (zlen (str (_buffer p)) = Z.of_nat len + zlen r)
         by (rewrite Hr, zlen_app, zlen_be_bytes; done);
       parse_step; subst r]
  end.

(** [split_next len v l r]: read [l] as a field [v] of [len] bytes and a rest [r]. *)
Ltac split_next len v l r :=
  let Hr := fresh "Hr" in
  destruct (split_be len l) as (v & r & -> & Hr); [lia|];
  match goal with Hl : _ <= zlen (be_bytes _ _ ++ _) |- _ =>
    rewrite zlen_app, zlen_be_bytes in Hl;
    apply Z.le_sub_le_add_l in Hl end;
  match type of Hr with _ <= _ < ?w => let w' := eval vm_compute in w in change w with w' in Hr end.

(** ** Properties *)

(** Integers survive the wire: an integer of [len] bytes appended by
    [NetUnparser] and parsed back by [NetParser] gives the same value and
    leaves exactly the bytes that followed; when fewer than [len] bytes are
    left the parser throws nothing, returns 0, removes nothing and reports
    [PacketTooShort]. *)
Theorem net_int_roundtrip (len : nat) (v : Z) (rest : list byte) (p : NetParser) :
  0 <= v < 256 ^ Z.of_nat len -> parser_wf p ->
  (str (_buffer p) = _unparse_int len [] v ++ rest ->
     exists p', _parse_int len p = Ok (v, p') /\ parser_wf p' /\ str (_buffer p') = rest)
  /\ (zlen (str (_buffer p)) < Z.of_nat len ->
     _parse_int len p = Ok (0, mkNetParser (_buffer p) PacketTooShort)).
Proof.
  intros Hv Hw. split.
  - rewrite unparse_int_spec. cbn [app]. intros Hs.
    destruct (parse_int_ok len p (be_bytes len v) rest Hw Hs) as (p' & Hp & Hw' & Hs').
    { apply Nat2Z.inj. apply zlen_be_bytes. }
    exists p'. split_and!; [|done|done]. rewrite Hp, be_val_bytes, Z.mod_small by lia. done.
  - intros H. unfold _parse_int. by rewrite check_size_short.
Qed.

Lemma net_int_roundtrip_witness :
  (str (of_string [x12; x34; x56]) = _unparse_int 2 [] 4660 ++ [x56] ->
     exists p', _parse_int 2 (net_parser (of_string [x12; x34; x56])) = Ok (4660, p')
       /\ parser_wf p' /\ str (_buffer p') = [x56])
  /\ (zlen (str (of_string [x12; x34; x56])) < Z.of_nat 2 ->
     _parse_int 2 (net_parser (of_string [x12; x34; x56]))
     = Ok (0, mkNetParser (of_string [x12; x34; x56]) PacketTooShort)).
Proof.
  apply (net_int_roundtrip 2 4660 [x56] (net_parser (of_string [x12; x34; x56]))); [cbn; lia|].
  split; [|reflexivity]. split; cbn; unfold zlen; cbn; lia.
Defined.

(** [as_string] names every result but [Unsupported], for which it reads
    past the end of its table of names. *)
Theorem as_string_unsupported (r : ParseResult) :
  as_string r = Fail MemoryFault <-> r = Unsupported.
Proof. by destruct r. Qed.
