(* ===== verification/Checksum.v ===== *)
(** * The Internet checksum (class InternetChecksum of libsponge/util/util.{hh,cc})

    The running sum is a [uint32_t] and wraps; [value] folds it to 16 bits and
    complements it.  The specification is arithmetic modulo 65535 (one's
    complement addition). *)

From Stdlib Require Import ZArith Lia.
From S2P Require Import Prelude.

Record InternetChecksum : Type := mkInternetChecksum {
  _sum : Z;
  _parity : bool
}.

Definition internet_checksum (initial_sum : Z) : InternetChecksum :=
  mkInternetChecksum initial_sum false.

(** One iteration of the loop of [add]. *)
Definition add_byte (c : InternetChecksum) (b : byte) : InternetChecksum :=
  let val := if _parity c then b2z b else u16 (Z.shiftl (b2z b) 8) in
  mkInternetChecksum (u32 (_sum c + val)) (negb (_parity c)).

Definition add (c : InternetChecksum) (data : list byte) : InternetChecksum :=
  foldl add_byte c data.

(** [while (ret > 0xffff) ret = (ret >> 16) + (ret & 0xffff);] *)
Fixpoint fold_sum (fuel : nat) (ret : Z) : option Z :=
  if 65535 <? ret then
    match fuel with
    | O => None
    | S fuel => fold_sum fuel (u32 (Z.shiftr ret 16 + Z.land ret 65535))
    end
  else Some ret.

(** Two iterations are enough for any [uint32_t] ([fold_sum_terminates]). *)
Definition value (c : InternetChecksum) : Z :=
  match fold_sum 2 (_sum c) with
  | Some ret => u16 (Z.lnot ret)
  | None => 0
  end.

(** ** Specification *)

(** The sum of the bytes as 16-bit words, most significant byte first;
    [odd] when the first byte is the second half of a word. *)
Fixpoint word_sum (odd : bool) (l : list byte) : Z :=
  match l with
  | [] => 0
  | b :: l => (if odd then b2z b else 256 * b2z b) + word_sum (negb odd) l
  end.

(** One's complement normal form of a sum. *)
Definition ones_complement (s : Z) : Z :=
  if s =? 0 then 0 else (s - 1) mod 65535 + 1.

Definition ends_odd (odd : bool) (l : list byte) : bool := xorb odd (Nat.odd (length l)).

Lemma word_sum_nonneg odd l : 0 <= word_sum odd l.
Proof.
  revert odd. induction l as [|b l IH]; intros odd; cbn; [lia|].
  specialize (IH (negb odd)). pose proof (b2z_range b). destruct odd; lia.
Qed.

Lemma word_sum_bound l : forall odd, word_sum odd l <= 65280 * zlen l.
Proof.
  induction l as [|b l IH]; intros odd; cbn [word_sum]; [done|].
  rewrite zlen_cons. specialize (IH (negb odd)). pose proof (b2z_range b). destruct odd; lia.
Qed.

Lemma word_sum_app l k : forall odd,
  word_sum odd (l ++ k) = word_sum odd l + word_sum (ends_odd odd l) k.
Proof.
  induction l as [|b l IH]; intros odd; cbn [word_sum app].
  - unfold ends_odd. cbn. by rewrite xorb_false_r.
  - rewrite IH. unfold ends_odd. cbn [length]. rewrite Nat.odd_succ, <-Nat.negb_odd.
    replace (xorb (negb odd) (Nat.odd (length l))) with (xorb odd (negb (Nat.odd (length l))))
      by (destruct odd, (Nat.odd (length l)); done).
    lia.
Qed.

Lemma add_spec l : forall s odd,
  0 <= s -> s + word_sum odd l < M32 ->
  add (mkInternetChecksum s odd) l = mkInternetChecksum (s + word_sum odd l) (ends_odd odd l).
Proof.
  induction l as [|b l IH]; intros s odd Hs Hb; cbn [add foldl word_sum].
  - unfold ends_odd. cbn. by rewrite xorb_false_r, Z.add_0_r.
  - cbn [word_sum] in Hb. pose proof (word_sum_nonneg (negb odd) l). pose proof (b2z_range b).
    unfold add_byte at 2; cbn [_sum _parity].
    rewrite Z.shiftl_mul_pow2 by lia. change (2 ^ 8) with 256.
    assert (u32 (s + (if odd then b2z b else u16 (b2z b * 256)))
            = s + (if odd then b2z b else 256 * b2z b)) as ->.
    { rewrite u16_small by lia. rewrite u32_small by (destruct odd; lia). destruct odd; lia. }
    fold (add (mkInternetChecksum (s + (if odd then b2z b else 256 * b2z b)) (negb odd)) l).
    rewrite IH by (destruct odd; lia). f_equal; [lia|].
    unfold ends_odd. cbn [length]. rewrite Nat.odd_succ, <-Nat.negb_odd.
    by destruct odd, (Nat.odd (length l)).
Qed.

Lemma fold_step ret : 0 <= ret < M32 ->
  u32 (Z.shiftr ret 16 + Z.land ret 65535) = ret / 65536 + ret mod 65536.
Proof.
  intros H. rewrite Z.shiftr_div_pow2 by lia. change 65535 with (Z.ones 16).
  rewrite Z.land_ones by lia. change (2 ^ 16) with 65536. wrap_lia.
Qed.

(** The loop terminates within two iterations, with the one's complement sum. *)
Lemma fold_sum_terminates ret : 0 <= ret < M32 -> fold_sum 2 ret = Some (ones_complement ret).
Proof.
  intros H. unfold fold_sum, ones_complement.
  destruct (Z.ltb_spec 65535 ret); cycle 1.
  { destruct (Z.eqb_spec ret 0) as [->|]; [done|]. f_equal. rewrite Z.mod_small by lia. lia. }
  rewrite fold_step by lia. destruct (Z.eqb_spec ret 0); [lia|].
  set (r1 := ret / 65536 + ret mod 65536).
  assert (0 < r1 <= 131070 /\ exists k, ret = r1 + 65535 * k) as [Hr1 [k Hk]].
  { subst r1. split; [Z.to_euclidean_division_equations; lia|].
    exists (ret / 65536). Z.to_euclidean_division_equations; lia. }
  assert ((ret - 1) mod 65535 = (r1 - 1) mod 65535) as ->.
  { rewrite Hk. replace (r1 + 65535 * k - 1) with (r1 - 1 + k * 65535) by lia.
    apply Z_mod_plus_full. }
  destruct (Z.ltb_spec 65535 r1).
  - rewrite fold_step by lia.
    assert (r1 / 65536 + r1 mod 65536 = (r1 - 1) mod 65535 + 1) as E
      by (Z.to_euclidean_division_equations; lia).
    rewrite E. pose proof (Z.mod_pos_bound (r1 - 1) 65535 ltac:(lia)).
    destruct (Z.ltb_spec 65535 ((r1 - 1) mod 65535 + 1)); [lia|done].
  - f_equal. rewrite Z.mod_small by lia. lia.
Qed.

Lemma ones_complement_range s : 0 <= s -> 0 <= ones_complement s <= 65535.
Proof.
  intros. unfold ones_complement. destruct (s =? 0); [lia|].
  pose proof (Z.mod_pos_bound (s - 1) 65535 ltac:(lia)). lia.
Qed.

Lemma value_spec c : 0 <= _sum c < M32 -> value c = 65535 - ones_complement (_sum c).
Proof.
  intros H. unfold value. rewrite fold_sum_terminates by done.
  pose proof (ones_complement_range (_sum c) ltac:(lia)).
  unfold Z.lnot. wrap_lia.
Qed.

(** The checksum verifies when the sum is a positive multiple of 65535. *)
Lemma value_zero c : 0 <= _sum c < M32 ->
  value c = 0 <-> 0 < _sum c /\ _sum c mod 65535 = 0.
Proof.
  intros H. rewrite value_spec by done. unfold ones_complement.
  destruct (Z.eqb_spec (_sum c) 0) as [E|E]; [rewrite E; cbn; lia|].
  Z.to_euclidean_division_equations; lia.
Qed.

(** [add]ing a list in two parts is adding it at once. *)
Lemma add_app c l k : add (add c l) k = add c (l ++ k).
Proof. unfold add. by rewrite foldl_app. Qed.

(** The checksum of a packet is computed with a zero in its place and stored
    there (at an even offset): the packet then verifies. *)
Lemma checksum_verifies init (pre post : list byte) ck :
  0 <= init -> Nat.even (length pre) = true ->
  init + word_sum false pre + word_sum false post + 65535 < M32 ->
  ck = 65535 - ones_complement (init + word_sum false (pre ++ x00 :: x00 :: post)) ->
  0 <= ck <= 65535 /\
  init + word_sum false (pre ++ z2b (ck / 256) :: z2b ck :: post) < M32 /\
  value (add (internet_checksum init) (pre ++ z2b (ck / 256) :: z2b ck :: post)) = 0.
Proof.
  intros Hi Heven Hb Hck.
  assert (ends_odd false pre = false) as Ho.
  { unfold ends_odd. rewrite <-Nat.negb_even, Heven. done. }
  pose proof (word_sum_nonneg false pre). pose proof (word_sum_nonneg false post).
  rewrite word_sum_app, Ho in Hck. cbn [word_sum negb] in Hck. change (b2z x00) with 0 in Hck.
  set (s := init + word_sum false pre + word_sum false post) in *.
  replace (init + (word_sum false pre + (256 * 0 + (0 + word_sum false post)))) with s in Hck by (subst s; lia).
  pose proof (ones_complement_range s ltac:(lia)).
  assert (word_sum false (pre ++ z2b (ck / 256) :: z2b ck :: post)
          = word_sum false pre + word_sum false post + ck) as Hs.
  { rewrite word_sum_app, Ho. cbn [word_sum negb]. rewrite !b2z_z2b. wrap_lia. }
  split_and!; [lia|lia|lia|].
  unfold internet_checksum. rewrite add_spec by lia. apply value_zero; cbn; [lia|].
  rewrite Hs. unfold ones_complement in Hck.
  replace (init + (word_sum false pre + word_sum false post + ck)) with (s + ck) by (subst s; lia).
  assert (0 <= s) as Hs0 by lia. clearbody s. clear -Hck Hs0.
  destruct (Z.eqb_spec s 0); Z.to_euclidean_division_equations; lia.
Qed.

(** ** Properties *)

(** C38: the loop of [value] always ends and [value] is the complement of the
    one's complement sum of the 16-bit words added, in whatever pieces the
    data was added; data of odd length is padded with a zero byte. *)
Theorem checksum_value (init : Z) (l k : list byte) :
  0 <= init -> init + word_sum false (l ++ k) < M32 ->
  value (add (add (internet_checksum init) l) k)
    = 65535 - ones_complement (init + word_sum false (l ++ k))
  /\ fold_sum 2 (init + word_sum false (l ++ k))
     = Some (ones_complement (init + word_sum false (l ++ k))).
Proof.
  intros Hi Hb. pose proof (word_sum_nonneg false (l ++ k)). split.
  - rewrite add_app. unfold internet_checksum. rewrite add_spec by done.
    apply value_spec. cbn. lia.
  - apply fold_sum_terminates. lia.
Qed.

Lemma checksum_value_witness :
  value (add (add (internet_checksum 6) [xff]) [x02; x80])
    = 65535 - ones_complement (6 + word_sum false ([xff] ++ [x02; x80]))
  /\ fold_sum 2 (6 + word_sum false ([xff] ++ [x02; x80]))
     = Some (ones_complement (6 + word_sum false ([xff] ++ [x02; x80]))).
Proof. apply (checksum_value 6 [xff] [x02; x80]); [lia|vm_compute; done]. Defined.

(** C39: any corruption of a single byte of a packet that verifies is
    detected, wherever it is. *)
Theorem single_byte_corruption_detected (init : Z) (pre post : list byte) (b b' : byte) :
  0 <= init -> init + 65280 * zlen (pre ++ b :: post) < M32 ->
  value (add (internet_checksum init) (pre ++ b :: post)) = 0 -> b <> b' ->
  value (add (internet_checksum init) (pre ++ b' :: post)) <> 0.
Proof.
  intros Hi Hb Hv Hne Hv'.
  pose proof (word_sum_bound (pre ++ b :: post) false). pose proof (word_sum_bound (pre ++ b' :: post) false).
  rewrite zlen_app, zlen_cons in *.
  pose proof (word_sum_nonneg false (pre ++ b :: post)). pose proof (word_sum_nonneg false (pre ++ b' :: post)).
  unfold internet_checksum in *. rewrite add_spec in Hv, Hv' by lia.
  apply value_zero in Hv as [_ Hv]; [|cbn; lia]. apply value_zero in Hv' as [_ Hv']; [|cbn; lia].
  cbn [_sum] in *. rewrite word_sum_app in Hv, Hv'. cbn [word_sum] in *.
  assert (b2z b <> b2z b') as Hz by (intros ?%b2z_inj; done).
  pose proof (b2z_range b). pose proof (b2z_range b').
  destruct (ends_odd false pre); Z.to_euclidean_division_equations; lia.
Qed.

Lemma single_byte_corruption_detected_witness :
  value (add (internet_checksum 0) ([xff] ++ xfe :: [x00; x01])) = 0
  /\ value (add (internet_checksum 0) ([xff] ++ x7f :: [x00; x01])) <> 0.
Proof.
  assert (value (add (internet_checksum 0) ([xff] ++ xfe :: [x00; x01])) = 0) as H by reflexivity.
  split; [exact H|].
  apply (single_byte_corruption_detected 0 [xff] [x00; x01] xfe x7f);
    [lia|vm_compute; reflexivity|exact H|discriminate].
Defined.
