(* ===== verification/TCPHeader.v ===== *)
(** * The TCP header (libsponge/tcp_helpers/tcp_header.{hh,cc}) *)

From Stdlib Require Import ZArith Lia.
From S2P Require Import Prelude WrappingIntegers Buffer Parser.

Definition LENGTH : Z := 20.

Record TCPHeader : Type := mkTCPHeader {
  sport : Z;
  dport : Z;
  seqno : WrappingInt32;
  ackno : WrappingInt32;
  doff : Z;
  urg : bool;
  ack : bool;
  psh : bool;
  rst : bool;
  syn : bool;
  fin : bool;
  win : Z;
  cksum : Z;
  uptr : Z
}.

#[export] Instance TCPHeader_eq_dec : EqDecision TCPHeader.
Proof. solve_decision. Defined.

(** The default member initialisers. *)
Definition tcp_header_default : TCPHeader :=
  mkTCPHeader 0 0 (WrappingInt32_of 0) (WrappingInt32_of 0) (LENGTH / 4)
    false false false false false false 0 0 0.

(** Assignments to single members. *)
Definition set_sport (v : Z) (h : TCPHeader) : TCPHeader :=
  mkTCPHeader v (dport h) (seqno h) (ackno h) (doff h) (urg h) (ack h) (psh h) (rst h)
    (syn h) (fin h) (win h) (cksum h) (uptr h).
Definition set_dport (v : Z) (h : TCPHeader) : TCPHeader :=
  mkTCPHeader (sport h) v (seqno h) (ackno h) (doff h) (urg h) (ack h) (psh h) (rst h)
    (syn h) (fin h) (win h) (cksum h) (uptr h).
Definition set_seqno (v : WrappingInt32) (h : TCPHeader) : TCPHeader :=
  mkTCPHeader (sport h) (dport h) v (ackno h) (doff h) (urg h) (ack h) (psh h) (rst h)
    (syn h) (fin h) (win h) (cksum h) (uptr h).
Definition set_ackno (v : WrappingInt32) (h : TCPHeader) : TCPHeader :=
  mkTCPHeader (sport h) (dport h) (seqno h) v (doff h) (urg h) (ack h) (psh h) (rst h)
    (syn h) (fin h) (win h) (cksum h) (uptr h).
Definition set_ack (v : bool) (h : TCPHeader) : TCPHeader :=
  mkTCPHeader (sport h) (dport h) (seqno h) (ackno h) (doff h) (urg h) v (psh h) (rst h)
    (syn h) (fin h) (win h) (cksum h) (uptr h).
Definition set_rst (v : bool) (h : TCPHeader) : TCPHeader :=
  mkTCPHeader (sport h) (dport h) (seqno h) (ackno h) (doff h) (urg h) (ack h) (psh h) v
    (syn h) (fin h) (win h) (cksum h) (uptr h).
Definition set_syn (v : bool) (h : TCPHeader) : TCPHeader :=
  mkTCPHeader (sport h) (dport h) (seqno h) (ackno h) (doff h) (urg h) (ack h) (psh h) (rst h)
    v (fin h) (win h) (cksum h) (uptr h).
Definition set_fin (v : bool) (h : TCPHeader) : TCPHeader :=
  mkTCPHeader (sport h) (dport h) (seqno h) (ackno h) (doff h) (urg h) (ack h) (psh h) (rst h)
    (syn h) v (win h) (cksum h) (uptr h).
Definition set_win (v : Z) (h : TCPHeader) : TCPHeader :=
  mkTCPHeader (sport h) (dport h) (seqno h) (ackno h) (doff h) (urg h) (ack h) (psh h) (rst h)
    (syn h) (fin h) v (cksum h) (uptr h).
Definition set_cksum (v : Z) (h : TCPHeader) : TCPHeader :=
  mkTCPHeader (sport h) (dport h) (seqno h) (ackno h) (doff h) (urg h) (ack h) (psh h) (rst h)
    (syn h) (fin h) (win h) v (uptr h).

(** [static_cast<bool>(v & mask)] *)
Definition has_bit (v mask : Z) : bool := negb (Z.land v mask =? 0).

(** Every member is assigned whatever the data; the two results come after. *)
Definition parse : M NetParser (ParseResult * TCPHeader) :=
  sport ← p_u16;
  dport ← p_u16;
  seq ← p_u32;
  ackn ← p_u32;
  off ← p_u8;
  fl_b ← p_u8;
  win ← p_u16;
  cksum ← p_u16;
  uptr ← p_u16;
  let doff := Z.shiftr off 4 in
  let h := mkTCPHeader sport dport (WrappingInt32_of seq) (WrappingInt32_of ackn) doff
    (has_bit fl_b 32) (has_bit fl_b 16) (has_bit fl_b 8) (has_bit fl_b 4)
    (has_bit fl_b 2) (has_bit fl_b 1) win cksum uptr in
  if doff <? 5 then mret (HeaderTooShort, h) else
  p_remove_prefix (doff * 4 - LENGTH) ;;
  p ← get_state;
  if error p then mret (get_error p, h) else mret (NoError, h).

Definition flags (h : TCPHeader) : Z :=
  Z.lor (Z.lor (Z.lor (Z.lor (Z.lor
    (if urg h then 32 else 0) (if ack h then 16 else 0)) (if psh h then 8 else 0))
    (if rst h then 4 else 0)) (if syn h then 2 else 0)) (if fin h then 1 else 0).

Definition serialize (h : TCPHeader) : res (list byte) :=
  if doff h <? 5 then Fail RuntimeError else
  let ret := [] in
  let ret := un_u16 ret (sport h) in
  let ret := un_u16 ret (dport h) in
  let ret := un_u32 ret (raw_value (seqno h)) in
  let ret := un_u32 ret (raw_value (ackno h)) in
  let ret := un_u8 ret (u8 (Z.shiftl (doff h) 4)) in
  let ret := un_u8 ret (u8 (flags h)) in
  let ret := un_u16 ret (win h) in
  let ret := un_u16 ret (cksum h) in
  let ret := un_u16 ret (uptr h) in
  Ok (resize (4 * doff h) ret).

(** [operator==] ignores the ports and the checksum. *)
Definition header_eqb (a b : TCPHeader) : bool :=
  wi_eqb (seqno a) (seqno b) && wi_eqb (ackno a) (ackno b) && (doff a =? doff b)
  && eqb (urg a) (urg b) && eqb (ack a) (ack b) && eqb (psh a) (psh b) && eqb (rst a) (rst b)
  && eqb (syn a) (syn b) && eqb (fin a) (fin b) && (win a =? win b) && (uptr a =? uptr b).

(** Members within their C++ types. *)
Record header_ok (h : TCPHeader) : Prop := {
  ok_sport : 0 <= sport h < M16;
  ok_dport : 0 <= dport h < M16;
  ok_seqno : wi_ok (seqno h);
  ok_ackno : wi_ok (ackno h);
  ok_doff : 0 <= doff h < M8;
  ok_win : 0 <= win h < M16;
  ok_cksum : 0 <= cksum h < M16;
  ok_uptr : 0 <= uptr h < M16
}.

(** ** Lemmas *)

Lemma flags_range h : 0 <= flags h < 64.
Proof. unfold flags. destruct (urg h), (ack h), (psh h), (rst h), (syn h), (fin h); by split. Qed.

Lemma flags_bits h :
  has_bit (flags h) 32 = urg h /\ has_bit (flags h) 16 = ack h /\ has_bit (flags h) 8 = psh h
  /\ has_bit (flags h) 4 = rst h /\ has_bit (flags h) 2 = syn h /\ has_bit (flags h) 1 = fin h.
Proof. unfold flags. by destruct (urg h), (ack h), (psh h), (rst h), (syn h), (fin h). Qed.

(** The bytes before and after the checksum. *)
Definition wire_pre (h : TCPHeader) : list byte :=
  be_bytes 2 (sport h) ++ be_bytes 2 (dport h) ++ be_bytes 4 (raw_value (seqno h))
  ++ be_bytes 4 (raw_value (ackno h)) ++ be_bytes 1 (u8 (Z.shiftl (doff h) 4))
  ++ be_bytes 1 (u8 (flags h)) ++ be_bytes 2 (win h).
Definition wire_post (h : TCPHeader) : list byte :=
  be_bytes 2 (uptr h) ++ zreplicate (4 * doff h - LENGTH) x00.

Lemma zlen_wire_pre h : zlen (wire_pre h) = 16.
Proof. unfold wire_pre. rewrite !zlen_app, !zlen_be_bytes. lia. Qed.

Lemma serialize_wire h :
  5 <= doff h -> serialize h = Ok (wire_pre h ++ be_bytes 2 (cksum h) ++ wire_post h).
Proof.
  intros Hd. unfold serialize. destruct (Z.ltb_spec (doff h) 5); [lia|].
  unfold un_u8, un_u16, un_u32. rewrite !unparse_int_spec.
  rewrite resize_ge; rewrite !zlen_app, !zlen_be_bytes, zlen_nil; [|lia].
  unfold wire_pre, wire_post. cbn [app]. by rewrite <-!app_assoc.
Qed.

Lemma serialize_too_short h : doff h < 5 -> serialize h = Fail RuntimeError.
Proof. intros. unfold serialize. destruct (Z.ltb_spec (doff h) 5); [done|lia]. Qed.

Lemma zlen_serialize h s : header_ok h -> serialize h = Ok s -> zlen s = 4 * doff h.
Proof.
  intros Hok Hs. unfold serialize in Hs. destruct (Z.ltb_spec (doff h) 5); [done|].
  injection Hs as <-. apply zlen_resize. lia.
Qed.

(** What [parse] returns on data that starts with nine fields. *)
Definition parsed (sport dport seq ackn off fl_b win cksum uptr : Z) : TCPHeader :=
  mkTCPHeader sport dport (WrappingInt32_of seq) (WrappingInt32_of ackn) (Z.shiftr off 4)
    (has_bit fl_b 32) (has_bit fl_b 16) (has_bit fl_b 8) (has_bit fl_b 4)
    (has_bit fl_b 2) (has_bit fl_b 1) win cksum uptr.

Lemma wi_of_small v : 0 <= v < M32 -> raw_value (WrappingInt32_of v) = v.
Proof. intros. by apply u32_small. Qed.

Lemma wi_of_raw n : wi_ok n -> WrappingInt32_of (raw_value n) = n.
Proof. intros H. apply wi_eq. by apply wi_of_small. Qed.

Lemma parse_fields p a b c d e f g i j rest :
  parser_wf p ->
  str (_buffer p) = be_bytes 2 a ++ be_bytes 2 b ++ be_bytes 4 c ++ be_bytes 4 d ++ be_bytes 1 e
    ++ be_bytes 1 f ++ be_bytes 2 g ++ be_bytes 2 i ++ be_bytes 2 j ++ rest ->
  0 <= a < M16 -> 0 <= b < M16 -> 0 <= c < M32 -> 0 <= d < M32 -> 0 <= e < M8 -> 0 <= f < M8 ->
  0 <= g < M16 -> 0 <= i < M16 -> 0 <= j < M16 ->
  exists r p', parse p = Ok ((r, parsed a b c d e f g i j), p') /\
    if Z.shiftr e 4 <? 5 then r = HeaderTooShort /\ parser_wf p' /\ str (_buffer p') = rest
    else if 4 * Z.shiftr e 4 - LENGTH <=? zlen rest
    then r = NoError /\ parser_wf p' /\ str (_buffer p') = zdrop (4 * Z.shiftr e 4 - LENGTH) rest
    else r = PacketTooShort /\ _error p' = PacketTooShort.
Proof.
  intros Hw Hs Ha Hb Hc Hd He Hf Hg Hi Hj. unfold parse. do 9 parse_step.
  fold (parsed a b c d e f g i j). destruct (Z.ltb_spec (Z.shiftr e 4) 5).
  { eauto 10. }
  replace (Z.shiftr e 4 * 4 - LENGTH) with (4 * Z.shiftr e 4 - LENGTH) by lia.
  set (n := 4 * Z.shiftr e 4 - LENGTH). assert (0 <= n) by (subst n; unfold LENGTH; lia).
  match goal with Hr : str (_buffer ?q) = rest |- _ => rename q into p9, Hr into Hs end.
  destruct (Z.leb_spec n (zlen rest)).
  - destruct (p_remove_prefix_ok p9 n) as (q & Hp & Hq & Hsq); [done|by rewrite Hs|].
    rewrite (M_bind_Ok _ _ _ _ _ Hp), bind_get_state, (error_false q) by apply Hq. rewrite Hs in Hsq. eauto 10.
  - rewrite bind_remove_prefix_short by (by rewrite Hs). rewrite bind_get_state.
    do 2 eexists. split; [reflexivity|done].
Qed.

(** The end of [parse] when a field was missing. *)
Ltac finish_short :=
  case_match; rewrite ?bind_remove_prefix_failed, ?bind_get_state; do 3 eexists.

(** Fewer than 20 bytes: the parser ends with [PacketTooShort]. *)
Lemma parse_short p :
  parser_wf p -> zlen (str (_buffer p)) < LENGTH ->
  exists r h p', parse p = Ok ((r, h), p') /\ r <> NoError /\ _error p' = PacketTooShort.
Proof.
  intros Hw Hs. unfold parse.
  parse_any a; [by do 3 eexists|]. parse_any b; [by do 3 eexists|].
  parse_any c; [by do 3 eexists|]. parse_any d; [by do 3 eexists|].
  parse_any e; [by do 3 eexists|].
  parse_any f; [by finish_short|]. parse_any g; [by finish_short|].
  parse_any i; [by finish_short|]. parse_any j; [by finish_short|].
  unfold LENGTH in Hs. exfalso.
  pose proof (zlen_nonneg (str (_buffer p8))). lia.
Qed.

(** At least 20 bytes: [parse] reads nine fields. *)
Lemma split_header l :
  LENGTH <= zlen l ->
  exists a b c d e f g i j rest,
    l = be_bytes 2 a ++ be_bytes 2 b ++ be_bytes 4 c ++ be_bytes 4 d ++ be_bytes 1 e
        ++ be_bytes 1 f ++ be_bytes 2 g ++ be_bytes 2 i ++ be_bytes 2 j ++ rest
    /\ 0 <= a < M16 /\ 0 <= b < M16 /\ 0 <= c < M32 /\ 0 <= d < M32 /\ 0 <= e < M8 /\ 0 <= f < M8
    /\ 0 <= g < M16 /\ 0 <= i < M16 /\ 0 <= j < M16.
Proof.
  unfold LENGTH. intros Hl.
  split_next 2%nat a l l0. split_next 2%nat b l0 l1. split_next 4%nat c l1 l2. split_next 4%nat d l2 l3.
  split_next 1%nat e l3 l4. split_next 1%nat f l4 l5. split_next 2%nat g l5 l6.
  split_next 2%nat i l6 l7. split_next 2%nat j l7 l8.
  exists a, b, c, d, e, f, g, i, j, l8. split_and!; first [done|lia].
Qed.

Lemma parsed_ok a b c d e f g i j :
  0 <= a < M16 -> 0 <= b < M16 -> 0 <= e < M8 -> 0 <= g < M16 -> 0 <= i < M16 -> 0 <= j < M16 ->
  header_ok (parsed a b c d e f g i j) /\ 0 <= doff (parsed a b c d e f g i j) < 16.
Proof.
  intros. assert (0 <= Z.shiftr e 4 < 16) as Hd.
  { rewrite Z.shiftr_div_pow2 by lia. change (2 ^ 4) with 16. Z.to_euclidean_division_equations; lia. }
  split; [|done]. split; cbn; try lia; apply u32_range.
Qed.

Lemma parsed_fields h :
  header_ok h -> doff h < 16 ->
  parsed (sport h) (dport h) (raw_value (seqno h)) (raw_value (ackno h))
    (u8 (Z.shiftl (doff h) 4)) (u8 (flags h)) (win h) (cksum h) (uptr h) = h.
Proof.
  intros [? ? ? ? ? ? ? ?] Hd. unfold parsed.
  rewrite !wi_of_raw by done. pose proof (flags_range h). rewrite (u8_small (flags h)) by lia.
  destruct (flags_bits h) as (-> & -> & -> & -> & -> & ->).
  rewrite Z.shiftl_mul_pow2, u8_small, Z.shiftr_div_pow2, Z.div_mul by (cbn; lia).
  by destruct h.
Qed.

(** Parsing what [serialize] wrote gives the header back. *)
Lemma parse_serialize h s rest p :
  header_ok h -> doff h < 16 -> serialize h = Ok s ->
  parser_wf p -> str (_buffer p) = s ++ rest ->
  exists p', parse p = Ok ((NoError, h), p') /\ parser_wf p' /\ str (_buffer p') = rest.
Proof.
  intros Hok Hd Hs Hw Hp.
  destruct (Z.lt_ge_cases (doff h) 5) as [Hlt|Hge]; [by rewrite serialize_too_short in Hs|].
  rewrite serialize_wire in Hs by done.
  assert (s = wire_pre h ++ be_bytes 2 (cksum h) ++ wire_post h) as -> by congruence.
  unfold wire_pre, wire_post in Hp. rewrite <-!app_assoc in Hp.
  destruct (Hok) as [? ? ? ? ? ? ? ?]. pose proof (flags_range h).
  edestruct (parse_fields p) as (r & p' & HP & HR); [done|exact Hp|try done; apply u8_range..|].
  rewrite parsed_fields in HP by done.
  assert (Z.shiftr (u8 (Z.shiftl (doff h) 4)) 4 = doff h) as Hsh.
  { rewrite Z.shiftl_mul_pow2, u8_small, Z.shiftr_div_pow2, Z.div_mul by (cbn; lia). done. }
  rewrite Hsh in HR. destruct (Z.ltb_spec (doff h) 5); [lia|].
  rewrite zlen_app, zlen_zreplicate in HR by (unfold LENGTH; lia).
  pose proof (zlen_nonneg rest). destruct (Z.leb_spec (4 * doff h - LENGTH) (4 * doff h - LENGTH + zlen rest)); [|lia].
  destruct HR as (-> & Hw' & Hs'). exists p'. split_and!; [done|done|].
  rewrite Hs'. apply zdrop_app_exact, zlen_zreplicate. unfold LENGTH. lia.
Qed.

(** The flag bits survive a parse; the two reserved bits of the byte do not. *)
Lemma flags_of_byte f a b c d e g i j :
  0 <= f < M8 -> flags (parsed a b c d e f g i j) = Z.land f 63.
Proof.
  intros Hf. unfold flags, parsed; cbn [urg ack psh rst syn fin].
  assert (forallb (fun f =>
    Z.lor (Z.lor (Z.lor (Z.lor (Z.lor
    (if has_bit f 32 then 32 else 0) (if has_bit f 16 then 16 else 0)) (if has_bit f 8 then 8 else 0))
    (if has_bit f 4 then 4 else 0)) (if has_bit f 2 then 2 else 0)) (if has_bit f 1 then 1 else 0)
    =? Z.land f 63) (seqZ 0 256) = true) as H by (vm_compute; reflexivity).
  rewrite forallb_forall in H. apply Z.eqb_eq, H, list_elem_of_In, elem_of_seqZ. lia.
Qed.

(** The fixed part of a header with its reserved bits cleared. *)
Definition clear_reserved (l : list byte) : list byte :=
  ztake 12 l ++ map (fun b => z2b (Z.land (b2z b) 240)) (ztake 1 (zdrop 12 l))
  ++ map (fun b => z2b (Z.land (b2z b) 63)) (ztake 1 (zdrop 13 l)) ++ zdrop 14 l.

Lemma clear_reserved_fields (pre post : list byte) e f :
  zlen pre = 12 -> 0 <= e < M8 -> 0 <= f < M8 ->
  clear_reserved (pre ++ be_bytes 1 e ++ be_bytes 1 f ++ post)
  = pre ++ be_bytes 1 (Z.land e 240) ++ be_bytes 1 (Z.land f 63) ++ post.
Proof.
  intros Hp He Hf. cbn [be_bytes]. change (256 ^ Z.of_nat 0) with 1. rewrite !Z.div_1_r.
  unfold clear_reserved. rewrite ztake_app_exact, zdrop_app_exact by done.
  rewrite (zdrop_app_ge 13), (zdrop_app_ge 14) by lia. rewrite !Hp.
  unfold ztake, zdrop. change (Z.to_nat (13 - 12)) with 1%nat. change (Z.to_nat (14 - 12)) with 2%nat.
  change (Z.to_nat 1) with 1%nat. cbn [take drop map app]. by rewrite !b2z_z2b, !u8_small by done.
Qed.

Lemma byte_mask e : 0 <= e < M8 -> u8 (Z.shiftl (Z.shiftr e 4) 4) = Z.land e 240.
Proof.
  intros He.
  assert (forallb (fun e => u8 (Z.shiftl (Z.shiftr e 4) 4) =? Z.land e 240) (seqZ 0 256) = true) as H
    by (vm_compute; reflexivity).
  rewrite forallb_forall in H. apply Z.eqb_eq, H, list_elem_of_In, elem_of_seqZ. lia.
Qed.

(** ** Properties *)

(** A header survives the wire: for every header whose members fit their
    types and whose data offset is between 5 and 15, [serialize] succeeds with
    a string of [4 * doff] bytes, and parsing that string followed by any
    payload gives the same header and leaves exactly the payload; a data
    offset below 5 makes [serialize] throw. *)
Theorem tcp_header_roundtrip (h : TCPHeader) (payload : list byte) :
  header_ok h -> doff h < 16 -> zlen payload < M31 ->
  if doff h <? 5 then serialize h = Fail RuntimeError else
  exists s p', serialize h = Ok s /\ zlen s = 4 * doff h
    /\ parse (net_parser (of_string (s ++ payload))) = Ok ((NoError, h), p')
    /\ get_error p' = NoError /\ str (_buffer p') = payload.
Proof.
  intros Hok Hd Hl. destruct (Z.ltb_spec (doff h) 5); [by apply serialize_too_short|].
  pose proof (serialize_wire h ltac:(lia)) as Hs. set (s := wire_pre h ++ _) in Hs.
  pose proof (zlen_serialize h s Hok Hs) as Hlen.
  destruct (parse_serialize h s payload (net_parser (of_string (s ++ payload)))) as (p' & HP & Hw & Hr);
    try done.
  { split; [|done]. apply of_string_wf. rewrite zlen_app. lia. }
  exists s, p'. split_and!; try done. apply Hw.
Qed.

Definition sample_header : TCPHeader :=
  mkTCPHeader 443 51234 (mkWrappingInt32 4294967295) (mkWrappingInt32 7) 6
    false true true false false true 65535 4660 0.

Lemma sample_header_ok : header_ok sample_header.
Proof. split; cbn; unfold wi_ok; cbn; lia. Qed.

Lemma tcp_header_roundtrip_witness :
  exists s p', serialize sample_header = Ok s /\ zlen s = 24
    /\ parse (net_parser (of_string (s ++ [x61; x62]))) = Ok ((NoError, sample_header), p')
    /\ get_error p' = NoError /\ str (_buffer p') = [x61; x62].
Proof.
  apply (tcp_header_roundtrip sample_header [x61; x62]); [apply sample_header_ok|reflexivity|reflexivity].
Defined.

(** A parsed header can be written back: when [parse] accepts a packet,
    the header is within its types, the data offset is between 5 and 15 and
    counts bytes that are present, the rest of the packet is left as payload,
    and serializing the header reproduces the 20 bytes of the fixed part with
    only the reserved bits cleared. *)
Theorem tcp_header_reserialize (l : list byte) (h : TCPHeader) (p' : NetParser) :
  zlen l < M31 ->
  parse (net_parser (of_string l)) = Ok ((NoError, h), p') ->
  header_ok h /\ 5 <= doff h < 16 /\ 4 * doff h <= zlen l
  /\ str (_buffer p') = zdrop (4 * doff h) l
  /\ exists s, serialize h = Ok s /\ ztake LENGTH s = clear_reserved (ztake LENGTH l).
Proof.
  intros Hl HP.
  assert (parser_wf (net_parser (of_string l))) as Hw.
  { split; [|done]. apply of_string_wf. lia. }
  destruct (Z.lt_ge_cases (zlen l) LENGTH) as [Hlt|Hge].
  { destruct (parse_short _ Hw Hlt) as (r & h' & q & HP' & Hr & _). congruence. }
  destruct (split_header l Hge) as (a & b & c & d & e & f & g & i & j & rest & Hs & ? & ? & ? & ? & ? & ? & ? & ? & ?).
  destruct (parse_fields _ a b c d e f g i j rest Hw Hs) as (r & q & HP' & HR); try done.
  rewrite HP in HP'.
  assert (r = NoError) as -> by congruence. assert (q = p') as -> by congruence.
  assert (h = parsed a b c d e f g i j) as -> by congruence. clear HP HP'.
  destruct (parsed_ok a b c d e f g i j) as [Hok Hd]; try done.
  change (Z.shiftr e 4) with (doff (parsed a b c d e f g i j)) in HR.
  set (h := parsed a b c d e f g i j) in *.
  destruct (Z.ltb_spec (doff h) 5); [by destruct HR|].
  set (pre := be_bytes 2 a ++ be_bytes 2 b ++ be_bytes 4 c ++ be_bytes 4 d).
  assert (l = (pre ++ be_bytes 1 e ++ be_bytes 1 f ++ be_bytes 2 g ++ be_bytes 2 i ++ be_bytes 2 j) ++ rest) as Hl'.
  { rewrite Hs. subst pre. by rewrite <-!app_assoc. }
  assert (zlen pre = 12) as Hpre by (subst pre; by rewrite !zlen_app, !zlen_be_bytes).
  destruct (Z.leb_spec (4 * doff h - LENGTH) (zlen rest)); [|by destruct HR].
  destruct HR as (_ & _ & Hrest). unfold LENGTH in *.
  assert (zlen l = 20 + zlen rest) as Hzl.
  { rewrite Hl', !zlen_app, !zlen_be_bytes, Hpre. lia. }
  split_and!; try done; try lia.
  - rewrite Hrest, Hl', zdrop_app_ge; rewrite !zlen_app, !zlen_be_bytes, Hpre; [f_equal; lia|lia].
  - eexists. split; [by apply serialize_wire|].
    rewrite Hl', (ztake_app_exact 20 _ rest) by (rewrite !zlen_app, !zlen_be_bytes, Hpre; lia).
    rewrite clear_reserved_fields by done.
    unfold wire_pre, wire_post. subst h. cbn [sport dport seqno ackno doff win cksum uptr parsed].
    rewrite !wi_of_small, flags_of_byte, byte_mask by done.
    rewrite (u8_small (Z.land f 63)); cycle 1.
    { change 63 with (Z.ones 6). rewrite Z.land_ones by lia. change (2 ^ 6) with 64.
      Z.to_euclidean_division_equations; lia. }
    subst pre. rewrite <-!app_assoc.
    rewrite !app_assoc, ztake_app_exact; [done|]. by rewrite !zlen_app, !zlen_be_bytes.
Qed.

Lemma tcp_header_reserialize_witness :
  let l := [x00; x50; x1f; x90; xde; xad; xbe; xef; x00; x00; x00; x01;
            x5f; xd2; x02; x00; x12; x34; x00; x00; x61] in
  exists h p', parse (net_parser (of_string l)) = Ok ((NoError, h), p') /\
    (header_ok h /\ 5 <= doff h < 16 /\ 4 * doff h <= zlen l
     /\ str (_buffer p') = zdrop (4 * doff h) l
     /\ exists s, serialize h = Ok s /\ ztake LENGTH s = clear_reserved (ztake LENGTH l)).
Proof.
  intros l. eexists _, _. split; [vm_compute; reflexivity|].
  apply (tcp_header_reserialize l); vm_compute; reflexivity.
Defined.
