(* ===== verification/TCPSegment.v ===== *)
(** * TCP segments (libsponge/tcp_helpers/tcp_segment.{hh,cc}) *)

From Stdlib Require Import ZArith Lia.
From S2P Require Import Prelude WrappingIntegers Buffer Parser Checksum TCPHeader.

Record TCPSegment : Type := mkTCPSegment {
  _header : TCPHeader;
  _payload : Buffer
}.

#[export] Instance TCPSegment_eq_dec : EqDecision TCPSegment.
Proof. solve_decision. Defined.

Definition tcp_segment_default : TCPSegment := mkTCPSegment tcp_header_default empty_buffer.

Definition header (seg : TCPSegment) : TCPHeader := _header seg.
Definition payload (seg : TCPSegment) : Buffer := _payload seg.

(** Assignments through the mutable references [header()] and [payload()]. *)
Definition set_header (h : TCPHeader) (seg : TCPSegment) : TCPSegment := mkTCPSegment h (_payload seg).
Definition set_payload (b : Buffer) (seg : TCPSegment) : TCPSegment := mkTCPSegment (_header seg) b.

(** The result of [_header.parse] is not used: only the state of the parser
    decides what [parse] returns. *)
Definition parse (seg : TCPSegment) (buffer : Buffer) (datagram_layer_checksum : Z)
    : res (ParseResult * TCPSegment) :=
  let check := add (internet_checksum datagram_layer_checksum) (str buffer) in
  if negb (value check =? 0) then Ok (BadChecksum, seg) else
  '((_, h), p) ← TCPHeader.parse (net_parser buffer);
  Ok (get_error p, mkTCPSegment h (_buffer p)).

Definition length_in_sequence_space (seg : TCPSegment) : Z :=
  u64 (zlen (str (payload seg)) + (if syn (header seg) then 1 else 0) + (if fin (header seg) then 1 else 0)).

Definition serialize (seg : TCPSegment) (datagram_layer_checksum : Z) : res BufferList :=
  let header_out := set_cksum 0 (_header seg) in
  let check := internet_checksum datagram_layer_checksum in
  s0 ← TCPHeader.serialize header_out;
  let check := add check s0 in
  let check := add check (str (_payload seg)) in
  let header_out := set_cksum (value check) header_out in
  s1 ← TCPHeader.serialize header_out;
  Ok (append (append [] (list_of_string s1)) (list_of_buffer (_payload seg))).

(** A segment whose members fit their types and whose size and datagram-layer
    sum fit the 32-bit sum of the checksum. *)
Record segment_ok (seg : TCPSegment) (pseudo : Z) : Prop := {
  ok_header : header_ok (_header seg);
  ok_offset : 5 <= doff (_header seg) < 16;
  ok_payload : buffer_wf (_payload seg);
  ok_pseudo : 0 <= pseudo;
  ok_sum : pseudo + 65280 * (4 * doff (_header seg) + zlen (str (_payload seg))) + 65535 < M32
}.

(** ** Lemmas *)

Lemma set_cksum_ok c h : header_ok h -> 0 <= c < M16 -> header_ok (set_cksum c h).
Proof. intros [] ?. by split. Qed.

Lemma zlen_wire_post h : 5 <= doff h -> zlen (wire_post h) = 4 * doff h - 18.
Proof.
  intros. unfold wire_post. rewrite zlen_app, zlen_be_bytes, zlen_zreplicate; unfold LENGTH; lia.
Qed.

(** What [serialize] writes: the header with the checksum that makes the whole
    verify, then the payload. *)
Lemma serialize_spec seg pseudo :
  segment_ok seg pseudo ->
  exists ck s bl, 0 <= ck < M16
    /\ TCPHeader.serialize (set_cksum ck (_header seg)) = Ok s
    /\ serialize seg pseudo = Ok bl
    /\ concatenate bl = s ++ str (_payload seg)
    /\ zlen (concatenate bl) = 4 * doff (_header seg) + zlen (str (_payload seg))
    /\ Forall buffer_wf bl
    /\ value (add (internet_checksum pseudo) (concatenate bl)) = 0.
Proof.
  intros [Hh Hd Hb Hp Hsum]. set (h := _header seg) in *. set (pl := str (_payload seg)) in *.
  pose proof (zlen_nonneg pl) as Hpl.
  assert (forall c, TCPHeader.serialize (set_cksum c h) = Ok (wire_pre h ++ be_bytes 2 c ++ wire_post h)) as Hser.
  { intros c. rewrite serialize_wire by (cbn; lia). done. }
  set (s0 := wire_pre h ++ be_bytes 2 0 ++ wire_post h).
  set (ck := 65535 - ones_complement (pseudo + word_sum false (s0 ++ pl))).
  set (s1 := wire_pre h ++ be_bytes 2 ck ++ wire_post h).
  pose proof (zlen_wire_pre h) as Hpre. pose proof (zlen_wire_post h ltac:(lia)) as Hpost.
  pose proof (word_sum_bound (wire_pre h) false) as B1.
  pose proof (word_sum_bound (wire_post h ++ pl) false) as B2. rewrite zlen_app in B2.
  pose proof (word_sum_bound (s0 ++ pl) false) as B3.
  pose proof (word_sum_nonneg false (s0 ++ pl)).
  assert (zlen s0 = 4 * doff h) as Hs0.
  { subst s0. rewrite !zlen_app, zlen_be_bytes. lia. }
  rewrite zlen_app in B3.
  assert (value (add (add (internet_checksum pseudo) s0) pl) = ck) as Hck.
  { rewrite add_app. unfold internet_checksum. rewrite add_spec by lia.
    rewrite value_spec; cbn [_sum]; [done|lia]. }
  destruct (checksum_verifies pseudo (wire_pre h) (wire_post h ++ pl) ck) as (Hr & _ & Hv);
    [done| |lia| |].
  { assert (length (wire_pre h) = 16%nat) as -> by (unfold zlen in Hpre; lia). done. }
  { subst ck s0. by rewrite be_bytes_2, <-!app_assoc. }
  assert (zlen s1 = 4 * doff h) as Hs1.
  { subst s1. rewrite !zlen_app, zlen_be_bytes. lia. }
  exists ck, s1, [of_string s1; _payload seg]. split_and!; try lia.
  - apply Hser.
  - unfold serialize. fold h pl. rewrite Hser. fold s0. cbn [mbind res_bind].
    rewrite Hck. change (set_cksum ck (set_cksum 0 h)) with (set_cksum ck h). by rewrite Hser.
  - cbn. by rewrite app_nil_r.
  - cbn [concatenate]. rewrite !zlen_app, zlen_nil, str_of_string. fold pl. lia.
  - apply Forall_cons. split; [apply of_string_wf; lia|]. by apply Forall_singleton.
  - cbn [concatenate]. rewrite app_nil_r. fold pl. rewrite str_of_string.
    subst s1. rewrite be_bytes_2, <-!app_assoc in *. exact Hv.
Qed.

(** Parsing a string that verifies, case by case. *)
Lemma parse_spec seg buffer pseudo :
  buffer_wf buffer ->
  value (add (internet_checksum pseudo) (str buffer)) = 0 ->
  exists r h p', TCPHeader.parse (net_parser buffer) = Ok ((r, h), p')
    /\ parse seg buffer pseudo = Ok (get_error p', mkTCPSegment h (_buffer p')).
Proof.
  intros Hb Hv.
  assert (exists r h p', TCPHeader.parse (net_parser buffer) = Ok ((r, h), p')) as (r & h & p' & HP).
  { assert (parser_wf (net_parser buffer)) as Hw by (by split).
    destruct (Z.lt_ge_cases (zlen (str buffer)) LENGTH) as [Hlt|Hge].
    { destruct (parse_short _ Hw Hlt) as (? & ? & ? & ? & _). eauto. }
    destruct (split_header (str buffer) Hge)
      as (a & b & c & d & e & f & g & i & j & rest & Hs & ? & ? & ? & ? & ? & ? & ? & ? & ?).
    destruct (parse_fields (net_parser buffer) a b c d e f g i j rest Hw Hs) as (r & q & HP' & _); try done.
    eauto. }
  exists r, h, p'. split; [done|]. unfold parse. rewrite Hv, HP. done.
Qed.

(** Writing a segment and reading it back, from any buffer with these bytes. *)
Lemma segment_roundtrip seg pseudo :
  segment_ok seg pseudo ->
  exists bl ck, serialize seg pseudo = Ok bl /\ Forall buffer_wf bl
    /\ zlen (concatenate bl) = 4 * doff (_header seg) + zlen (str (_payload seg))
    /\ forall seg0 b, buffer_wf b -> str b = concatenate bl ->
       exists pb, parse seg0 b pseudo = Ok (NoError, mkTCPSegment (set_cksum ck (_header seg)) pb)
         /\ buffer_wf pb /\ str pb = str (_payload seg).
Proof.
  intros Hok. destruct (serialize_spec seg pseudo Hok)
    as (ck & s & bl & Hck & Hs & Hbl & Hc & Hlen & Hwf & Hv).
  exists bl, ck. split_and!; try done. intros seg0 b Hb Hstr. destruct (Hok) as [Hh Hd _ Hp Hsum].
  destruct (parse_serialize (set_cksum ck (_header seg)) s (str (_payload seg)) (net_parser b)
    (set_cksum_ok _ _ Hh Hck) ltac:(cbn; lia) Hs) as (p' & HP & [Hw' He] & Hstr'); [by split|cbn; congruence|].
  exists (_buffer p'). split_and!; [|done|done].
  unfold parse. rewrite Hstr, Hv, HP. cbn. unfold get_error. by rewrite He.
Qed.

(** ** Properties *)

(** C36: a segment survives the wire: [serialize] succeeds, and the receiver
    that sums the same pseudo-header accepts the bytes (the checksum
    verifies), recovers the same payload and the same header but for the
    checksum field, which holds the computed checksum. *)
Theorem tcp_segment_roundtrip (seg seg0 : TCPSegment) (pseudo : Z) :
  segment_ok seg pseudo ->
  exists bl ck seg',
    serialize seg pseudo = Ok bl
    /\ parse seg0 (of_string (concatenate bl)) pseudo = Ok (NoError, seg')
    /\ header seg' = set_cksum ck (header seg)
    /\ str (payload seg') = str (payload seg)
    /\ length_in_sequence_space seg' = length_in_sequence_space seg.
Proof.
  intros Hok. destruct (segment_roundtrip seg pseudo Hok) as (bl & ck & Hs & _ & Hlen & Hparse).
  destruct (Hok) as [_ Hd _ Hp Hsum].
  destruct (Hparse seg0 (of_string (concatenate bl))) as (pb & HP & _ & Hstr); [|done|].
  { apply of_string_wf. pose proof (zlen_nonneg (str (_payload seg))). lia. }
  exists bl, ck, (mkTCPSegment (set_cksum ck (_header seg)) pb). split_and!; try done.
  unfold length_in_sequence_space, payload, header. cbn. by rewrite Hstr.
Qed.

Definition sample_segment : TCPSegment :=
  mkTCPSegment sample_header (mkBuffer (Some [x00; x68; x69; x21]) 1).

Lemma sample_segment_ok : segment_ok sample_segment 70000.
Proof.
  split; [apply sample_header_ok|cbn; lia| |lia|reflexivity].
  split; cbn; unfold zlen; cbn; lia.
Qed.

Lemma tcp_segment_roundtrip_witness :
  exists bl ck seg',
    serialize sample_segment 70000 = Ok bl
    /\ parse tcp_segment_default (of_string (concatenate bl)) 70000 = Ok (NoError, seg')
    /\ header seg' = set_cksum ck (header sample_segment)
    /\ str (payload seg') = str (payload sample_segment)
    /\ length_in_sequence_space seg' = length_in_sequence_space sample_segment.
Proof. apply tcp_segment_roundtrip. apply sample_segment_ok. Defined.

(** What [parse] answers for every input, no input making it throw: a sum
    that does not verify is a [BadChecksum] and leaves the segment as it was;
    otherwise fewer than 20 bytes, or fewer than the data offset claims, are
    [PacketTooShort], and the rest is accepted; a data offset below 5, which
    the header parser reports as [HeaderTooShort], is accepted too, with the
    bytes after the fixed header as payload. *)
Theorem tcp_segment_parse_total (seg : TCPSegment) (l : list byte) (pseudo : Z) :
  zlen l < M31 ->
  exists r seg', parse seg (of_string l) pseudo = Ok (r, seg') /\
  let off := match l !! 12%nat with Some b => b2z b / 16 | None => 0 end in
  if negb (value (add (internet_checksum pseudo) l) =? 0) then r = BadChecksum /\ seg' = seg
  else if zlen l <? 20 then r = PacketTooShort
  else doff (header seg') = off /\
    if off <? 5 then r = NoError /\ str (payload seg') = zdrop 20 l
    else if zlen l <? 4 * off then r = PacketTooShort
    else r = NoError /\ str (payload seg') = zdrop (4 * off) l.
Proof.
  intros Hl. destruct (Z.eqb_spec (value (add (internet_checksum pseudo) l)) 0) as [Hv|Hv]; cbn [negb].
  2:{ exists BadChecksum, seg. split; [|done]. unfold parse.
      change (str (of_string l)) with l. destruct (Z.eqb_spec (value (add (internet_checksum pseudo) l)) 0); done. }
  assert (buffer_wf (of_string l)) as Hb by (apply of_string_wf; lia).
  destruct (parse_spec seg (of_string l) pseudo Hb Hv) as (r & h & p' & HP & HS).
  exists (get_error p'), (mkTCPSegment h (_buffer p')). split; [done|]. clear HS. cbv zeta.
  assert (parser_wf (net_parser (of_string l))) as Hw by (by split).
  destruct (Z.ltb_spec (zlen l) 20) as [Hlt|Hge].
  { destruct (parse_short _ Hw Hlt) as (r' & h' & q & HP' & _ & He).
    rewrite HP in HP'. assert (q = p') as -> by congruence. done. }
  destruct (split_header l Hge)
    as (a & b & c & d & e & f & g & i & j & rest & Hs & ? & ? & ? & ? & ? & ? & ? & ? & ?).
  destruct (parse_fields (net_parser (of_string l)) a b c d e f g i j rest Hw Hs) as (r' & q & HP' & HR); try done.
  rewrite HP in HP'. assert (q = p') as -> by congruence.
  assert (h = parsed a b c d e f g i j) as -> by congruence. assert (r' = r) as -> by congruence.
  assert (match l !! 12%nat with Some b => b2z b / 16 | None => 0 end = Z.shiftr e 4) as Hoff.
  { rewrite Hs. cbn [be_bytes app lookup list_lookup]. rewrite b2z_z2b, Z.div_1_r, u8_small by done.
    by rewrite Z.shiftr_div_pow2 by lia. }
  assert (zlen l = 20 + zlen rest) as Hzl.
  { rewrite Hs, !zlen_app, !zlen_be_bytes. lia. }
  rewrite Hoff. split; [done|].
  assert (forall n, 20 <= n -> zdrop n l = zdrop (n - 20) rest) as Hdrop.
  { intros n Hn. rewrite Hs, !app_assoc, zdrop_app_ge; rewrite !zlen_app, !zlen_be_bytes; [done|lia]. }
  unfold LENGTH in HR. destruct (Z.ltb_spec (Z.shiftr e 4) 5).
  { destruct HR as (_ & [_ He] & Hr). by rewrite Hdrop. }
  destruct (Z.leb_spec (4 * Z.shiftr e 4 - 20) (zlen rest)), (Z.ltb_spec (zlen l) (4 * Z.shiftr e 4)); try lia.
  - destruct HR as (_ & [_ He] & Hr). cbn. rewrite Hdrop by lia. done.
  - by destruct HR.
Qed.

Lemma tcp_segment_parse_total_witness :
  let l := [x00; x50; x1f; x90; xde; xad; xbe; xef; x00; x00; x00; x01;
            x40; x02; x02; x00; x00; x7d; x00; x00] in
  exists r seg', parse tcp_segment_default (of_string l) 0 = Ok (r, seg') /\
  let off := match l !! 12%nat with Some b => b2z b / 16 | None => 0 end in
  if negb (value (add (internet_checksum 0) l) =? 0) then r = BadChecksum /\ seg' = tcp_segment_default
  else if zlen l <? 20 then r = PacketTooShort
  else doff (header seg') = off /\
    if off <? 5 then r = NoError /\ str (payload seg') = zdrop 20 l
    else if zlen l <? 4 * off then r = PacketTooShort
    else r = NoError /\ str (payload seg') = zdrop (4 * off) l.
Proof. apply tcp_segment_parse_total. reflexivity. Defined.
