(* ===== verification/IPv4Header.v ===== *)
(** * The IPv4 header (libsponge/tcp_helpers/ipv4_header.{hh,cc}) *)

From Stdlib Require Import ZArith Lia.
From S2P Require Import Prelude Buffer Parser Checksum.

Definition LENGTH : Z := 20.
Definition DEFAULT_TTL : Z := 128.
Definition PROTO_TCP : Z := 6.

Record IPv4Header : Type := mkIPv4Header {
  ver : Z;
  hlen : Z;
  tos : Z;
  len : Z;
  id : Z;
  df : bool;
  mf : bool;
  offset : Z;
  ttl : Z;
  proto : Z;
  cksum : Z;
  src : Z;
  dst : Z
}.

#[export] Instance IPv4Header_eq_dec : EqDecision IPv4Header.
Proof. solve_decision. Defined.

Definition ipv4_header_default : IPv4Header :=
  mkIPv4Header 4 (LENGTH / 4) 0 0 0 true false 0 DEFAULT_TTL PROTO_TCP 0 0 0.

Definition set_cksum (v : Z) (h : IPv4Header) : IPv4Header :=
  mkIPv4Header (ver h) (hlen h) (tos h) (len h) (id h) (df h) (mf h) (offset h) (ttl h)
    (proto h) v (src h) (dst h).

(** Assignments of the length and the two addresses. *)
Definition set_len (v : Z) (h : IPv4Header) : IPv4Header :=
  mkIPv4Header (ver h) (hlen h) (tos h) v (id h) (df h) (mf h) (offset h) (ttl h)
    (proto h) (cksum h) (src h) (dst h).
Definition set_src (v : Z) (h : IPv4Header) : IPv4Header :=
  mkIPv4Header (ver h) (hlen h) (tos h) (len h) (id h) (df h) (mf h) (offset h) (ttl h)
    (proto h) (cksum h) v (dst h).
Definition set_dst (v : Z) (h : IPv4Header) : IPv4Header :=
  mkIPv4Header (ver h) (hlen h) (tos h) (len h) (id h) (df h) (mf h) (offset h) (ttl h)
    (proto h) (cksum h) (src h) v.

(** [static_cast<bool>(v & mask)] *)
Definition has_bit (v mask : Z) : bool := negb (Z.land v mask =? 0).

Definition parse (h : IPv4Header) : M NetParser (ParseResult * IPv4Header) :=
  p0 ← get_state;
  let original_serialized_version := _buffer p0 in
  let data_size := size (_buffer p0) in
  if data_size <? LENGTH then mret (PacketTooShort, h) else
  first_byte ← p_u8;
  tos ← p_u8;
  len ← p_u16;
  id ← p_u16;
  fo_val ← p_u16;
  ttl ← p_u8;
  proto ← p_u8;
  cksum ← p_u16;
  src ← p_u32;
  dst ← p_u32;
  let ver := Z.shiftr first_byte 4 in
  let hlen := Z.land first_byte 15 in
  let h := mkIPv4Header ver hlen tos len id (has_bit fo_val 16384) (has_bit fo_val 8192)
    (Z.land fo_val 8191) ttl proto cksum src dst in
  if data_size <? 4 * hlen then mret (PacketTooShort, h) else
  if negb (ver =? 4) then mret (WrongIPVersion, h) else
  if hlen <? 5 then mret (HeaderTooShort, h) else
  if negb (data_size =? len) then mret (TruncatedPacket, h) else
  p_remove_prefix (hlen * 4 - LENGTH) ;;
  p ← get_state;
  if error p then mret (get_error p, h) else
  let check := add (internet_checksum 0) (ztake (4 * hlen) (str original_serialized_version)) in
  if negb (value check =? 0) then mret (BadChecksum, h) else
  mret (NoError, h).

Definition serialize (h : IPv4Header) : res (list byte) :=
  if negb (ver h =? 4) then Fail RuntimeError else
  if 4 * hlen h <? LENGTH then Fail RuntimeError else
  let ret := [] in
  let first_byte := u8 (Z.lor (Z.shiftl (ver h) 4) (Z.land (hlen h) 15)) in
  let ret := un_u8 ret first_byte in
  let ret := un_u8 ret (tos h) in
  let ret := un_u16 ret (len h) in
  let ret := un_u16 ret (id h) in
  let fo_val := u16 (Z.lor (Z.lor (if df h then 16384 else 0) (if mf h then 8192 else 0))
    (Z.land (offset h) 8191)) in
  let ret := un_u16 ret fo_val in
  let ret := un_u8 ret (ttl h) in
  let ret := un_u8 ret (proto h) in
  let ret := un_u16 ret (cksum h) in
  let ret := un_u32 ret (src h) in
  let ret := un_u32 ret (dst h) in
  Ok (resize (4 * hlen h) ret).

Definition payload_length (h : IPv4Header) : Z := u16 (len h - 4 * hlen h).

Definition pseudo_cksum (h : IPv4Header) : Z :=
  let pcksum := u32 (Z.shiftr (src h) 16 + Z.land (src h) 65535) in
  let pcksum := u32 (pcksum + u32 (Z.shiftr (dst h) 16 + Z.land (dst h) 65535)) in
  let pcksum := u32 (pcksum + proto h) in
  u32 (pcksum + payload_length h).

(** Members within their C++ types, and the values [serialize] can express:
    version 4, a header length of 5 to 15 words, a 13-bit offset. *)
Record header_ok (h : IPv4Header) : Prop := {
  ok_ver : ver h = 4;
  ok_hlen : 5 <= hlen h < 16;
  ok_tos : 0 <= tos h < M8;
  ok_len : 0 <= len h < M16;
  ok_id : 0 <= id h < M16;
  ok_offset : 0 <= offset h < 8192;
  ok_ttl : 0 <= ttl h < M8;
  ok_proto : 0 <= proto h < M8;
  ok_cksum : 0 <= cksum h < M16;
  ok_src : 0 <= src h < M32;
  ok_dst : 0 <= dst h < M32
}.

(** ** Lemmas *)

Definition first_byte_of (h : IPv4Header) : Z := u8 (Z.lor (Z.shiftl (ver h) 4) (Z.land (hlen h) 15)).
Definition fo_val_of (h : IPv4Header) : Z :=
  u16 (Z.lor (Z.lor (if df h then 16384 else 0) (if mf h then 8192 else 0)) (Z.land (offset h) 8191)).

(** The bytes before and after the checksum. *)
Definition wire_pre (h : IPv4Header) : list byte :=
  be_bytes 1 (first_byte_of h) ++ be_bytes 1 (tos h) ++ be_bytes 2 (len h) ++ be_bytes 2 (id h)
  ++ be_bytes 2 (fo_val_of h) ++ be_bytes 1 (ttl h) ++ be_bytes 1 (proto h).
Definition wire_post (h : IPv4Header) : list byte :=
  be_bytes 4 (src h) ++ be_bytes 4 (dst h) ++ zreplicate (4 * hlen h - LENGTH) x00.

Lemma ip_zlen_wire_pre h : zlen (wire_pre h) = 10.
Proof. unfold wire_pre. rewrite !zlen_app, !zlen_be_bytes. lia. Qed.

Lemma ip_zlen_wire_post h : 5 <= hlen h -> zlen (wire_post h) = 4 * hlen h - 12.
Proof.
  intros. unfold wire_post, LENGTH. rewrite !zlen_app, !zlen_be_bytes, zlen_zreplicate; lia.
Qed.

Lemma ip_serialize_wire h :
  ver h = 4 -> 5 <= hlen h -> serialize h = Ok (wire_pre h ++ be_bytes 2 (cksum h) ++ wire_post h).
Proof.
  intros Hv Hd. unfold serialize. rewrite Hv. cbn [Z.eqb Pos.eqb negb]. unfold LENGTH at 1.
  destruct (Z.ltb_spec (4 * hlen h) 20); [lia|].
  unfold un_u8, un_u16, un_u32. rewrite !unparse_int_spec.
  cbn [app]. rewrite <-!app_assoc.
  match goal with |- Ok (resize _ ?x) = _ => assert (zlen x = 20) as Hx end.
  { rewrite !zlen_app, !zlen_be_bytes. lia. }
  rewrite resize_ge, Hx by lia. unfold wire_pre, wire_post, first_byte_of, fo_val_of. rewrite Hv.
  by rewrite <-!app_assoc.
Qed.

(** The packed bytes can be unpacked; checked on all their values. *)
Lemma first_byte_fields h :
  ver h = 4 -> 0 <= hlen h < 16 ->
  0 <= first_byte_of h < M8 /\ Z.shiftr (first_byte_of h) 4 = 4 /\ Z.land (first_byte_of h) 15 = hlen h.
Proof.
  intros Hv Hh. unfold first_byte_of. rewrite Hv. split; [apply u8_range|].
  assert (forallb (fun n => let b := u8 (Z.lor (Z.shiftl 4 4) (Z.land n 15)) in
    (Z.shiftr b 4 =? 4) && (Z.land b 15 =? n)) (seqZ 0 16) = true) as H by (vm_compute; reflexivity).
  rewrite forallb_forall in H. specialize (H (hlen h)).
  rewrite andb_true_iff, !Z.eqb_eq in H. apply H, list_elem_of_In, elem_of_seqZ. lia.
Qed.

Lemma fo_val_fields h :
  0 <= offset h < 8192 ->
  0 <= fo_val_of h < M16 /\ has_bit (fo_val_of h) 16384 = df h /\ has_bit (fo_val_of h) 8192 = mf h
  /\ Z.land (fo_val_of h) 8191 = offset h.
Proof.
  intros Ho. unfold fo_val_of, has_bit. split; [apply u16_range|].
  assert (forallb (fun n => forallb (fun d => forallb (fun m =>
     let v := u16 (Z.lor (Z.lor (if d : bool then 16384 else 0) (if m : bool then 8192 else 0)) (Z.land n 8191)) in
     eqb (negb (Z.land v 16384 =? 0)) d && eqb (negb (Z.land v 8192 =? 0)) m && (Z.land v 8191 =? n))
     [true; false]) [true; false]) (seqZ 0 8192) = true) as H by (vm_compute; reflexivity).
  rewrite forallb_forall in H. specialize (H (offset h)).
  rewrite forallb_forall in H. specialize (H ltac:(apply list_elem_of_In, elem_of_seqZ; lia) (df h)).
  rewrite forallb_forall in H. specialize (H ltac:(destruct (df h); cbn; tauto) (mf h)).
  rewrite !andb_true_iff, !eqb_true_iff, Z.eqb_eq in H.
  specialize (H ltac:(destruct (mf h); cbn; tauto)). tauto.
Qed.

(** What [parse] assigns on data that starts with ten fields. *)
Definition parsed (fb tos len id fo ttl proto cksum src dst : Z) : IPv4Header :=
  mkIPv4Header (Z.shiftr fb 4) (Z.land fb 15) tos len id (has_bit fo 16384) (has_bit fo 8192)
    (Z.land fo 8191) ttl proto cksum src dst.

(** What [parse] answers, given the header it read and the whole packet. *)
Definition verdict (h : IPv4Header) (l : list byte) : ParseResult :=
  if zlen l <? 4 * hlen h then PacketTooShort
  else if negb (ver h =? 4) then WrongIPVersion
  else if hlen h <? 5 then HeaderTooShort
  else if negb (zlen l =? len h) then TruncatedPacket
  else if negb (value (add (internet_checksum 0) (ztake (4 * hlen h) l)) =? 0) then BadChecksum
  else NoError.

(** Does [parse] get as far as removing the options? *)
Definition reaches_payload (r : ParseResult) : bool :=
  match r with NoError | BadChecksum => true | _ => false end.

Lemma ip_parse_fields h0 p fb t n i fo tl0 pr ck s d rest :
  parser_wf p ->
  str (_buffer p) = be_bytes 1 fb ++ be_bytes 1 t ++ be_bytes 2 n ++ be_bytes 2 i ++ be_bytes 2 fo
    ++ be_bytes 1 tl0 ++ be_bytes 1 pr ++ be_bytes 2 ck ++ be_bytes 4 s ++ be_bytes 4 d ++ rest ->
  0 <= fb < M8 -> 0 <= t < M8 -> 0 <= n < M16 -> 0 <= i < M16 -> 0 <= fo < M16 -> 0 <= tl0 < M8 ->
  0 <= pr < M8 -> 0 <= ck < M16 -> 0 <= s < M32 -> 0 <= d < M32 ->
  let h := parsed fb t n i fo tl0 pr ck s d in
  let r := verdict h (str (_buffer p)) in
  exists p', parse h0 p = Ok ((r, h), p') /\ parser_wf p'
    /\ str (_buffer p') = if reaches_payload r then zdrop (4 * hlen h - LENGTH) rest else rest.
Proof.
  intros Hw Hs ? ? ? ? ? ? ? ? ? ? h r. unfold parse. rewrite bind_get_state.
  assert (zlen (str (_buffer p)) = 20 + zlen rest) as Hl.
  { rewrite Hs, !zlen_app, !zlen_be_bytes. lia. }
  set (l := str (_buffer p)) in *. assert (str (_buffer p) = l) as El by done. clearbody l.
  pose proof (zlen_nonneg rest). unfold size. rewrite El.
  destruct (Z.ltb_spec (zlen l) LENGTH); [unfold LENGTH in *; lia|].
  rewrite <-El in Hs. do 10 parse_step. fold (parsed fb t n i fo tl0 pr ck s d). fold h.
  change (Z.land fb 15) with (hlen h). change (Z.shiftr fb 4) with (ver h). change n with (len h).
  subst r. unfold verdict.
  destruct (Z.ltb_spec (zlen l) (4 * hlen h)); [eauto|].
  destruct (negb (ver h =? 4)); [eauto|].
  destruct (Z.ltb_spec (hlen h) 5); [eauto|].
  destruct (negb (zlen l =? len h)); [eauto|].
  replace (hlen h * 4 - LENGTH) with (4 * hlen h - LENGTH) by lia.
  match goal with Hr : str (_buffer ?q) = rest |- _ => rename q into p10, Hr into Hr10 end.
  destruct (p_remove_prefix_ok p10 (4 * hlen h - LENGTH)) as (q & Hp & Hq & Hsq);
    [done|rewrite Hr10; unfold LENGTH in *; lia|].
  rewrite (M_bind_Ok _ _ _ _ _ Hp), bind_get_state, (error_false q) by apply Hq.
  rewrite Hr10 in Hsq. by destruct (negb _); eauto.
Qed.

Lemma ip_split_header l :
  LENGTH <= zlen l ->
  exists fb t n i fo tl0 pr ck s d rest,
    l = be_bytes 1 fb ++ be_bytes 1 t ++ be_bytes 2 n ++ be_bytes 2 i ++ be_bytes 2 fo
      ++ be_bytes 1 tl0 ++ be_bytes 1 pr ++ be_bytes 2 ck ++ be_bytes 4 s ++ be_bytes 4 d ++ rest
    /\ 0 <= fb < M8 /\ 0 <= t < M8 /\ 0 <= n < M16 /\ 0 <= i < M16 /\ 0 <= fo < M16 /\ 0 <= tl0 < M8
    /\ 0 <= pr < M8 /\ 0 <= ck < M16 /\ 0 <= s < M32 /\ 0 <= d < M32.
Proof.
  unfold LENGTH. intros Hl.
  split_next 1%nat fb l l0. split_next 1%nat t l0 l1. split_next 2%nat n l1 l2. split_next 2%nat i l2 l3.
  split_next 2%nat fo l3 l4. split_next 1%nat tl0 l4 l5. split_next 1%nat pr l5 l6.
  split_next 2%nat ck l6 l7. split_next 4%nat s l7 l8. split_next 4%nat d l8 l9.
  exists fb, t, n, i, fo, tl0, pr, ck, s, d, l9. split_and!; first [done|lia].
Qed.

Lemma ip_parsed_fields h :
  header_ok h ->
  parsed (first_byte_of h) (tos h) (len h) (id h) (fo_val_of h) (ttl h) (proto h) (cksum h) (src h) (dst h) = h.
Proof.
  intros [Hv Hh ? ? ? Ho ? ? ? ? ?]. unfold parsed.
  destruct (first_byte_fields h Hv ltac:(lia)) as (_ & -> & ->).
  destruct (fo_val_fields h Ho) as (_ & -> & -> & ->). destruct h; cbn in *; congruence.
Qed.

(** Parsing a serialized header, whatever its checksum and whatever follows. *)
Lemma ip_parse_serialize h0 h s rest p :
  header_ok h -> serialize h = Ok s -> parser_wf p -> str (_buffer p) = s ++ rest ->
  let r := verdict h (s ++ rest) in
  exists p', parse h0 p = Ok ((r, h), p') /\ parser_wf p'
    /\ (reaches_payload r = true -> str (_buffer p') = rest).
Proof.
  intros Hok Hs Hw Hp r. destruct (Hok) as [Hv Hh ? ? ? Ho ? ? ? ? ?].
  rewrite ip_serialize_wire in Hs by lia.
  assert (s = wire_pre h ++ be_bytes 2 (cksum h) ++ wire_post h) as -> by congruence.
  assert (str (_buffer p) = be_bytes 1 (first_byte_of h) ++ be_bytes 1 (tos h) ++ be_bytes 2 (len h)
    ++ be_bytes 2 (id h) ++ be_bytes 2 (fo_val_of h) ++ be_bytes 1 (ttl h) ++ be_bytes 1 (proto h)
    ++ be_bytes 2 (cksum h) ++ be_bytes 4 (src h) ++ be_bytes 4 (dst h)
    ++ (zreplicate (4 * hlen h - LENGTH) x00 ++ rest)) as Hp'.
  { rewrite Hp. unfold wire_pre, wire_post. by rewrite <-!app_assoc. }
  destruct (ip_parse_fields h0 p _ _ _ _ _ _ _ _ _ _ _ Hw Hp') as (p' & HP & Hw' & Hr);
    try done; try apply first_byte_fields; try apply fo_val_fields; try lia.
  rewrite ip_parsed_fields in HP, Hr by done. rewrite Hp in HP, Hr.
  exists p'. split_and!; [done|done|]. intros Hreach. fold r in Hr. rewrite Hreach in Hr.
  rewrite Hr. apply zdrop_app_exact, zlen_zreplicate. unfold LENGTH. lia.
Qed.

Lemma pseudo_cksum_range h :
  0 <= src h < M32 -> 0 <= dst h < M32 -> 0 <= proto h < M8 -> 0 <= pseudo_cksum h < 400000.
Proof.
  intros Hs Hd Hp. unfold pseudo_cksum. pose proof (u16_range (len h - 4 * hlen h)) as Hl.
  fold (payload_length h) in Hl.
  rewrite !Z.shiftr_div_pow2 by lia. change 65535 with (Z.ones 16). rewrite !Z.land_ones by lia.
  change (2 ^ 16) with 65536.
  assert (0 <= src h / 65536 < 65536) by (Z.to_euclidean_division_equations; lia).
  assert (0 <= dst h / 65536 < 65536) by (Z.to_euclidean_division_equations; lia).
  pose proof (Z.mod_pos_bound (src h) 65536 ltac:(lia)). pose proof (Z.mod_pos_bound (dst h) 65536 ltac:(lia)).
  rewrite (u32_small (src h / 65536 + _)), (u32_small (dst h / 65536 + _)) by lia.
  rewrite (u32_small (src h / 65536 + _ + _)) by lia.
  rewrite (u32_small (src h / 65536 + _ + _ + proto h)) by lia. rewrite u32_small; lia.
Qed.

Lemma ip_set_cksum_ok c h : header_ok h -> 0 <= c < M16 -> header_ok (set_cksum c h).
Proof. intros [] ?. by split. Qed.

Lemma serialize_ok h :
  header_ok h -> exists s, serialize h = Ok s /\ zlen s = 4 * hlen h.
Proof.
  intros [Hv Hh _ _ _ _ _ _ _ _ _]. rewrite ip_serialize_wire by lia. eexists. split; [done|].
  rewrite !zlen_app, zlen_be_bytes, ip_zlen_wire_pre, ip_zlen_wire_post; lia.
Qed.
