(* ===== verification/IPv4Datagram.v ===== *)
(** * IPv4 datagrams (libsponge/tcp_helpers/ipv4_datagram.{hh,cc}) *)

From Stdlib Require Import ZArith Lia.
From S2P Require Import Prelude Buffer Parser Checksum IPv4Header.

Record IPv4Datagram : Type := mkIPv4Datagram {
  _header : IPv4Header;
  _payload : BufferList
}.

Definition ipv4_datagram_default : IPv4Datagram := mkIPv4Datagram ipv4_header_default [].

Definition header (d : IPv4Datagram) : IPv4Header := _header d.
Definition payload (d : IPv4Datagram) : BufferList := _payload d.

(** The result of [_header.parse] is not used. *)
Definition parse (d : IPv4Datagram) (buffer : Buffer) : res (ParseResult * IPv4Datagram) :=
  '((_, h), p) ← IPv4Header.parse (_header d) (net_parser buffer);
  let payload := list_of_buffer (_buffer p) in
  let d' := mkIPv4Datagram h payload in
  if negb (list_size payload =? payload_length h) then Ok (PacketTooShort, d') else
  Ok (get_error p, d').

Definition serialize (d : IPv4Datagram) : res BufferList :=
  if negb (list_size (_payload d) =? payload_length (_header d)) then Fail RuntimeError else
  let header_out := set_cksum 0 (_header d) in
  header_zero_checksum ← IPv4Header.serialize header_out;
  let check := add (internet_checksum 0) header_zero_checksum in
  let header_out := set_cksum (value check) header_out in
  s ← IPv4Header.serialize header_out;
  Ok (append (append [] (list_of_string s)) (_payload d)).

(** A datagram whose length field counts the header and the payload. *)
Record datagram_ok (d : IPv4Datagram) : Prop := {
  dg_header : header_ok (_header d);
  dg_payload : Forall buffer_wf (_payload d);
  dg_len : len (_header d) = 4 * hlen (_header d) + zlen (concatenate (_payload d))
}.

(** ** Lemmas *)

Lemma list_size_single b : buffer_wf b -> list_size (list_of_buffer b) = zlen (str b).
Proof.
  intros Hb. rewrite list_size_spec. cbn [concatenate list_of_buffer]. rewrite app_nil_r.
  apply u64_small. pose proof (zlen_nonneg (str b)). pose proof (zlen_str_le b Hb). lia.
Qed.

(** The header with its computed checksum verifies. *)
Lemma header_checksum h :
  header_ok h ->
  exists ck s0 s, 0 <= ck < M16 /\ IPv4Header.serialize (set_cksum 0 h) = Ok s0
    /\ value (add (internet_checksum 0) s0) = ck
    /\ IPv4Header.serialize (set_cksum ck h) = Ok s /\ zlen s = 4 * hlen h
    /\ value (add (internet_checksum 0) s) = 0.
Proof.
  intros Hok. destruct (Hok) as [Hv Hh _ _ _ _ _ _ _ _ _].
  assert (forall c, IPv4Header.serialize (set_cksum c h) = Ok (wire_pre h ++ be_bytes 2 c ++ wire_post h)) as Hser.
  { intros c. rewrite ip_serialize_wire by (cbn; lia). done. }
  set (s0 := wire_pre h ++ be_bytes 2 0 ++ wire_post h).
  set (ck := 65535 - ones_complement (0 + word_sum false s0)).
  pose proof (ip_zlen_wire_pre h) as Hpre. pose proof (ip_zlen_wire_post h ltac:(lia)) as Hpost.
  pose proof (word_sum_bound (wire_pre h) false) as B1.
  pose proof (word_sum_bound (wire_post h) false) as B2.
  pose proof (word_sum_bound s0 false) as B3. pose proof (word_sum_nonneg false s0).
  assert (forall c, zlen (wire_pre h ++ be_bytes 2 c ++ wire_post h) = 4 * hlen h) as Hlen.
  { intros c. rewrite !zlen_app, zlen_be_bytes. lia. }
  assert (zlen s0 = 4 * hlen h) as Hs0 by apply Hlen.
  destruct (checksum_verifies 0 (wire_pre h) (wire_post h) ck) as (Hr & _ & Hvv); [lia| |lia| |].
  { assert (length (wire_pre h) = 10%nat) as -> by (unfold zlen in Hpre; lia). done. }
  { subst ck s0. by rewrite be_bytes_2. }
  exists ck, s0, (wire_pre h ++ be_bytes 2 ck ++ wire_post h). split_and!; try lia; try apply Hser; try apply Hlen.
  - unfold internet_checksum. rewrite add_spec by lia. rewrite value_spec; cbn [_sum]; [done|lia].
  - rewrite be_bytes_2. exact Hvv.
Qed.

(** A datagram that reaches its payload is accepted, verified or not. *)
Lemma parse_header_result d buffer r h p' :
  buffer_wf buffer -> IPv4Header.parse (_header d) (net_parser buffer) = Ok ((r, h), p') ->
  parser_wf p' ->
  parse d buffer = Ok (if zlen (str (_buffer p')) =? payload_length h then NoError else PacketTooShort,
                       mkIPv4Datagram h [_buffer p']).
Proof.
  intros Hb HP [Hw He]. unfold parse. rewrite HP. cbn [mbind res_bind].
  rewrite list_size_single by done. destruct (zlen (str (_buffer p')) =? payload_length h); cbn [negb]; [|done].
  unfold get_error. by rewrite He.
Qed.

(** Writing a datagram and reading it back. *)
Lemma datagram_roundtrip d d0 :
  datagram_ok d ->
  exists bl ck b, serialize d = Ok bl
    /\ zlen (concatenate bl) = len (header d)
    /\ parse d0 (of_string (concatenate bl)) = Ok (NoError, mkIPv4Datagram (set_cksum ck (header d)) [b])
    /\ verdict (set_cksum ck (header d)) (concatenate bl) = NoError
    /\ buffer_wf b /\ str b = concatenate (payload d).
Proof.
  intros [Hh Hb Hl]. destruct (header_checksum _ Hh) as (ck & s0 & s & Hck & Hs0 & Hv0 & Hs & Hlen & Hv).
  destruct (Hh) as [_ Hhl _ Hlr _ _ _ _ _ _ _]. unfold header, payload. set (pl := concatenate (_payload d)) in *.
  pose proof (zlen_nonneg pl).
  assert (payload_length (_header d) = zlen pl) as Hpl by (unfold payload_length; rewrite u16_small; lia).
  exists (of_string s :: _payload d), ck.
  assert (concatenate (of_string s :: _payload d) = s ++ pl) as Hcat by (cbn; by rewrite zdrop_0).
  assert (verdict (set_cksum ck (_header d)) (s ++ pl) = NoError) as Hver.
  { unfold verdict. cbn [hlen ver len set_cksum]. rewrite zlen_app, Hlen, (ok_ver _ Hh), Hl.
    destruct (Z.ltb_spec (4 * hlen (_header d) + zlen pl) (4 * hlen (_header d))); [lia|].
    destruct (Z.ltb_spec (hlen (_header d)) 5); [lia|].
    rewrite !Z.eqb_refl, ztake_app_exact, Hv by done. done. }
  assert (buffer_wf (of_string (s ++ pl))) as Hwf by (apply of_string_wf; rewrite zlen_app; lia).
  destruct (ip_parse_serialize (_header d0) (set_cksum ck (_header d)) s pl
    (net_parser (of_string (s ++ pl))) (ip_set_cksum_ok _ _ Hh Hck) Hs) as (p' & HP & Hw & Hr); [by split|done|].
  rewrite Hver in HP, Hr. specialize (Hr eq_refl).
  exists (_buffer p'). rewrite Hcat. split_and!.
  - unfold serialize. rewrite list_size_spec. fold pl. rewrite u64_small, Hpl, Z.eqb_refl by lia.
    cbn [negb]. rewrite Hs0. cbn [mbind res_bind]. rewrite Hv0.
    change (set_cksum ck (set_cksum 0 (_header d))) with (set_cksum ck (_header d)). rewrite Hs. done.
  - rewrite zlen_app. lia.
  - rewrite (parse_header_result _ _ _ _ _ Hwf HP Hw), Hr.
    change (payload_length (set_cksum ck (_header d))) with (payload_length (_header d)).
    rewrite Hpl, Z.eqb_refl. done.
  - exact Hver.
  - apply Hw.
  - done.
Qed.

(** ** Properties *)

(** C37: a datagram survives the wire: [serialize] succeeds, the header it
    writes verifies its own checksum, and [parse] recovers the header (with
    the computed checksum) and the payload bytes; with the same header and a
    payload of any other length, shorter or longer, [serialize] throws. *)
Theorem ipv4_datagram_roundtrip (d d0 : IPv4Datagram) :
  datagram_ok d ->
  (exists bl ck d', serialize d = Ok bl
    /\ parse d0 (of_string (concatenate bl)) = Ok (NoError, d')
    /\ verdict (header d') (concatenate bl) = NoError
    /\ header d' = set_cksum ck (header d)
    /\ concatenate (payload d') = concatenate (payload d))
  /\ forall b, zlen (concatenate b) < M64 -> zlen (concatenate b) <> zlen (concatenate (payload d)) ->
     serialize (mkIPv4Datagram (header d) b) = Fail RuntimeError.
Proof.
  intros Hd. split.
  - destruct (datagram_roundtrip d d0 Hd) as (bl & ck & b & Hs & _ & Hp & Hv & _ & Hb).
    exists bl, ck. eexists. split_and!; try done. cbn. by rewrite app_nil_r.
  - destruct (Hd) as [[_ Hhl _ Hlr _ _ _ _ _ _ _] _ Hl]. intros b Hbl Hne.
    unfold serialize, header, payload in *; cbn [_payload _header] in *.
    rewrite list_size_spec. unfold payload_length.
    pose proof (zlen_nonneg (concatenate (_payload d))). pose proof (zlen_nonneg (concatenate b)).
    rewrite (u16_small (len _ - _)), u64_small by lia.
    match goal with |- context [?a =? ?b] => destruct (Z.eqb_spec a b) end; [lia|done].
Qed.

Definition sample_ipv4_header : IPv4Header :=
  mkIPv4Header 4 6 0 27 4919 true false 0 64 6 0 2887712788 167772161.
Definition sample_datagram : IPv4Datagram :=
  mkIPv4Datagram sample_ipv4_header [of_string [x61]; of_string [x62; x63]].

Lemma sample_datagram_ok : datagram_ok sample_datagram.
Proof.
  split; [split; cbn; lia| |reflexivity].
  repeat constructor; cbn; unfold zlen; cbn; lia.
Qed.

Lemma ipv4_datagram_roundtrip_witness :
  (exists bl ck d', serialize sample_datagram = Ok bl
    /\ parse ipv4_datagram_default (of_string (concatenate bl)) = Ok (NoError, d')
    /\ verdict (header d') (concatenate bl) = NoError
    /\ header d' = set_cksum ck (header sample_datagram)
    /\ concatenate (payload d') = concatenate (payload sample_datagram))
  /\ forall b, zlen (concatenate b) < M64 -> zlen (concatenate b) <> zlen (concatenate (payload sample_datagram)) ->
     serialize (mkIPv4Datagram (header sample_datagram) b) = Fail RuntimeError.
Proof. apply ipv4_datagram_roundtrip. apply sample_datagram_ok. Defined.

(** The verdict of the header parser is ignored: for every packet, a
    fresh datagram accepts it exactly when it has 20 bytes and the payload
    left by the header parser has the size the header announces; so packets
    whose header fails its checksum, and packets of another IP version with a
    consistent length, are reported as valid. *)
Theorem ipv4_header_errors_ignored (l : list byte) :
  zlen l < M16 ->
  exists r d, parse ipv4_datagram_default (of_string l) = Ok (r, d) /\
    if zlen l <? LENGTH then r = PacketTooShort
    else
      let v := verdict (header d) l in
      concatenate (payload d) = zdrop (if reaches_payload v then 4 * hlen (header d) else LENGTH) l
      /\ (r = NoError <-> zlen (concatenate (payload d)) = payload_length (header d))
      /\ (v = BadChecksum -> r = NoError)
      /\ (v = WrongIPVersion -> hlen (header d) = 5 -> len (header d) = zlen l -> r = NoError).
Proof.
  intros Hl. assert (buffer_wf (of_string l)) as Hb by (apply of_string_wf; lia).
  assert (parser_wf (net_parser (of_string l))) as Hw by (by split).
  pose proof (zlen_nonneg l). destruct (Z.ltb_spec (zlen l) LENGTH) as [Hlt|Hge].
  { rewrite (parse_header_result _ _ PacketTooShort ipv4_header_default (net_parser (of_string l))); [|done| |done].
    - do 2 eexists. split; [done|]. cbn [_buffer net_parser]. rewrite str_of_string.
      change (payload_length ipv4_header_default) with 65516. unfold LENGTH in Hlt.
      destruct (Z.eqb_spec (zlen l) 65516); [lia|done].
    - unfold IPv4Header.parse. rewrite bind_get_state. unfold size. cbn [_buffer net_parser].
      rewrite str_of_string. destruct (Z.ltb_spec (zlen l) LENGTH); [done|lia]. }
  destruct (ip_split_header l Hge)
    as (fb & t & n & i & fo & tl0 & pr & ck & s & d & rest & Hs & ? & ? & ? & ? & ? & ? & ? & ? & ? & ?).
  destruct (ip_parse_fields ipv4_header_default (net_parser (of_string l)) fb t n i fo tl0 pr ck s d rest Hw Hs)
    as (p' & HP & Hw' & Hr); try done.
  set (h := parsed fb t n i fo tl0 pr ck s d) in *. cbn [_buffer net_parser] in *.
  rewrite str_of_string in *. do 2 eexists. split; [by apply (parse_header_result ipv4_datagram_default _ _ _ _ Hb HP Hw')|].
  cbn [header payload _header _payload concatenate]. cbv zeta. rewrite app_nil_r.
  assert (zlen l = 20 + zlen rest) as Hzl by (rewrite Hs, !zlen_app, !zlen_be_bytes; lia).
  assert (forall k, 20 <= k -> zdrop k l = zdrop (k - 20) rest) as Hdrop.
  { intros k Hk. rewrite Hs, !app_assoc, zdrop_app_ge; rewrite !zlen_app, !zlen_be_bytes; [done|lia]. }
  assert (reaches_payload (verdict h l) = true -> 5 <= hlen h /\ 4 * hlen h <= zlen l /\ zlen l = len h) as Hreach.
  { unfold verdict. destruct (Z.ltb_spec (zlen l) (4 * hlen h)); [done|].
    destruct (negb (ver h =? 4)); [done|]. destruct (Z.ltb_spec (hlen h) 5); [done|].
    destruct (Z.eqb_spec (zlen l) (len h)); cbn [negb]; [lia|done]. }
  assert (str (_buffer p') = zdrop (if reaches_payload (verdict h l) then 4 * hlen h else LENGTH) l) as Hpl.
  { rewrite Hr. unfold LENGTH. destruct (reaches_payload (verdict h l)); [|by rewrite Hdrop].
    rewrite Hdrop by (specialize (Hreach eq_refl); lia). done. }
  split; [done|]. rewrite Hpl. split_and!.
  - destruct (Z.eqb_spec (zlen (zdrop (if reaches_payload (verdict h l) then 4 * hlen h else LENGTH) l)) (payload_length h));
      split; done.
  - intros Hv. rewrite Hv in *. cbn [reaches_payload] in *. destruct (Hreach eq_refl) as (? & ? & ?).
    rewrite zlen_zdrop by lia. unfold payload_length.
    rewrite u16_small by lia. destruct (Z.eqb_spec (Z.max 0 (zlen l - 4 * hlen h)) (len h - 4 * hlen h)); [done|lia].
  - intros Hv Hh5 Hlen. rewrite Hv. cbn [reaches_payload]. unfold LENGTH in *. rewrite zlen_zdrop by lia. unfold payload_length.
    rewrite u16_small by lia. destruct (Z.eqb_spec (Z.max 0 (zlen l - 20)) (len h - 4 * hlen h)); [done|lia].
Qed.

Lemma ipv4_header_errors_ignored_witness :
  let l := [x45; x00; x00; x15; x00; x00; x40; x00; x40; x06; xba; xad;
            x0a; x00; x00; x01; x0a; x00; x00; x02; x61] in
  exists r d, parse ipv4_datagram_default (of_string l) = Ok (r, d) /\
    if zlen l <? LENGTH then r = PacketTooShort
    else
      let v := verdict (header d) l in
      concatenate (payload d) = zdrop (if reaches_payload v then 4 * hlen (header d) else LENGTH) l
      /\ (r = NoError <-> zlen (concatenate (payload d)) = payload_length (header d))
      /\ (v = BadChecksum -> r = NoError)
      /\ (v = WrongIPVersion -> hlen (header d) = 5 -> len (header d) = zlen l -> r = NoError).
Proof. apply ipv4_header_errors_ignored. reflexivity. Defined.
