(* ===== verification/Ethernet.v ===== *)
(** * Ethernet frames (libsponge/tcp_helpers/ethernet_header.{hh,cc} and
    ethernet_frame.{hh,cc}) *)

From Stdlib Require Import ZArith Lia.
From S2P Require Import Prelude Buffer Parser.

(** [std::array<uint8_t, 6>] *)
Definition EthernetAddress : Type := list byte.
Definition ETHERNET_BROADCAST : EthernetAddress := [xff; xff; xff; xff; xff; xff].

Definition LENGTH : Z := 14.
Definition TYPE_IPv4 : Z := 2048.
Definition TYPE_ARP : Z := 2054.

Record EthernetHeader : Type := mkEthernetHeader {
  dst : EthernetAddress;
  src : EthernetAddress;
  type : Z
}.

#[export] Instance EthernetHeader_eq_dec : EqDecision EthernetHeader.
Proof. solve_decision. Defined.

(** [for (auto &byte : addr) byte = p.u8();], [k] bytes left. *)
Fixpoint parse_address (k : nat) : M NetParser EthernetAddress :=
  match k with
  | O => mret []
  | S k => v ← p_u8; l ← parse_address k; mret (z2b v :: l)
  end.

(** [for (auto &byte : addr) NetUnparser::u8(ret, byte);] *)
Fixpoint unparse_address (ret : list byte) (a : EthernetAddress) : list byte :=
  match a with
  | [] => ret
  | b :: a => unparse_address (un_u8 ret (b2z b)) a
  end.

Definition header_parse (h : EthernetHeader) : M NetParser (ParseResult * EthernetHeader) :=
  p ← get_state;
  if size (_buffer p) <? LENGTH then mret (PacketTooShort, h) else
  d ← parse_address 6;
  s ← parse_address 6;
  t ← p_u16;
  p ← get_state;
  mret (get_error p, mkEthernetHeader d s t).

Definition header_serialize (h : EthernetHeader) : list byte :=
  let ret := [] in
  let ret := unparse_address ret (dst h) in
  let ret := unparse_address ret (src h) in
  un_u16 ret (type h).

Record EthernetFrame : Type := mkEthernetFrame {
  _header : EthernetHeader;
  _payload : BufferList
}.

(** [EthernetHeader _header{}] zeroes the members. *)
Definition ethernet_frame_default : EthernetFrame :=
  mkEthernetFrame (mkEthernetHeader (replicate 6 x00) (replicate 6 x00) 0) [].

(** The result of [_header.parse] is not used. *)
Definition frame_parse (f : EthernetFrame) (buffer : Buffer) : res (ParseResult * EthernetFrame) :=
  '((_, h), p) ← header_parse (_header f) (net_parser buffer);
  Ok (get_error p, mkEthernetFrame h (list_of_buffer (_buffer p))).

Definition frame_serialize (f : EthernetFrame) : BufferList :=
  append (append [] (list_of_string (header_serialize (_header f)))) (_payload f).

Definition address_ok (a : EthernetAddress) : Prop := length a = 6%nat.

Record eth_header_ok (h : EthernetHeader) : Prop := {
  ok_eth_dst : address_ok (dst h);
  ok_eth_src : address_ok (src h);
  ok_type : 0 <= type h < M16
}.

(** ** Lemmas *)

Lemma unparse_address_spec a : forall ret, unparse_address ret a = ret ++ a.
Proof.
  induction a as [|b a IH]; intros ret; cbn [unparse_address]; [by rewrite app_nil_r|].
  rewrite IH. unfold un_u8. rewrite unparse_int_spec. cbn [be_bytes].
  by rewrite Z.div_1_r, z2b_b2z, <-app_assoc.
Qed.

Lemma parse_address_ok {A} (k : EthernetAddress -> M NetParser A) a : forall rest p,
  parser_wf p -> str (_buffer p) = a ++ rest ->
  exists p', (parse_address (length a) ≫= k) p = k a p' /\ parser_wf p' /\ str (_buffer p') = rest.
Proof.
  assert (forall rest p, parser_wf p -> str (_buffer p) = a ++ rest ->
    exists p', parse_address (length a) p = Ok (a, p') /\ parser_wf p' /\ str (_buffer p') = rest) as H.
  { induction a as [|b a IH]; intros rest p Hw Hs; cbn [parse_address length]; [by exists p|].
    assert (str (_buffer p) = be_bytes 1 (b2z b) ++ (a ++ rest)) as Hs'.
    { rewrite Hs. cbn [be_bytes]. by rewrite Z.div_1_r, z2b_b2z. }
    clear Hs. pose proof (b2z_range b). parse_step.
    match goal with Hq : parser_wf ?q, Hr : str (_buffer ?q) = _ |- _ =>
      destruct (IH rest q Hq Hr) as (p' & HP & ? & ?) end.
    exists p'. rewrite (M_bind_Ok _ _ _ _ _ HP). split_and!; [|done|done].
    unfold mret, M_ret. by rewrite z2b_b2z. }
  intros rest p Hw Hs. destruct (H rest p Hw Hs) as (p' & HP & ? & ?).
  exists p'. split_and!; [|done|done]. by apply M_bind_Ok.
Qed.

Lemma header_serialize_wire h : header_serialize h = dst h ++ src h ++ be_bytes 2 (type h).
Proof.
  unfold header_serialize, un_u16. rewrite !unparse_address_spec, unparse_int_spec. cbn [app].
  by rewrite <-app_assoc.
Qed.

Lemma zlen_header_serialize h : eth_header_ok h -> zlen (header_serialize h) = LENGTH.
Proof.
  intros [Hd Hs _]. rewrite header_serialize_wire, !zlen_app, zlen_be_bytes.
  unfold zlen, LENGTH, address_ok in *. lia.
Qed.

Lemma header_parse_serialize h0 h rest p :
  eth_header_ok h -> parser_wf p -> str (_buffer p) = header_serialize h ++ rest ->
  exists p', header_parse h0 p = Ok ((NoError, h), p') /\ parser_wf p' /\ str (_buffer p') = rest.
Proof.
  intros Hok Hw Hs. destruct (Hok) as [Hd Hsr Ht]. unfold header_parse. rewrite bind_get_state.
  assert (size (_buffer p) = LENGTH + zlen rest) as Hsz.
  { unfold size. rewrite Hs, zlen_app, zlen_header_serialize by done. done. }
  pose proof (zlen_nonneg rest). destruct (Z.ltb_spec (size (_buffer p)) LENGTH); [lia|].
  rewrite header_serialize_wire, <-!app_assoc in Hs. unfold address_ok in *.
  edestruct (parse_address_ok (A := ParseResult * EthernetHeader)) as (p1 & E1 & Hw1 & Hs1); [exact Hw|exact Hs|].
  rewrite Hd in E1. rewrite E1. clear E1.
  edestruct (parse_address_ok (A := ParseResult * EthernetHeader)) as (p2 & E2 & Hw2 & Hs2); [exact Hw1|exact Hs1|].
  rewrite Hsr in E2. rewrite E2. clear E2 Hw1 Hs1. parse_step.
  match goal with Hq : parser_wf ?q |- _ => exists q; destruct (Hq) as [_ He] end.
  split_and!; [|done|done]. rewrite bind_get_state. unfold get_error. rewrite He. by destruct h.
Qed.

(** ** Properties *)

(** A frame survives the wire: parsing what [serialize] wrote recovers
    both addresses, the type and the payload. *)
Theorem ethernet_frame_roundtrip (f f0 : EthernetFrame) :
  eth_header_ok (_header f) -> zlen (concatenate (_payload f)) < M31 ->
  exists f', frame_parse f0 (of_string (concatenate (frame_serialize f))) = Ok (NoError, f')
    /\ _header f' = _header f /\ concatenate (_payload f') = concatenate (_payload f).
Proof.
  intros Hok Hl. set (pl := concatenate (_payload f)) in *.
  assert (concatenate (frame_serialize f) = header_serialize (_header f) ++ pl) as Hc.
  { cbn. by rewrite zdrop_0. }
  rewrite Hc. unfold frame_parse.
  destruct (header_parse_serialize (_header f0) (_header f) pl
    (net_parser (of_string (header_serialize (_header f) ++ pl)))) as (p' & -> & [_ He] & Hs); try done.
  { split; [|done]. apply of_string_wf. rewrite zlen_app, zlen_header_serialize by done. unfold LENGTH. lia. }
  cbn [mbind res_bind]. eexists. unfold get_error. rewrite He. split_and!; [done|done|].
  cbn. by rewrite app_nil_r.
Qed.

Definition sample_frame : EthernetFrame :=
  mkEthernetFrame (mkEthernetHeader ETHERNET_BROADCAST [x02; x00; x00; x00; x00; x01] TYPE_ARP)
    [of_string [x61; x62]].

Lemma ethernet_frame_roundtrip_witness :
  exists f', frame_parse ethernet_frame_default (of_string (concatenate (frame_serialize sample_frame))) = Ok (NoError, f')
    /\ _header f' = _header sample_frame /\ concatenate (_payload f') = concatenate (_payload sample_frame).
Proof.
  apply ethernet_frame_roundtrip; [|reflexivity]. split; [reflexivity|reflexivity|cbn; unfold TYPE_ARP; lia].
Defined.

(** A frame shorter than a header is accepted, with its bytes as payload. *)
Theorem short_frame_accepted (f : EthernetFrame) (l : list byte) :
  zlen l < LENGTH ->
  frame_parse f (of_string l) = Ok (NoError, mkEthernetFrame (_header f) [of_string l]).
Proof.
  intros Hl. unfold frame_parse, header_parse. rewrite bind_get_state. unfold size. cbn [_buffer net_parser].
  rewrite str_of_string. destruct (Z.ltb_spec (zlen l) LENGTH); [done|lia].
Qed.
