(* ===== verification/ARPMessage.v ===== *)
(** * ARP messages (libsponge/tcp_helpers/arp_message.{hh,cc}) *)

From Stdlib Require Import ZArith Lia.
From S2P Require Import Prelude Buffer Parser Ethernet.

Definition LENGTH : Z := 28.
Definition TYPE_ETHERNET : Z := 1.
Definition OPCODE_REQUEST : Z := 1.
Definition OPCODE_REPLY : Z := 2.

Record ARPMessage : Type := mkARPMessage {
  hardware_type : Z;
  protocol_type : Z;
  hardware_address_size : Z;
  protocol_address_size : Z;
  opcode : Z;
  sender_ethernet_address : EthernetAddress;
  sender_ip_address : Z;
  target_ethernet_address : EthernetAddress;
  target_ip_address : Z
}.

#[export] Instance ARPMessage_eq_dec : EqDecision ARPMessage.
Proof. solve_decision. Defined.

Definition arp_message_default : ARPMessage :=
  mkARPMessage TYPE_ETHERNET TYPE_IPv4 6 4 0 (replicate 6 x00) 0 (replicate 6 x00) 0.

Definition supported (m : ARPMessage) : bool :=
  (hardware_type m =? TYPE_ETHERNET) && (protocol_type m =? TYPE_IPv4)
  && (hardware_address_size m =? 6) && (protocol_address_size m =? 4)
  && ((opcode m =? OPCODE_REQUEST) || (opcode m =? OPCODE_REPLY)).

(** The part of [parse] that runs on the parser. *)
Definition parse_body (m : ARPMessage) : M NetParser (ParseResult * ARPMessage) :=
  p ← get_state;
  if size (_buffer p) <? LENGTH then mret (PacketTooShort, m) else
  ht ← p_u16;
  pt ← p_u16;
  hs ← p_u8;
  ps ← p_u8;
  op ← p_u16;
  let m := mkARPMessage ht pt hs ps op (sender_ethernet_address m) (sender_ip_address m)
    (target_ethernet_address m) (target_ip_address m) in
  if negb (supported m) then mret (Unsupported, m) else
  se ← parse_address 6;
  si ← p_u32;
  te ← parse_address 6;
  ti ← p_u32;
  p ← get_state;
  mret (get_error p, mkARPMessage ht pt hs ps op se si te ti).

Definition parse (m : ARPMessage) (buffer : Buffer) : res (ParseResult * ARPMessage) :=
  '(r, _) ← parse_body m (net_parser buffer); Ok r.

Definition serialize (m : ARPMessage) : res (list byte) :=
  if negb (supported m) then Fail RuntimeError else
  let ret := [] in
  let ret := un_u16 ret (hardware_type m) in
  let ret := un_u16 ret (protocol_type m) in
  let ret := un_u8 ret (hardware_address_size m) in
  let ret := un_u8 ret (protocol_address_size m) in
  let ret := un_u16 ret (opcode m) in
  let ret := unparse_address ret (sender_ethernet_address m) in
  let ret := un_u32 ret (sender_ip_address m) in
  let ret := unparse_address ret (target_ethernet_address m) in
  Ok (un_u32 ret (target_ip_address m)).

Record arp_ok (m : ARPMessage) : Prop := {
  ok_sender : address_ok (sender_ethernet_address m);
  ok_sender_ip : 0 <= sender_ip_address m < M32;
  ok_target : address_ok (target_ethernet_address m);
  ok_target_ip : 0 <= target_ip_address m < M32
}.

(** ** Lemmas *)

Lemma supported_spec m :
  supported m = true <->
  hardware_type m = 1 /\ protocol_type m = 2048 /\ hardware_address_size m = 6
  /\ protocol_address_size m = 4 /\ (opcode m = 1 \/ opcode m = 2).
Proof.
  unfold supported, TYPE_ETHERNET, TYPE_IPv4, OPCODE_REQUEST, OPCODE_REPLY.
  rewrite !andb_true_iff, orb_true_iff, !Z.eqb_eq. tauto.
Qed.

Lemma arp_serialize_wire m :
  supported m = true ->
  serialize m = Ok (be_bytes 2 (hardware_type m) ++ be_bytes 2 (protocol_type m)
    ++ be_bytes 1 (hardware_address_size m) ++ be_bytes 1 (protocol_address_size m)
    ++ be_bytes 2 (opcode m) ++ sender_ethernet_address m ++ be_bytes 4 (sender_ip_address m)
    ++ target_ethernet_address m ++ be_bytes 4 (target_ip_address m)).
Proof.
  intros H. unfold serialize. rewrite H. cbn [negb]. unfold un_u8, un_u16, un_u32.
  rewrite !unparse_address_spec, !unparse_int_spec. cbn [app].
  by rewrite <-!app_assoc.
Qed.

(** ** Properties *)

(** An ARP message survives the wire: a supported message (Ethernet and
    IPv4, request or reply) serializes to 28 bytes, which parse back to the
    same message, whatever follows; an unsupported one makes [serialize]
    throw. *)
Theorem arp_message_roundtrip (m m0 : ARPMessage) (rest : list byte) :
  arp_ok m -> zlen rest < M31 ->
  if supported m
  then exists s, serialize m = Ok s /\ zlen s = LENGTH
         /\ parse m0 (of_string (s ++ rest)) = Ok (NoError, m)
  else serialize m = Fail RuntimeError.
Proof.
  intros [Hs Hsi Ht Hti] Hr. destruct (supported m) eqn:Hsup; [|unfold serialize; by rewrite Hsup].
  eexists. split; [by apply arp_serialize_wire|]. set (s := be_bytes 2 _ ++ _).
  assert (zlen s = LENGTH) as Hl.
  { subst s. rewrite !zlen_app, !zlen_be_bytes. unfold zlen, address_ok, LENGTH in *. lia. }
  split; [done|]. unfold parse.
  assert (parser_wf (net_parser (of_string (s ++ rest)))) as Hw.
  { split; [|done]. apply of_string_wf. rewrite zlen_app. unfold LENGTH in Hl. lia. }
  assert (str (_buffer (net_parser (of_string (s ++ rest)))) = s ++ rest) as Hstr by done.
  set (p := net_parser (of_string (s ++ rest))) in *. clearbody p.
  unfold parse_body. rewrite bind_get_state.
  assert (size (_buffer p) = LENGTH + zlen rest) as Hsz by (unfold size; by rewrite Hstr, zlen_app, Hl).
  pose proof (zlen_nonneg rest). destruct (Z.ltb_spec (size (_buffer p)) LENGTH); [lia|].
  apply supported_spec in Hsup as Hf. destruct Hf as (Eht & Ept & Ehs & Eps & Eop).
  subst s. rewrite <-!app_assoc in Hstr. clear Hl. do 5 parse_step.
  match goal with |- context [supported ?m'] => assert (supported m' = true) as -> end.
  { apply supported_spec. cbn. tauto. }
  cbn [negb]. unfold address_ok in *.
  match goal with Hw : parser_wf ?q, Hs : str (_buffer ?q) = _ |- context [mbind ?k (parse_address 6) ?q] =>
    destruct (parse_address_ok k _ _ _ Hw Hs) as (q1 & E1 & Hw1 & Hs1); clear Hw Hs end.
  rewrite Hs in E1. rewrite E1. clear E1. parse_step.
  match goal with Hw : parser_wf ?q, Hs : str (_buffer ?q) = _ |- context [mbind ?k (parse_address 6) ?q] =>
    destruct (parse_address_ok k _ _ _ Hw Hs) as (q2 & E2 & Hw2 & Hs2); clear Hw Hs end.
  rewrite Ht in E2. rewrite E2. clear E2. parse_step.
  rewrite bind_get_state. match goal with Hq : parser_wf ?q |- _ => destruct (Hq) as [_ He] end.
  unfold get_error. rewrite He. by destruct m.
Qed.

Definition sample_arp : ARPMessage :=
  mkARPMessage 1 2048 6 4 2 [x02; x00; x00; x00; x00; x01] 167772161 ETHERNET_BROADCAST 4294967295.

Lemma arp_message_roundtrip_witness :
  exists s, serialize sample_arp = Ok s /\ zlen s = LENGTH
    /\ parse arp_message_default (of_string (s ++ [x00; x00])) = Ok (NoError, sample_arp).
Proof.
  apply (arp_message_roundtrip sample_arp arp_message_default [x00; x00]); [|reflexivity].
  split; cbn; try reflexivity; lia.
Defined.
