(* ===== verification/TCPReceiver.v ===== *)
(** * The TCP receiver (libsponge/tcp_receiver.{hh,cc})

    The receiver turns segments into substrings for the reassembler and
    computes the acknowledgment number and window.  Its theorems are about a
    peer that sends the stream [S] from initial sequence number [isn]: the
    invariant [rinv] extends the reassembler's. *)

From Stdlib Require Import ZArith Lia.
From S2P Require Import Prelude WrappingIntegers Ring ByteStream UnAssembleBuffer StreamReassembler Buffer Parser TCPHeader TCPSegment.

Record TCPReceiver : Type := mkTCPReceiver {
  reassembler_ : StreamReassembler;
  capacity_ : Z;
  isn_ : option WrappingInt32;
  is_listen_ : bool
}.

#[export] Instance TCPReceiver_eq_dec : EqDecision TCPReceiver.
Proof. solve_decision. Defined.

Inductive State : Type := kError | kListen | kSynRecv | kFinRecv.

#[export] Instance State_eq_dec : EqDecision State.
Proof. solve_decision. Defined.

Definition new (capacity : Z) : TCPReceiver :=
  mkTCPReceiver (StreamReassembler.new capacity) capacity None true.

Definition stream_out (r : TCPReceiver) : ByteStream := StreamReassembler.stream_out (reassembler_ r).

(** Writing through the mutable reference [stream_out()]. *)
Definition set_stream_out (r : TCPReceiver) (out : ByteStream) : TCPReceiver :=
  mkTCPReceiver (StreamReassembler.set_stream_out (reassembler_ r) out) (capacity_ r) (isn_ r) (is_listen_ r).

Definition unassembled_bytes (r : TCPReceiver) : Z := StreamReassembler.unassembled_bytes (reassembler_ r).

Definition state (r : TCPReceiver) : State :=
  if ByteStream.error (stream_out r) then kError else
  if is_listen_ r then kListen else
  if ByteStream.input_ended (stream_out r) then kFinRecv else kSynRecv.

Definition abs_ack_no (r : TCPReceiver) : Z :=
  match state r with
  | kSynRecv => u64 (ByteStream.bytes_written (stream_out r) + 1)
  | kFinRecv => u64 (ByteStream.bytes_written (stream_out r) + 2)
  | _ => 0
  end.

(** [isn_.value()] *)
Definition isn_value (r : TCPReceiver) : res WrappingInt32 :=
  match isn_ r with Some isn => Ok isn | None => Fail BadOptionalAccess end.

Definition ackno (r : TCPReceiver) : res (option WrappingInt32) :=
  match state r with
  | kError | kListen => Ok None
  | _ => isn ← isn_value r; Ok (Some (wrap (abs_ack_no r) isn))
  end.

Definition window_size (r : TCPReceiver) : Z :=
  u64 (capacity_ r - ByteStream.buffer_size (stream_out r)).

Definition segment_received (r : TCPReceiver) (seg : TCPSegment) : res TCPReceiver :=
  if bool_decide (state r = kListen) && negb (syn (header seg)) then Ok r else
  let r := if bool_decide (state r = kListen)
    then mkTCPReceiver (reassembler_ r) (capacity_ r) (Some (seqno (header seg))) false
    else r in
  isn ← isn_value r;
  let abs_seq_no :=
    unwrap (wi_add (seqno (header seg)) (if syn (header seg) then 1 else 0)) isn (abs_ack_no r) in
  if 0 <? abs_seq_no then
    let stream_idx := u64 (abs_seq_no - 1) in
    sr ← StreamReassembler.push_substring (reassembler_ r) (copy (payload seg)) stream_idx (fin (header seg));
    Ok (mkTCPReceiver sr (capacity_ r) (isn_ r) (is_listen_ r))
  else Ok r.

(** ** The peer's segments *)

(** [seg] carries the bytes of [S] from [index] on: the SYN occupies sequence
    number [isn], byte [index] has absolute sequence number [index + 1], and a
    FIN closes [S]. *)
Record carries (S : list byte) (isn : WrappingInt32) (seg : TCPSegment) (index : Z) : Prop := {
  c_seqno : seqno (header seg) = wrap (if syn (header seg) then 0 else 1 + index) isn;
  c_syn : syn (header seg) = true -> index = 0;
  c_fragment : fragment S (str (payload seg)) index (fin (header seg))
}.

(** The segment fits the advertised window and is not 2^31 sequence numbers
    away from the acknowledgment number. *)
Definition admissible (r : TCPReceiver) (seg : TCPSegment) (index : Z) : Prop :=
  in_window (reassembler_ r) (str (payload seg)) index
  /\ (is_listen_ r = false -> - M31 <= 1 + index - abs_ack_no r < M31).

(** A segment that only acknowledges; its sequence number can be anything. *)
Definition pure_ack (seg : TCPSegment) : Prop :=
  syn (header seg) = false /\ fin (header seg) = false /\ str (payload seg) = [].

(** The probe of a closed window: one byte at the acknowledgment number. *)
Definition window_probe (S : list byte) (isn : WrappingInt32) (r : TCPReceiver) (seg : TCPSegment) (index : Z) : Prop :=
  is_listen_ r = false /\ carries S isn seg index /\ index = next (reassembler_ r) /\ window_size r = 0
  /\ syn (header seg) = false /\ fin (header seg) = false /\ zlen (str (payload seg)) = 1
  /\ - M31 <= 1 + index - abs_ack_no r < M31.

(** What a segment adds to the indices and the end received. *)
Definition heard (r : TCPReceiver) (seg : TCPSegment) : bool := negb (is_listen_ r) || syn (header seg).
Definition new_indices (r : TCPReceiver) (seg : TCPSegment) (index : Z) : gset Z :=
  if heard r seg then indices index (str (payload seg)) else ∅.

(** [reach S isn cap r dlv rcv fn]: a new receiver that handled admissible
    segments of the peer and pure acknowledgments, read from in between; [dlv] are the bytes read,
    [rcv] the indices received, [fn] whether a FIN was. *)
Inductive reach (S : list byte) (isn : WrappingInt32) (cap : Z)
    : TCPReceiver -> list byte -> gset Z -> bool -> Prop :=
  | reach_new : reach S isn cap (new cap) [] ∅ false
  | reach_segment r dlv rcv fn seg index r' :
      reach S isn cap r dlv rcv fn -> carries S isn seg index -> admissible r seg index ->
      segment_received r seg = Ok r' ->
      reach S isn cap r' dlv (rcv ∪ new_indices r seg index) (fn || heard r seg && fin (header seg))
  | reach_ack r dlv rcv fn seg r' :
      reach S isn cap r dlv rcv fn -> pure_ack seg -> segment_received r seg = Ok r' ->
      reach S isn cap r' dlv rcv fn
  | reach_read r dlv rcv fn len s out :
      reach S isn cap r dlv rcv fn -> 0 <= len < M64 ->
      ByteStream.read (stream_out r) len = Ok (s, out) ->
      reach S isn cap (set_stream_out r out) (dlv ++ s) rcv fn.

Record rinv (S : list byte) (isn : WrappingInt32) (cap : Z) (r : TCPReceiver)
    (dlv : list byte) (rcv : gset Z) (fn : bool) : Prop := {
  ri_inv : inv S cap (reassembler_ r) dlv rcv fn;
  ri_cap : capacity_ r = cap;
  ri_error : ByteStream.error_ (stream_out r) = false;
  ri_isn : isn_ r = if is_listen_ r then None else Some isn;
  ri_listen : is_listen_ r = true -> next (reassembler_ r) = 0 /\ fn = false
}.

(** The same after [set_error] on the stream: a connection that was reset. *)
Record rreset (S : list byte) (isn : WrappingInt32) (cap : Z) (r : TCPReceiver)
    (dlv : list byte) (rcv : gset Z) (fn : bool) : Prop := {
  rr_inv : inv S cap (reassembler_ r) dlv rcv fn;
  rr_cap : capacity_ r = cap;
  rr_error : ByteStream.error_ (stream_out r) = true;
  rr_isn : isn_ r = if is_listen_ r then None else Some isn;
  rr_listen : is_listen_ r = true -> next (reassembler_ r) = 0 /\ fn = false
}.

(** ** Lemmas *)

Section receiver.
Context (S : list byte) (isn : WrappingInt32) (cap : Z).
Context (Hcap : 0 < cap < M63) (HS : zlen S + 2 * cap + 2 < M64) (Hisn : wi_ok isn).

Lemma rinv_new : rinv S isn cap (new cap) [] ∅ false.
Proof using All. split; try done. apply inv_new; [done|]. pose proof (zlen_nonneg S). lia. Qed.

Lemma written_range r dlv rcv fn :
  rinv S isn cap r dlv rcv fn ->
  ByteStream.bytes_written (stream_out r) = next (reassembler_ r) /\ 0 <= next (reassembler_ r) <= zlen S.
Proof using All.
  intros [Hi _ _ _ _]. destruct (Hi) as [Hwf _ _ Hn _ _ _ _ _ _].
  pose proof (next_range _ Hwf). split; [done|]. lia.
Qed.

(** The state names the phase, and the absolute acknowledgment number counts
    the SYN, the bytes written and the FIN. *)
Lemma state_spec r dlv rcv fn :
  rinv S isn cap r dlv rcv fn ->
  state r = (if is_listen_ r then kListen else
             if fn && (next (reassembler_ r) =? zlen S) then kFinRecv else kSynRecv)
  /\ abs_ack_no r = (if is_listen_ r then 0 else
       next (reassembler_ r) + 1 + (if fn && (next (reassembler_ r) =? zlen S) then 1 else 0)).
Proof using All.
  intros Hr. destruct (written_range _ _ _ _ Hr) as [Hw Hn]. destruct Hr as [Hi _ He _ _].
  pose proof (inv_ended _ _ _ _ _ _ Hi) as Hend.
  assert (state r = (if is_listen_ r then kListen else
    if fn && (next (reassembler_ r) =? zlen S) then kFinRecv else kSynRecv)) as Hst.
  { unfold state, ByteStream.error, ByteStream.input_ended. rewrite He.
    unfold stream_out, StreamReassembler.stream_out. rewrite Hend. done. }
  split; [done|]. unfold abs_ack_no. rewrite Hst, Hw.
  destruct (is_listen_ r); [done|]. destruct (fn && _); rewrite u64_small; lia.
Qed.

Lemma carries_seqno seg index :
  carries S isn seg index ->
  wi_add (seqno (header seg)) (if syn (header seg) then 1 else 0) = wrap (1 + index) isn.
Proof using Hisn.
  intros [Hq Hs _]. rewrite Hq, wi_add_wrap. destruct (syn (header seg)); [|by rewrite Z.add_0_r].
  by rewrite (Hs eq_refl).
Qed.

Lemma abs_ack_range r : 0 <= abs_ack_no r < M64.
Proof using. unfold abs_ack_no. destruct (state r); try apply u64_range; lia. Qed.

(** *** A receiver that has heard the SYN, its stream in error or not *)

Section heard.
Context (r : TCPReceiver) (dlv : list byte) (rcv : gset Z) (fn : bool).
Context (Hi : inv S cap (reassembler_ r) dlv rcv fn) (Hri : isn_ r = Some isn) (Hl : is_listen_ r = false).

Lemma heard_state : state r <> kListen.
Proof using Hl. unfold state. rewrite Hl. by repeat case_match. Qed.

(** Handing the payload to the reassembler. *)
Lemma push_heard seg index :
  carries S isn seg index -> - M31 <= 1 + index - abs_ack_no r < M31 -> 0 <= index < M64 - 1 ->
  segment_received r seg =
    (sr ← StreamReassembler.push_substring (reassembler_ r) (str (payload seg)) index (fin (header seg));
     Ok (mkTCPReceiver sr (capacity_ r) (isn_ r) (is_listen_ r))).
Proof using Hisn Hri Hl.
  intros Hc Hnear Hx. unfold segment_received. rewrite bool_decide_false by exact heard_state. cbn [andb].
  unfold isn_value. rewrite Hri. cbn [mbind res_bind]. rewrite (carries_seqno seg index Hc).
  rewrite unwrap_wrap_near; [|lia|apply abs_ack_range|exact Hnear].
  destruct (Z.ltb_spec 0 (1 + index)); [|lia]. rewrite u64_small by lia. by replace (1 + index - 1) with index by lia.
Qed.

Lemma heard_segment seg index :
  carries S isn seg index -> admissible r seg index ->
  exists sr, segment_received r seg = Ok (mkTCPReceiver sr (capacity_ r) (isn_ r) (is_listen_ r))
    /\ inv S cap sr dlv (rcv ∪ indices index (str (payload seg))) (fn || fin (header seg))
    /\ ByteStream.error_ (output_ sr) = ByteStream.error_ (output_ (reassembler_ r)).
Proof using All.
  intros Hc [Hw Hnear]. destruct (Hc) as [_ _ Hfr]. destruct (Hfr) as (Hx & Hxe & _).
  pose proof (zlen_nonneg (str (payload seg))). rewrite (push_heard seg index Hc (Hnear Hl)) by lia.
  destruct (inv_push S cap _ _ _ _ Hi ltac:(lia) _ _ _ Hfr Hw) as (sr & E & Hi'). rewrite E. exists sr.
  split_and!; [done|done|by eapply push_error].
Qed.

(** Pure acknowledgments leave it alone, whatever their sequence number. *)
Lemma heard_ack seg : pure_ack seg -> segment_received r seg = Ok r.
Proof using All.
  intros (Hs & Hf & Hp). unfold segment_received. rewrite bool_decide_false by exact heard_state.
  rewrite Hs, Hf. unfold copy. rewrite Hp. cbn [andb]. unfold isn_value. rewrite Hri. cbn [mbind res_bind].
  set (x := unwrap _ _ _). destruct (Z.ltb_spec 0 x); [|done].
  rewrite (push_nothing S cap _ dlv rcv fn); [|done|lia|apply u64_range]. cbn. f_equal. destruct r; cbn in *; congruence.
Qed.

Lemma heard_probe seg index :
  capacity_ r = cap -> window_probe S isn r seg index ->
  exists sr, segment_received r seg = Ok (mkTCPReceiver sr (capacity_ r) (isn_ r) (is_listen_ r))
    /\ inv S cap sr dlv rcv fn /\ output_ sr = output_ (reassembler_ r).
Proof using All.
  intros Hcp (_ & Hc & Hix & Hw & Hsy & Hfi & Hone & Hnear). subst index. destruct (Hc) as [_ _ (Hx & Hxe & _)].
  destruct (Hi) as [Hwf Hic _ Hn _ _ _ _ _ _]. rewrite (push_heard seg _ Hc Hnear) by lia.
  destruct (str (payload seg)) as [|x [|y l]] eqn:Ep; [done| |rewrite !zlen_cons in Hone; pose proof (zlen_nonneg l); lia].
  rewrite Hfi. destruct (push_full S cap _ _ _ _ x Hi ltac:(lia)) as (sr & E & Hi' & Ho); [| |rewrite E; eauto].
  - unfold window_size in Hw. pose proof (wf_written _ Hwf). destruct (wf_output _ Hwf) as [Hc1 Hu _ _ _].
    rewrite (wf_cap_out _ Hwf), Hic in *. unfold ByteStream.buffer_size, stream_out, StreamReassembler.stream_out in Hw.
    rewrite Hcp, u64_small in Hw; lia.
  - lia.
Qed.
End heard.

(** Handing the payload to the reassembler. *)
Lemma deliver r dlv rcv fn seg index :
  rinv S isn cap r dlv rcv fn -> carries S isn seg index -> admissible r seg index ->
  is_listen_ r = false ->
  exists r', segment_received r seg = Ok r'
    /\ rinv S isn cap r' dlv (rcv ∪ indices index (str (payload seg))) (fn || fin (header seg)).
Proof using All.
  intros Hr Hc Had Hl. destruct (Hr) as [Hi Hcp He Hri Hli]. pose proof Hri as Hri'. rewrite Hl in Hri'.
  destruct (heard_segment r dlv rcv fn Hi Hri' Hl seg index Hc Had) as (sr & E & Hi' & He').
  eexists. split; [exact E|]. split; cbn; try done; [|by rewrite Hl].
  unfold stream_out, StreamReassembler.stream_out in *. cbn. by rewrite He'.
Qed.

Lemma rinv_segment r dlv rcv fn seg index :
  rinv S isn cap r dlv rcv fn -> carries S isn seg index -> admissible r seg index ->
  exists r', segment_received r seg = Ok r'
    /\ rinv S isn cap r' dlv (rcv ∪ new_indices r seg index) (fn || heard r seg && fin (header seg)).
Proof using All.
  intros Hr Hc Had. unfold new_indices, heard. destruct (is_listen_ r) eqn:Hl; cbn [negb orb]; cycle 1.
  { by apply deliver. }
  destruct (state_spec _ _ _ _ Hr) as [Hst _]. rewrite Hl in Hst.
  destruct (syn (header seg)) eqn:Hsyn; cycle 1.
  { exists r. unfold segment_received. rewrite Hst, Hsyn. split; [done|].
    by rewrite union_empty_r_L, orb_false_r. }
  (* the first SYN: from now on the receiver is not listening *)
  destruct (Hr) as [Hi Hcp He Hri Hli]. destruct (Hli Hl) as [Hn0 Hfn]. destruct (Hc) as [Hq Hsi Hfr].
  set (r1 := mkTCPReceiver (reassembler_ r) (capacity_ r) (Some (seqno (header seg))) false).
  assert (seqno (header seg) = isn) as Hseq by (rewrite Hq, Hsyn; by apply wrap_0).
  assert (rinv S isn cap r1 dlv rcv fn) as Hr1 by (split; try done; cbn; by rewrite Hseq).
  assert (segment_received r seg = segment_received r1 seg) as ->.
  { unfold segment_received at 1. rewrite Hst, Hsyn. cbn [andb negb]. fold r1.
    rewrite bool_decide_true by done. cbn [andb].
    destruct (state_spec _ _ _ _ Hr1) as [Hst1 _]. unfold segment_received.
    rewrite (bool_decide_false (state r1 = kListen)) by (rewrite Hst1; cbn; by destruct (fn && _)). by rewrite Hsyn. }
  apply deliver; try done. split; [apply Had|]. intros _.
  destruct (state_spec _ _ _ _ Hr1) as [_ Hack1]. cbn in Hack1. rewrite Hack1, (Hsi Hsyn), Hn0.
  rewrite Hfn. cbn [andb]. lia.
Qed.

Lemma rinv_ack r dlv rcv fn seg :
  rinv S isn cap r dlv rcv fn -> pure_ack seg -> segment_received r seg = Ok r.
Proof using All.
  intros Hr Hp. destruct (is_listen_ r) eqn:El.
  - destruct (state_spec _ _ _ _ Hr) as [Hst _]. rewrite El in Hst. unfold segment_received. by rewrite Hst, (proj1 Hp).
  - destruct (Hr) as [Hi _ _ Hri _]. rewrite El in Hri. by apply (heard_ack r dlv rcv fn).
Qed.

(** A read of the delivered bytes. *)
Lemma read_delivered r dlv rcv fn len :
  inv S cap (reassembler_ r) dlv rcv fn -> 0 <= len < M64 ->
  exists s out, ByteStream.read (stream_out r) len = Ok (s, out)
    /\ inv S cap (reassembler_ (set_stream_out r out)) (dlv ++ s) rcv fn
    /\ ByteStream.error_ out = ByteStream.error_ (stream_out r)
    /\ next (reassembler_ (set_stream_out r out)) = next (reassembler_ r).
Proof using All.
  intros Hi Hlen. destruct (inv_read S cap _ _ _ _ len Hi ltac:(lia) Hlen) as (s & out & E & _ & Hi').
  exists s, out. split_and!; [done|done|by apply read_error in E|].
  destruct (ByteStream.read_contents (stream_out r) len) as (out' & E' & _ & _ & _ & _ & Hbw & _);
    [apply Hi|lia|]. unfold stream_out in E'. rewrite E in E'. injection E' as _ <-. exact Hbw.
Qed.

Lemma rinv_read r dlv rcv fn len :
  rinv S isn cap r dlv rcv fn -> 0 <= len < M64 ->
  exists s out, ByteStream.read (stream_out r) len = Ok (s, out)
    /\ rinv S isn cap (set_stream_out r out) (dlv ++ s) rcv fn.
Proof using All.
  intros [Hi Hcp He Hri Hli] Hlen. destruct (read_delivered _ _ _ _ len Hi Hlen) as (s & out & E & Hi' & Heo & Hnx).
  exists s, out. split; [done|]. split; try done; [by rewrite <-He|]. intros Hl. rewrite Hnx. by apply Hli.
Qed.

(** What the receiver tells its peer. *)
Lemma rinv_advert r dlv rcv fn :
  rinv S isn cap r dlv rcv fn ->
  ackno r = Ok (if is_listen_ r then None else Some (wrap (abs_ack_no r) isn))
  /\ window_size r = cap - (next (reassembler_ r) - zlen dlv).
Proof using All.
  intros Hr. destruct (state_spec _ _ _ _ Hr) as [Hst Hack]. destruct (Hr) as [Hi Hcp He Hri Hli].
  destruct (Hi) as [Hwf Hc Hp _ Hco _ _ Hs _ _]. split.
  - unfold ackno, isn_value. rewrite Hst, Hri. destruct (is_listen_ r); [done|]. by destruct (fn && _).
  - unfold window_size. rewrite Hcp. unfold ByteStream.buffer_size, stream_out, StreamReassembler.stream_out.
    pose proof (wf_written _ Hwf). destruct (wf_output _ Hwf) as [Hc1 Hu _ _ _].
    rewrite (wf_cap_out _ Hwf), Hc in *. rewrite u64_small by lia. lia.
Qed.

(** The probe of a closed window changes nothing that can be seen. *)
Lemma rinv_probe r dlv rcv fn seg index :
  rinv S isn cap r dlv rcv fn -> window_probe S isn r seg index ->
  exists r', segment_received r seg = Ok r' /\ rinv S isn cap r' dlv rcv fn
    /\ is_listen_ r' = false.
Proof using All.
  intros [Hi Hcp He Hri Hli] Hp. destruct (Hp) as (Hl & _). pose proof Hri as Hri'. rewrite Hl in Hri'.
  destruct (heard_probe r dlv rcv fn Hi Hri' Hl seg index Hcp Hp) as (sr & E & Hi' & Ho).
  eexists. split; [exact E|]. split; [|exact Hl]. split; cbn; try done; [|by rewrite Hl].
  unfold stream_out, StreamReassembler.stream_out in *. cbn. by rewrite Ho.
Qed.

(** One byte at the acknowledgment number while the buffer is full. *)
Lemma rinv_full r dlv rcv fn seg x :
  rinv S isn cap r dlv rcv fn -> is_listen_ r = false ->
  carries S isn seg (next (reassembler_ r)) -> syn (header seg) = false -> fin (header seg) = false ->
  str (payload seg) = [x] -> next (reassembler_ r) = consumed (reassembler_ r) + cap ->
  exists r', segment_received r seg = Ok r' /\ rinv S isn cap r' dlv rcv fn /\ is_listen_ r' = false.
Proof using All.
  intros Hr Hl Hc Hsy Hfi Hp Hfull. apply (rinv_probe _ _ _ _ seg (next (reassembler_ r)) Hr). destruct (state_spec _ _ _ _ Hr) as [_ Hack].
  destruct (rinv_advert _ _ _ _ Hr) as [_ Hw]. rewrite <-(inv_consumed _ _ _ _ _ _ (ri_inv _ _ _ _ _ _ _ Hr)) in Hw.
  rewrite Hl in Hack. unfold window_probe. rewrite Hp, Hack. change (zlen [x]) with 1.
  split_and!; try done; try lia; destruct (fn && _); lia.
Qed.

(** *** A receiver whose stream is in error *)

Lemma inv_set_error sr dlv rcv fn :
  inv S cap sr dlv rcv fn -> inv S cap (StreamReassembler.set_stream_out sr (ByteStream.set_error (output_ sr))) dlv rcv fn.
Proof using. intros [[] ? ? ? ? ? ? ? ? ?]. split; try done. split; try done. by apply wf_set_error. Qed.

Lemma rinv_reset r dlv rcv fn :
  rinv S isn cap r dlv rcv fn -> rreset S isn cap (set_stream_out r (ByteStream.set_error (stream_out r))) dlv rcv fn.
Proof using. intros [Hi ? ? ? ?]. split; try done. by apply inv_set_error. Qed.

Lemma rreset_again r dlv rcv fn :
  rreset S isn cap r dlv rcv fn -> rreset S isn cap (set_stream_out r (ByteStream.set_error (stream_out r))) dlv rcv fn.
Proof using. intros [Hi ? ? ? ?]. split; try done. by apply inv_set_error. Qed.

Lemma rreset_read r dlv rcv fn len :
  rreset S isn cap r dlv rcv fn -> 0 <= len < M64 ->
  exists s out, ByteStream.read (stream_out r) len = Ok (s, out)
    /\ rreset S isn cap (set_stream_out r out) (dlv ++ s) rcv fn.
Proof using All.
  intros [Hi Hcp He Hri Hli] Hlen. destruct (read_delivered _ _ _ _ len Hi Hlen) as (s & out & E & Hi' & Heo & Hnx).
  exists s, out. split; [done|]. split; try done; [by rewrite <-He|]. intros Hl. rewrite Hnx. by apply Hli.
Qed.

(** It does not know whether it has heard the SYN: the empty [isn_] is used. *)
Lemma rreset_listen r dlv rcv fn seg :
  rreset S isn cap r dlv rcv fn -> is_listen_ r = true -> segment_received r seg = Fail BadOptionalAccess.
Proof using.
  intros [_ _ He Hri _] Hl. unfold segment_received.
  assert (state r = kError) as -> by (unfold state, ByteStream.error; by rewrite He).
  rewrite bool_decide_false by done. cbn [andb]. unfold isn_value. by rewrite Hri, Hl.
Qed.

Lemma rreset_segment r dlv rcv fn seg index :
  rreset S isn cap r dlv rcv fn -> is_listen_ r = false ->
  (carries S isn seg index /\ admissible r seg index) \/ window_probe S isn r seg index \/ pure_ack seg ->
  exists r' rcv' fn', segment_received r seg = Ok r' /\ rreset S isn cap r' dlv rcv' fn'.
Proof using All.
  intros Hr Hl Hseg. destruct (Hr) as [Hi Hcp He Hri Hli]. pose proof Hri as Hri'. rewrite Hl in Hri'.
  destruct Hseg as [[Hc Had]|[Hp|Hp]].
  - destruct (heard_segment r dlv rcv fn Hi Hri' Hl seg index Hc Had) as (sr & E & Hi' & He').
    eexists _, _, _. split; [exact E|]. split; [exact Hi'|done| |done|cbn; by rewrite Hl].
    unfold stream_out, StreamReassembler.stream_out in *. cbn. by rewrite He'.
  - destruct (heard_probe r dlv rcv fn Hi Hri' Hl seg index Hcp Hp) as (sr & E & Hi' & Ho).
    eexists _, _, _. split; [exact E|]. split; [exact Hi'|done| |done|cbn; by rewrite Hl].
    unfold stream_out, StreamReassembler.stream_out in *. cbn. by rewrite Ho.
  - exists r, rcv, fn. split; [by apply (heard_ack r dlv rcv fn)|done].
Qed.

Lemma reach_rinv r dlv rcv fn : reach S isn cap r dlv rcv fn -> rinv S isn cap r dlv rcv fn.
Proof using All.
  induction 1 as [|r dlv rcv fn seg index r' _ IH Hc Had E|r dlv rcv fn seg r' _ IH Hp E
    |r dlv rcv fn len s out _ IH Hlen E].
  - apply rinv_new.
  - destruct (rinv_segment _ _ _ _ _ _ IH Hc Had) as (r'' & E' & Hi). rewrite E in E'. by injection E' as <-.
  - rewrite (rinv_ack _ _ _ _ _ IH Hp) in E. by injection E as <-.
  - destruct (rinv_read _ _ _ _ len IH Hlen) as (s' & out' & E' & Hi). rewrite E in E'.
    by injection E' as <- <-.
Qed.
End receiver.

(** A longer stream, while its end is not known. *)
Lemma rinv_extend S more isn cap r dlv rcv :
  rinv S isn cap r dlv rcv false -> rinv (S ++ more) isn cap r dlv rcv false.
Proof. intros [Hi Hcp He Hri Hli]. split; try done. by apply inv_extend. Qed.

(** A segment that is heard ends the listening. *)
Lemma heard_listen r seg r' :
  segment_received r seg = Ok r' ->
  (is_listen_ r = true -> state r = kListen \/ syn (header seg) = false) ->
  heard r seg = true -> is_listen_ r' = false.
Proof.
  intros E Hst Hh. unfold heard in Hh. unfold segment_received in E.
  destruct (is_listen_ r) eqn:El; cbn [negb orb] in Hh.
  - rewrite Hh in *. destruct (Hst eq_refl) as [Hk|]; [|done]. rewrite Hk in E.
    rewrite bool_decide_true in E by done. cbn in E.
    destruct (0 <? _); [|by injection E as <-]. by apply bind_Ok in E as (sr & _ & [= <-]).
  - assert (state r <> kListen) as Hk.
    { unfold state. rewrite El. by repeat case_match. }
    rewrite bool_decide_false in E by done. cbn [andb] in E. apply bind_Ok in E as (isn & _ & E).
    destruct (0 <? _); [|by injection E as <-]. by apply bind_Ok in E as (sr & _ & [= <-]).
Qed.

(** The state of listening after a segment. *)
Lemma listening_after r seg r' (b : bool) :
  state r = (if is_listen_ r then kListen else if b then kFinRecv else kSynRecv) ->
  segment_received r seg = Ok r' -> is_listen_ r' = is_listen_ r && negb (syn (header seg)).
Proof.
  intros Hst E. destruct (heard r seg) eqn:Hh.
  - rewrite (heard_listen _ _ _ E); [|intros El; left; by rewrite Hst, El|done].
    unfold heard in Hh. by destruct (is_listen_ r), (syn (header seg)).
  - unfold heard in Hh. apply orb_false_iff in Hh as [Hl%negb_false_iff Hs]. unfold segment_received in E.
    rewrite Hst, Hl, Hs, bool_decide_true in E by done. injection E as <-. by rewrite Hl, Hs.
Qed.

(** ** Properties *)

(** C9: what the receiver delivers and tells its peer: after any admissible
    segments (reordered, duplicated, overlapping, before or after the SYN) and
    any reads, the bytes read followed by the bytes waiting are a prefix of
    the peer's stream that ends at the first byte not yet received; the
    acknowledgment number is absent before the SYN and afterwards is the
    sequence number of that byte, plus one once the FIN is reached; the
    window is the capacity minus the bytes waiting; and every further
    admissible segment is handled, a SYN ending the listening. *)
Theorem receiver_delivers_stream (S : list byte) (isn : WrappingInt32) (cap : Z) (r : TCPReceiver)
    (dlv : list byte) (rcv : gset Z) (fn : bool) :
  0 < cap < M63 -> zlen S + 2 * cap + 2 < M64 -> wi_ok isn -> reach S isn cap r dlv rcv fn ->
  let written := ByteStream.bytes_written (stream_out r) in
  let ended := fn && (written =? zlen S) in
  dlv ++ ByteStream.contents (stream_out r) = ztake written S
  /\ (forall k, 0 <= k < written -> k ∈ rcv) /\ (written ∉ rcv)
  /\ ackno r = Ok (if is_listen_ r then None else Some (wrap (written + 1 + (if ended then 1 else 0)) isn))
  /\ window_size r = cap - (written - zlen dlv)
  /\ state r = (if is_listen_ r then kListen else if ended then kFinRecv else kSynRecv)
  /\ (forall seg index, carries S isn seg index -> admissible r seg index ->
        exists r', segment_received r seg = Ok r' /\ is_listen_ r' = is_listen_ r && negb (syn (header seg))).
Proof.
  intros Hcap HS Hisn Hr. apply reach_rinv in Hr; [|done..].
  destruct (state_spec S isn cap Hcap HS Hisn _ _ _ _ Hr) as [Hst Hack].
  destruct (written_range S isn cap Hcap HS Hisn _ _ _ _ Hr) as [Hw Hn].
  destruct (rinv_advert S isn cap Hcap HS Hisn _ _ _ _ Hr) as [Hak Hwin].
  destruct (Hr) as [Hi Hcp He Hri Hli]. destruct (Hi) as [Hwf Hc Hp _ Hco _ _ Hs _ _].
  cbv zeta. rewrite Hw. split_and!; try done.
  - exact (next_least _ _ _ _ _ _ Hi).
  - rewrite Hak, Hack. by destruct (is_listen_ r).
  - intros seg index Hcs Had. destruct (rinv_segment S isn cap Hcap HS Hisn _ _ _ _ _ _ Hr Hcs Had) as (r' & E & _).
    exists r'. split; [done|]. exact (listening_after _ _ _ _ Hst E).
Qed.

Definition sample_syn : TCPSegment :=
  mkTCPSegment (set_syn true (set_seqno (mkWrappingInt32 7) tcp_header_default)) empty_buffer.
Definition sample_data : TCPSegment :=
  mkTCPSegment (set_fin true (set_seqno (mkWrappingInt32 8) tcp_header_default)) (of_string [x61; x62]).

Lemma sample_segments_carry :
  carries [x61; x62] (mkWrappingInt32 7) sample_syn 0 /\ carries [x61; x62] (mkWrappingInt32 7) sample_data 0.
Proof. split; (split; [reflexivity|done|]); (split_and!; [lia|done|reflexivity|done]). Qed.

Lemma receiver_delivers_stream_witness :
  exists r r1 r2 dlv (rcv : gset Z) fn,
    segment_received (new 4) sample_syn = Ok r1 /\ segment_received r1 sample_data = Ok r2
    /\ r = r2 /\
  let written := ByteStream.bytes_written (stream_out r) in
  let ended := fn && (written =? zlen [x61; x62]) in
  dlv ++ ByteStream.contents (stream_out r) = ztake written [x61; x62]
  /\ (forall k, 0 <= k < written -> k ∈ rcv) /\ (written ∉ rcv)
  /\ ackno r = Ok (if is_listen_ r then None
                   else Some (wrap (written + 1 + (if ended then 1 else 0)) (mkWrappingInt32 7)))
  /\ window_size r = 4 - (written - zlen dlv)
  /\ state r = (if is_listen_ r then kListen else if ended then kFinRecv else kSynRecv)
  /\ (forall seg index, carries [x61; x62] (mkWrappingInt32 7) seg index -> admissible r seg index ->
        exists r', segment_received r seg = Ok r' /\ is_listen_ r' = is_listen_ r && negb (syn (header seg))).
Proof.
  destruct sample_segments_carry as [Hc1 Hc2].
  eexists _, _, _, [], _, _.
  split; [vm_compute; reflexivity|]. split; [vm_compute; reflexivity|]. split; [reflexivity|].
  apply (receiver_delivers_stream [x61; x62] (mkWrappingInt32 7) 4); [lia|reflexivity|split; cbn; lia|].
  eapply reach_segment; [eapply reach_segment; [apply reach_new|exact Hc1| |vm_compute; reflexivity]
    |exact Hc2| |vm_compute; reflexivity];
    split; [vm_compute; discriminate|vm_compute; done|vm_compute; discriminate|intros _; vm_compute; split; done].
Defined.

(** The receiver never faults on admissible segments, pure
    acknowledgments (which it ignores) and reads: no assertion fails, no copy leaves its buffer and no empty optional is
    used. *)
Theorem receiver_never_faults (S : list byte) (isn : WrappingInt32) (cap : Z) (r : TCPReceiver)
    (dlv : list byte) (rcv : gset Z) (fn : bool) :
  0 < cap < M63 -> zlen S + 2 * cap + 2 < M64 -> wi_ok isn -> reach S isn cap r dlv rcv fn ->
  (forall seg index, carries S isn seg index -> admissible r seg index ->
     exists r', segment_received r seg = Ok r')
  /\ (forall seg, pure_ack seg -> segment_received r seg = Ok r)
  /\ (forall len, 0 <= len < M64 -> exists s out, ByteStream.read (stream_out r) len = Ok (s, out)).
Proof.
  intros Hcap HS Hisn Hr. apply reach_rinv in Hr; [|done..]. split_and!.
  - intros seg index Hc Had.
    destruct (rinv_segment S isn cap Hcap HS Hisn _ _ _ _ _ _ Hr Hc Had) as (r' & E & _). eauto.
  - intros seg Hp. by apply (rinv_ack S isn cap Hcap HS Hisn r dlv rcv fn).
  - intros len Hlen. destruct (rinv_read S isn cap Hcap HS Hisn _ _ _ _ _ Hr Hlen) as (s & out & E & _). eauto.
Qed.

Lemma receiver_never_faults_witness :
  (forall seg index, carries [x61; x62] (mkWrappingInt32 7) seg index -> admissible (new 4) seg index ->
     exists r', segment_received (new 4) seg = Ok r')
  /\ (forall seg, pure_ack seg -> segment_received (new 4) seg = Ok (new 4))
  /\ (forall len, 0 <= len < M64 -> exists s out, ByteStream.read (stream_out (new 4)) len = Ok (s, out)).
Proof.
  apply (receiver_never_faults [x61; x62] (mkWrappingInt32 7) 4 (new 4) [] ∅ false);
    [lia|reflexivity|split; cbn; lia|apply reach_new].
Defined.

(** The two ways a peer can make the receiver fault: a segment whose
    payload starts more than [capacity] bytes past the last byte written
    trips an assertion of the reassembler (the receiver does not check its
    window), and after an error a segment that arrives before any SYN uses
    the empty initial sequence number. *)
Theorem receiver_faults (r : TCPReceiver) (seg : TCPSegment) (isn : WrappingInt32) (index : Z) :
  StreamReassembler.wf (reassembler_ r) ->
  (is_listen_ r = false -> isn_ r = Some isn -> ByteStream.error_ (stream_out r) = false ->
   syn (header seg) = false -> seqno (header seg) = wrap (1 + index) isn ->
   str (payload seg) <> [] -> next (reassembler_ r) < M63 ->
   next (reassembler_ r) + StreamReassembler.capacity_ (reassembler_ r) < index < next (reassembler_ r) + M31 ->
   zlen (str (payload seg)) < M31 ->
   segment_received r seg = Fail AssertionFailure)
  /\ (isn_ r = None -> segment_received (set_stream_out r (ByteStream.set_error (stream_out r))) seg
                       = Fail BadOptionalAccess).
Proof.
  intros Hwf. split.
  - intros Hl Hi He Hs Hq Hne Hn Hx Hlen. pose proof (next_range _ Hwf).
    unfold segment_received.
    assert (state r = kFinRecv \/ state r = kSynRecv) as Hst.
    { unfold state, ByteStream.error. rewrite He, Hl. destruct (ByteStream.input_ended _); tauto. }
    rewrite bool_decide_false by (destruct Hst as [->| ->]; done). cbn [andb].
    unfold isn_value. rewrite Hi. cbn [mbind res_bind]. rewrite Hs, wi_add_0 by (rewrite Hq; apply wrap_ok).
    rewrite Hq. unfold abs_ack_no, ByteStream.bytes_written, stream_out, StreamReassembler.stream_out.
    fold (next (reassembler_ r)).
    rewrite unwrap_wrap_near by (destruct Hst as [Est|Est]; rewrite ?Est, ?u64_small by lia; lia).
    destruct (Z.ltb_spec 0 (1 + index)); [|lia]. rewrite u64_small by lia.
    replace (1 + index - 1) with index by lia. unfold copy.
    rewrite push_beyond_window by (done || lia). done.
  - intros Hi. unfold segment_received.
    assert (state (set_stream_out r (ByteStream.set_error (stream_out r))) = kError) as -> by done.
    rewrite bool_decide_false by done. cbn [andb]. unfold isn_value. cbn. by rewrite Hi.
Qed.

Definition sample_receiver : TCPReceiver :=
  mkTCPReceiver (StreamReassembler.new 4) 4 (Some (mkWrappingInt32 7)) false.
Definition sample_far : TCPSegment :=
  mkTCPSegment (set_seqno (mkWrappingInt32 14) tcp_header_default) (of_string [x61]).

Lemma receiver_faults_witness :
  segment_received sample_receiver sample_far = Fail AssertionFailure.
Proof.
  apply (receiver_faults sample_receiver sample_far (mkWrappingInt32 7) 6);
    [apply sr_wf_new; lia|reflexivity..|discriminate|reflexivity|split; reflexivity|reflexivity].
Defined.
