(* ===== verification/TCPSender.v ===== *)
(** * The TCP sender (libsponge/tcp_sender.{hh,cc}, class Timer included)

    Queues are lists with their front first.  The outgoing bytes are read from
    the [ByteStream] of the sender, whose theorems are used through
    [read_contents].  The invariant [sinv] is stated against the list [hist]
    of all bytes written to that stream: every segment in flight carries the
    bytes of [hist] at its sequence number. *)

From Stdlib Require Import ZArith Lia.
From S2P Require Import Prelude WrappingIntegers Ring ByteStream Buffer Parser TCPHeader TCPSegment.

Definition MAX_PAYLOAD_SIZE : Z := 1000.
Definition MAX_RETX_ATTEMPTS : Z := 8.
Definition TIMEOUT_DFLT : Z := 1000.
Definition DEFAULT_CAPACITY : Z := 64000.

(** ** Timer *)

Record Timer : Type := mkTimer {
  timeout_ms_ : Z;
  elapsed_ms_ : Z;
  started_ : bool
}.

#[export] Instance Timer_eq_dec : EqDecision Timer.
Proof. solve_decision. Defined.

Definition timer_new (timeout_ms : Z) : Timer := mkTimer timeout_ms 0 false.
Definition timeout_ms (t : Timer) : Z := timeout_ms_ t.
Definition started (t : Timer) : bool := started_ t.
Definition timer_reset (t : Timer) : Timer := mkTimer (timeout_ms_ t) 0 false.
Definition timer_restart (t : Timer) : Timer :=
  let t := timer_reset t in mkTimer (timeout_ms_ t) (elapsed_ms_ t) true.
Definition timer_reset_to (timeout_ms : Z) (t : Timer) : Timer :=
  timer_reset (mkTimer timeout_ms (elapsed_ms_ t) (started_ t)).
Definition timer_tick (ms_since_last_tick : Z) (t : Timer) : Timer :=
  if started_ t then mkTimer (timeout_ms_ t) (u64 (elapsed_ms_ t + ms_since_last_tick)) (started_ t) else t.
Definition expired (t : Timer) : bool := started_ t && (timeout_ms_ t <=? elapsed_ms_ t).

(** ** TCPSender *)

Record TCPSender : Type := mkTCPSender {
  isn_ : WrappingInt32;
  segments_out_ : list TCPSegment;
  outstanding_segments_ : list TCPSegment;
  init_retransmission_timeout_ : Z;
  stream_ : ByteStream;
  timer_ : Timer;
  retransmission_count_ : Z;
  next_seq_no_ : Z;
  last_ack_no_ : Z;
  bytes_in_flight_ : Z;
  window_size_ : Z
}.

#[export] Instance TCPSender_eq_dec : EqDecision TCPSender.
Proof. solve_decision. Defined.

Inductive State : Type := kError | kClosed | kSynSent | kSynAcked | kFinSent | kFinAcked.

#[export] Instance sender_State_eq_dec : EqDecision State.
Proof. solve_decision. Defined.

(** [random] is the value [std::random_device] returned. *)
Definition new (capacity retx_timeout : Z) (fixed_isn : option WrappingInt32) (random : Z) : TCPSender :=
  mkTCPSender (match fixed_isn with Some isn => isn | None => WrappingInt32_of random end)
    [] [] retx_timeout (ByteStream.new capacity) (timer_new retx_timeout) 0 0 0 0 1.

Definition stream_in (s : TCPSender) : ByteStream := stream_ s.
Definition bytes_in_flight (s : TCPSender) : Z := bytes_in_flight_ s.
(** The [size_t] counter is returned as an [unsigned int]. *)
Definition consecutive_retransmissions (s : TCPSender) : Z := u32 (retransmission_count_ s).
Definition segments_out (s : TCPSender) : list TCPSegment := segments_out_ s.
Definition next_seqno_absolute (s : TCPSender) : Z := next_seq_no_ s.
Definition next_seqno (s : TCPSender) : WrappingInt32 := wrap (next_seq_no_ s) (isn_ s).

(** Writing through the mutable references [stream_in()] and [segments_out()]. *)
Definition set_stream_in (bs : ByteStream) (s : TCPSender) : TCPSender :=
  mkTCPSender (isn_ s) (segments_out_ s) (outstanding_segments_ s) (init_retransmission_timeout_ s)
    bs (timer_ s) (retransmission_count_ s) (next_seq_no_ s) (last_ack_no_ s) (bytes_in_flight_ s)
    (window_size_ s).
Definition set_segments_out (q : list TCPSegment) (s : TCPSender) : TCPSender :=
  mkTCPSender (isn_ s) q (outstanding_segments_ s) (init_retransmission_timeout_ s)
    (stream_ s) (timer_ s) (retransmission_count_ s) (next_seq_no_ s) (last_ack_no_ s) (bytes_in_flight_ s)
    (window_size_ s).
Definition set_window (w : Z) (s : TCPSender) : TCPSender :=
  mkTCPSender (isn_ s) (segments_out_ s) (outstanding_segments_ s) (init_retransmission_timeout_ s)
    (stream_ s) (timer_ s) (retransmission_count_ s) (next_seq_no_ s) (last_ack_no_ s) (bytes_in_flight_ s) w.

Definition send_segment (s : TCPSender) (seg : TCPSegment) : TCPSender :=
  let seg_length := length_in_sequence_space seg in
  mkTCPSender (isn_ s) (segments_out_ s ++ [seg]) (outstanding_segments_ s ++ [seg])
    (init_retransmission_timeout_ s) (stream_ s)
    (if negb (started (timer_ s)) then timer_restart (timer_ s) else timer_ s)
    (retransmission_count_ s) (u64 (next_seq_no_ s + seg_length)) (last_ack_no_ s)
    (u64 (bytes_in_flight_ s + seg_length)) (window_size_ s).

Definition free_window_size (s : TCPSender) : Z :=
  if (window_size_ s =? 0) && (next_seq_no_ s =? last_ack_no_ s) then 1 else
  if window_size_ s <=? u64 (next_seq_no_ s - last_ack_no_ s) then 0 else
  u64 (window_size_ s - u64 (next_seq_no_ s - last_ack_no_ s)).

Definition state (s : TCPSender) : State :=
  if ByteStream.error (stream_ s) then kError else
  if next_seq_no_ s =? 0 then kClosed else
  if next_seq_no_ s =? bytes_in_flight_ s then kSynSent else
  if negb (ByteStream.eof (stream_ s)) || (next_seq_no_ s <? u64 (ByteStream.bytes_written (stream_ s) + 2))
  then kSynAcked else
  if negb (bytes_in_flight_ s =? 0) then kFinSent else kFinAcked.

(** The [while (true)] of [fill_window]. *)
Fixpoint fill_loop (fuel : nat) (s : TCPSender) : res TCPSender :=
  match fuel with
  | O => Fail OutOfFuel
  | S fuel =>
      let free_window := free_window_size s in
      if free_window =? 0 then Ok s else
      let stream_size := ByteStream.buffer_size (stream_ s) in
      let need_send_fin := ByteStream.input_ended (stream_ s) && bool_decide (state s = kSynAcked) in
      if (stream_size =? 0) && negb need_send_fin then Ok s else
      let send_size := Z.min (Z.min stream_size free_window) MAX_PAYLOAD_SIZE in
      let seg := set_header (set_seqno (wrap (next_seq_no_ s) (isn_ s)) tcp_header_default) tcp_segment_default in
      '(data, bs) ← ByteStream.read (stream_ s) send_size;
      let s := set_stream_in bs s in
      let seg := set_payload (of_string data) seg in
      let seg := if ByteStream.eof (stream_ s) && (send_size <? free_window) && need_send_fin
        then set_header (set_fin true (header seg)) seg else seg in
      fill_loop fuel (send_segment s seg)
  end.

(** Every iteration that goes on either reads a byte or sends the FIN. *)
Definition fill_fuel (s : TCPSender) : nat := S (S (Z.to_nat (ByteStream.buffer_size (stream_ s)))).

Definition syn_segment (s : TCPSender) : TCPSegment :=
  set_header (set_seqno (isn_ s) (set_syn true tcp_header_default)) tcp_segment_default.

Definition fill_window (s : TCPSender) : res TCPSender :=
  if bool_decide (state s = kClosed) then Ok (send_segment s (syn_segment s))
  else fill_loop (fill_fuel s) s.

(** The loop of [ack_received] over the outstanding queue; returns the queue,
    [bytes_in_flight_] and the timer. *)
Fixpoint ack_loop (q : list TCPSegment) (isn : WrappingInt32) (last_ack abs_ack_no in_flight : Z) (t : Timer)
    : list TCPSegment * Z * Timer :=
  match q with
  | [] => ([], in_flight, t)
  | seg :: q' =>
      let abs_seq_no := unwrap (seqno (header seg)) isn last_ack in
      if abs_ack_no <? u64 (abs_seq_no + length_in_sequence_space seg)
      then (q, in_flight, timer_restart t)
      else ack_loop q' isn last_ack abs_ack_no (u64 (in_flight - length_in_sequence_space seg)) t
  end.

Definition ack_received (s : TCPSender) (ackno : WrappingInt32) (window_size : Z) : TCPSender :=
  let abs_ack_no := unwrap ackno (isn_ s) (last_ack_no_ s) in
  if (abs_ack_no <=? last_ack_no_ s) || (next_seq_no_ s <? abs_ack_no) then
    if abs_ack_no =? last_ack_no_ s then set_window window_size s else s
  else
    let t := timer_reset_to (init_retransmission_timeout_ s) (timer_ s) in
    let '(q, in_flight, t) :=
      ack_loop (outstanding_segments_ s) (isn_ s) (last_ack_no_ s) abs_ack_no (bytes_in_flight_ s) t in
    mkTCPSender (isn_ s) (segments_out_ s) q (init_retransmission_timeout_ s) (stream_ s) t 0
      (next_seq_no_ s) abs_ack_no in_flight window_size.

Definition tick (s : TCPSender) (ms_since_last_tick : Z) : res TCPSender :=
  let t := timer_tick ms_since_last_tick (timer_ s) in
  if negb (expired t) then
    Ok (mkTCPSender (isn_ s) (segments_out_ s) (outstanding_segments_ s) (init_retransmission_timeout_ s)
          (stream_ s) t (retransmission_count_ s) (next_seq_no_ s) (last_ack_no_ s) (bytes_in_flight_ s)
          (window_size_ s))
  else
    match outstanding_segments_ s with
    | [] => Fail AssertionFailure
    | front :: _ =>
        let '(count, t) :=
          if 0 <? window_size_ s
          then (u64 (retransmission_count_ s + 1), timer_reset_to (u64 (timeout_ms t * 2)) t)
          else (retransmission_count_ s, t) in
        Ok (mkTCPSender (isn_ s) (segments_out_ s ++ [front]) (outstanding_segments_ s)
              (init_retransmission_timeout_ s) (stream_ s) (timer_restart t) count (next_seq_no_ s)
              (last_ack_no_ s) (bytes_in_flight_ s) (window_size_ s))
    end.

Definition send_empty_segment (s : TCPSender) : TCPSender :=
  match segments_out_ s with
  | [] => set_segments_out
      [set_header (set_seqno (wrap (next_seq_no_ s) (isn_ s)) tcp_header_default) tcp_segment_default] s
  | _ => s
  end.

(** ** Invariant *)

Definition seg_len (seg : TCPSegment) : Z := length_in_sequence_space seg.

(** [seg] starts at absolute sequence number [a] of the stream [hist], which
    is complete when [ended]: number 0 is the SYN, byte [i] has number
    [i + 1], the FIN follows the last byte. *)
Record seg_at (isn : WrappingInt32) (hist : list byte) (ended : bool) (a : Z) (seg : TCPSegment) : Prop := {
  sa_seqno : seqno (header seg) = wrap a isn;
  sa_len : 0 < seg_len seg <= MAX_PAYLOAD_SIZE + 1;
  sa_syn : if syn (header seg) then a = 0 /\ str (payload seg) = [] /\ fin (header seg) = false
           else 0 < a /\ a - 1 + zlen (str (payload seg)) <= zlen hist
                /\ str (payload seg) = ztake (zlen (str (payload seg))) (zdrop (a - 1) hist);
  sa_fin : fin (header seg) = true -> ended = true /\ a - 1 + zlen (str (payload seg)) = zlen hist
}.

(** The segments of [q] follow each other from [a] up to [b]. *)
Fixpoint contiguous (isn : WrappingInt32) (hist : list byte) (ended : bool) (a : Z) (q : list TCPSegment) (b : Z)
    : Prop :=
  match q with
  | [] => a = b
  | seg :: q => seg_at isn hist ended a seg /\ contiguous isn hist ended (a + seg_len seg) q b
  end.

Definition sent (s : TCPSender) : Z := bytes_read_ (stream_ s).
Definition ended (s : TCPSender) : bool := input_ended_ (stream_ s).
(** The first sequence number in flight. *)
Definition base (s : TCPSender) : Z := next_seq_no_ s - bytes_in_flight_ s.

Record sinv (s : TCPSender) (hist : list byte) : Prop := {
  si_stream : ByteStream.wf (stream_ s);
  si_error : error_ (stream_ s) = false;
  si_isn : wi_ok (isn_ s);
  si_bound : zlen hist + 2 < M63;
  si_written : bytes_written_ (stream_ s) = zlen hist;
  si_sent : sent s + used_size_ (stream_ s) = zlen hist;
  si_contents : contents (stream_ s) = zdrop (sent s) hist;
  si_next : (next_seq_no_ s = 0 /\ sent s = 0) \/ next_seq_no_ s = 1 + sent s
            \/ (next_seq_no_ s = zlen hist + 2 /\ sent s = zlen hist /\ ended s = true);
  si_window : 0 <= window_size_ s < M16;
  si_acked : 0 <= last_ack_no_ s <= next_seq_no_ s /\ next_seq_no_ s - last_ack_no_ s < M16;
  si_flight : 0 <= bytes_in_flight_ s <= next_seq_no_ s;
  si_queue : contiguous (isn_ s) hist (ended s) (base s) (outstanding_segments_ s) (next_seq_no_ s);
  si_base : base s <= last_ack_no_ s;
  si_front : match outstanding_segments_ s with
             | [] => True | seg :: _ => last_ack_no_ s < base s + seg_len seg end;
  si_timer : started_ (timer_ s) = bool_decide (outstanding_segments_ s <> []);
  si_rto : 0 <= init_retransmission_timeout_ s < M16
           /\ exists n, 0 <= n /\ retransmission_count_ s = u64 n
                /\ timeout_ms_ (timer_ s) = u64 (init_retransmission_timeout_ s * 2 ^ n)
}.

(** ** Lemmas *)

Lemma seg_len_eq seg :
  zlen (str (payload seg)) < M63 ->
  seg_len seg = zlen (str (payload seg)) + (if syn (header seg) then 1 else 0) + (if fin (header seg) then 1 else 0).
Proof.
  intros H. unfold seg_len, length_in_sequence_space. pose proof (zlen_nonneg (str (payload seg))).
  apply u64_small. destruct (syn _), (fin _); lia.
Qed.

(** A longer stream, or one whose end becomes known. *)
Lemma seg_at_mono isn hist more e e' a seg :
  (e = true -> e' = true /\ more = []) ->
  seg_at isn hist e a seg -> seg_at isn (hist ++ more) e' a seg.
Proof.
  intros He [Hq Hl Hs Hf]. split; [done|done| |].
  - destruct (syn (header seg)); [done|]. destruct Hs as (Ha & Hle & Hd).
    rewrite zlen_app. pose proof (zlen_nonneg more). pose proof (zlen_nonneg (str (payload seg))).
    split_and!; [done|lia|]. rewrite Hd at 1. unfold ztake, zdrop, zlen in *.
    rewrite drop_app_le, take_app_le; [done| |]; rewrite ?length_drop; lia.
  - intros Hx. destruct (Hf Hx) as [He1 Hend]. destruct (He He1) as [-> ->]. by rewrite app_nil_r.
Qed.

Lemma contiguous_mono isn hist more e e' q b : forall a,
  (e = true -> e' = true /\ more = []) ->
  contiguous isn hist e a q b -> contiguous isn (hist ++ more) e' a q b.
Proof.
  induction q as [|seg q IH]; intros a He; cbn; [done|].
  intros [? ?]. split; [by eapply seg_at_mono|by apply IH].
Qed.

Lemma contiguous_snoc isn hist e q b seg : forall a,
  contiguous isn hist e a q b -> seg_at isn hist e b seg ->
  contiguous isn hist e a (q ++ [seg]) (b + seg_len seg).
Proof.
  induction q as [|x q IH]; intros a; cbn.
  - by intros -> ?.
  - intros [? ?] ?. split; [done|]. by apply IH.
Qed.

Lemma contiguous_le isn hist e q b : forall a,
  contiguous isn hist e a q b -> a <= b /\ (q = [] <-> a = b).
Proof.
  induction q as [|x q IH]; intros a; cbn.
  - intros ->. split; [lia|done].
  - intros [[_ Hl _ _] H]. destruct (IH _ H) as [Hle _]. split; [lia|]. split; [done|lia].
Qed.

Lemma base_front s hist :
  sinv s hist -> outstanding_segments_ s = [] <-> last_ack_no_ s = next_seq_no_ s.
Proof.
  intros H. destruct (contiguous_le _ _ _ _ _ _ (si_queue s hist H)) as [Hle Hnil].
  pose proof (si_base s hist H). pose proof (si_acked s hist H). pose proof (si_front s hist H) as Hf.
  rewrite Hnil. destruct (outstanding_segments_ s) as [|seg q] eqn:E.
  - assert (base s = next_seq_no_ s) by (by apply Hnil). lia.
  - pose proof (si_queue s hist H) as Hq. rewrite E in Hq. destruct Hq as [_ Hq].
    destruct (contiguous_le _ _ _ _ _ _ Hq) as [Hle2 _]. split; [lia|].
    intros Heq. lia.
Qed.

(** The window that is left, under the invariant. *)
Lemma free_window_spec s hist :
  sinv s hist ->
  free_window_size s =
    (if (window_size_ s =? 0) && (next_seq_no_ s =? last_ack_no_ s) then 1
     else Z.max 0 (window_size_ s - (next_seq_no_ s - last_ack_no_ s)))
  /\ 0 <= free_window_size s /\ next_seq_no_ s - last_ack_no_ s + free_window_size s < M16.
Proof.
  intros H. pose proof (si_acked s hist H). pose proof (si_window s hist H).
  unfold free_window_size. rewrite (u64_small (next_seq_no_ s - last_ack_no_ s)) by lia.
  destruct (Z.eqb_spec (window_size_ s) 0), (Z.eqb_spec (next_seq_no_ s) (last_ack_no_ s)); cbn [andb];
    try (destruct (Z.leb_spec (window_size_ s) (next_seq_no_ s - last_ack_no_ s)); rewrite ?u64_small by lia); lia.
Qed.

Lemma sinv_new cap rto isn rnd :
  0 < cap < M63 -> 0 <= rto < M16 -> wi_ok isn -> sinv (new cap rto (Some isn) rnd) [].
Proof.
  intros Hc Hr Hi. split; try done; try (by left); cbn; unfold base; cbn; try lia.
  - by apply bs_wf_new.
  - split; [lia|]. exists 0. split_and!; [lia|done|]. rewrite Z.mul_1_r, u64_small by lia. done.
Qed.

(** ** Sending *)

(** The segment of one iteration of [fill_window]. *)
Definition data_segment (isn : WrappingInt32) (n : Z) (data : list byte) (f : bool) : TCPSegment :=
  mkTCPSegment (set_fin f (set_seqno (wrap n isn) tcp_header_default)) (of_string data).

Lemma data_segment_len isn n data f :
  zlen data < M63 -> seg_len (data_segment isn n data f) = zlen data + (if f then 1 else 0).
Proof. intros H. rewrite seg_len_eq by done. cbn. rewrite zdrop_0. destruct f; lia. Qed.

Lemma data_segment_at isn hist e n data f :
  0 < n -> n - 1 + zlen data <= zlen hist -> data = ztake (zlen data) (zdrop (n - 1) hist) ->
  (f = true -> e = true /\ n - 1 + zlen data = zlen hist) ->
  0 < zlen data + (if f then 1 else 0) -> zlen data <= MAX_PAYLOAD_SIZE ->
  seg_at isn hist e n (data_segment isn n data f).
Proof.
  intros Hn Hle Hd Hf Hl Hm. unfold MAX_PAYLOAD_SIZE in *. split.
  - done.
  - rewrite data_segment_len by lia. unfold MAX_PAYLOAD_SIZE. destruct f; lia.
  - cbn. rewrite zdrop_0. done.
  - cbn. rewrite zdrop_0. done.
Qed.

(** What reading [n] bytes leaves of the stream. *)
Lemma read_for_segment s hist n bs :
  sinv s hist -> 0 <= n <= used_size_ (stream_ s) ->
  ByteStream.read (stream_ s) n = Ok (ztake n (contents (stream_ s)), bs) ->
  ByteStream.wf bs /\ zlen (ztake n (contents (stream_ s))) = n /\ contents bs = zdrop (sent s + n) hist
  /\ bytes_read_ bs = sent s + n /\ used_size_ bs = used_size_ (stream_ s) - n
  /\ bytes_written_ bs = bytes_written_ (stream_ s) /\ input_ended_ bs = input_ended_ (stream_ s)
  /\ error_ bs = error_ (stream_ s) /\ 0 <= sent s.
Proof.
  intros H Hn Hrd. destruct (H) as [Hst _ _ Hbd _ Hse Hco _ _ _ _ _ _ _ _ _].
  destruct (read_contents (stream_ s) n Hst ltac:(lia)) as (bs' & E & Hwf' & Hcap & Hct & Hbr & Hbw & Hie & Hee).
  rewrite Hrd in E. injection E as <-. pose proof (length_contents _ Hst) as Hlc. pose proof (wf_read _ Hst).
  unfold sent in *. split_and!; try done.
  - rewrite zlen_ztake by lia. lia.
  - rewrite Hct, Hco, zdrop_zdrop by lia. done.
  - rewrite Hbr, Z.min_l by lia. apply u64_small. lia.
  - rewrite <-(length_contents _ Hwf'), Hct, zlen_zdrop by lia. lia.
  - lia.
Qed.

(** The state after reading [data] and sending it at the front of the unsent
    sequence numbers. *)
Lemma sinv_send s hist bs n (f : bool) :
  sinv s hist -> next_seq_no_ s = 1 + sent s ->
  ByteStream.read (stream_ s) n = Ok (ztake n (contents (stream_ s)), bs) ->
  0 <= n <= used_size_ (stream_ s) -> n <= MAX_PAYLOAD_SIZE -> 0 < n + (if f then 1 else 0) ->
  next_seq_no_ s - last_ack_no_ s + n + (if f then 1 else 0) < M16 ->
  (f = true -> n = used_size_ (stream_ s) /\ ended s = true) ->
  let s' := send_segment (set_stream_in bs s)
              (data_segment (isn_ s) (next_seq_no_ s) (ztake n (contents (stream_ s))) f) in
  sinv s' hist
  /\ next_seq_no_ s' = next_seq_no_ s + n + (if f then 1 else 0)
  /\ used_size_ (stream_ s') = used_size_ (stream_ s) - n
  /\ input_ended_ (stream_ s') = input_ended_ (stream_ s)
  /\ base s' = base s.
Proof.
  intros H Hnx Hrd Hn Hmax Hpos Hwin Hf s'. unfold MAX_PAYLOAD_SIZE in Hmax.
  destruct (H) as [Hst Her Hi Hbd Hwr Hse Hco _ Hw Hac Hfl Hq Hb Hfr Ht Hrto].
  destruct (read_for_segment s hist n bs H Hn Hrd) as (Hwf' & Hdl & Hct & Hbr' & Hus & Hbw & Hie & Hee & Hs0).
  set (data := ztake n (contents (stream_ s))) in *.
  set (seg := data_segment (isn_ s) (next_seq_no_ s) data f) in *.
  assert (seg_len seg = n + (if f then 1 else 0)) as Hsl.
  { subst seg. rewrite data_segment_len by lia. lia. }
  assert (seg_at (isn_ s) hist (ended s) (next_seq_no_ s) seg) as Hat.
  { subst seg. apply data_segment_at; try lia.
    - rewrite Hdl. subst data. rewrite Hco, Hnx. f_equal. f_equal. lia.
    - intros Hff. destruct (Hf Hff) as [Hu Hen]. split; [done|lia].
    - unfold MAX_PAYLOAD_SIZE. lia. }
  assert (u64 (next_seq_no_ s + seg_len seg) = next_seq_no_ s + n + (if f then 1 else 0)) as En.
  { rewrite Hsl. rewrite u64_small; destruct f; lia. }
  assert (u64 (bytes_in_flight_ s + seg_len seg) = bytes_in_flight_ s + n + (if f then 1 else 0)) as Ef.
  { rewrite Hsl. rewrite u64_small; destruct f; lia. }
  unfold s', send_segment. fold (seg_len seg).
  split; [|split_and!; [by cbn; rewrite En|done|done|unfold base; cbn; rewrite En, Ef; lia]].
  assert (ended (set_stream_in bs s) = ended s) as Hen' by exact Hie.
  assert (next_seq_no_ s + n + (if f then 1 else 0) - (bytes_in_flight_ s + n + (if f then 1 else 0))
    = base s) as Hbase by (unfold base; lia).
  cbn [isn_ set_stream_in stream_ segments_out_ outstanding_segments_ init_retransmission_timeout_ timer_
       retransmission_count_ next_seq_no_ last_ack_no_ bytes_in_flight_ window_size_].
  rewrite En, Ef. split; unfold base;
    cbn [isn_ stream_ outstanding_segments_ next_seq_no_ last_ack_no_ window_size_ bytes_in_flight_ timer_
         retransmission_count_ init_retransmission_timeout_]; rewrite ?Hbase; fold (base s); try done.
  - by rewrite Hee.
  - by rewrite Hbw.
  - unfold sent; cbn. rewrite Hbr', Hus. lia.
  - unfold sent; cbn. rewrite Hct, Hbr'. done.
  - unfold sent, ended; cbn. rewrite Hbr', Hie. destruct f; [|right; left; lia].
    destruct (Hf eq_refl) as [Hu Hen]. right. right. split_and!; [lia|lia|exact Hen].
  - destruct f; lia.
  - destruct f; lia.
  - unfold ended in *; cbn in *. rewrite Hie.
    replace (next_seq_no_ s + n + (if f then 1 else 0)) with (next_seq_no_ s + seg_len seg) by (rewrite Hsl; lia).
    by apply contiguous_snoc.
  - destruct (outstanding_segments_ s) as [|x q] eqn:Eq; cbn; [|done].
    apply (base_front s hist H) in Eq. rewrite Hsl.
    destruct (contiguous_le _ _ _ _ _ _ Hq) as [_ Hnil]. assert (base s = next_seq_no_ s) by (by apply Hnil).
    destruct f; lia.
  - unfold started. rewrite Ht.
    assert (bool_decide (outstanding_segments_ s ++ [seg] <> []) = true) as ->.
    { apply bool_decide_eq_true. by destruct (outstanding_segments_ s). }
    destruct (bool_decide (outstanding_segments_ s <> [])) eqn:Eb; cbn; [by rewrite Ht|done].
  - split; [apply Hrto|]. destruct Hrto as [_ (m & ? & ? & ?)]. exists m.
    destruct (negb (started (timer_ s))); done.
Qed.

(** The SYN. *)
Lemma sinv_syn s hist :
  sinv s hist -> next_seq_no_ s = 0 ->
  sinv (send_segment s (syn_segment s)) hist /\ next_seq_no_ (send_segment s (syn_segment s)) = 1
  /\ base (send_segment s (syn_segment s)) = base s.
Proof.
  intros H Hnx. destruct (H) as [Hst Her Hi Hbd Hwr Hse Hco Hn Hw Hac Hfl Hq Hb Hfr Ht Hrto].
  assert (bytes_in_flight_ s = 0) as Hf0 by lia. assert (last_ack_no_ s = 0) as Ha0 by lia.
  assert (outstanding_segments_ s = []) as Hnil by (apply (base_front s hist H); lia).
  pose proof (zlen_nonneg hist) as Hz. pose proof (wf_read _ Hst) as Hrd.
  assert (sent s = 0) as Hs0 by (unfold sent in *; lia).
  assert (seg_len (syn_segment s) = 1) as Hl by done.
  unfold send_segment. fold (seg_len (syn_segment s)). rewrite Hl, Hnx, Hf0, Hnil. cbn [app].
  change (u64 (0 + 1)) with 1. split; [|split; [done|unfold base; cbn; lia]].
  split; unfold base, sent, ended in *; cbn; try done; try lia.
  - split; [|done]. split; [|by split|done|done]. cbn. symmetry. by apply wrap_0.
  - unfold started. rewrite Ht, Hnil. done.
  - split; [apply Hrto|]. destruct Hrto as [_ (m & ? & ? & ?)]. exists m.
    by destruct (negb (started (timer_ s))).
Qed.

(** When the loop of [fill_window] has nothing more to do. *)
Definition filled (s : TCPSender) : Prop :=
  free_window_size s = 0
  \/ (used_size_ (stream_ s) = 0 /\ (ended s = true -> state s <> kSynAcked)).

(** What [fill_window] does not change, and how it extends the queues. *)
Record extends (s s' : TCPSender) (new : list TCPSegment) : Prop := {
  ex_isn : isn_ s' = isn_ s;
  ex_out : segments_out_ s' = segments_out_ s ++ new;
  ex_outstanding : outstanding_segments_ s' = outstanding_segments_ s ++ new;
  ex_ack : last_ack_no_ s' = last_ack_no_ s;
  ex_window : window_size_ s' = window_size_ s;
  ex_count : retransmission_count_ s' = retransmission_count_ s;
  ex_next : next_seq_no_ s <= next_seq_no_ s';
  ex_limit : next_seq_no_ s' <= Z.max (next_seq_no_ s) (last_ack_no_ s + Z.max 1 (window_size_ s));
  ex_ended : ended s' = ended s;
  ex_base : base s' = base s
}.

Lemma extends_refl s : extends s s [].
Proof. split; rewrite ?app_nil_r; done || lia. Qed.

Lemma extends_trans s1 s2 s3 n1 n2 : extends s1 s2 n1 -> extends s2 s3 n2 -> extends s1 s3 (n1 ++ n2).
Proof. intros [] []. split; rewrite ?app_assoc; first [congruence|lia]. Qed.

Lemma state_cases s hist :
  sinv s hist ->
  state s = (if next_seq_no_ s =? 0 then kClosed else
             if base s =? 0 then kSynSent else
             if next_seq_no_ s <? zlen hist + 2 then kSynAcked else
             if bytes_in_flight_ s =? 0 then kFinAcked else kFinSent).
Proof.
  intros [Hst Her Hi Hbd Hwr Hse Hco Hn Hw Hac Hfl Hq Hb Hfr Ht Hrto].
  unfold state, ByteStream.error, eof, bytes_written. rewrite Her, Hwr, u64_small by (pose proof (zlen_nonneg hist); lia).
  destruct (Z.eqb_spec (next_seq_no_ s) 0); [done|].
  destruct (Z.eqb_spec (next_seq_no_ s) (bytes_in_flight_ s)), (Z.eqb_spec (base s) 0);
    unfold base in *; try lia; [done|].
  destruct (Z.ltb_spec (next_seq_no_ s) (zlen hist + 2)); [by rewrite orb_true_r|].
  rewrite orb_false_r. assert (next_seq_no_ s = zlen hist + 2 /\ sent s = zlen hist /\ ended s = true) as (? & ? & He).
  { pose proof (wf_used _ Hst). destruct Hn as [Hn|[Hn|Hn]]; [lia|lia|exact Hn]. }
  assert (used_size_ (stream_ s) = 0) as -> by lia. unfold ended in He. rewrite He. cbn.
  by destruct (bytes_in_flight_ s =? 0).
Qed.

(** When the FIN is due, it has not been sent. *)
Lemma need_send_fin_spec s hist :
  sinv s hist -> input_ended_ (stream_ s) && bool_decide (state s = kSynAcked) = true ->
  ended s = true /\ next_seq_no_ s < zlen hist + 2.
Proof.
  intros H [He Hs]%andb_true_iff. split; [done|]. apply bool_decide_eq_true in Hs.
  rewrite (state_cases s hist H) in Hs. destruct (Z.eqb_spec (next_seq_no_ s) 0); [done|]. destruct (base s =? 0); [done|].
  destruct (Z.ltb_spec (next_seq_no_ s) (zlen hist + 2)); [done|]. by destruct (bytes_in_flight_ s =? 0).
Qed.

Lemma free_window_limit s hist :
  sinv s hist -> 0 < free_window_size s ->
  next_seq_no_ s + free_window_size s <= last_ack_no_ s + Z.max 1 (window_size_ s).
Proof.
  intros H. destruct (free_window_spec s hist H) as (-> & _ & _).
  destruct (Z.eqb_spec (window_size_ s) 0), (Z.eqb_spec (next_seq_no_ s) (last_ack_no_ s)); cbn; lia.
Qed.

(** One iteration. *)
Lemma fill_iteration fuel s hist :
  sinv s hist -> next_seq_no_ s <> 0 ->
  (filled s /\ fill_loop (Datatypes.S fuel) s = Ok s)
  \/ exists s' seg, fill_loop (Datatypes.S fuel) s = fill_loop fuel s'
       /\ sinv s' hist /\ extends s s' [seg] /\ next_seq_no_ s < next_seq_no_ s'
       /\ (used_size_ (stream_ s') < used_size_ (stream_ s)
           \/ used_size_ (stream_ s') = used_size_ (stream_ s) /\ next_seq_no_ s < zlen hist + 2
              /\ next_seq_no_ s' = zlen hist + 2).
Proof.
  intros H Hnz. destruct (free_window_spec s hist H) as (_ & Hf0 & Hfw).
  pose proof (free_window_limit s hist H) as Hlim. set (fw := free_window_size s) in *.
  destruct (H) as [Hst Her Hi Hbd Hwr Hse Hco Hn Hw Hac Hfl Hq Hb Hfr Ht Hrto].
  pose proof (wf_used _ Hst) as Hu. pose proof (zlen_nonneg hist).
  cbn [fill_loop]. fold fw. unfold buffer_size, input_ended.
  destruct (Z.eqb_spec fw 0) as [E|Hfwnz]; [left; split; [by left|done]|].
  set (need := input_ended_ (stream_ s) && bool_decide (state s = kSynAcked)).
  destruct ((used_size_ (stream_ s) =? 0) && negb need) eqn:Edone.
  { left. apply andb_true_iff in Edone as [Eu En]. apply Z.eqb_eq in Eu. apply negb_true_iff in En.
    split; [|done]. right. split; [done|]. intros He Hs. subst need. unfold ended in He.
    rewrite He, Hs in En. done. }
  right. set (n := Z.min (Z.min (used_size_ (stream_ s)) fw) MAX_PAYLOAD_SIZE).
  pose proof (need_send_fin_spec s hist H) as Hneed. fold need in Hneed.
  assert (0 < used_size_ (stream_ s) \/ used_size_ (stream_ s) = 0 /\ need = true) as Hwork.
  { destruct (Z.eqb_spec (used_size_ (stream_ s)) 0) as [E|E]; [right|left; lia].
    cbn in Edone. apply negb_false_iff in Edone. done. }
  assert (next_seq_no_ s = 1 + sent s) as Hnx.
  { destruct Hn as [[? _]|[?|(Hn2 & Hs2 & _)]]; [done|done|].
    destruct Hwork as [?|[_ Hnd]]; [lia|]. apply Hneed in Hnd. lia. }
  assert (0 <= n <= used_size_ (stream_ s) /\ n <= fw /\ n <= MAX_PAYLOAD_SIZE /\ (0 < used_size_ (stream_ s) -> 0 < n)) as Hnr.
  { subst n. unfold MAX_PAYLOAD_SIZE. lia. }
  destruct (read_contents (stream_ s) n Hst ltac:(lia)) as (bs & Hrd & Hwf' & Hcap & Hct & Hbr & Hbw & Hie & Hee).
  rewrite Hrd. cbn [mbind res_bind].
  set (f := eof bs && (n <? fw) && need).
  assert (used_size_ bs = used_size_ (stream_ s) - n) as Hus.
  { rewrite <-(length_contents _ Hwf'), Hct, zlen_zdrop by lia. rewrite length_contents by done. lia. }
  assert (f = true -> n = used_size_ (stream_ s) /\ ended s = true /\ n < fw /\ next_seq_no_ s < zlen hist + 2) as Hf.
  { subst f. intros [[He Hlt]%andb_true_iff Hnd]%andb_true_iff. apply Z.ltb_lt in Hlt.
    unfold eof in He. apply andb_true_iff in He as [He _]. apply Z.eqb_eq in He. destruct (Hneed Hnd). split_and!; first [done|lia]. }
  assert (used_size_ (stream_ s) = 0 -> f = true) as Hf1.
  { intros Hu0. destruct Hwork as [?|[_ Hnd]]; [lia|]. subst f. rewrite Hnd, andb_true_r.
    apply andb_true_iff. split; [|apply Z.ltb_lt; lia]. unfold eof. rewrite Hie.
    apply Hneed in Hnd as [He _]. unfold ended in He. rewrite He, andb_true_r. apply Z.eqb_eq. lia. }
  assert (0 < n + (if f then 1 else 0)) as Hpos.
  { destruct (Z.eq_dec (used_size_ (stream_ s)) 0) as [E|E]; [rewrite Hf1 by done; lia|destruct f; lia]. }
  destruct (sinv_send s hist bs n f H Hnx Hrd) as (Hs' & Hnx' & Hus' & Hen' & Hba'); try lia.
  { destruct f; [|lia]. destruct (Hf eq_refl) as (_ & _ & ? & _). lia. }
  { intros Ef. by destruct (Hf Ef) as (? & ? & _). }
  set (s' := send_segment _ _) in *. exists s'. eexists. split; [|split_and!; [done| |lia|]].
  - f_equal. unfold s'. f_equal. cbn [stream_ set_stream_in]. fold f. unfold data_segment. by destruct f.
  - assert (n + (if f then 1 else 0) <= fw) by (destruct f; [destruct (Hf eq_refl) as (_ & _ & ? & _)|]; lia).
    specialize (Hlim ltac:(lia)). split; done || lia.
  - destruct (Z.eq_dec n 0) as [E|E]; [right|left; lia].
    assert (used_size_ (stream_ s) = 0) as Hu0 by lia. specialize (Hf1 Hu0).
    destruct (Hf Hf1) as (_ & _ & _ & ?). rewrite Hf1 in Hnx'. lia.
Qed.

(** The loop ends within the fuel that [fill_window] gives it. *)
Lemma fill_loop_spec hist fuel : forall s,
  sinv s hist -> next_seq_no_ s <> 0 ->
  (Z.to_nat (used_size_ (stream_ s)) + (if (next_seq_no_ s <? zlen hist + 2)%Z then 1 else 0) < fuel)%nat ->
  exists s' new, fill_loop fuel s = Ok s' /\ sinv s' hist /\ filled s' /\ extends s s' new
    /\ next_seq_no_ s <= next_seq_no_ s'.
Proof.
  induction fuel as [|fuel IH]; intros s H Hnz Hfuel; [lia|].
  destruct (fill_iteration fuel s hist H Hnz) as [[Hf E]|(s1 & seg & E & H1 & Hex & Hn & Hm)].
  { exists s, []. split_and!; try done. apply extends_refl. }
  pose proof (wf_used _ (si_stream _ _ H)). pose proof (wf_used _ (si_stream _ _ H1)).
  pose proof (si_acked _ _ H).
  destruct (IH s1 H1) as (s' & new & E' & H' & Hf' & Hex' & Hle); [lia| |].
  { destruct (Z.ltb_spec (next_seq_no_ s) (zlen hist + 2)), (Z.ltb_spec (next_seq_no_ s1) (zlen hist + 2)); lia. }
  exists s', ([seg] ++ new). split_and!; try done; [congruence|by eapply extends_trans|lia].
Qed.

Lemma fill_window_spec s hist :
  sinv s hist ->
  exists s' new, fill_window s = Ok s' /\ sinv s' hist /\ extends s s' new
    /\ (next_seq_no_ s = 0 \/ filled s').
Proof.
  intros H. pose proof (state_cases s hist H) as Hst. unfold fill_window.
  destruct (Z.eqb_spec (next_seq_no_ s) 0) as [E|E].
  - rewrite Hst, bool_decide_true by done. destruct (sinv_syn s hist H E) as (H' & Hn' & Hba').
    pose proof (si_acked s hist H).
    exists (send_segment s (syn_segment s)), [syn_segment s].
    split_and!; [done|done|split; done || lia|by left].
  - rewrite bool_decide_false; cycle 1.
    { rewrite Hst. by repeat case_match. }
    pose proof (wf_used _ (si_stream _ _ H)).
    destruct (fill_loop_spec hist (fill_fuel s) s H E) as (s' & new & E' & H' & Hf & Hex & _).
    { unfold fill_fuel, buffer_size. destruct (next_seq_no_ s <? zlen hist + 2); lia. }
    exists s', new. split_and!; try done. by right.
Qed.

(** ** Acknowledgments *)

Lemma ack_loop_spec isn hist e last abs b t q : forall a fl,
  contiguous isn hist e a q b -> 0 <= last < M64 -> 0 <= a -> b < M63 ->
  last - M31 <= a -> b <= last + M31 -> a <= abs <= b -> b - a <= fl < M64 ->
  exists dropped q' a',
    ack_loop q isn last abs fl t = (q', fl - (a' - a), if bool_decide (q' = []) then t else timer_restart t)
    /\ q = dropped ++ q' /\ contiguous isn hist e a dropped a' /\ contiguous isn hist e a' q' b
    /\ a <= a' <= abs
    /\ match q' with [] => True | seg :: _ => abs < a' + seg_len seg end.
Proof.
  induction q as [|seg q IH]; intros a fl Hq Hl Ha Hb Hna Hnb Habs Hfl; cbn [ack_loop].
  - exists [], [], a. cbn in *. split_and!; try done; try lia. f_equal. f_equal. lia.
  - destruct Hq as [Hat Hq]. destruct (contiguous_le _ _ _ _ _ _ Hq) as [Hle _].
    destruct (Hat) as [Hseq Hlen _ _]. rewrite Hseq, unwrap_wrap_near by lia.
    fold (seg_len seg). rewrite u64_small by lia.
    destruct (Z.ltb_spec abs (a + seg_len seg)).
    + exists [], (seg :: q), a. split_and!; try done; try lia. f_equal. f_equal. lia.
    + rewrite u64_small by lia.
      destruct (IH (a + seg_len seg) (fl - seg_len seg) Hq) as (dr & q' & a' & E & Hsp & Hdr & Hq' & Ha' & Hf);
        try lia.
      exists (seg :: dr), q', a'. rewrite E. split_and!; try done; try lia.
      * f_equal. f_equal. lia.
      * cbn. by f_equal.
Qed.

(** The three things an acknowledgment can be. *)
Lemma ack_received_old s ackno w :
  let abs := unwrap ackno (isn_ s) (last_ack_no_ s) in
  abs <= last_ack_no_ s \/ next_seq_no_ s < abs ->
  ack_received s ackno w = (if abs =? last_ack_no_ s then set_window w s else s).
Proof.
  cbv zeta. intros H. unfold ack_received.
  destruct (Z.leb_spec (unwrap ackno (isn_ s) (last_ack_no_ s)) (last_ack_no_ s)),
    (Z.ltb_spec (next_seq_no_ s) (unwrap ackno (isn_ s) (last_ack_no_ s))); cbn [orb]; try done; lia.
Qed.

Lemma ack_received_new s hist ackno w :
  sinv s hist -> 0 <= w < M16 ->
  let abs := unwrap ackno (isn_ s) (last_ack_no_ s) in
  last_ack_no_ s < abs <= next_seq_no_ s ->
  let s' := ack_received s ackno w in
  exists dropped,
    sinv s' hist /\ outstanding_segments_ s = dropped ++ outstanding_segments_ s'
    /\ contiguous (isn_ s) hist (ended s) (base s) dropped (base s')
    /\ base s' <= abs
    /\ last_ack_no_ s' = abs /\ window_size_ s' = w /\ retransmission_count_ s' = 0
    /\ timeout_ms_ (timer_ s') = init_retransmission_timeout_ s
    /\ segments_out_ s' = segments_out_ s /\ stream_ s' = stream_ s /\ next_seq_no_ s' = next_seq_no_ s
    /\ isn_ s' = isn_ s /\ elapsed_ms_ (timer_ s') = 0.
Proof.
  intros H Hwr abs Habs s'.
  destruct (H) as [Hst Her Hi Hbd Hwt Hse Hco Hn Hw Hac Hfl Hq Hb Hfr Ht [Hrto Hrto']].
  assert (base s <= next_seq_no_ s /\ last_ack_no_ s - M31 <= base s) as [Hbn Hbl].
  { destruct (outstanding_segments_ s) as [|seg q] eqn:Eq.
    - cbn in Hq. unfold base in *. lia.
    - destruct Hq as [[_ Hlen _ _] Hq]. destruct (contiguous_le _ _ _ _ _ _ Hq) as [Hle _].
      unfold MAX_PAYLOAD_SIZE in Hlen. lia. }
  assert (next_seq_no_ s <= zlen hist + 2) as Hnb.
  { pose proof (wf_used _ Hst). destruct Hn as [Hn|[Hn|Hn]]; lia. }
  destruct (ack_loop_spec (isn_ s) hist (ended s) (last_ack_no_ s) abs (next_seq_no_ s)
    (timer_reset_to (init_retransmission_timeout_ s) (timer_ s)) _ _ (bytes_in_flight_ s) Hq)
    as (dr & q' & a' & E & Hsp & Hdr & Hq' & Ha' & Hf'); try lia.
  { unfold base in *. lia. }
  { unfold base. lia. }
  exists dr. unfold s', ack_received. fold abs.
  destruct (Z.leb_spec abs (last_ack_no_ s)); [lia|]. destruct (Z.ltb_spec (next_seq_no_ s) abs); [lia|].
  cbn [orb]. rewrite E. cbn [outstanding_segments_].
  destruct (contiguous_le _ _ _ _ _ _ Hq') as [Hle' _].
  assert (next_seq_no_ s - (bytes_in_flight_ s - (a' - base s)) = a') as Hbase by (unfold base; lia).
  match goal with |- context [base ?x] => assert (base x = a') as -> by exact Hbase end.
  split_and!; try done; try lia.
  - split; unfold base; cbn; try (fold (base s); rewrite Hbase); try done; try lia.
    + destruct q' as [|seg q'']; [done|]. by rewrite bool_decide_false.
    + split; [lia|]. exists 0. split_and!; [lia|done|].
      rewrite Z.mul_1_r, u64_small by lia. by case_bool_decide.
  - cbn. by case_bool_decide.
  - cbn. by case_bool_decide.
Qed.

Lemma sinv_ack s hist ackno w :
  sinv s hist -> 0 <= w < M16 -> sinv (ack_received s ackno w) hist.
Proof.
  intros H Hw. set (abs := unwrap ackno (isn_ s) (last_ack_no_ s)).
  destruct (Z_le_gt_dec abs (last_ack_no_ s)); [|destruct (Z_lt_le_dec (next_seq_no_ s) abs)].
  1,2: rewrite ack_received_old by (fold abs; lia); fold abs; destruct (abs =? _); [|done];
    destruct H; by split.
  destruct (ack_received_new s hist ackno w H Hw) as (dr & H' & _); [fold abs; lia|done].
Qed.

(** ** Time *)

Lemma tick_waiting s ms :
  expired (timer_tick ms (timer_ s)) = false ->
  exists t, tick s ms = Ok (mkTCPSender (isn_ s) (segments_out_ s) (outstanding_segments_ s)
      (init_retransmission_timeout_ s) (stream_ s) t (retransmission_count_ s) (next_seq_no_ s)
      (last_ack_no_ s) (bytes_in_flight_ s) (window_size_ s))
    /\ timeout_ms_ t = timeout_ms_ (timer_ s) /\ started_ t = started_ (timer_ s).
Proof.
  intros E. unfold tick. rewrite E. cbn [negb]. eexists. split; [done|].
  unfold timer_tick. by destruct (started_ (timer_ s)) eqn:Es; cbn; rewrite ?Es.
Qed.

(** The timer runs out: the oldest segment is sent again; unless the window is
    closed, the timeout doubles. *)
Lemma tick_expired s hist ms :
  sinv s hist -> expired (timer_tick ms (timer_ s)) = true ->
  exists front q s', outstanding_segments_ s = front :: q /\ tick s ms = Ok s' /\ sinv s' hist
    /\ segments_out_ s' = segments_out_ s ++ [front]
    /\ outstanding_segments_ s' = outstanding_segments_ s
    /\ elapsed_ms_ (timer_ s') = 0
    /\ (timeout_ms_ (timer_ s'), retransmission_count_ s')
       = (if 0 <? window_size_ s
          then (u64 (timeout_ms_ (timer_ s) * 2), u64 (retransmission_count_ s + 1))
          else (timeout_ms_ (timer_ s), retransmission_count_ s)).
Proof.
  intros H E. destruct (H) as [Hst Her Hi Hbd Hwt Hse Hco Hn Hw Hac Hfl Hq Hb Hfr Ht [Hr (m & Hm & Hc & Hto)]].
  assert (started_ (timer_ s) = true) as Hs.
  { unfold expired, timer_tick in E. destruct (started_ (timer_ s)) eqn:Es; [done|]. by rewrite Es in E. }
  assert (timeout_ms_ (timer_tick ms (timer_ s)) = timeout_ms_ (timer_ s)) as Htt.
  { unfold timer_tick. by destruct (started_ (timer_ s)). }
  unfold tick. rewrite E. cbn [negb]. destruct (outstanding_segments_ s) as [|front q] eqn:Eq.
  { rewrite Ht in Hs. by rewrite bool_decide_false in Hs. }
  exists front, q. unfold timeout_ms. rewrite Htt.
  destruct (0 <? window_size_ s); eexists; (split_and!; [done|done| |done|done|done|]); try done;
    try (cbn; by rewrite Htt).
  - split; unfold base, sent, ended; cbn; rewrite ?Eq; try done.
    split; [done|]. exists (m + 1). split_and!; [lia| |].
    + rewrite Hc. unfold u64. by rewrite Zplus_mod_idemp_l.
    + rewrite Hto, Z.pow_add_r by lia. unfold u64. rewrite Zmult_mod_idemp_l. f_equal. lia.
  - split; unfold base, sent, ended; cbn; rewrite ?Eq, ?Htt; try done.
    split; [done|]. exists m. done.
Qed.

Lemma sinv_tick s hist ms : sinv s hist -> exists s', tick s ms = Ok s' /\ sinv s' hist.
Proof.
  intros H. destruct (expired (timer_tick ms (timer_ s))) eqn:E.
  - destruct (tick_expired s hist ms H E) as (front & q & s' & _ & E' & H' & _). eauto.
  - destruct (tick_waiting s ms E) as (t & E' & Hto & Hs). eexists. split; [done|].
    destruct H as [? ? ? ? ? ? ? ? ? ? ? ? ? ? Ht [Hr (m & Hm & Hc & Hrto)]].
    split; try done; cbn; [congruence|]. split; [done|]. exists m. split_and!; [done|done|congruence].
Qed.

(** ** Histories of a sender

    [reach s hist log]: from a new sender, calls of its methods in any order,
    with any acknowledgments and any passing of time, lead to [s]; [hist] are
    the bytes accepted from the writer, who stops after [end_input], and [log]
    the segments the owner has taken from the outbound queue so far. *)

Definition end_input (s : TCPSender) : TCPSender := set_stream_in (ByteStream.end_input (stream_ s)) s.

Inductive reach (cap rto : Z) (isn : WrappingInt32) : TCPSender -> list byte -> list TCPSegment -> Prop :=
  | reach_new rnd : reach cap rto isn (new cap rto (Some isn) rnd) [] []
  | reach_fill s hist log s' :
      reach cap rto isn s hist log -> fill_window s = Ok s' -> reach cap rto isn s' hist log
  | reach_ack s hist log ackno w :
      reach cap rto isn s hist log -> 0 <= w < M16 -> reach cap rto isn (ack_received s ackno w) hist log
  | reach_tick s hist log ms s' :
      reach cap rto isn s hist log -> tick s ms = Ok s' -> reach cap rto isn s' hist log
  | reach_empty s hist log :
      reach cap rto isn s hist log -> reach cap rto isn (send_empty_segment s) hist log
  | reach_write s hist log data n bs :
      reach cap rto isn s hist log -> ended s = false -> zlen hist + zlen data + 2 < M63 ->
      ByteStream.write (stream_in s) data = Ok (n, bs) ->
      reach cap rto isn (set_stream_in bs s) (hist ++ ztake n data) log
  | reach_end s hist log :
      reach cap rto isn s hist log -> reach cap rto isn (end_input s) hist log
  | reach_drain s hist log :
      reach cap rto isn s hist log -> reach cap rto isn (set_segments_out [] s) hist (log ++ segments_out s).

(** A segment the sender may have handed out: one that starts at some sequence
    number already used, or an empty one. *)
Definition emitted (s : TCPSender) (hist : list byte) (seg : TCPSegment) : Prop :=
  (exists a, seg_at (isn_ s) hist (ended s) a seg /\ a + seg_len seg <= next_seq_no_ s)
  \/ (exists a, seqno (header seg) = wrap a (isn_ s) /\ 0 <= a <= next_seq_no_ s
        /\ syn (header seg) = false /\ fin (header seg) = false /\ str (payload seg) = []).

Lemma contiguous_emitted isn hist e q b seg : forall a,
  contiguous isn hist e a q b -> seg ∈ q ->
  exists a', seg_at isn hist e a' seg /\ a <= a' /\ a' + seg_len seg <= b.
Proof.
  induction q as [|x q IH]; intros a; cbn; [by intros _ ?%elem_of_nil|].
  intros [Hx Hq]. destruct (contiguous_le _ _ _ _ _ _ Hq) as [Hle _]. destruct (Hx) as [_ Hl _ _].
  intros [->|Hin]%elem_of_cons.
  - exists a. split_and!; [done|lia|lia].
  - destruct (IH _ Hq Hin) as (a' & ? & ? & ?). exists a'. split_and!; [done|lia|done].
Qed.

Lemma emitted_mono s s' hist more seg :
  isn_ s' = isn_ s -> next_seq_no_ s <= next_seq_no_ s' ->
  (ended s = true -> ended s' = true /\ more = []) ->
  emitted s hist seg -> emitted s' (hist ++ more) seg.
Proof.
  intros Hi Hn He [(a & Ha & Hl)|(a & Ha & Hl & ?)].
  - left. exists a. rewrite Hi. split; [by eapply seg_at_mono|lia].
  - right. exists a. rewrite Hi. split_and!; try tauto; lia.
Qed.

Lemma emitted_same s s' hist seg :
  isn_ s' = isn_ s -> next_seq_no_ s <= next_seq_no_ s' -> ended s' = ended s ->
  emitted s hist seg -> emitted s' hist seg.
Proof.
  intros Hi Hn He H. rewrite <-(app_nil_r hist). eapply emitted_mono; [done|done| |done].
  intros E. by rewrite He.
Qed.

Lemma outstanding_emitted s hist seg :
  sinv s hist -> seg ∈ outstanding_segments_ s -> emitted s hist seg.
Proof.
  intros H Hin. destruct (contiguous_emitted _ _ _ _ _ _ _ (si_queue _ _ H) Hin) as (a & ? & ? & ?).
  left. by exists a.
Qed.

Lemma sinv_write s hist data n bs :
  sinv s hist -> ended s = false -> zlen hist + zlen data + 2 < M63 ->
  ByteStream.write (stream_in s) data = Ok (n, bs) ->
  sinv (set_stream_in bs s) (hist ++ ztake n data).
Proof.
  intros H Hen Hb E. destruct (H) as [Hst Her Hi Hbd Hwr Hse Hco Hn Hw Hac Hfl Hq Hba Hfr Ht Hrto].
  destruct (write_contents (stream_ s) data Hst) as (bs' & E' & Hwf' & Hcap & Hct & Hbr & Hbw & Hie & Hee).
  unfold stream_in in E. rewrite E in E'. injection E' as -> <-.
  assert (ztake (zlen (accepted (stream_ s) data)) data = accepted (stream_ s) data) as Ha.
  { rewrite zlen_accepted by done. apply ztake_min. }
  pose proof (zlen_accepted (stream_ s) data Hst) as Hla. pose proof (zlen_nonneg data).
  pose proof (wf_used _ Hst). pose proof (zlen_nonneg hist).
  rewrite Ha. set (acc := accepted (stream_ s) data) in *.
  assert (zlen (hist ++ acc) = zlen hist + zlen acc) as Hl by apply zlen_app.
  assert (used_size_ bs = used_size_ (stream_ s) + zlen acc) as Hus.
  { rewrite <-(length_contents _ Hwf'), Hct, zlen_app, length_contents by done. done. }
  assert (0 <= sent s) as Hs0 by (pose proof (wf_read _ Hst); unfold sent; lia).
  split; unfold sent, ended in *; cbn; try done; rewrite ?Hl, ?Hbr, ?Hus, ?Hie; try lia.
  - by rewrite Hee.
  - rewrite Hbw, Hwr. apply u64_small. lia.
  - rewrite Hct, Hco, zdrop_app_le by lia. done.
  - destruct Hn as [?|[?|(? & ? & He)]]; [tauto|tauto|]. congruence.
  - rewrite Hen in *. eapply contiguous_mono; [|exact Hq]. done.
Qed.

Lemma sinv_end s hist : sinv s hist -> sinv (end_input s) hist.
Proof.
  intros [Hst Her Hi Hbd Hwr Hse Hco Hn Hw Hac Hfl Hq Hba Hfr Ht Hrto].
  split; unfold sent, ended, base in *; cbn; try done.
  - by apply wf_end_input.
  - tauto.
  - rewrite <-(app_nil_r hist). eapply contiguous_mono; [|exact Hq]. done.
Qed.

Lemma sinv_fields s s' hist :
  isn_ s' = isn_ s -> outstanding_segments_ s' = outstanding_segments_ s ->
  init_retransmission_timeout_ s' = init_retransmission_timeout_ s -> stream_ s' = stream_ s ->
  timer_ s' = timer_ s -> retransmission_count_ s' = retransmission_count_ s ->
  next_seq_no_ s' = next_seq_no_ s -> last_ack_no_ s' = last_ack_no_ s ->
  bytes_in_flight_ s' = bytes_in_flight_ s -> window_size_ s' = window_size_ s ->
  sinv s hist -> sinv s' hist.
Proof.
  intros E1 E2 E3 E4 E5 E6 E7 E8 E9 E10 []. split; unfold base, sent, ended in *;
    rewrite ?E1, ?E2, ?E3, ?E4, ?E5, ?E6, ?E7, ?E8, ?E9, ?E10; done.
Qed.

Lemma sinv_empty s hist : sinv s hist -> sinv (send_empty_segment s) hist.
Proof. intros H. unfold send_empty_segment. destruct (segments_out_ s); [|done]. by apply (sinv_fields s). Qed.

Lemma next_seq_range s hist : sinv s hist -> 0 <= next_seq_no_ s <= zlen hist + 2.
Proof.
  intros [Hst Her Hi Hbd Hwr Hse Hco Hn Hw Hac Hfl Hq Hba Hfr Ht Hrto].
  pose proof (wf_used _ Hst). pose proof (wf_read _ Hst). unfold sent in *. destruct Hn as [?|[?|?]]; lia.
Qed.

(** Every call keeps the invariant, and every segment queued so far is one the
    sender may emit. *)
Lemma reach_sinv cap rto isn s hist log :
  0 < cap < M63 -> 0 <= rto < M16 -> wi_ok isn -> reach cap rto isn s hist log ->
  sinv s hist /\ isn_ s = isn /\ Forall (emitted s hist) (log ++ segments_out s).
Proof.
  intros Hc Hr Hi. induction 1 as [rnd|s hist log s' _ (H & Hn & Hem) E|s hist log ackno w _ (H & Hn & Hem) Hw
    |s hist log ms s' _ (H & Hn & Hem) E|s hist log _ (H & Hn & Hem)|s hist log data n bs _ (H & Hn & Hem) Hen Hb E
    |s hist log _ (H & Hn & Hem)|s hist log _ (H & Hn & Hem)]; unfold segments_out in *.
  - split_and!; [by apply sinv_new|done|done].
  - destruct (fill_window_spec s hist H) as (s1 & new & E' & H' & Hex & _). rewrite E in E'. injection E' as <-.
    split_and!; [done|by rewrite (ex_isn _ _ _ Hex)|].
    rewrite (ex_out _ _ _ Hex), app_assoc. apply Forall_app. split.
    + eapply Forall_impl; [exact Hem|]. intros seg. apply emitted_same; apply Hex.
    + apply Forall_forall. intros seg Hin. apply (outstanding_emitted s' hist seg H').
      rewrite (ex_outstanding _ _ _ Hex). apply elem_of_app. by right.
  - split; [by apply sinv_ack|].
    assert (isn_ (ack_received s ackno w) = isn_ s /\ next_seq_no_ (ack_received s ackno w) = next_seq_no_ s
      /\ stream_ (ack_received s ackno w) = stream_ s
      /\ segments_out_ (ack_received s ackno w) = segments_out_ s) as (E1 & E2 & E3 & E4).
    { unfold ack_received. repeat case_match; done. }
    rewrite E1, E4. split; [done|]. eapply Forall_impl; [exact Hem|]. intros seg.
    apply emitted_same; [done|lia|unfold ended; by rewrite E3].
  - destruct (expired (timer_tick ms (timer_ s))) eqn:Ex.
    + destruct (tick_expired s hist ms H Ex) as (front & q & s1 & Eq & E' & H' & Eo & _).
      rewrite E in E'. injection E' as <-. split; [done|].
      assert (isn_ s' = isn_ s /\ next_seq_no_ s' = next_seq_no_ s /\ stream_ s' = stream_ s) as (E1 & E2 & E3).
      { unfold tick in E. rewrite Ex, Eq in E. cbn in E. destruct (0 <? window_size_ s); by injection E as <-. }
      rewrite E1, Eo, app_assoc. split; [done|]. apply Forall_app. split.
      * eapply Forall_impl; [exact Hem|]. intros seg. apply emitted_same; [done|lia|unfold ended; by rewrite E3].
      * apply Forall_singleton. apply (emitted_same s); [done|lia|unfold ended; by rewrite E3|].
        apply outstanding_emitted; [done|]. rewrite Eq. by left.
    + destruct (sinv_tick s hist ms H) as (s1 & E' & H'). rewrite E in E'. injection E' as <-.
      destruct (tick_waiting s ms Ex) as (t & E' & _). rewrite E in E'. injection E' as ->.
      split_and!; [done|done|]. eapply Forall_impl; [exact Hem|]. intros seg. by apply emitted_same.
  - split; [by apply sinv_empty|]. unfold send_empty_segment. destruct (segments_out_ s) eqn:Eo; [|by rewrite Eo].
    cbn. split; [done|]. apply Forall_app. rewrite app_nil_r in Hem. split.
    + eapply Forall_impl; [exact Hem|]. intros seg. by apply emitted_same.
    + apply Forall_singleton. right. exists (next_seq_no_ s). pose proof (next_seq_range s hist H). cbn. by split_and!; try lia.
  - split_and!; [by apply sinv_write|done|]. cbn. eapply Forall_impl; [exact Hem|]. intros seg.
    apply emitted_mono; [done|cbn; lia|]. congruence.
  - split_and!; [by apply sinv_end|done|]. cbn. eapply Forall_impl; [exact Hem|]. intros seg.
    rewrite <-(app_nil_r hist) at 2. apply emitted_mono; [done|cbn; lia|done].
  - split_and!; [by apply (sinv_fields s)|done|]. cbn. rewrite app_nil_r.
    eapply Forall_impl; [exact Hem|]. intros seg. by apply emitted_same.
Qed.

Lemma contiguous_sum isn hist e q b : forall a,
  contiguous isn hist e a q b -> b - a = foldr Z.add 0 (map seg_len q).
Proof.
  induction q as [|x q IH]; intros a; cbn; [lia|]. intros [_ H]. apply IH in H. lia.
Qed.

(** ** Properties *)

(** C8: what the sender puts on the wire is the stream: whatever is written,
    acknowledged (also by old, repeated or impossible acknowledgments) and
    however time passes, every segment handed out that occupies sequence
    numbers, retransmissions included, starts at a sequence number [a] and
    carries exactly the written bytes from [a - 1] on, at most 1000 of them;
    only number 0 is a SYN, and a FIN is set only on the segment that reaches
    the end of the ended stream. *)
Theorem sender_emits_stream (cap rto : Z) (isn : WrappingInt32) (s : TCPSender) (hist : list byte)
    (log : list TCPSegment) :
  0 < cap < M63 -> 0 <= rto < M16 -> wi_ok isn -> reach cap rto isn s hist log ->
  Forall (fun seg => 0 < length_in_sequence_space seg ->
    exists a, seg_at isn hist (ended s) a seg
      /\ a + length_in_sequence_space seg <= next_seqno_absolute s) (log ++ segments_out s).
Proof.
  intros Hc Hr Hi H. destruct (reach_sinv _ _ _ _ _ _ Hc Hr Hi H) as (Hs & <- & Hem).
  eapply Forall_impl; [exact Hem|]. intros seg [(a & Ha & Hl)|(a & _ & _ & Hsy & Hf & Hp)] Hpos.
  - exists a. done.
  - unfold length_in_sequence_space in Hpos. rewrite Hsy, Hf, Hp in Hpos. done.
Qed.

Definition sample_isn : WrappingInt32 := mkWrappingInt32 4294967294.

(** A sender that wrote "ab", ended its stream, sent the SYN, saw it
    acknowledged with a window of 1000 and filled the window. *)
Definition or_else (r : res TCPSender) (s : TCPSender) : TCPSender :=
  match r with Ok s' => s' | Fail _ => s end.
Definition sample_new : TCPSender := new 8 1000 (Some sample_isn) 0.
Definition sample_written : TCPSender := Eval vm_compute in
  match ByteStream.write (stream_in sample_new) [x61; x62] with
  | Ok (_, bs) => set_stream_in bs sample_new | Fail _ => sample_new end.
Definition sample_syn_sent : TCPSender := Eval vm_compute in
  or_else (fill_window (end_input sample_written)) sample_new.
Definition sample_filled : TCPSender := Eval vm_compute in
  or_else (fill_window (ack_received sample_syn_sent (wrap 1 sample_isn) 1000)) sample_new.
Definition sample_sender : TCPSender := Eval vm_compute in set_segments_out [] sample_filled.

Lemma sample_reach :
  reach 8 1000 sample_isn sample_sender [x61; x62] (segments_out sample_filled).
Proof.
  assert (reach 8 1000 sample_isn sample_written [x61; x62] []) as H1.
  { apply (reach_write _ _ _ sample_new [] [] [x61; x62] 2); [apply reach_new|reflexivity|reflexivity|].
    vm_compute. reflexivity. }
  assert (reach 8 1000 sample_isn sample_syn_sent [x61; x62] []) as H2.
  { apply (reach_fill _ _ _ (end_input sample_written)); [by apply reach_end|vm_compute; reflexivity]. }
  assert (reach 8 1000 sample_isn sample_filled [x61; x62] []) as H3.
  { apply (reach_fill _ _ _ (ack_received sample_syn_sent (wrap 1 sample_isn) 1000));
      [apply reach_ack; [done|lia]|vm_compute; reflexivity]. }
  apply (reach_drain _ _ _ sample_filled [x61; x62] []). exact H3.
Qed.

Lemma sender_emits_stream_witness :
  map (fun seg => (str (payload seg), syn (header seg), fin (header seg))) (segments_out sample_filled)
    = [([], true, false); ([x61; x62], false, true)] /\
  Forall (fun seg => 0 < length_in_sequence_space seg ->
    exists a, seg_at sample_isn [x61; x62] (ended sample_sender) a seg
      /\ a + length_in_sequence_space seg <= next_seqno_absolute sample_sender)
    (segments_out sample_filled ++ segments_out sample_sender).
Proof.
  split; [reflexivity|].
  apply (sender_emits_stream 8 1000 sample_isn sample_sender [x61; x62] (segments_out sample_filled));
    [lia|lia|split; cbn; lia|apply sample_reach].
Defined.

(** C30: the sender never faults: in every reachable state [fill_window]
    terminates and returns, [tick] never trips its assertion (a running timer
    implies an outstanding segment), and the invariant holds afterwards. *)
Theorem sender_never_faults (cap rto : Z) (isn : WrappingInt32) (s : TCPSender) (hist : list byte)
    (log : list TCPSegment) (ms : Z) :
  0 < cap < M63 -> 0 <= rto < M16 -> wi_ok isn -> reach cap rto isn s hist log ->
  (exists s', fill_window s = Ok s' /\ sinv s' hist)
  /\ (exists s', tick s ms = Ok s' /\ sinv s' hist)
  /\ (started (timer_ s) = true <-> outstanding_segments_ s <> []).
Proof.
  intros Hc Hr Hi H. destruct (reach_sinv _ _ _ _ _ _ Hc Hr Hi H) as (Hs & _ & _). split_and!.
  - destruct (fill_window_spec s hist Hs) as (s' & new & E & H' & _). eauto.
  - by apply sinv_tick.
  - unfold started. rewrite (si_timer s hist Hs). apply bool_decide_eq_true.
Qed.

Lemma sender_never_faults_witness :
  
  (exists s', fill_window sample_sender = Ok s' /\ sinv s' [x61; x62])
  /\ (exists s', tick sample_sender 5000 = Ok s' /\ sinv s' [x61; x62])
  /\ (started (timer_ sample_sender) = true <-> outstanding_segments_ sample_sender <> []).
Proof.
  apply (sender_never_faults 8 1000 sample_isn sample_sender [x61; x62] (segments_out sample_filled) 5000); [lia|lia|split; cbn; lia|apply sample_reach].
Defined.

(** C13: flow control: [bytes_in_flight] is the total length of the
    outstanding segments; [fill_window] sends nothing beyond the window the
    peer announced (one sequence number when it announced none), and stops
    only when the window is used up or when there is nothing left to send: no
    byte in the stream and, if the stream has ended, the FIN sent or not yet
    due. *)
Theorem sender_fills_window (cap rto : Z) (isn : WrappingInt32) (s : TCPSender) (hist : list byte)
    (log : list TCPSegment) :
  0 < cap < M63 -> 0 <= rto < M16 -> wi_ok isn -> reach cap rto isn s hist log ->
  bytes_in_flight s = foldr Z.add 0 (map seg_len (outstanding_segments_ s))
  /\ next_seqno_absolute s - last_ack_no_ s < M16
  /\ exists s' sent_now, fill_window s = Ok s'
     /\ segments_out s' = segments_out s ++ sent_now
     /\ outstanding_segments_ s' = outstanding_segments_ s ++ sent_now
     /\ next_seqno_absolute s' <= Z.max (next_seqno_absolute s) (last_ack_no_ s + Z.max 1 (window_size_ s))
     /\ (state s <> kClosed ->
         free_window_size s' = 0
         \/ (ByteStream.buffer_size (stream_in s') = 0
             /\ (ByteStream.input_ended (stream_in s') = true -> state s' <> kSynAcked))).
Proof.
  intros Hc Hr Hi H. destruct (reach_sinv _ _ _ _ _ _ Hc Hr Hi H) as (Hs & _ & _). split_and!.
  - pose proof (contiguous_sum _ _ _ _ _ _ (si_queue s hist Hs)) as E. unfold base in E. unfold bytes_in_flight. lia.
  - apply (si_acked s hist Hs).
  - destruct (fill_window_spec s hist Hs) as (s' & new & E & H' & Hex & Hf). exists s', new.
    destruct (Hex). split_and!; try done. intros Hst. destruct Hf as [Hz|Hf]; [|done].
    rewrite (state_cases s hist Hs), Hz in Hst. done.
Qed.

Lemma sender_fills_window_witness :
   bytes_in_flight sample_sender = foldr Z.add 0 (map seg_len (outstanding_segments_ sample_sender))
  /\ next_seqno_absolute sample_sender - last_ack_no_ sample_sender < M16
  /\ exists s' sent_now, fill_window sample_sender = Ok s'
     /\ segments_out s' = segments_out sample_sender ++ sent_now
     /\ outstanding_segments_ s' = outstanding_segments_ sample_sender ++ sent_now
     /\ next_seqno_absolute s' <= Z.max (next_seqno_absolute sample_sender) (last_ack_no_ sample_sender + Z.max 1 (window_size_ sample_sender))
     /\ (state sample_sender <> kClosed ->
         free_window_size s' = 0
         \/ (ByteStream.buffer_size (stream_in s') = 0
             /\ (ByteStream.input_ended (stream_in s') = true -> state s' <> kSynAcked))).
Proof.
  apply (sender_fills_window 8 1000 sample_isn sample_sender [x61; x62] (segments_out sample_filled)); [lia|lia|split; cbn; lia|apply sample_reach].
Defined.

(** C14: what an acknowledgment does: one at or below the last, or beyond what
    was sent, removes nothing (a repeated one only updates the window); a new
    one removes from the front of the queue exactly the segments that end at
    or before it, sets the timeout back to the initial one, the elapsed time
    and the count of retransmissions to zero, sends nothing, and leaves the
    timer running exactly when segments remain. *)
Theorem sender_ack_received (cap rto : Z) (isn : WrappingInt32) (s : TCPSender) (hist : list byte)
    (log : list TCPSegment) (abs w : Z) :
  0 < cap < M63 -> 0 <= rto < M16 -> wi_ok isn -> reach cap rto isn s hist log ->
  0 <= w < M16 -> 0 <= abs < M64 -> - M31 <= abs - last_ack_no_ s < M31 ->
  let s' := ack_received s (wrap abs isn) w in
  if (last_ack_no_ s <? abs) && (abs <=? next_seqno_absolute s)
  then exists dropped, outstanding_segments_ s = dropped ++ outstanding_segments_ s'
         /\ contiguous isn hist (ended s) (base s) dropped (base s') /\ base s' <= abs
         /\ match outstanding_segments_ s' with [] => abs = next_seqno_absolute s
            | seg :: _ => abs < base s' + seg_len seg end
         /\ last_ack_no_ s' = abs /\ window_size_ s' = w /\ consecutive_retransmissions s' = 0
         /\ timeout_ms (timer_ s') = init_retransmission_timeout_ s /\ elapsed_ms_ (timer_ s') = 0
         /\ segments_out s' = segments_out s /\ next_seqno_absolute s' = next_seqno_absolute s
         /\ (started (timer_ s') = true <-> outstanding_segments_ s' <> [])
  else s' = (if abs =? last_ack_no_ s then set_window w s else s).
Proof.
  intros Hc Hr Hi H Hw Ha Hnear. destruct (reach_sinv _ _ _ _ _ _ Hc Hr Hi H) as (Hs & Eisn & _).
  pose proof (si_acked s hist Hs). pose proof (next_seq_range s hist Hs). pose proof (si_bound s hist Hs).
  assert (unwrap (wrap abs isn) (isn_ s) (last_ack_no_ s) = abs) as Hu.
  { rewrite Eisn. apply unwrap_wrap_near; lia. }
  unfold next_seqno_absolute.
  destruct (Z.ltb_spec (last_ack_no_ s) abs), (Z.leb_spec abs (next_seq_no_ s)); cbn [andb].
  2-4: rewrite ack_received_old, Hu by (rewrite Hu; lia); done.
  destruct (ack_received_new s hist (wrap abs isn) w Hs Hw) as (dr & Hs' & Hq & Hd & Hb & Hl & Hw' & Hrc & Hto & Ho & _ & Hn & _ & Hel);
    [rewrite Hu; lia|].
  rewrite Hu in *. exists dr. rewrite Eisn in Hd. split_and!; try done.
  - set (s' := ack_received s (wrap abs isn) w) in *.
    pose proof (si_front s' hist Hs') as Hf. pose proof (base_front s' hist Hs') as Hbf.
    destruct (outstanding_segments_ s') as [|seg q]; [|lia]. rewrite <-Hl, <-Hn. by apply Hbf.
  - unfold consecutive_retransmissions. by rewrite Hrc.
  - unfold started. rewrite (si_timer _ hist Hs'). apply bool_decide_eq_true.
Qed.

Lemma sender_ack_received_witness :
  let s := sample_sender in
  let s' := ack_received s (wrap 4 sample_isn) 9 in
  if (last_ack_no_ s <? 4) && (4 <=? next_seqno_absolute s)
  then exists dropped, outstanding_segments_ s = dropped ++ outstanding_segments_ s'
         /\ contiguous sample_isn [x61; x62] (ended s) (base s) dropped (base s') /\ base s' <= 4
         /\ match outstanding_segments_ s' with [] => 4 = next_seqno_absolute s
            | seg :: _ => 4 < base s' + seg_len seg end
         /\ last_ack_no_ s' = 4 /\ window_size_ s' = 9 /\ consecutive_retransmissions s' = 0
         /\ timeout_ms (timer_ s') = init_retransmission_timeout_ s /\ elapsed_ms_ (timer_ s') = 0
         /\ segments_out s' = segments_out s /\ next_seqno_absolute s' = next_seqno_absolute s
         /\ (started (timer_ s') = true <-> outstanding_segments_ s' <> [])
  else s' = (if 4 =? last_ack_no_ s then set_window 9 s else s).
Proof.
  apply (sender_ack_received 8 1000 sample_isn sample_sender [x61; x62] (segments_out sample_filled) 4 9);
    [lia|lia|split; cbn; lia|apply sample_reach|lia|lia|cbn; lia].
Defined.

(** C32: retransmission: a tick that runs the timer out sends again the oldest
    outstanding segment, exactly once, restarts the timer, and, unless the
    peer's window is closed, counts the retransmission and doubles the
    timeout, so that after [n] consecutive retransmissions the timeout is
    [2^n] times the initial one (modulo 2^64); any other tick sends nothing. *)
Theorem sender_tick (cap rto : Z) (isn : WrappingInt32) (s : TCPSender) (hist : list byte)
    (log : list TCPSegment) (ms : Z) :
  0 < cap < M63 -> 0 <= rto < M16 -> wi_ok isn -> reach cap rto isn s hist log ->
  (exists n, 0 <= n /\ retransmission_count_ s = u64 n
     /\ timeout_ms (timer_ s) = u64 (init_retransmission_timeout_ s * 2 ^ n))
  /\ exists s', tick s ms = Ok s' /\ outstanding_segments_ s' = outstanding_segments_ s /\
    if expired (timer_tick ms (timer_ s))
    then exists front q, outstanding_segments_ s = front :: q
           /\ segments_out s' = segments_out s ++ [front] /\ elapsed_ms_ (timer_ s') = 0
           /\ (timeout_ms (timer_ s'), retransmission_count_ s')
              = (if 0 <? window_size_ s
                 then (u64 (timeout_ms (timer_ s) * 2), u64 (retransmission_count_ s + 1))
                 else (timeout_ms (timer_ s), retransmission_count_ s))
    else segments_out s' = segments_out s /\ retransmission_count_ s' = retransmission_count_ s
         /\ timeout_ms (timer_ s') = timeout_ms (timer_ s).
Proof.
  intros Hc Hr Hi H. destruct (reach_sinv _ _ _ _ _ _ Hc Hr Hi H) as (Hs & _ & _). split.
  - apply (si_rto s hist Hs).
  - destruct (expired (timer_tick ms (timer_ s))) eqn:E.
    + destruct (tick_expired s hist ms Hs E) as (front & q & s' & Eq & E' & _ & Eo & Eq' & Et & Ec).
      exists s'. split_and!; try done. exists front, q. done.
    + destruct (tick_waiting s ms E) as (t & E' & Hto & _). eexists. split_and!; try done.
Qed.

Lemma sender_tick_witness :
  
  (exists n, 0 <= n /\ retransmission_count_ sample_sender = u64 n
     /\ timeout_ms (timer_ sample_sender) = u64 (init_retransmission_timeout_ sample_sender * 2 ^ n))
  /\ exists s', tick sample_sender 1000 = Ok s' /\ outstanding_segments_ s' = outstanding_segments_ sample_sender /\
    if expired (timer_tick 1000 (timer_ sample_sender))
    then exists front q, outstanding_segments_ sample_sender = front :: q
           /\ segments_out s' = segments_out sample_sender ++ [front] /\ elapsed_ms_ (timer_ s') = 0
           /\ (timeout_ms (timer_ s'), retransmission_count_ s')
              = (if 0 <? window_size_ sample_sender
                 then (u64 (timeout_ms (timer_ sample_sender) * 2), u64 (retransmission_count_ sample_sender + 1))
                 else (timeout_ms (timer_ sample_sender), retransmission_count_ sample_sender))
    else segments_out s' = segments_out sample_sender /\ retransmission_count_ s' = retransmission_count_ sample_sender
         /\ timeout_ms (timer_ s') = timeout_ms (timer_ sample_sender).
Proof.
  apply (sender_tick 8 1000 sample_isn sample_sender [x61; x62] (segments_out sample_filled) 1000); [lia|lia|split; cbn; lia|apply sample_reach].
Defined.
