(* ===== verification/Transfer.v ===== *)
(** * A sender and a receiver over an unreliable network

    The sender of one connection and the receiver of the other, joined by a
    network that may lose, reorder and duplicate segments and acknowledgments:
    it remembers everything that was ever sent and delivers any of it at any
    time.  The only thing it must not do is deliver a segment or an
    acknowledgment that is 2^31 sequence numbers behind, the limit that 32-bit
    sequence numbers set.  The receiver's reader and the sender's writer act
    at any time. *)

From Stdlib Require Import ZArith Lia.
From S2P Require Import Prelude WrappingIntegers Ring ByteStream UnAssembleBuffer StreamReassembler Buffer Parser TCPHeader TCPSegment TCPReceiver TCPSender.

(** ** The system *)

(** [sys_written] are the bytes accepted from the writer, [sys_read] those the
    reader took; [sys_segments] and [sys_acks] are what was ever sent, with its
    absolute sequence number. *)
Record system : Type := mkSystem {
  sys_sender : TCPSender;
  sys_receiver : TCPReceiver;
  sys_written : list byte;
  sys_read : list byte;
  sys_segments : list (Z * TCPSegment);
  sys_acks : list (Z * WrappingInt32 * Z)
}.

Definition initial (scap rto : Z) (isn : WrappingInt32) (rcap : Z) : system :=
  mkSystem (TCPSender.new scap rto (Some isn) 0) (TCPReceiver.new rcap) [] [] [] [].

(** The absolute sequence number a segment is sent with. *)
Definition stamp (s : TCPSender) (seg : TCPSegment) : Z * TCPSegment :=
  (unwrap (seqno (header seg)) (isn_ s) (last_ack_no_ s), seg).

(** The owner takes the outbound queue and puts it on the network. *)
Definition post (s : TCPSender) (sys : system) : system :=
  mkSystem (set_segments_out [] s) (sys_receiver sys) (sys_written sys) (sys_read sys)
    (sys_segments sys ++ map (stamp s) (segments_out s)) (sys_acks sys).

Definition set_receiver (r : TCPReceiver) (sys : system) : system :=
  mkSystem (sys_sender sys) r (sys_written sys) (sys_read sys) (sys_segments sys) (sys_acks sys).

(** The window field of an outgoing segment. *)
Definition advertised (r : TCPReceiver) : Z := u16 (Z.min (window_size r) 65535).

Inductive step : system -> system -> Prop :=
  | step_write sys data n bs :
      ended (sys_sender sys) = false -> zlen (sys_written sys) + zlen data + 2 < M63 ->
      ByteStream.write (stream_in (sys_sender sys)) data = Ok (n, bs) ->
      step sys (mkSystem (set_stream_in bs (sys_sender sys)) (sys_receiver sys) (sys_written sys ++ ztake n data)
        (sys_read sys) (sys_segments sys) (sys_acks sys))
  | step_end sys :
      step sys (mkSystem (end_input (sys_sender sys)) (sys_receiver sys) (sys_written sys)
        (sys_read sys) (sys_segments sys) (sys_acks sys))
  | step_fill sys s : fill_window (sys_sender sys) = Ok s -> step sys (post s sys)
  | step_tick sys ms s : 0 <= ms < M64 -> TCPSender.tick (sys_sender sys) ms = Ok s -> step sys (post s sys)
  | step_empty sys : step sys (post (send_empty_segment (sys_sender sys)) sys)
  | step_deliver sys a seg r :
      (a, seg) ∈ sys_segments sys -> abs_ack_no (sys_receiver sys) - a <= M31 ->
      segment_received (sys_receiver sys) seg = Ok r -> step sys (set_receiver r sys)
  | step_reply sys n :
      ackno (sys_receiver sys) = Ok (Some n) ->
      step sys (mkSystem (sys_sender sys) (sys_receiver sys) (sys_written sys) (sys_read sys) (sys_segments sys)
        ((abs_ack_no (sys_receiver sys), n, advertised (sys_receiver sys)) :: sys_acks sys))
  | step_ack sys b n w :
      (b, n, w) ∈ sys_acks sys -> last_ack_no_ (sys_sender sys) - b <= M31 ->
      step sys (post (ack_received (sys_sender sys) n w) sys)
  | step_read sys len l out :
      0 <= len < M64 -> ByteStream.read (stream_out (sys_receiver sys)) len = Ok (l, out) ->
      step sys (mkSystem (sys_sender sys) (set_stream_out (sys_receiver sys) out) (sys_written sys)
        (sys_read sys ++ l) (sys_segments sys) (sys_acks sys)).

Inductive steps : system -> system -> Prop :=
  | steps_refl sys : steps sys sys
  | steps_step sys1 sys2 sys3 : steps sys1 sys2 -> step sys2 sys3 -> steps sys1 sys3.

(** ** The invariant *)

Section transfer.
Context (isn : WrappingInt32) (cap : Z).

(** The first absolute sequence number beyond the receiver's buffer. *)
Definition edge (r : TCPReceiver) : Z := 1 + consumed (reassembler_ r) + cap.

(** The payload fits the receiver's buffer, or it is the one byte that probes
    a closed window. *)
Definition fits (r : TCPReceiver) (p : Z * TCPSegment) : Prop :=
  p.1 + zlen (str (payload p.2)) <= edge r
  \/ (p.1 <= 1 + next (reassembler_ r) /\ zlen (str (payload p.2)) = 1
      /\ fin (header p.2) = false /\ syn (header p.2) = false).

Definition on_wire (s : TCPSender) (hist : list byte) (r : TCPReceiver) (p : Z * TCPSegment) : Prop :=
  (seg_at isn hist (ended s) p.1 p.2 /\ p.1 + seg_len p.2 <= next_seq_no_ s /\ fits r p)
  \/ pure_ack p.2.

Definition ack_sent (s : TCPSender) (hist : list byte) (r : TCPReceiver) (p : Z * WrappingInt32 * Z) : Prop :=
  let '(b, n, w) := p in
  n = wrap b isn /\ 0 <= w < M16 /\ 1 <= b <= abs_ack_no r
  /\ (b + w <= edge r \/ (b = zlen hist + 2 /\ ended s = true)).

(** The outstanding segments with their positions. *)
Fixpoint queue_at (a : Z) (q : list TCPSegment) : list (Z * TCPSegment) :=
  match q with
  | [] => []
  | seg :: q => (a, seg) :: queue_at (a + seg_len seg) q
  end.

Record sysinv (sys : system) (rc : gset Z) (fn : bool) : Prop := {
  iv_snd : sinv (sys_sender sys) (sys_written sys);
  iv_isn : isn_ (sys_sender sys) = isn;
  iv_out : segments_out_ (sys_sender sys) = [];
  iv_rcv : rinv (sys_written sys) isn cap (sys_receiver sys) (sys_read sys) rc fn;
  iv_fin : fn = true -> ended (sys_sender sys) = true
           /\ next_seq_no_ (sys_sender sys) = zlen (sys_written sys) + 2;
  iv_listen : is_listen_ (sys_receiver sys) = false -> 1 <= next_seq_no_ (sys_sender sys);
  iv_sent : forall k, k ∈ rc -> k + 1 < next_seq_no_ (sys_sender sys);
  iv_ack : last_ack_no_ (sys_sender sys) <= abs_ack_no (sys_receiver sys);
  iv_window : last_ack_no_ (sys_sender sys) + window_size_ (sys_sender sys) <= edge (sys_receiver sys)
    \/ (last_ack_no_ (sys_sender sys) = zlen (sys_written sys) + 2 /\ ended (sys_sender sys) = true);
  iv_queue : Forall (fits (sys_receiver sys))
    (queue_at (base (sys_sender sys)) (outstanding_segments_ (sys_sender sys)));
  iv_net : Forall (on_wire (sys_sender sys) (sys_written sys) (sys_receiver sys)) (sys_segments sys);
  iv_acks : Forall (ack_sent (sys_sender sys) (sys_written sys) (sys_receiver sys)) (sys_acks sys)
}.

(** ** Lemmas *)

Context (Hcap : 0 < cap) (Hcap2 : 2 * cap < M63) (Hisn : wi_ok isn).

(** The bound the receiver's lemmas need follows from the sender's. *)
Lemma room s hist : sinv s hist -> 0 < cap < M63 /\ zlen hist + 2 * cap + 2 < M64.
Proof using All. intros H. pose proof (si_bound s hist H). lia. Qed.

Lemma queue_at_app isn0 hist e b q2 : forall q1 a,
  contiguous isn0 hist e a q1 b -> queue_at a (q1 ++ q2) = queue_at a q1 ++ queue_at b q2.
Proof using All.
  induction q1 as [|x q1 IH]; intros a; cbn; [by intros ->|]. intros [_ H]. by rewrite IH.
Qed.

Lemma contiguous_split isn0 hist e b q2 : forall q1 a,
  contiguous isn0 hist e a (q1 ++ q2) b ->
  exists m, contiguous isn0 hist e a q1 m /\ contiguous isn0 hist e m q2 b.
Proof using All.
  induction q1 as [|x q1 IH]; intros a; cbn; [by eauto|].
  intros [Hx H]. destruct (IH _ H) as (m & ? & ?). by exists m.
Qed.

(** The positions of contiguous segments. *)
Lemma queue_at_spec isn0 hist e b q : forall a p,
  contiguous isn0 hist e a q b -> p ∈ queue_at a q ->
  seg_at isn0 hist e p.1 p.2 /\ a <= p.1 /\ p.1 + seg_len p.2 <= b.
Proof using All.
  induction q as [|x q IH]; intros a p; cbn; [by intros _ ?%elem_of_nil|].
  intros [Hx H]. destruct (contiguous_le _ _ _ _ _ _ H) as [Hle _]. destruct (Hx) as [_ Hl _ _].
  intros [->|Hin]%elem_of_cons; [cbn; split_and!; [done|lia|lia]|].
  destruct (IH _ _ H Hin) as (? & ? & ?). split_and!; [done|lia|done].
Qed.

Lemma queue_at_seg q : forall a seg, seg ∈ q -> exists a', (a', seg) ∈ queue_at a q.
Proof using All.
  induction q as [|x q IH]; intros a seg; [by intros ?%elem_of_nil|].
  intros [->|Hin]%elem_of_cons; [exists a; by left|].
  destruct (IH (a + seg_len x) seg Hin) as [a' ?]. exists a'. by right.
Qed.

(** A receiver that only moves forward. *)
Record later (r r' : TCPReceiver) : Prop := {
  la_consumed : consumed (reassembler_ r) <= consumed (reassembler_ r');
  la_next : next (reassembler_ r) <= next (reassembler_ r');
  la_ack : abs_ack_no r <= abs_ack_no r'
}.

Lemma later_refl r : later r r.
Proof using All. split; lia. Qed.

Lemma fits_later r r' p : later r r' -> fits r p -> fits r' p.
Proof using All. intros [Hc Hn _] [H|H]; [left|right]; unfold edge in *; lia || (split_and!; try tauto; lia). Qed.

Lemma on_wire_later s hist r r' p : later r r' -> on_wire s hist r p -> on_wire s hist r' p.
Proof using All. intros Hl [(?&?&?)|?]; [left|by right]. split_and!; try done. by eapply fits_later. Qed.

Lemma ack_sent_later s hist r r' p : later r r' -> ack_sent s hist r p -> ack_sent s hist r' p.
Proof using All.
  intros [Hc _ Ha]. destruct p as [[b n] w]. intros (Hn & Hw & Hb & He). split_and!; try done; try lia.
  destruct He; [left; unfold edge in *; lia|by right].
Qed.

(** A sender that sends more, or whose stream grows or ends. *)
Lemma on_wire_sender s s' hist more r p :
  next_seq_no_ s <= next_seq_no_ s' -> (ended s = true -> ended s' = true /\ more = []) ->
  on_wire s hist r p -> on_wire s' (hist ++ more) r p.
Proof using All.
  intros Hn He [(Ha & Hl & Hf)|?]; [left|by right]. split_and!; [by eapply seg_at_mono|lia|done].
Qed.

Lemma ack_sent_sender s s' hist more r p :
  (ended s = true -> ended s' = true /\ more = []) -> ack_sent s hist r p -> ack_sent s' (hist ++ more) r p.
Proof using All.
  intros He. destruct p as [[b n] w]. intros (Hn & Hw & Hb & Hx). split_and!; try done; try lia.
  destruct Hx as [|[-> Hs]]; [by left|right]. destruct (He Hs) as [? ->]. by rewrite app_nil_r.
Qed.
(** *** The writer *)

Lemma sysinv_initial scap rto :
  0 < scap < M63 -> 0 <= rto < M16 -> sysinv (initial scap rto isn cap) ∅ false.
Proof using All.
  intros Hs Hr. split; cbn; try done; try (unfold edge, consumed; cbn; lia).
  - by apply sinv_new.
  - split; try done. apply inv_new; lia.
Qed.

Lemma sysinv_write sys rc fn data n bs :
  sysinv sys rc fn -> ended (sys_sender sys) = false -> zlen (sys_written sys) + zlen data + 2 < M63 ->
  ByteStream.write (stream_in (sys_sender sys)) data = Ok (n, bs) ->
  sysinv (mkSystem (set_stream_in bs (sys_sender sys)) (sys_receiver sys) (sys_written sys ++ ztake n data)
        (sys_read sys) (sys_segments sys) (sys_acks sys)) rc fn.
Proof using All.
  intros [Hs Hi Ho Hr Hf Hl Hk Ha Hw Hq Hn Hac] He Hb E.
  assert (fn = false) as -> by (destruct fn; [|done]; destruct (Hf eq_refl); congruence).
  split; cbn; try done.
  - by apply sinv_write.
  - by apply rinv_extend.
  - destruct Hw as [|[_ ?]]; [by left|congruence].
  - eapply Forall_impl; [exact Hn|]. intros p. apply on_wire_sender; cbn; [lia|congruence].
  - eapply Forall_impl; [exact Hac|]. intros p. apply ack_sent_sender. congruence.
Qed.

Lemma sysinv_end sys rc fn :
  sysinv sys rc fn -> sysinv (mkSystem (end_input (sys_sender sys)) (sys_receiver sys) (sys_written sys)
    (sys_read sys) (sys_segments sys) (sys_acks sys)) rc fn.
Proof using All.
  intros [Hs Hi Ho Hr Hf Hl Hk Ha Hw Hq Hn Hac]. split; cbn; try done.
  - by apply sinv_end.
  - intros Hfn. by destruct (Hf Hfn).
  - tauto.
  - eapply Forall_impl; [exact Hn|]. intros p. rewrite <-(app_nil_r (sys_written sys)) at 2.
    apply on_wire_sender; cbn; [lia|done].
  - eapply Forall_impl; [exact Hac|]. intros p. rewrite <-(app_nil_r (sys_written sys)) at 2. by apply ack_sent_sender.
Qed.

(** *** The receiver's side *)

(** The receiver moves forward. *)
Lemma sysinv_receiver sys rc fn r' dlv' rc' fn' :
  sysinv sys rc fn -> rinv (sys_written sys) isn cap r' dlv' rc' fn' -> later (sys_receiver sys) r' ->
  (fn' = true -> ended (sys_sender sys) = true /\ next_seq_no_ (sys_sender sys) = zlen (sys_written sys) + 2) ->
  (is_listen_ r' = false -> 1 <= next_seq_no_ (sys_sender sys)) ->
  (forall k, k ∈ rc' -> k + 1 < next_seq_no_ (sys_sender sys)) ->
  sysinv (mkSystem (sys_sender sys) r' (sys_written sys) dlv' (sys_segments sys) (sys_acks sys)) rc' fn'.
Proof using All.
  intros [Hs Hi Ho Hr Hf Hl Hk Ha Hw Hq Hn Hac] Hr' Hla Hf' Hl' Hk'.
  split; cbn [sys_sender sys_receiver sys_written sys_read sys_segments sys_acks]; try done.
  - pose proof (la_ack _ _ Hla). lia.
  - destruct Hw as [|?]; [left|by right]. pose proof (la_consumed _ _ Hla). unfold edge in *. lia.
  - eapply Forall_impl; [exact Hq|]. intros p. by apply fits_later.
  - eapply Forall_impl; [exact Hn|]. intros p. by apply on_wire_later.
  - eapply Forall_impl; [exact Hac|]. intros p. by apply ack_sent_later.
Qed.

(** More received means further. *)
Lemma rinv_later hist r dlv (rc : gset Z) fn r' dlv' (rc' : gset Z) fn' :
  zlen hist + 2 * cap + 2 < M64 ->
  rinv hist isn cap r dlv rc fn -> rinv hist isn cap r' dlv' rc' fn' -> rc ⊆ rc' -> (fn = true -> fn' = true) ->
  (is_listen_ r = false -> is_listen_ r' = false) -> zlen dlv <= zlen dlv' -> later r r'.
Proof using All.
  intros HS Hr Hr' Hrc Hfn Hli Hd. pose proof (next_mono _ _ _ _ _ _ _ _ _ _ _ _ (ri_inv _ _ _ _ _ _ _ Hr) (ri_inv _ _ _ _ _ _ _ Hr') Hrc).
  destruct (state_spec hist isn cap ltac:(lia) HS Hisn _ _ _ _ Hr) as [_ Ha].
  destruct (state_spec hist isn cap ltac:(lia) HS Hisn _ _ _ _ Hr') as [_ Ha'].
  destruct (written_range hist isn cap ltac:(lia) HS Hisn _ _ _ _ Hr) as [_ ?].
  destruct (written_range hist isn cap ltac:(lia) HS Hisn _ _ _ _ Hr') as [_ ?].
  split; [|done|].
  - rewrite (inv_consumed _ _ _ _ _ _ (ri_inv _ _ _ _ _ _ _ Hr)), (inv_consumed _ _ _ _ _ _ (ri_inv _ _ _ _ _ _ _ Hr')). done.
  - rewrite Ha, Ha'. destruct (is_listen_ r); [destruct (is_listen_ r'); [lia|]; destruct (fn' && _); lia|].
    rewrite Hli by done.
    destruct fn; cbn [andb]; [rewrite Hfn by done; cbn [andb]|destruct (fn' && _); lia].
    destruct (Z.eqb_spec (next (reassembler_ r)) (zlen hist)), (Z.eqb_spec (next (reassembler_ r')) (zlen hist)); lia.
Qed.

Lemma sysinv_read sys rc fn len :
  sysinv sys rc fn -> 0 <= len < M64 ->
  exists l out, ByteStream.read (stream_out (sys_receiver sys)) len = Ok (l, out)
    /\ contents out = zdrop len (contents (stream_out (sys_receiver sys)))
    /\ sysinv (mkSystem (sys_sender sys) (set_stream_out (sys_receiver sys) out) (sys_written sys)
         (sys_read sys ++ l) (sys_segments sys) (sys_acks sys)) rc fn.
Proof using All.
  intros H Hlen. destruct (room _ _ (iv_snd _ _ _ H)) as [Hc HS]. pose proof (iv_rcv _ _ _ H) as Hr.
  destruct (rinv_read _ _ _ Hc HS Hisn _ _ _ _ len Hr Hlen) as (l & out & E & Hr').
  destruct (read_contents (stream_out (sys_receiver sys)) len) as (out' & E' & _ & _ & Hct & _);
    [apply Hr|lia|]. rewrite E in E'. injection E' as El <-. exists l, out. split_and!; [done|done|].
  apply (sysinv_receiver sys rc fn); try done; [|apply (iv_fin _ _ _ H)|apply (iv_listen _ _ _ H)|apply (iv_sent _ _ _ H)].
  eapply rinv_later; try done. rewrite zlen_app. pose proof (zlen_nonneg l). lia.
Qed.

(** A segment of the sender carries its part of the stream. *)
Lemma seg_at_carries hist e a seg :
  seg_at isn hist e a seg -> carries hist isn seg (if syn (header seg) then 0 else a - 1).
Proof using All.
  intros [Hq Hl Hs Hf]. pose proof (zlen_nonneg hist).
  split; [rewrite Hq|by intros ->|]; destruct (syn (header seg)).
  - destruct Hs as (-> & _). done.
  - f_equal. lia.
  - destruct Hs as (-> & Hp & Hfi). rewrite Hp, Hfi. split_and!; [lia|exact (zlen_nonneg hist)|done|done].
  - destruct Hs as (Ha & Hle & Hd). split_and!; [lia|lia|done|]. intros Hfi. by destruct (Hf Hfi).
Qed.

(** Before the SYN is heard the window is open. *)
Lemma listen_edge hist r dlv rc fn :
  rinv hist isn cap r dlv rc fn -> is_listen_ r = true -> next (reassembler_ r) = 0 /\ edge r = 1 + cap.
Proof using All.
  intros Hr Hl. destruct (ri_listen _ _ _ _ _ _ _ Hr Hl) as [Hn _]. split; [done|].
  pose proof (next_range _ (inv_wf _ _ _ _ _ _ (ri_inv _ _ _ _ _ _ _ Hr))). unfold edge. lia.
Qed.
(** A segment inside the window. *)
Lemma deliver_in_window sys rc fn a seg :
  sysinv sys rc fn -> let r := sys_receiver sys in
  seg_at isn (sys_written sys) (ended (sys_sender sys)) a seg -> a + seg_len seg <= next_seq_no_ (sys_sender sys) ->
  a + zlen (str (payload seg)) <= edge r -> abs_ack_no r - a <= M31 ->
  exists r', segment_received r seg = Ok r' /\ later r r'
    /\ (heard r seg = true -> is_listen_ r' = false)
    /\ sysinv (set_receiver r' sys)
         (rc ∪ new_indices r seg (if syn (header seg) then 0 else a - 1)) (fn || heard r seg && fin (header seg)).
Proof using All.
  intros H r Hat Hle Hed Hage. destruct (room _ _ (iv_snd _ _ _ H)) as [Hc HS]. pose proof (iv_rcv _ _ _ H) as Hr.
  fold r in Hr. pose proof (seg_at_carries _ _ _ _ Hat) as Hca. set (idx := if syn (header seg) then 0 else a - 1) in *.
  pose proof (seg_len_eq seg) as Hsl. destruct (Hat) as [_ Hl Hsy Hfi].
  pose proof (si_acked _ _ (iv_snd _ _ _ H)) as Hak. pose proof (iv_ack _ _ _ H) as Hla. fold r in Hla.
  pose proof (si_bound _ _ (iv_snd _ _ _ H)) as Hbd. pose proof (zlen_nonneg (str (payload seg))) as Hpz.
  assert (zlen (str (payload seg)) <= zlen (sys_written sys)) as Hpb.
  { destruct (syn (header seg)); [destruct Hsy as (_ & -> & _); apply zlen_nonneg|destruct Hsy; lia]. }
  rewrite Hsl in Hl, Hle by lia. clear Hsl.
  assert (admissible r seg idx) as Had.
  { split.
    - unfold in_window. rewrite (inv_cap _ _ _ _ _ _ (ri_inv _ _ _ _ _ _ _ Hr)). unfold edge in Hed. subst idx.
      pose proof (next_range _ (inv_wf _ _ _ _ _ _ (ri_inv _ _ _ _ _ _ _ Hr))).
      destruct (syn (header seg)); [destruct Hsy as (_ & -> & _); change (zlen (@nil byte)) with 0|]; lia.
    - intros _. subst idx. destruct (syn (header seg)); [destruct Hsy as (-> & _)|]; lia. }
  destruct (rinv_segment _ _ _ Hc HS Hisn _ _ _ _ _ _ Hr Hca Had) as (r' & E & Hr').
  assert (heard r seg = true -> is_listen_ r' = false) as Hh.
  { apply heard_listen; [done|]. intros Hli. left.
    destruct (state_spec _ _ _ Hc HS Hisn _ _ _ _ Hr) as [-> _]. by rewrite Hli. }
  assert (later r r') as Hlt.
  { eapply rinv_later; try done; [apply union_subseteq_l|by intros ->|]. intros Hnl. apply Hh. unfold heard. by rewrite Hnl. }
  exists r'. split_and!; try done. apply (sysinv_receiver sys rc fn); try done.
  - intros [Hfn|[_ Hf]%andb_true_iff]%orb_true_iff; [by apply (iv_fin _ _ _ H)|].
    destruct (Hfi Hf) as [He Hend]. split; [done|].
    pose proof (next_seq_range _ _ (iv_snd _ _ _ H)). rewrite Hf in Hle, Hl.
    destruct (syn (header seg)); [destruct Hsy as (_ & _ & ?); congruence|lia].
  - intros _. destruct (syn (header seg)), (fin (header seg)); destruct Hsy; lia.
  - intros k [Hk|Hk]%elem_of_union; [by apply (iv_sent _ _ _ H)|].
    unfold new_indices in Hk. destruct (heard r seg); [|by apply elem_of_empty in Hk].
    apply elem_of_indices in Hk. subst idx. destruct (syn (header seg)).
    + destruct Hsy as (_ & Hp & _). rewrite Hp in Hk. change (zlen (@nil byte)) with 0 in Hk. lia.
    + destruct (fin (header seg)); lia.
Qed.

(** Whatever the network delivers in time is handled. *)
Lemma sysinv_deliver sys rc fn a seg :
  sysinv sys rc fn -> (a, seg) ∈ sys_segments sys -> abs_ack_no (sys_receiver sys) - a <= M31 ->
  exists r' rc' fn', segment_received (sys_receiver sys) seg = Ok r' /\ sysinv (set_receiver r' sys) rc' fn'.
Proof using All.
  intros H Hin Hage. destruct (room _ _ (iv_snd _ _ _ H)) as [Hc HS]. pose proof (iv_rcv _ _ _ H) as Hr.
  pose proof (iv_net _ _ _ H) as Hn. rewrite Forall_forall in Hn.
  destruct (Hn _ Hin) as [(Hat & Hle & Hfit)|Hp]; cbn in *.
  2: { exists (sys_receiver sys), rc, fn. split; [by eapply (rinv_ack _ _ _ Hc HS Hisn)|]. by destruct sys. }
  destruct (Z_le_gt_dec (a + zlen (str (payload seg))) (edge (sys_receiver sys))) as [Hed|Hed].
  { destruct (deliver_in_window sys rc fn a seg H Hat Hle Hed Hage) as (r' & E & _ & _ & H'). eauto. }
  (* the probe of a closed window *)
  destruct Hfit as [|(Hnx & Hone & Hfi & Hsy)]; cbn in *; [lia|].
  set (r := sys_receiver sys) in *. pose proof (next_range _ (inv_wf _ _ _ _ _ _ (ri_inv _ _ _ _ _ _ _ Hr))) as Hrg.
  rewrite (inv_cap _ _ _ _ _ _ (ri_inv _ _ _ _ _ _ _ Hr)) in Hrg. unfold edge in Hed.
  assert (is_listen_ r = false) as Hli.
  { destruct (is_listen_ r) eqn:El; [|done]. destruct (listen_edge _ _ _ _ _ Hr El) as [? He]. unfold edge in He. lia. }
  destruct (str (payload seg)) as [|x [|y l]] eqn:Ep; [done| |rewrite !zlen_cons in Hone; pose proof (zlen_nonneg l); lia].
  destruct (rinv_full _ _ _ Hc HS Hisn r _ _ _ seg x Hr Hli) as (r' & E & Hr' & Hli'); try done; [|lia|].
  { replace (next (reassembler_ r)) with (a - 1) by lia. pose proof (seg_at_carries _ _ _ _ Hat) as Hca.
    by rewrite Hsy in Hca. }
  exists r', rc, fn. split; [done|].
  apply (sysinv_receiver sys rc fn); try done; [|apply (iv_fin _ _ _ H)|by intros _; apply (iv_listen _ _ _ H)|apply (iv_sent _ _ _ H)].
  by eapply rinv_later.
Qed.

(** The receiver's answer. *)
Lemma sysinv_reply sys rc fn n :
  sysinv sys rc fn -> ackno (sys_receiver sys) = Ok (Some n) ->
  sysinv (mkSystem (sys_sender sys) (sys_receiver sys) (sys_written sys) (sys_read sys) (sys_segments sys)
    ((abs_ack_no (sys_receiver sys), n, advertised (sys_receiver sys)) :: sys_acks sys)) rc fn.
Proof using All.
  intros H E. destruct (room _ _ (iv_snd _ _ _ H)) as [Hc HS]. pose proof (iv_rcv _ _ _ H) as Hr.
  destruct (rinv_advert _ _ _ Hc HS Hisn _ _ _ _ Hr) as [Ha Hw]. rewrite E in Ha.
  destruct (state_spec _ _ _ Hc HS Hisn _ _ _ _ Hr) as [_ Hab].
  pose proof (next_range _ (inv_wf _ _ _ _ _ _ (ri_inv _ _ _ _ _ _ _ Hr))) as Hrg.
  rewrite (inv_consumed _ _ _ _ _ _ (ri_inv _ _ _ _ _ _ _ Hr)), (inv_cap _ _ _ _ _ _ (ri_inv _ _ _ _ _ _ _ Hr)) in Hrg.
  destruct (is_listen_ (sys_receiver sys)) eqn:El; [done|]. injection Ha as ->.
  destruct H as [Hs Hi Ho _ Hf Hl Hk Hak Hwi Hq Hn Hac].
  split; cbn [sys_sender sys_receiver sys_written sys_read sys_segments sys_acks]; try done.
  constructor; [|done]. unfold ack_sent, advertised, edge. rewrite Hw, u16_small by lia.
  rewrite (inv_consumed _ _ _ _ _ _ (ri_inv _ _ _ _ _ _ _ Hr)).
  split_and!; try done; try lia; rewrite Hab.
  1: destruct (fn && _); lia.
  destruct fn; cbn [andb]; [|left; lia].
  destruct (Z.eqb_spec (next (reassembler_ (sys_receiver sys))) (zlen (sys_written sys))); [right|left; lia].
  split; [lia|by apply Hf].
Qed.
(** *** The sender's side *)

Lemma sysinv_post sys rc fn s :
  sysinv sys rc fn -> sinv s (sys_written sys) -> isn_ s = isn ->
  next_seq_no_ (sys_sender sys) <= next_seq_no_ s -> ended s = ended (sys_sender sys) ->
  last_ack_no_ s <= abs_ack_no (sys_receiver sys) ->
  (last_ack_no_ s + window_size_ s <= edge (sys_receiver sys)
   \/ (last_ack_no_ s = zlen (sys_written sys) + 2 /\ ended s = true)) ->
  Forall (fits (sys_receiver sys)) (queue_at (base s) (outstanding_segments_ s)) ->
  Forall (on_wire s (sys_written sys) (sys_receiver sys)) (map (stamp s) (segments_out_ s)) ->
  sysinv (post s sys) rc fn.
Proof using All.
  intros [Hs Hi Ho Hr Hf Hl Hk Ha Hw Hq Hn Hac] Hs' Hi' Hnx He Ha' Hw' Hq' Hn'.
  pose proof (next_seq_range _ _ Hs').
  split; cbn [post sys_sender sys_receiver sys_written sys_read sys_segments sys_acks]; try done.
  - by apply (sinv_fields s).
  - intros Hfn. destruct (Hf Hfn) as [? ?]. cbn. split; [unfold ended in *; cbn; congruence|lia].
  - intros Hli. specialize (Hl Hli). cbn. lia.
  - intros k Hin. specialize (Hk k Hin). cbn. lia.
  - apply Forall_app. split; [|exact Hn'].
    eapply Forall_impl; [exact Hn|]. intros p. rewrite <-(app_nil_r (sys_written sys)) at 2.
    apply on_wire_sender; [done|]. intros E. split; [|done]. unfold ended in *. cbn. congruence.
  - eapply Forall_impl; [exact Hac|]. intros p. rewrite <-(app_nil_r (sys_written sys)) at 2.
    apply ack_sent_sender. intros E. split; [|done]. unfold ended in *. cbn. congruence.
Qed.

(** The stamp of a segment near the acknowledgment number is its position. *)
Lemma stamp_at s hist e a seg :
  sinv s hist -> isn_ s = isn -> seg_at isn hist e a seg -> 0 <= a < M63 ->
  - M31 <= a - last_ack_no_ s < M31 -> stamp s seg = (a, seg).
Proof using All.
  intros H Hi [Hq _ _ _] Ha Hn. unfold stamp. rewrite Hq, Hi.
  pose proof (si_acked _ _ H). pose proof (next_seq_range _ _ H). pose proof (si_bound _ _ H).
  rewrite unwrap_wrap_near by lia. done.
Qed.

(** Segments of the queue go on the wire as they are. *)
Lemma on_wire_queue sys rc fn s q a b :
  sysinv sys rc fn -> sinv s (sys_written sys) -> isn_ s = isn ->
  contiguous isn (sys_written sys) (ended s) a q b -> base s <= a -> b <= next_seq_no_ s ->
  Forall (fits (sys_receiver sys)) (queue_at a q) ->
  Forall (on_wire s (sys_written sys) (sys_receiver sys)) (map (stamp s) q).
Proof using All.
  intros H Hs Hi. pose proof (si_acked _ _ Hs). pose proof (si_flight _ _ Hs). pose proof (si_base _ _ Hs) as Hb.
  pose proof (next_seq_range _ _ Hs). pose proof (si_bound _ _ Hs).
  assert (last_ack_no_ s - M31 <= base s) as Hbl.
  { pose proof (si_front _ _ Hs) as Hf. pose proof (si_queue _ _ Hs) as Hq.
    destruct (outstanding_segments_ s) as [|x l]; [cbn in Hq; lia|].
    destruct Hq as [[_ Hl _ _] _]. unfold MAX_PAYLOAD_SIZE in Hl. lia. }
  revert a. induction q as [|x q IH]; intros a Hq Ha Hle Hfit; cbn [map queue_at]; [done|].
  destruct Hq as [Hx Hq]. destruct (contiguous_le _ _ _ _ _ _ Hq) as [Hle' _]. destruct (Hx) as [_ Hl _ _].
  apply Forall_cons in Hfit as [Hfx Hfit]. unfold base in *.
  rewrite (stamp_at s (sys_written sys) (ended s) a x) by (done || lia).
  constructor; [left; cbn; split_and!; [done|lia|done]|]. apply (IH _ Hq); [lia|done|done].
Qed.

(** New segments stay inside the window, or probe it when it is closed. *)
Lemma fill_fits sys rc fn s new :
  sysinv sys rc fn -> sinv s (sys_written sys) -> extends (sys_sender sys) s new ->
  contiguous isn (sys_written sys) (ended s) (next_seq_no_ (sys_sender sys)) new (next_seq_no_ s) ->
  Forall (fits (sys_receiver sys)) (queue_at (next_seq_no_ (sys_sender sys)) new).
Proof using All.
  intros H Hs Hex Hq. apply Forall_forall. intros p Hin.
  destruct (queue_at_spec _ _ _ _ _ _ _ Hq Hin) as (Hat & Ha & Hle). destruct (Hat) as [_ Hl _ _].
  pose proof (ex_limit _ _ _ Hex) as Hlim. pose proof (si_window _ _ (iv_snd _ _ _ H)) as Hwr.
  pose proof (si_acked _ _ (iv_snd _ _ _ H)) as Hak. pose proof (next_seq_range _ _ Hs) as Hnr.
  assert (zlen (str (payload p.2)) <= seg_len p.2 /\ (zlen (str (payload p.2)) = 1 -> seg_len p.2 = 1 ->
    fin (header p.2) = false /\ syn (header p.2) = false)) as [Hpl Hone].
  { pose proof (si_bound _ _ Hs). destruct Hat as [_ _ Hsy _]. pose proof (zlen_nonneg (str (payload p.2))).
    rewrite seg_len_eq by (destruct (syn _); [destruct Hsy as (_ & -> & _); done|destruct Hsy as (? & ? & _); lia]).
    destruct (syn _), (fin _); split; lia || done. }
  destruct (Z.eq_dec (window_size_ (sys_sender sys)) 0) as [Hz|Hz].
  - (* one sequence number beyond the last acknowledgment *)
    assert (last_ack_no_ (sys_sender sys) <= 1 + next (reassembler_ (sys_receiver sys))) as Hlast.
    { pose proof (iv_ack _ _ _ H) as Hia. pose proof (iv_rcv _ _ _ H) as Hr. destruct (room _ _ (iv_snd _ _ _ H)) as [Hc HS].
      destruct (state_spec _ _ _ Hc HS Hisn _ _ _ _ Hr) as [_ Hab]. destruct (written_range _ _ _ Hc HS Hisn _ _ _ _ Hr) as [_ ?].
      rewrite Hab in Hia. destruct (is_listen_ _); [lia|]. destruct fn; cbn [andb] in Hia; [|lia].
      destruct (Z.eqb_spec (next (reassembler_ (sys_receiver sys))) (zlen (sys_written sys))); lia. }
    destruct (Z.eq_dec (zlen (str (payload p.2))) 1) as [E1|E1].
    + right. split_and!; [lia|done|by apply Hone; [|lia]|by apply Hone; [|lia]].
    + left. pose proof (zlen_nonneg (str (payload p.2))).
      pose proof (next_range _ (inv_wf _ _ _ _ _ _ (ri_inv _ _ _ _ _ _ _ (iv_rcv _ _ _ H)))) as Hrg.
      rewrite (inv_cap _ _ _ _ _ _ (ri_inv _ _ _ _ _ _ _ (iv_rcv _ _ _ H))) in Hrg. unfold edge. lia.
  - left. destruct (iv_window _ _ _ H) as [Hw|[Hw _]]; lia.
Qed.

Lemma sysinv_fill sys rc fn :
  sysinv sys rc fn -> exists s new, fill_window (sys_sender sys) = Ok s /\ sysinv (post s sys) rc fn
    /\ extends (sys_sender sys) s new /\ (next_seq_no_ (sys_sender sys) = 0 \/ filled s).
Proof using All.
  intros H. destruct (fill_window_spec _ _ (iv_snd _ _ _ H)) as (s & new & E & Hs & Hex & Hf).
  exists s, new. split_and!; try done.
  pose proof (si_queue _ _ Hs) as Hq. rewrite (ex_outstanding _ _ _ Hex), (ex_base _ _ _ Hex), (ex_isn _ _ _ Hex), (iv_isn _ _ _ H) in Hq.
  pose proof (si_queue _ _ (iv_snd _ _ _ H)) as Hq0. rewrite (iv_isn _ _ _ H), <-(ex_ended _ _ _ Hex) in Hq0.
  assert (contiguous isn (sys_written sys) (ended s) (next_seq_no_ (sys_sender sys)) new (next_seq_no_ s)) as Hnew.
  { destruct (contiguous_split _ _ _ _ _ _ _ Hq) as (m & Hm & Hq').
    apply contiguous_sum in Hm as Hs1. apply contiguous_sum in Hq0 as Hs2.
    replace (next_seq_no_ (sys_sender sys)) with m by lia. done. }
  pose proof (fill_fits sys rc fn s new H Hs Hex Hnew) as Hfit.
  apply sysinv_post; rewrite ?(ex_isn _ _ _ Hex), ?(ex_ended _ _ _ Hex), ?(ex_ack _ _ _ Hex), ?(ex_window _ _ _ Hex); try done.
  - apply H.
  - apply Hex.
  - apply H.
  - apply H.
  - rewrite (ex_outstanding _ _ _ Hex), (ex_base _ _ _ Hex), (queue_at_app _ _ _ _ _ _ _ Hq0).
    apply Forall_app. split; [apply H|done].
  - rewrite (ex_out _ _ _ Hex), (iv_out _ _ _ H). cbn [app].
    eapply (on_wire_queue sys rc fn s new); try done.
    + by rewrite (ex_isn _ _ _ Hex), (iv_isn _ _ _ H).
    + rewrite (ex_base _ _ _ Hex). pose proof (si_flight _ _ (iv_snd _ _ _ H)). unfold base. lia.
Qed.
(** What a tick leaves alone, and what it sends. *)
Lemma tick_fields s ms s' :
  TCPSender.tick s ms = Ok s' ->
  isn_ s' = isn_ s /\ next_seq_no_ s' = next_seq_no_ s /\ last_ack_no_ s' = last_ack_no_ s
  /\ window_size_ s' = window_size_ s /\ base s' = base s /\ ended s' = ended s
  /\ outstanding_segments_ s' = outstanding_segments_ s
  /\ segments_out_ s' = segments_out_ s
       ++ (if expired (timer_tick ms (timer_ s)) then take 1 (outstanding_segments_ s) else []).
Proof using All.
  unfold TCPSender.tick. destruct (expired _); cbn [negb].
  - destruct (outstanding_segments_ s) as [|front q]; [done|].
    destruct (0 <? window_size_ s); intros [= <-]; by split_and!.
  - intros [= <-]. cbn. rewrite app_nil_r. by split_and!.
Qed.

Lemma sysinv_tick sys rc fn ms :
  sysinv sys rc fn -> exists s, TCPSender.tick (sys_sender sys) ms = Ok s /\ sysinv (post s sys) rc fn.
Proof using All.
  intros H. destruct (sinv_tick _ _ ms (iv_snd _ _ _ H)) as (s & E & Hs). exists s. split; [done|].
  destruct (tick_fields _ _ _ E) as (Ei & En & Ea & Ew & Eb & Ee & Eo & Es).
  apply sysinv_post; rewrite ?Ei, ?En, ?Ea, ?Ew, ?Eb, ?Ee, ?Eo; try done; try apply H.
  rewrite Es, (iv_out _ _ _ H). cbn [app]. destruct (expired _); [|done].
  pose proof (si_queue _ _ Hs) as Hq. pose proof (iv_queue _ _ _ H) as Hfit. rewrite Ei, (iv_isn _ _ _ H), Eo in Hq.
  destruct (outstanding_segments_ (sys_sender sys)) as [|front q]; [done|]. cbn [take].
  destruct Hq as [Hx Hq]. destruct (contiguous_le _ _ _ _ _ _ Hq) as [Hle _]. apply Forall_cons in Hfit as [Hfx _].
  change (take 0 q) with (@nil TCPSegment).
  apply (on_wire_queue sys rc fn s [front] (base s) (base s + seg_len front)); try done; try lia.
  - by rewrite Ei, (iv_isn _ _ _ H).
  - rewrite Eb. by constructor.
Qed.

Lemma sysinv_empty sys rc fn : sysinv sys rc fn -> sysinv (post (send_empty_segment (sys_sender sys)) sys) rc fn.
Proof using All.
  intros H. pose proof (sinv_empty _ _ (iv_snd _ _ _ H)) as Hs. unfold send_empty_segment in *.
  rewrite (iv_out _ _ _ H) in *. apply sysinv_post; try done; try apply H.
  constructor; [|done]. by right.
Qed.

(** Nothing is acknowledged that was not sent. *)
Lemma abs_ack_sent sys rc fn : sysinv sys rc fn -> abs_ack_no (sys_receiver sys) <= next_seq_no_ (sys_sender sys).
Proof using All.
  intros H. pose proof (iv_snd _ _ _ H) as Hs. pose proof (next_seq_range _ _ Hs) as Hnr.
  pose proof (iv_rcv _ _ _ H) as Hr. destruct (room _ _ Hs) as [Hc HS].
  destruct (state_spec _ _ _ Hc HS Hisn _ _ _ _ Hr) as [_ ->]. destruct (written_range _ _ _ Hc HS Hisn _ _ _ _ Hr) as [_ Hn].
  destruct (is_listen_ (sys_receiver sys)) eqn:El; [lia|].
  destruct fn; cbn [andb].
  - destruct (iv_fin _ _ _ H eq_refl) as [_ ->]. destruct (_ =? _); lia.
  - destruct (Z.eq_dec (next (reassembler_ (sys_receiver sys))) 0) as [->|Hnz]; [pose proof (iv_listen _ _ _ H El); lia|].
    pose proof (inv_seen _ _ _ _ _ _ (ri_inv _ _ _ _ _ _ _ Hr) (next (reassembler_ (sys_receiver sys)) - 1) ltac:(lia)) as Hk.
    apply (iv_sent _ _ _ H) in Hk. lia.
Qed.

Lemma sysinv_ack sys rc fn b n w :
  sysinv sys rc fn -> (b, n, w) ∈ sys_acks sys -> last_ack_no_ (sys_sender sys) - b <= M31 ->
  let s := ack_received (sys_sender sys) n w in
  sysinv (post s sys) rc fn /\ last_ack_no_ s = Z.max b (last_ack_no_ (sys_sender sys)).
Proof using All.
  intros H Hin Hage s. pose proof (iv_acks _ _ _ H) as Hac. rewrite Forall_forall in Hac.
  destruct (Hac _ Hin) as (-> & Hw & Hb & Hed). pose proof (iv_snd _ _ _ H) as Hs.
  pose proof (si_acked _ _ Hs) as Hak. pose proof (next_seq_range _ _ Hs) as Hnr. pose proof (si_bound _ _ Hs).
  pose proof (abs_ack_sent sys rc fn H) as Hsent.
  assert (unwrap (wrap b isn) (isn_ (sys_sender sys)) (last_ack_no_ (sys_sender sys)) = b) as Hun.
  { rewrite (iv_isn _ _ _ H). apply unwrap_wrap_near; lia. }
  destruct (Z_le_gt_dec b (last_ack_no_ (sys_sender sys))) as [Hold|Hnew].
  - assert (s = if b =? last_ack_no_ (sys_sender sys) then set_window w (sys_sender sys) else sys_sender sys) as Es.
    { subst s. rewrite ack_received_old by (rewrite Hun; lia). by rewrite Hun. }
    split; [|rewrite Es; case_match; cbn; lia].
    pose proof (sinv_ack _ _ (wrap b isn) w Hs Hw) as Hs'. fold s in Hs'. rewrite Es in *.
    destruct (Z.eqb_spec b (last_ack_no_ (sys_sender sys))) as [Eb|].
    + rewrite Eb in Hed. apply sysinv_post; try done; try apply H. cbn. by rewrite (iv_out _ _ _ H).
    + apply sysinv_post; try done; try apply H. by rewrite (iv_out _ _ _ H).
  - destruct (ack_received_new _ _ (wrap b isn) w Hs Hw) as (dr & Hs' & Hsp & Hdr & Hb' & Hla & Hwi & _ & _ & Hou & Hst & Hnx & His & _);
      [rewrite Hun; lia|]. rewrite Hun in Hla. fold s in Hs', Hsp, Hdr, Hb', Hla, Hwi, Hou, Hst, Hnx, His.
    split; [|lia]. assert (ended s = ended (sys_sender sys)) as Hen by (unfold ended; by rewrite Hst).
    apply sysinv_post; rewrite ?His, ?Hnx, ?Hen, ?Hla, ?Hwi; try done; try apply H; try lia.
    + pose proof (iv_queue _ _ _ H) as Hq. rewrite Hsp, (queue_at_app _ _ _ _ _ _ _ Hdr) in Hq. by apply Forall_app in Hq as [_ ?].
    + by rewrite Hou, (iv_out _ _ _ H).
Qed.

(** Every step keeps the invariant. *)
Lemma sysinv_step sys sys' rc fn :
  sysinv sys rc fn -> step sys sys' -> exists rc' fn', sysinv sys' rc' fn'.
Proof using All.
  intros H. destruct 1 as [sys data n bs He Hb E|sys|sys s E|sys ms s Hms E|sys|sys a seg r Hin Hage E|sys n E
    |sys b n w Hin Hage|sys len l out Hlen E].
  - eexists _, _. by eapply sysinv_write.
  - eexists _, _. by apply sysinv_end.
  - destruct (sysinv_fill sys rc fn H) as (s' & new & E' & H' & _). rewrite E in E'. injection E' as <-. eauto.
  - destruct (sysinv_tick sys rc fn ms H) as (s' & E' & H'). rewrite E in E'. injection E' as <-. eauto.
  - eexists _, _. by apply sysinv_empty.
  - destruct (sysinv_deliver sys rc fn a seg H Hin Hage) as (r' & rc' & fn' & E' & H'). rewrite E in E'. injection E' as <-. eauto.
  - eexists _, _. by apply sysinv_reply.
  - eexists _, _. by eapply sysinv_ack.
  - destruct (sysinv_read sys rc fn len H Hlen) as (l' & out' & E' & _ & H'). rewrite E in E'. injection E' as <- <-. eauto.
Qed.

(** What the invariant says of the bytes: they arrive in order, and the end of
    file is the writer's. *)
Lemma sysinv_delivered sys rc fn :
  sysinv sys rc fn -> let out := stream_out (sys_receiver sys) in
  sys_read sys ++ contents out `prefix_of` sys_written sys
  /\ (eof out = true -> sys_read sys = sys_written sys /\ ended (sys_sender sys) = true).
Proof using.
  intros H out. pose proof (ri_inv _ _ _ _ _ _ _ (iv_rcv _ _ _ H)) as Hinv.
  pose proof (inv_prefix _ _ _ _ _ _ Hinv) as Hp. subst out. unfold eof, stream_out, StreamReassembler.stream_out. split.
  - rewrite Hp. exists (zdrop (next (reassembler_ (sys_receiver sys))) (sys_written sys)). symmetry. apply ztake_zdrop.
  - intros [Hu%Z.eqb_eq Hend]%andb_true_iff.
    rewrite (inv_ended _ _ _ _ _ _ Hinv) in Hend. apply andb_true_iff in Hend as [Hfn Hn%Z.eqb_eq].
    split; [|by apply (iv_fin _ _ _ H)].
    assert (contents (output_ (reassembler_ (sys_receiver sys))) = []) as Hnil.
    { apply zlen_0_inv. by rewrite length_contents by apply Hinv. }
    rewrite Hnil, app_nil_r, Hn in Hp. rewrite Hp. unfold ztake, zlen. apply take_ge. lia.
Qed.

Lemma sysinv_steps sys sys' rc fn : sysinv sys rc fn -> steps sys sys' -> exists rc' fn', sysinv sys' rc' fn'.
Proof using All.
  intros H. induction 1 as [|sys1 sys2 sys3 _ IH Hst]; [eauto|].
  destruct (IH H) as (rc' & fn' & H'). by eapply sysinv_step.
Qed.
(** *** Progress *)

(** [reaches sys sys']: a continuation in which nothing is written. *)
Record reaches (sys sys' : system) : Prop := {
  re_steps : steps sys sys';
  re_written : sys_written sys' = sys_written sys;
  re_ended : ended (sys_sender sys') = ended (sys_sender sys)
}.

Lemma steps_trans sys1 sys2 sys3 : steps sys1 sys2 -> steps sys2 sys3 -> steps sys1 sys3.
Proof using All. intros H1. induction 1; [done|]. eapply steps_step; [by apply IHsteps|done]. Qed.

Lemma reaches_refl sys : reaches sys sys.
Proof using All. split; [apply steps_refl|done|done]. Qed.

Lemma reaches_trans sys1 sys2 sys3 : reaches sys1 sys2 -> reaches sys2 sys3 -> reaches sys1 sys3.
Proof using All. intros [] []. split; [by eapply steps_trans|congruence|congruence]. Qed.

Lemma reaches_step sys sys' :
  step sys sys' -> sys_written sys' = sys_written sys -> ended (sys_sender sys') = ended (sys_sender sys) ->
  reaches sys sys'.
Proof using All. intros Hst Hw He. split; [eapply steps_step; [apply steps_refl|done]|done|done]. Qed.

(** An acknowledgment that is ahead gets through. *)
Lemma reply_acks sys rc fn :
  sysinv sys rc fn -> last_ack_no_ (sys_sender sys) < abs_ack_no (sys_receiver sys) ->
  exists sys' rc' fn', reaches sys sys' /\ sysinv sys' rc' fn'
    /\ last_ack_no_ (sys_sender sys) < last_ack_no_ (sys_sender sys').
Proof using All.
  intros H Hlt. pose proof (iv_snd _ _ _ H) as Hs. destruct (room _ _ Hs) as [Hc HS]. pose proof (iv_rcv _ _ _ H) as Hr.
  destruct (rinv_advert _ _ _ Hc HS Hisn _ _ _ _ Hr) as [Ha _]. pose proof (si_acked _ _ Hs) as Hak.
  destruct (is_listen_ (sys_receiver sys)) eqn:El.
  { destruct (state_spec _ _ _ Hc HS Hisn _ _ _ _ Hr) as [_ Hab]. rewrite El in Hab. lia. }
  pose proof (step_reply sys _ Ha) as Hst. pose proof (sysinv_reply sys rc fn _ H Ha) as H1.
  match type of Hst with step _ ?x => set (sys1 := x) in * end.
  assert ((abs_ack_no (sys_receiver sys), wrap (abs_ack_no (sys_receiver sys)) isn, advertised (sys_receiver sys))
    ∈ sys_acks sys1) as Hin by (by left).
  destruct (sysinv_ack sys1 rc fn _ _ _ H1 Hin) as [H2 Hl]; [cbn; lia|].
  pose proof (step_ack sys1 _ _ _ Hin ltac:(cbn; lia)) as Hst2.
  eexists _, rc, fn. split_and!; [|exact H2|cbn in *; lia].
  eapply reaches_trans; [by apply reaches_step; [exact Hst| |]|]. apply reaches_step; [exact Hst2|done|].
  cbn. unfold ended. cbn. unfold ack_received. by repeat case_match.
Qed.

(** The oldest outstanding segment moves a receiver with an empty output. *)
Lemma front_delivers sys rc fn front q :
  sysinv sys rc fn -> outstanding_segments_ (sys_sender sys) = front :: q ->
  contents (stream_out (sys_receiver sys)) = [] ->
  abs_ack_no (sys_receiver sys) = last_ack_no_ (sys_sender sys) ->
  exists r' rc' fn', segment_received (sys_receiver sys) front = Ok r' /\ sysinv (set_receiver r' sys) rc' fn'
    /\ last_ack_no_ (sys_sender sys) < abs_ack_no r'.
Proof using All.
  intros H Eq Hct Hab. pose proof (iv_snd _ _ _ H) as Hs. destruct (room _ _ Hs) as [Hc HS]. pose proof (iv_rcv _ _ _ H) as Hr.
  pose proof (si_queue _ _ Hs) as Hq. pose proof (iv_queue _ _ _ H) as Hfit. pose proof (si_front _ _ Hs) as Hfr.
  rewrite Eq in Hq, Hfit, Hfr. rewrite (iv_isn _ _ _ H) in Hq. destruct Hq as [Hat Hq].
  destruct (contiguous_le _ _ _ _ _ _ Hq) as [Hle _]. apply Forall_cons in Hfit as [Hfx _].
  pose proof (si_base _ _ Hs) as Hb. pose proof (si_acked _ _ Hs) as Hak. pose proof (si_flight _ _ Hs) as Hfl.
  pose proof (next_seq_range _ _ Hs) as Hnr. set (r := sys_receiver sys) in *. set (a := base (sys_sender sys)) in *.
  assert (0 <= a) as Ha0 by (subst a; unfold base in *; lia).
  pose proof (inv_wf _ _ _ _ _ _ (ri_inv _ _ _ _ _ _ _ Hr)) as Hwf.
  assert (next (reassembler_ r) = consumed (reassembler_ r)) as Hnc.
  { rewrite (wf_written _ Hwf), <-(length_contents _ (wf_output _ Hwf)).
    unfold stream_out, StreamReassembler.stream_out in Hct. rewrite Hct. change (zlen (@nil byte)) with 0. lia. }
  assert (a + zlen (str (payload front)) <= edge r) as Hed.
  { destruct Hfx as [|(? & ? & _)]; cbn in *; [done|]. unfold edge. lia. }
  destruct (Hat) as [_ Hl Hsy Hfi]. unfold MAX_PAYLOAD_SIZE in Hl.
  destruct (deliver_in_window sys rc fn a front H Hat Hle Hed) as (r' & E & Hlt & Hh & H'); [fold r; lia|].
  exists r'. eexists _, _. split; [exact E|]. split; [exact H'|]. fold r in H', Hlt, Hh.
  pose proof (iv_rcv _ _ _ H') as Hr'. cbn [set_receiver sys_receiver sys_written sys_read] in Hr'.
  destruct (state_spec _ _ _ Hc HS Hisn _ _ _ _ Hr) as [_ Hab0]. destruct (state_spec _ _ _ Hc HS Hisn _ _ _ _ Hr') as [_ ->].
  destruct (written_range _ _ _ Hc HS Hisn _ _ _ _ Hr) as [_ Hn0]. destruct (written_range _ _ _ Hc HS Hisn _ _ _ _ Hr') as [_ Hn1].
  pose proof (la_next _ _ Hlt) as Hnx. rewrite Hab0 in Hab. unfold heard in *.
  destruct (is_listen_ r) eqn:El.
  - (* the SYN *)
    destruct (syn (header front)) eqn:Esy; [|destruct Hsy; lia]. rewrite Hh by done.
    match goal with |- _ < _ + 1 + (if ?b then _ else _) => destruct b end; lia.
  - cbn [negb orb andb] in *. rewrite Hh by done.
    destruct (fn && (next (reassembler_ r) =? zlen (sys_written sys))) eqn:Ee.
    { apply andb_true_iff in Ee as [_ Ee%Z.eqb_eq]. lia. }
    destruct (syn (header front)) eqn:Esy.
    { destruct Hsy as (-> & Hp & Hf). rewrite seg_len_eq, Hp, Esy, Hf in Hfr by (rewrite Hp; done).
      change (zlen (@nil byte)) with 0 in Hfr. lia. }
    pose proof (si_bound _ _ Hs). destruct Hsy as (Ha1 & Hpb & _).
    rewrite seg_len_eq, Esy in Hfr by lia.
    destruct (Z_lt_le_dec (next (reassembler_ r) + 1) (a + zlen (str (payload front)))) as [Hin|Hout].
    + assert (next (reassembler_ r) <> next (reassembler_ r')) as Hne.
      { intros En. pose proof (next_least _ _ _ _ _ _ (ri_inv _ _ _ _ _ _ _ Hr')) as Hnot. apply Hnot.
        apply elem_of_union_r. unfold new_indices, heard. rewrite El. cbn [negb orb]. apply elem_of_indices. lia. }
      match goal with |- _ < _ + 1 + (if ?b then _ else _) => destruct b end; lia.
    + destruct (fin (header front)) eqn:Ef; [|lia]. destruct (Hfi eq_refl) as [_ Hend].
      rewrite orb_true_r. cbn [andb].
      destruct (Z.eqb_spec (next (reassembler_ r')) (zlen (sys_written sys))); lia.
Qed.
(** As long as something is unacknowledged or unsent, something can be put in
    flight. *)
Lemma something_in_flight sys rc fn :
  sysinv sys rc fn -> ended (sys_sender sys) = true ->
  last_ack_no_ (sys_sender sys) < zlen (sys_written sys) + 2 ->
  exists sys', reaches sys sys' /\ sysinv sys' rc fn /\ outstanding_segments_ (sys_sender sys') <> []
    /\ last_ack_no_ (sys_sender sys') = last_ack_no_ (sys_sender sys).
Proof using All.
  intros H He Hlt. destruct (sysinv_fill sys rc fn H) as (s & new & E & H' & Hex & Hfill).
  exists (post s sys). split_and!; [|done| |apply Hex].
  { apply reaches_step; [by apply step_fill|done|]. apply (ex_ended _ _ _ Hex). }
  cbn [post sys_sender]. intros Hnil.
  assert (sinv s (sys_written sys)) as Hs by (by eapply (sinv_fields (set_segments_out [] s)); [..|exact (iv_snd _ _ _ H')]).
  assert (last_ack_no_ s = next_seq_no_ s) as Hall by (by apply (base_front s (sys_written sys) Hs)).
  rewrite (ex_ack _ _ _ Hex) in Hall. pose proof (si_window _ _ Hs) as Hw.
  destruct Hfill as [Hz|Hfill].
  - (* the SYN was sent *)
    pose proof (ex_outstanding _ _ _ Hex) as Ho. cbn in Hnil. rewrite Hnil in Ho. symmetry in Ho. apply app_nil in Ho as [_ Hnew].
    unfold fill_window in E. rewrite (state_cases _ _ (iv_snd _ _ _ H)), Hz in E. injection E as <-.
    cbn in Hnil. by destruct (outstanding_segments_ (sys_sender sys)).
  - destruct Hfill as [Hfw|[_ Hst]].
    + destruct (free_window_spec _ _ Hs) as [Hfs _]. rewrite Hfs, <-Hall, (ex_ack _ _ _ Hex), Z.eqb_refl, andb_true_r in Hfw.
      destruct (Z.eqb_spec (window_size_ s) 0); lia.
    + rewrite (ex_ended _ _ _ Hex) in Hst. specialize (Hst He). rewrite (state_cases _ _ Hs) in Hst.
      pose proof (si_queue _ _ Hs) as Hq. cbn in Hnil. rewrite Hnil in Hq. cbn in Hq.
      destruct (Z.eqb_spec (next_seq_no_ s) 0) as [E0|E0].
      { (* fill_window leaves CLOSED *)
        unfold fill_window in E. pose proof (ex_next _ _ _ Hex). pose proof (next_seq_range _ _ (iv_snd _ _ _ H)).
        rewrite (state_cases _ _ (iv_snd _ _ _ H)) in E. replace (next_seq_no_ (sys_sender sys)) with 0 in E by lia.
        injection E as <-. cbn in Hnil. by destruct (outstanding_segments_ (sys_sender sys)). }
      destruct (Z.eqb_spec (base s) 0); [lia|]. destruct (Z.ltb_spec (next_seq_no_ s) (zlen (sys_written sys) + 2)); [done|].
      lia.
Qed.

(** The retransmission timer runs out. *)
Lemma retransmit sys rc fn front q :
  sysinv sys rc fn -> outstanding_segments_ (sys_sender sys) = front :: q ->
  exists sys' a, reaches sys sys' /\ sysinv sys' rc fn /\ (a, front) ∈ sys_segments sys'
    /\ outstanding_segments_ (sys_sender sys') = front :: q /\ a = base (sys_sender sys')
    /\ last_ack_no_ (sys_sender sys') = last_ack_no_ (sys_sender sys).
Proof using All.
  intros H Eq. pose proof (iv_snd _ _ _ H) as Hs.
  set (t := timer_ (sys_sender sys)). set (ms := u64 (timeout_ms_ t - elapsed_ms_ t)).
  assert (expired (timer_tick ms t) = true) as Hexp.
  { pose proof (si_timer _ _ Hs) as Ht. rewrite Eq in Ht. fold t in Ht. destruct (si_rto _ _ Hs) as [_ (n & _ & _ & Hto)]. fold t in Hto.
    unfold timer_tick. rewrite Ht, bool_decide_true by done. unfold expired. cbn. rewrite ?Ht. cbn. apply Z.leb_le.
    subst ms. unfold u64 at 1 2. rewrite Zplus_mod_idemp_r. replace (elapsed_ms_ t + (timeout_ms_ t - elapsed_ms_ t)) with (timeout_ms_ t) by lia.
    rewrite Hto. unfold u64. rewrite Zmod_mod. lia. }
  destruct (sysinv_tick sys rc fn ms H) as (s & E & H').
  destruct (tick_fields _ _ _ E) as (Ei & En & Ea & Ew & Eb & Ee & Eo & Es).
  fold t in Es. rewrite Hexp, (iv_out _ _ _ H), Eq in Es. cbn in Es.
  exists (post s sys), (base s). split_and!; [|done| |by cbn; congruence|done|done].
  { apply reaches_step; [eapply step_tick; [apply u64_range|done]|done|done]. }
  cbn [post sys_segments]. unfold segments_out. rewrite Es. cbn [map]. apply elem_of_app. right.
  apply list_elem_of_singleton.
  pose proof (iv_snd _ _ _ H') as Hs'. cbn [post sys_sender sys_written] in Hs'.
  assert (sinv s (sys_written sys)) as Hss by (by eapply (sinv_fields (set_segments_out [] s))).
  pose proof (si_queue _ _ Hss) as Hq. rewrite Eo, Eq, Ei, (iv_isn _ _ _ H) in Hq. destruct Hq as [Hat _].
  pose proof (si_front _ _ Hss) as Hfr. rewrite Eo, Eq in Hfr. destruct (Hat) as [_ Hl _ _]. unfold MAX_PAYLOAD_SIZE in Hl.
  pose proof (si_base _ _ Hss). pose proof (si_flight _ _ Hss). pose proof (next_seq_range _ _ Hss). pose proof (si_bound _ _ Hss).
  symmetry. apply (stamp_at s (sys_written sys) (ended s)); [done|by rewrite Ei, (iv_isn _ _ _ H)|done| |lia].
  unfold base in *. lia.
Qed.

(** The reader takes everything. *)
Lemma drain sys rc fn :
  sysinv sys rc fn ->
  exists sys', reaches sys sys' /\ sysinv sys' rc fn /\ contents (stream_out (sys_receiver sys')) = []
    /\ sys_sender sys' = sys_sender sys /\ sys_segments sys' = sys_segments sys.
Proof using All.
  intros H. pose proof (inv_wf _ _ _ _ _ _ (ri_inv _ _ _ _ _ _ _ (iv_rcv _ _ _ H))) as Hwf.
  pose proof (length_contents _ (wf_output _ Hwf)) as Hlc. destruct (wf_output _ Hwf) as [Hcp Hu _ _ _].
  destruct (sysinv_read sys rc fn (M64 - 1) H ltac:(lia)) as (l & out & E & Hct & H').
  eexists. split_and!; [apply reaches_step; [eapply step_read; [|exact E]; lia|done|done]|exact H'| |done|done].
  cbn. unfold stream_out, StreamReassembler.stream_out in *. cbn. rewrite Hct. unfold zdrop. apply drop_ge. unfold zlen in *. lia.
Qed.

(** One round of retransmission, reading and acknowledgment. *)
Lemma round sys rc fn :
  sysinv sys rc fn -> ended (sys_sender sys) = true ->
  last_ack_no_ (sys_sender sys) < zlen (sys_written sys) + 2 ->
  exists sys' rc' fn', reaches sys sys' /\ sysinv sys' rc' fn'
    /\ last_ack_no_ (sys_sender sys) < last_ack_no_ (sys_sender sys').
Proof using All.
  intros H He Hlt. destruct (something_in_flight sys rc fn H He Hlt) as (sys1 & R1 & H1 & Ho & L1).
  destruct (outstanding_segments_ (sys_sender sys1)) as [|front q] eqn:Eq; [done|].
  destruct (retransmit sys1 rc fn front q H1 Eq) as (sys2 & a & R2 & H2 & Hin & Eq2 & Ea & L2).
  destruct (drain sys2 rc fn H2) as (sys3 & R3 & H3 & Hct & Es & Eg).
  pose proof (reaches_trans _ _ _ R1 (reaches_trans _ _ _ R2 R3)) as R.
  rewrite <-Es in Eq2, L2, Ea. rewrite <-Eg in Hin.
  destruct (Z_lt_le_dec (last_ack_no_ (sys_sender sys3)) (abs_ack_no (sys_receiver sys3))) as [Hahead|Hsame].
  { destruct (reply_acks sys3 rc fn H3 Hahead) as (sys4 & rc' & fn' & R4 & H4 & L4).
    exists sys4, rc', fn'. split_and!; [by eapply reaches_trans|done|lia]. }
  pose proof (iv_ack _ _ _ H3) as Hia.
  destruct (front_delivers sys3 rc fn front q H3 Eq2 Hct ltac:(lia)) as (r' & rc' & fn' & E & H4 & Hab).
  destruct (reply_acks (set_receiver r' sys3) rc' fn' H4 Hab) as (sys5 & rc5 & fn5 & R5 & H5 & L5).
  exists sys5, rc5, fn5. split_and!; [|done|cbn in L5; lia].
  eapply reaches_trans; [exact R|]. eapply reaches_trans; [|exact R5].
  apply reaches_step; [|done|done]. apply (step_deliver sys3 a front r'); [done| |done].
  pose proof (iv_snd _ _ _ H3) as Hs3. pose proof (si_queue _ _ Hs3) as Hq. pose proof (si_front _ _ Hs3) as Hf.
  rewrite Eq2 in Hq, Hf. destruct Hq as [[_ Hl _ _] _]. unfold MAX_PAYLOAD_SIZE in Hl. lia.
Qed.

Lemma completes n : forall sys rc fn,
  sysinv sys rc fn -> ended (sys_sender sys) = true ->
  (Z.to_nat (zlen (sys_written sys) + 2 - last_ack_no_ (sys_sender sys)) <= n)%nat ->
  exists sys', reaches sys sys' /\ sys_read sys' = sys_written sys /\ eof (stream_out (sys_receiver sys')) = true.
Proof using All.
  induction n as [|n IH]; intros sys rc fn H He Hn.
  2: { destruct (Z_lt_le_dec (last_ack_no_ (sys_sender sys)) (zlen (sys_written sys) + 2)) as [Hlt|];
         [|apply (IH sys rc fn); [done|done|lia]].
       destruct (round sys rc fn H He Hlt) as (sys1 & rc1 & fn1 & R & H1 & L1).
       destruct (IH sys1 rc1 fn1 H1) as (sys2 & R2 & Hr & Hx).
       - by rewrite (re_ended _ _ R).
       - rewrite (re_written _ _ R). lia.
       - exists sys2. split_and!; [by eapply reaches_trans| |done]. by rewrite Hr, (re_written _ _ R). }
  destruct (drain sys rc fn H) as (sys' & R & H' & Hct & Es & _). exists sys'. split; [done|].
  rewrite <-(re_written _ _ R) in *. rewrite <-Es in *. clear R Es H.
  pose proof (iv_rcv _ _ _ H') as Hr. destruct (room _ _ (iv_snd _ _ _ H')) as [Hc HS].
  pose proof (iv_ack _ _ _ H') as Hia. destruct (state_spec _ _ _ Hc HS Hisn _ _ _ _ Hr) as [_ Hab].
  destruct (written_range _ _ _ Hc HS Hisn _ _ _ _ Hr) as [_ Hrg]. rewrite Hab in Hia. pose proof (zlen_nonneg (sys_written sys')).
  destruct (is_listen_ (sys_receiver sys')); [lia|].
  destruct (fn && (next (reassembler_ (sys_receiver sys')) =? zlen (sys_written sys'))) eqn:Ee; [|lia].
  pose proof (ri_inv _ _ _ _ _ _ _ Hr) as Hi. apply andb_true_iff in Ee as Ee'. destruct Ee' as [Efn En%Z.eqb_eq].
  unfold stream_out, StreamReassembler.stream_out in *. split.
  - pose proof (inv_prefix _ _ _ _ _ _ Hi) as Hp. rewrite Hct, app_nil_r, En in Hp. rewrite Hp. unfold ztake, zlen.
    apply take_ge. lia.
  - unfold eof. rewrite (inv_ended _ _ _ _ _ _ Hi), Ee. rewrite andb_true_r. apply Z.eqb_eq.
    rewrite <-(length_contents _ (wf_output _ (inv_wf _ _ _ _ _ _ Hi))), Hct. done.
Qed.
End transfer.

(** ** Properties *)

(** A sender and a receiver over a network that loses, reorders and
    duplicates at will transfer the stream: whatever is written, whenever the
    timer ticks, whichever segments and acknowledgments arrive, in whatever
    order and however often, the bytes the reader took followed by the bytes
    waiting are a prefix of the bytes written; end of file is reported only
    when the writer has ended the stream and the reader has all of it; and no
    step fails: filling the window ends, the timer never trips its assertion,
    and every segment that is not too old is handled, the probes of a closed
    window included. *)
Theorem transfer_safe (scap rto rcap : Z) (isn : WrappingInt32) (sys : system) :
  0 < scap < M63 -> 0 <= rto < M16 -> 0 < rcap -> 2 * rcap < M63 -> wi_ok isn ->
  steps (initial scap rto isn rcap) sys ->
  let r := sys_receiver sys in
  sys_read sys ++ contents (stream_out r) `prefix_of` sys_written sys
  /\ (eof (stream_out r) = true -> sys_read sys = sys_written sys /\ ended (sys_sender sys) = true)
  /\ (exists s, fill_window (sys_sender sys) = Ok s)
  /\ (forall ms, exists s, TCPSender.tick (sys_sender sys) ms = Ok s)
  /\ (forall a seg, (a, seg) ∈ sys_segments sys -> abs_ack_no r - a <= M31 ->
        exists r', segment_received r seg = Ok r')
  /\ (forall len, 0 <= len < M64 -> exists l out, ByteStream.read (stream_out r) len = Ok (l, out)).
Proof.
  intros Hsc Hrto Hc1 Hc2 Hi Hst r.
  destruct (sysinv_steps isn rcap Hc1 Hc2 Hi _ _ _ _ (sysinv_initial isn rcap Hc1 Hc2 Hi scap rto Hsc Hrto) Hst)
    as (rc & fn & H).
  destruct (sysinv_delivered isn rcap sys rc fn H) as [Hp He]. split_and!; [exact Hp|exact He|..].
  - destruct (sysinv_fill isn rcap Hc1 Hc2 Hi sys rc fn H) as (s & _ & E & _). eauto.
  - intros ms. destruct (sysinv_tick isn rcap Hc1 Hc2 Hi sys rc fn ms H) as (s & E & _). eauto.
  - intros a seg Hin Ha. destruct (sysinv_deliver isn rcap Hc1 Hc2 Hi sys rc fn a seg H Hin Ha) as (r' & _ & _ & E & _). eauto.
  - intros len Hl. destruct (sysinv_read isn rcap Hc1 Hc2 Hi sys rc fn len H Hl) as (l & out & E & _). eauto.
Qed.

(** The transfer can always be completed: from every state that a lossy
    network can lead to, once the writer has ended the stream, some further
    retransmissions, deliveries, acknowledgments and reads hand the whole
    stream to the reader and report end of file.  No sequence of losses,
    closed windows or late acknowledgments leads to a state from which the
    two ends cannot get on. *)
Theorem transfer_completes (scap rto rcap : Z) (isn : WrappingInt32) (sys : system) :
  0 < scap < M63 -> 0 <= rto < M16 -> 0 < rcap -> 2 * rcap < M63 -> wi_ok isn ->
  steps (initial scap rto isn rcap) sys -> ended (sys_sender sys) = true ->
  exists sys', steps sys sys' /\ sys_written sys' = sys_written sys
    /\ sys_read sys' = sys_written sys /\ eof (stream_out (sys_receiver sys')) = true.
Proof.
  intros Hsc Hrto Hc1 Hc2 Hi Hst He.
  destruct (sysinv_steps isn rcap Hc1 Hc2 Hi _ _ _ _ (sysinv_initial isn rcap Hc1 Hc2 Hi scap rto Hsc Hrto) Hst)
    as (rc & fn & H).
  destruct (completes isn rcap Hc1 Hc2 Hi _ sys rc fn H He (le_n _)) as (sys' & R & Hr & Hx).
  exists sys'. split_and!; [apply R|apply R|done|done].
Qed.

(** Two bytes are written and the stream ended; the receiver can hold one. *)
Definition sample_start : system := initial 8 1000 (mkWrappingInt32 4294967295) 1.
Definition sample_ended : system := Eval vm_compute in
  match ByteStream.write (stream_in (sys_sender sample_start)) [x61; x62] with
  | Ok (n, bs) => mkSystem (end_input (set_stream_in bs (sys_sender sample_start))) (sys_receiver sample_start)
      [x61; x62] [] [] []
  | Fail _ => sample_start
  end.

Lemma sample_steps : steps sample_start sample_ended.
Proof.
  eapply steps_step; [eapply steps_step; [apply steps_refl|]|].
  - apply (step_write sample_start [x61; x62] 2); [reflexivity|reflexivity|vm_compute; reflexivity].
  - match goal with |- step ?x _ => exact (step_end x) end.
Qed.

Lemma transfer_safe_witness :
  sys_read sample_ended ++ contents (stream_out (sys_receiver sample_ended)) `prefix_of` sys_written sample_ended.
Proof.
  apply (transfer_safe 8 1000 1 (mkWrappingInt32 4294967295) sample_ended);
    [lia|lia|lia|done|split; cbn; lia|exact sample_steps].
Defined.

Lemma transfer_completes_witness :
  exists sys', steps sample_ended sys' /\ sys_read sys' = [x61; x62] /\ eof (stream_out (sys_receiver sys')) = true.
Proof.
  destruct (transfer_completes 8 1000 1 (mkWrappingInt32 4294967295) sample_ended)
    as (sys' & Hst & _ & Hr & He); [lia|lia|lia|done|split; cbn; lia|exact sample_steps|reflexivity|].
  exists sys'. split_and!; [done|exact Hr|done].
Defined.
