(* ===== verification/TCPState.v ===== *)
(** * Summaries of the connection state (libsponge/tcp_helpers/tcp_state.{hh,cc}) *)

From Stdlib Require Import ZArith Lia.
From S2P Require Import Prelude ByteStream TCPReceiver TCPSender.

Record TCPState : Type := mkTCPState {
  _sender : string;
  _receiver : string;
  _active : bool;
  _linger_after_streams_finish : bool
}.

#[export] Instance TCPState_eq_dec : EqDecision TCPState.
Proof. solve_decision. Defined.

(** The official state names of RFC 793. *)
Inductive State : Type :=
  | LISTEN | SYN_RCVD | SYN_SENT | ESTABLISHED | CLOSE_WAIT | LAST_ACK
  | FIN_WAIT_1 | FIN_WAIT_2 | CLOSING | TIME_WAIT | CLOSED | RESET.

(** The namespaces [TCPReceiverStateSummary] and [TCPSenderStateSummary]. *)
Definition receiver_ERROR : string := "error (connection was reset)".
Definition receiver_LISTEN : string := "waiting for SYN: ackno is empty".
Definition receiver_SYN_RECV : string := "SYN received (ackno exists), and input to stream hasn't ended".
Definition receiver_FIN_RECV : string := "input to stream has ended".

Definition sender_ERROR : string := "error (connection was reset)".
Definition sender_CLOSED : string := "waiting for stream to begin (no SYN sent)".
Definition sender_SYN_SENT : string := "stream started but nothing acknowledged".
Definition sender_SYN_ACKED : string := "stream ongoing".
Definition sender_FIN_SENT : string := "stream finished (FIN sent) but not fully acknowledged".
Definition sender_FIN_ACKED : string := "stream finished and fully acknowledged".

(** [operator==] *)
Definition state_eqb (a b : TCPState) : bool :=
  eqb (_active a) (_active b) && eqb (_linger_after_streams_finish a) (_linger_after_streams_finish b)
  && bool_decide (_sender a = _sender b) && bool_decide (_receiver a = _receiver b).

(** [TCPState(const TCPState::State state)]: the two flags default to true. *)
Definition of_state (st : State) : TCPState :=
  match st with
  | LISTEN => mkTCPState sender_CLOSED receiver_LISTEN true true
  | SYN_RCVD => mkTCPState sender_SYN_SENT receiver_SYN_RECV true true
  | SYN_SENT => mkTCPState sender_SYN_SENT receiver_LISTEN true true
  | ESTABLISHED => mkTCPState sender_SYN_ACKED receiver_SYN_RECV true true
  | CLOSE_WAIT => mkTCPState sender_SYN_ACKED receiver_FIN_RECV true false
  | LAST_ACK => mkTCPState sender_FIN_SENT receiver_FIN_RECV true false
  | CLOSING => mkTCPState sender_FIN_SENT receiver_FIN_RECV true true
  | FIN_WAIT_1 => mkTCPState sender_FIN_SENT receiver_SYN_RECV true true
  | FIN_WAIT_2 => mkTCPState sender_FIN_ACKED receiver_SYN_RECV true true
  | TIME_WAIT => mkTCPState sender_FIN_ACKED receiver_FIN_RECV true true
  | RESET => mkTCPState sender_ERROR receiver_ERROR false false
  | CLOSED => mkTCPState sender_FIN_ACKED receiver_FIN_RECV false false
  end.

Definition receiver_summary (r : TCPReceiver) : string :=
  match TCPReceiver.state r with
  | TCPReceiver.kError => receiver_ERROR
  | TCPReceiver.kListen => receiver_LISTEN
  | TCPReceiver.kFinRecv => receiver_FIN_RECV
  | TCPReceiver.kSynRecv => receiver_SYN_RECV
  end.

Definition sender_summary (s : TCPSender) : string :=
  match TCPSender.state s with
  | TCPSender.kError => sender_ERROR
  | TCPSender.kClosed => sender_CLOSED
  | TCPSender.kSynSent => sender_SYN_SENT
  | TCPSender.kSynAcked => sender_SYN_ACKED
  | TCPSender.kFinSent => sender_FIN_SENT
  | TCPSender.kFinAcked => sender_FIN_ACKED
  end.

(** [TCPState(sender, receiver, active, linger)] *)
Definition summary (s : TCPSender) (r : TCPReceiver) (active linger : bool) : TCPState :=
  mkTCPState (sender_summary s) (receiver_summary r) active (active && linger).

(** ** Lemmas *)

Lemma state_eqb_eq a b : state_eqb a b = true <-> a = b.
Proof.
  unfold state_eqb. rewrite !andb_true_iff, !eqb_true_iff, !bool_decide_eq_true.
  destruct a, b; cbn. split; [by intros [[[-> ->] ->] ->]|by intros [= -> -> -> ->]].
Qed.

(** The states of the two halves that an official state stands for. *)
Definition phases (st : State) : TCPSender.State * TCPReceiver.State * bool * bool :=
  match st with
  | LISTEN => (TCPSender.kClosed, TCPReceiver.kListen, true, true)
  | SYN_RCVD => (TCPSender.kSynSent, TCPReceiver.kSynRecv, true, true)
  | SYN_SENT => (TCPSender.kSynSent, TCPReceiver.kListen, true, true)
  | ESTABLISHED => (TCPSender.kSynAcked, TCPReceiver.kSynRecv, true, true)
  | CLOSE_WAIT => (TCPSender.kSynAcked, TCPReceiver.kFinRecv, true, false)
  | LAST_ACK => (TCPSender.kFinSent, TCPReceiver.kFinRecv, true, false)
  | CLOSING => (TCPSender.kFinSent, TCPReceiver.kFinRecv, true, true)
  | FIN_WAIT_1 => (TCPSender.kFinSent, TCPReceiver.kSynRecv, true, true)
  | FIN_WAIT_2 => (TCPSender.kFinAcked, TCPReceiver.kSynRecv, true, true)
  | TIME_WAIT => (TCPSender.kFinAcked, TCPReceiver.kFinRecv, true, true)
  | RESET => (TCPSender.kError, TCPReceiver.kError, false, false)
  | CLOSED => (TCPSender.kFinAcked, TCPReceiver.kFinRecv, false, false)
  end.

(** ** Properties *)

(** The summary identifies the state: a sender, a receiver and the two
    flags of a connection compare equal to an official state exactly when the
    halves are in the states that define it and the flags agree (the linger
    flag counts only while active); hence no connection is in two official
    states at once. *)
Theorem tcp_state_identifies (s : TCPSender) (r : TCPReceiver) (active linger : bool) (st : State) :
  (state_eqb (summary s r active linger) (of_state st) = true
   <-> (TCPSender.state s, TCPReceiver.state r, active, active && linger) = phases st)
  /\ forall st', state_eqb (of_state st) (of_state st') = true <-> st = st'.
Proof.
  split.
  - rewrite state_eqb_eq. unfold summary, sender_summary, receiver_summary.
    destruct st, (TCPSender.state s), (TCPReceiver.state r), active, linger; cbn; split; congruence || discriminate.
  - intros st'. rewrite state_eqb_eq. destruct st, st'; split; congruence || discriminate.
Qed.
