(* ===== verification/TCPConnection.v ===== *)
(** * TCP connections (libsponge/tcp_connection.{hh,cc})

    A connection owns a sender and a receiver and moves segments between them
    and its own outbound queue.  The random initial sequence number is an
    argument of [new]. *)

From Stdlib Require Import ZArith Lia.
From S2P Require Import Prelude WrappingIntegers Ring ByteStream UnAssembleBuffer StreamReassembler Buffer Parser TCPHeader TCPSegment TCPReceiver TCPSender TCPState.

(** libsponge/tcp_helpers/tcp_config.hh *)
Record TCPConfig : Type := mkTCPConfig {
  rt_timeout : Z;
  recv_capacity : Z;
  send_capacity : Z;
  fixed_isn : option WrappingInt32
}.

Record TCPConnection : Type := mkTCPConnection {
  cfg_ : TCPConfig;
  receiver_ : TCPReceiver;
  sender_ : TCPSender;
  ms_since_last_recv_ : Z;
  segments_out_ : list TCPSegment;
  active_ : bool;
  linger_after_stream_finish_ : bool;
  need_send_rst_ : bool
}.

Definition new (cfg : TCPConfig) (random : Z) : TCPConnection :=
  mkTCPConnection cfg (TCPReceiver.new (recv_capacity cfg))
    (TCPSender.new (send_capacity cfg) (rt_timeout cfg) (fixed_isn cfg) random) 0 [] true true false.

Definition set_sender (s : TCPSender) (c : TCPConnection) : TCPConnection :=
  mkTCPConnection (cfg_ c) (receiver_ c) s (ms_since_last_recv_ c) (segments_out_ c) (active_ c)
    (linger_after_stream_finish_ c) (need_send_rst_ c).
Definition set_receiver (r : TCPReceiver) (c : TCPConnection) : TCPConnection :=
  mkTCPConnection (cfg_ c) r (sender_ c) (ms_since_last_recv_ c) (segments_out_ c) (active_ c)
    (linger_after_stream_finish_ c) (need_send_rst_ c).
Definition set_ms (ms : Z) (c : TCPConnection) : TCPConnection :=
  mkTCPConnection (cfg_ c) (receiver_ c) (sender_ c) ms (segments_out_ c) (active_ c)
    (linger_after_stream_finish_ c) (need_send_rst_ c).
Definition set_out (q : list TCPSegment) (c : TCPConnection) : TCPConnection :=
  mkTCPConnection (cfg_ c) (receiver_ c) (sender_ c) (ms_since_last_recv_ c) q (active_ c)
    (linger_after_stream_finish_ c) (need_send_rst_ c).
Definition set_active (b : bool) (c : TCPConnection) : TCPConnection :=
  mkTCPConnection (cfg_ c) (receiver_ c) (sender_ c) (ms_since_last_recv_ c) (segments_out_ c) b
    (linger_after_stream_finish_ c) (need_send_rst_ c).
Definition set_linger (b : bool) (c : TCPConnection) : TCPConnection :=
  mkTCPConnection (cfg_ c) (receiver_ c) (sender_ c) (ms_since_last_recv_ c) (segments_out_ c) (active_ c)
    b (need_send_rst_ c).
Definition set_need_rst (b : bool) (c : TCPConnection) : TCPConnection :=
  mkTCPConnection (cfg_ c) (receiver_ c) (sender_ c) (ms_since_last_recv_ c) (segments_out_ c) (active_ c)
    (linger_after_stream_finish_ c) b.

Definition remaining_outbound_capacity (c : TCPConnection) : Z :=
  ByteStream.remaining_capacity (stream_in (sender_ c)).
Definition bytes_in_flight (c : TCPConnection) : Z := TCPSender.bytes_in_flight (sender_ c).
Definition unassembled_bytes (c : TCPConnection) : Z := TCPReceiver.unassembled_bytes (receiver_ c).
Definition time_since_last_segment_received (c : TCPConnection) : Z := ms_since_last_recv_ c.
Definition active (c : TCPConnection) : bool := active_ c.
Definition segments_out (c : TCPConnection) : list TCPSegment := segments_out_ c.
Definition inbound_stream (c : TCPConnection) : ByteStream := TCPReceiver.stream_out (receiver_ c).
Definition state (c : TCPConnection) : TCPState :=
  summary (sender_ c) (receiver_ c) (active c) (linger_after_stream_finish_ c).

(** [std::move] of a segment leaves its header and an empty payload behind. *)
Definition moved_from (seg : TCPSegment) : TCPSegment :=
  mkTCPSegment (header seg) (mkBuffer None (_starting_offset (payload seg))).

(** The fields the receiver contributes to an outgoing segment. *)
Definition add_ack (r : TCPReceiver) (seg : TCPSegment) : res TCPSegment :=
  a ← ackno r;
  match a with
  | Some n =>
      Ok (set_header
            (set_win (u16 (Z.min (window_size r) 65535)) (set_ackno n (set_ack true (header seg)))) seg)
  | None => Ok seg
  end.

(** The loop of [enqueue_segments] on the sender's queue [q] and the
    connection's queue [out]; with a pending reset only the front segment is
    sent, and it stays in [q]. *)
Fixpoint enqueue_loop (r : TCPReceiver) (rst : bool) (q out : list TCPSegment)
    : res (list TCPSegment * list TCPSegment) :=
  match q with
  | [] => Ok ([], out)
  | seg :: q' =>
      if rst then Ok (moved_from seg :: q', out ++ [set_header (set_rst true (header seg)) seg])
      else seg' ← add_ack r seg; enqueue_loop r rst q' (out ++ [seg'])
  end.

Definition enqueue_segments (c : TCPConnection) : res TCPConnection :=
  '(q, out) ← enqueue_loop (receiver_ c) (need_send_rst_ c) (TCPSender.segments_out (sender_ c)) (segments_out_ c);
  Ok (set_out out (set_sender (set_segments_out q (sender_ c)) c)).

Definition try_clean_shutdown (c : TCPConnection) : TCPConnection :=
  if (linger_after_stream_finish_ c && bool_decide (TCPReceiver.state (receiver_ c) = TCPReceiver.kFinRecv)
      && (10 * rt_timeout (cfg_ c) <=? ms_since_last_recv_ c))
     || (negb (linger_after_stream_finish_ c) && bool_decide (TCPSender.state (sender_ c) = TCPSender.kFinAcked))
  then set_active false c else c.

Definition unclean_shutdown (c : TCPConnection) : TCPConnection :=
  let c := set_receiver (set_stream_out (receiver_ c) (ByteStream.set_error (stream_out (receiver_ c)))) c in
  let c := set_sender (set_stream_in (ByteStream.set_error (stream_in (sender_ c))) (sender_ c)) c in
  set_active false (set_linger false c).

(** Is a segment to be answered although nothing was sent?  [ackno().value()]
    is only used when the receiver has seen a SYN. *)
Definition wants_reply (c : TCPConnection) (seg : TCPSegment) : res bool :=
  if 0 <? length_in_sequence_space seg then Ok true else
  if bool_decide (TCPReceiver.state (receiver_ c) = TCPReceiver.kSynRecv) then
    a ← ackno (receiver_ c);
    match a with
    | Some n => Ok (wi_eqb (seqno (header seg)) (wi_sub n 1))
    | None => Fail BadOptionalAccess
    end
  else Ok false.

Definition segment_received (c : TCPConnection) (seg : TCPSegment) : res TCPConnection :=
  if bool_decide (TCPReceiver.state (receiver_ c) = TCPReceiver.kListen)
     && bool_decide (TCPSender.state (sender_ c) = TCPSender.kClosed)
     && (negb (syn (header seg)) || ack (header seg) || rst (header seg))
  then Ok c else
  let c := set_ms 0 c in
  if rst (header seg) then Ok (unclean_shutdown c) else
  r ← TCPReceiver.segment_received (receiver_ c) seg;
  let c := set_receiver r c in
  let c := if ack (header seg)
    then set_sender (ack_received (sender_ c) (TCPHeader.ackno (header seg)) (win (header seg))) c else c in
  let c := if bool_decide (TCPReceiver.state (receiver_ c) = TCPReceiver.kFinRecv)
              && bool_decide (TCPSender.state (sender_ c) = TCPSender.kSynAcked)
    then try_clean_shutdown (set_linger false c) else c in
  s ← fill_window (sender_ c);
  let c := set_sender s c in
  reply ← wants_reply c seg;
  let c := if reply : bool then set_sender (send_empty_segment (sender_ c)) c else c in
  let c := try_clean_shutdown c in
  enqueue_segments c.

Definition write (c : TCPConnection) (data : list byte) : res (Z * TCPConnection) :=
  '(write_size, bs) ← ByteStream.write (stream_in (sender_ c)) data;
  let c := set_sender (set_stream_in bs (sender_ c)) c in
  s ← fill_window (sender_ c);
  c ← enqueue_segments (set_sender s c);
  Ok (write_size, c).

Definition tick (c : TCPConnection) (ms_since_last_tick : Z) : res TCPConnection :=
  let c := set_ms (u64 (ms_since_last_recv_ c + ms_since_last_tick)) c in
  s ← TCPSender.tick (sender_ c) ms_since_last_tick;
  let c := set_sender s c in
  let c :=
    if MAX_RETX_ATTEMPTS <? consecutive_retransmissions (sender_ c)
    then
      let c := set_need_rst true (unclean_shutdown c) in
      set_sender (send_empty_segment (sender_ c)) c
    else try_clean_shutdown c in
  enqueue_segments c.

Definition end_input_stream (c : TCPConnection) : res TCPConnection :=
  let c := set_sender (TCPSender.end_input (sender_ c)) c in
  s ← fill_window (sender_ c);
  enqueue_segments (set_sender s c).

Definition connect (c : TCPConnection) : res TCPConnection :=
  s ← fill_window (sender_ c);
  enqueue_segments (set_sender s c).

(** The destructor, up to the destruction of the members: an active
    connection queues a reset.  (An exception would be caught and printed.) *)
Definition destroy (c : TCPConnection) : res TCPConnection :=
  if active c then
    let c := set_need_rst true c in
    enqueue_segments (set_sender (send_empty_segment (sender_ c)) c)
  else Ok c.

(** ** Lemmas *)

(** An outgoing segment with the receiver's fields. *)
Definition stamped (a : option WrappingInt32) (w : Z) (seg : TCPSegment) : TCPSegment :=
  match a with
  | Some n => set_header (set_win (u16 (Z.min w 65535)) (set_ackno n (set_ack true (header seg)))) seg
  | None => seg
  end.

Lemma enqueue_loop_ack r a q : forall out,
  ackno r = Ok a ->
  enqueue_loop r false q out = Ok ([], out ++ map (stamped a (window_size r)) q).
Proof.
  induction q as [|seg q IH]; intros out Ha; cbn [enqueue_loop map].
  - by rewrite app_nil_r.
  - unfold add_ack. rewrite Ha. cbn [mbind res_bind].
    destruct a as [n|]; cbn [mbind res_bind]; rewrite IH by done; by rewrite <-app_assoc.
Qed.

Lemma enqueue_ok c a :
  ackno (receiver_ c) = Ok a -> need_send_rst_ c = false ->
  enqueue_segments c = Ok (set_out (segments_out_ c
      ++ map (stamped a (window_size (receiver_ c))) (TCPSender.segments_out_ (sender_ c)))
    (set_sender (set_segments_out [] (sender_ c)) c)).
Proof.
  intros Ha Hr. unfold enqueue_segments. rewrite Hr. unfold TCPSender.segments_out.
  rewrite (enqueue_loop_ack _ a) by done. done.
Qed.

Lemma enqueue_rst c seg q :
  need_send_rst_ c = true -> TCPSender.segments_out_ (sender_ c) = seg :: q ->
  enqueue_segments c = Ok (set_out (segments_out_ c ++ [set_header (set_rst true (header seg)) seg])
    (set_sender (set_segments_out (moved_from seg :: q) (sender_ c)) c)).
Proof. intros Hr Hq. unfold enqueue_segments, TCPSender.segments_out. rewrite Hr, Hq. done. Qed.

Lemma try_clean_shutdown_fields c :
  cfg_ (try_clean_shutdown c) = cfg_ c /\ receiver_ (try_clean_shutdown c) = receiver_ c
  /\ sender_ (try_clean_shutdown c) = sender_ c /\ segments_out_ (try_clean_shutdown c) = segments_out_ c
  /\ need_send_rst_ (try_clean_shutdown c) = need_send_rst_ c
  /\ ms_since_last_recv_ (try_clean_shutdown c) = ms_since_last_recv_ c
  /\ linger_after_stream_finish_ (try_clean_shutdown c) = linger_after_stream_finish_ c.
Proof. unfold try_clean_shutdown. by destruct (_ || _). Qed.

(** ** Invariant of an active connection

    The peer sends the stream [S] from [pisn]; [hist] is what the local writer
    wrote; [dlv], [rcv] and [fn] are what the reader took and the receiver got,
    as in the invariant of the receiver. *)
Record cinv (S : list byte) (pisn : WrappingInt32) (c : TCPConnection) (hist dlv : list byte)
    (rcv : gset Z) (fn : bool) : Prop := {
  ci_sender : sinv (sender_ c) hist;
  ci_receiver : rinv S pisn (recv_capacity (cfg_ c)) (receiver_ c) dlv rcv fn;
  ci_queue : TCPSender.segments_out_ (sender_ c) = [];
  ci_rst : need_send_rst_ c = false
}.

(** Segments a listening connection drops. *)
Definition ignored (c : TCPConnection) (seg : TCPSegment) : bool :=
  bool_decide (TCPReceiver.state (receiver_ c) = TCPReceiver.kListen)
  && bool_decide (TCPSender.state (sender_ c) = TCPSender.kClosed)
  && (negb (syn (header seg)) || ack (header seg) || rst (header seg)).

(** A segment the peer may send: a part of [S] inside the window, the probe of
    a closed window, or a pure acknowledgment; its window field is 16 bits
    wide. *)
Definition peer_segment (S : list byte) (pisn : WrappingInt32) (r : TCPReceiver) (seg : TCPSegment) (index : Z)
    : Prop :=
  0 <= win (header seg) < M16
  /\ ((carries S pisn seg index /\ admissible r seg index) \/ window_probe S pisn r seg index \/ pure_ack seg).

(** The indices and the end it brings; the byte of a probe is not kept. *)
Definition stored (r : TCPReceiver) (seg : TCPSegment) (index : Z) : gset Z :=
  if index + zlen (str (payload seg)) <=? consumed (reassembler_ r) + StreamReassembler.capacity_ (reassembler_ r)
  then new_indices r seg index else ∅.
Definition brought (c : TCPConnection) (seg : TCPSegment) (index : Z) : gset Z :=
  if ignored c seg then ∅ else stored (receiver_ c) seg index.
Definition brought_fin (c : TCPConnection) (seg : TCPSegment) : bool :=
  negb (ignored c seg) && heard (receiver_ c) seg && fin (header seg).

Section connection.
Context (S : list byte) (pisn : WrappingInt32).
Context (Hpisn : wi_ok pisn).

Definition cfg_ok (cfg : TCPConfig) : Prop :=
  0 <= rt_timeout cfg < M16 /\ 0 < send_capacity cfg < M63
  /\ 0 < recv_capacity cfg < M63 /\ zlen S + 2 * recv_capacity cfg + 2 < M64
  /\ match fixed_isn cfg with Some isn => wi_ok isn | None => True end.

Lemma cinv_new cfg rnd : cfg_ok cfg -> cinv S pisn (new cfg rnd) [] [] ∅ false.
Proof using Hpisn.
  intros (Hrt & Hsc & Hrc & HS & Hisn). split; try done.
  - assert (wi_ok (match fixed_isn cfg with Some isn => isn | None => WrappingInt32_of rnd end)) as Hi.
    { destruct (fixed_isn cfg); [done|apply u32_range]. }
    pose proof (sinv_new _ _ _ rnd Hsc Hrt Hi) as Hs. exact Hs.
  - by apply rinv_new.
Qed.

Lemma ackno_ok cap r dlv rcv fn :
  0 < cap < M63 -> zlen S + 2 * cap + 2 < M64 -> rinv S pisn cap r dlv rcv fn ->
  ackno r = Ok (if is_listen_ r then None else Some (wrap (abs_ack_no r) pisn)).
Proof using Hpisn.
  intros Hc HS Hr. destruct (state_spec S pisn cap Hc HS Hpisn _ _ _ _ Hr) as [Hst _].
  unfold ackno, isn_value. rewrite Hst, (ri_isn _ _ _ _ _ _ _ Hr).
  destruct (is_listen_ r); [done|]. by destruct (fn && _).
Qed.

(** Flushing the sender's queue keeps the invariant. *)
Lemma cinv_enqueue c hist dlv rcv fn :
  cfg_ok (cfg_ c) -> sinv (sender_ c) hist ->
  rinv S pisn (recv_capacity (cfg_ c)) (receiver_ c) dlv rcv fn -> need_send_rst_ c = false ->
  exists c', enqueue_segments c = Ok c' /\ cinv S pisn c' hist dlv rcv fn
    /\ cfg_ c' = cfg_ c /\ receiver_ c' = receiver_ c /\ active_ c' = active_ c
    /\ segments_out_ c' = segments_out_ c
         ++ map (stamped (if is_listen_ (receiver_ c) then None else Some (wrap (abs_ack_no (receiver_ c)) pisn))
                   (window_size (receiver_ c))) (TCPSender.segments_out_ (sender_ c)).
Proof using Hpisn.
  intros (Hrt & Hsc & Hrc & HS & _) Hs Hr Hrst.
  pose proof (ackno_ok _ _ _ _ _ Hrc HS Hr) as Ha. rewrite (enqueue_ok c _ Ha Hrst).
  eexists. split_and!; try done. split; try done. cbn. by apply (sinv_fields (sender_ c)).
Qed.

Lemma fill_enqueue c hist dlv rcv fn :
  cfg_ok (cfg_ c) -> sinv (sender_ c) hist ->
  rinv S pisn (recv_capacity (cfg_ c)) (receiver_ c) dlv rcv fn -> need_send_rst_ c = false ->
  exists c', (s ← fill_window (sender_ c); enqueue_segments (set_sender s c)) = Ok c'
    /\ cinv S pisn c' hist dlv rcv fn /\ cfg_ c' = cfg_ c /\ active_ c' = active_ c.
Proof using Hpisn.
  intros Hcfg Hs Hr Hrst. destruct (fill_window_spec _ _ Hs) as (s' & nw & E & Hs' & _). rewrite E.
  cbn [mbind res_bind].
  destruct (cinv_enqueue (set_sender s' c) hist dlv rcv fn) as (c' & E' & Hc & ? & _ & ? & _); try done. eauto.
Qed.

Lemma cinv_connect c hist dlv rcv fn :
  cfg_ok (cfg_ c) -> cinv S pisn c hist dlv rcv fn ->
  exists c', connect c = Ok c' /\ cinv S pisn c' hist dlv rcv fn /\ cfg_ c' = cfg_ c /\ active_ c' = active_ c.
Proof using Hpisn. intros Hcfg [Hs Hr Hq Hrst]. by apply fill_enqueue. Qed.

Lemma cinv_end c hist dlv rcv fn :
  cfg_ok (cfg_ c) -> cinv S pisn c hist dlv rcv fn ->
  exists c', end_input_stream c = Ok c' /\ cinv S pisn c' hist dlv rcv fn /\ cfg_ c' = cfg_ c /\ active_ c' = active_ c.
Proof using Hpisn.
  intros Hcfg [Hs Hr Hq Hrst]. unfold end_input_stream.
  apply (fill_enqueue (set_sender (TCPSender.end_input (sender_ c)) c)); try done. by apply sinv_end.
Qed.

Lemma cinv_write c hist dlv rcv fn data :
  cfg_ok (cfg_ c) -> cinv S pisn c hist dlv rcv fn ->
  ended (sender_ c) = false -> zlen hist + zlen data + 2 < M63 ->
  exists n c', write c data = Ok (n, c') /\ cinv S pisn c' (hist ++ ztake n data) dlv rcv fn
    /\ cfg_ c' = cfg_ c /\ active_ c' = active_ c.
Proof using Hpisn.
  intros Hcfg [Hs Hr Hq Hrst] Hen Hb. unfold write.
  destruct (write_contents (stream_in (sender_ c)) data (si_stream _ _ Hs)) as (bs & E & _).
  rewrite E. cbn [mbind res_bind]. set (n := zlen (accepted _ _)) in *.
  pose proof (sinv_write _ _ _ _ _ Hs Hen Hb E) as Hs'.
  destruct (fill_enqueue (set_sender (set_stream_in bs (sender_ c)) c) (hist ++ ztake n data) dlv rcv fn)
    as (c' & E' & Hc' & ? & ?); [exact Hcfg|exact Hs'|exact Hr|exact Hrst|].
  exists n, c'. split_and!; try done. cbn [sender_ set_sender] in *.
  destruct (fill_window (set_stream_in bs (sender_ c))) as [s'|]; [|done].
  cbn [mbind res_bind] in *. by rewrite E'.
Qed.

Lemma cinv_tick c hist dlv rcv fn ms :
  cfg_ok (cfg_ c) -> cinv S pisn c hist dlv rcv fn ->
  exists s c', TCPSender.tick (sender_ c) ms = Ok s /\ tick c ms = Ok c' /\ cfg_ c' = cfg_ c /\
    if MAX_RETX_ATTEMPTS <? consecutive_retransmissions s
    then active_ c' = false /\ state_eqb (state c') (of_state RESET) = true
         /\ exists seg, segments_out_ c' = segments_out_ c ++ [seg] /\ rst (header seg) = true
    else cinv S pisn c' hist dlv rcv fn.
Proof using Hpisn.
  intros Hcfg [Hs Hr Hq Hrst]. destruct (sinv_tick _ _ ms Hs) as (s & E & Hs'). exists s.
  unfold tick. cbn [sender_ set_ms]. rewrite E. cbn [mbind res_bind]. cbn [sender_ set_sender].
  destruct (MAX_RETX_ATTEMPTS <? consecutive_retransmissions s).
  - set (c1 := set_need_rst true _).
    assert (exists seg q, TCPSender.segments_out_ (send_empty_segment (sender_ c1)) = seg :: q) as (seg & q & Eq).
    { unfold send_empty_segment. destruct (TCPSender.segments_out_ (sender_ c1)) eqn:Eo; eauto. }
    assert (TCPSender.state (send_empty_segment (sender_ c1)) = TCPSender.kError) as Est.
    { unfold send_empty_segment. by destruct (TCPSender.segments_out_ (sender_ c1)). }
    rewrite (enqueue_rst _ seg q) by done. eexists. split_and!; try done; [|eexists; split; [reflexivity|done]].
    apply state_eqb_eq. unfold state, summary, sender_summary, receiver_summary.
    match goal with |- context [TCPSender.state ?x] => assert (TCPSender.state x = TCPSender.kError) as -> by exact Est end.
    done.
  - set (c1 := set_sender s _). destruct (try_clean_shutdown_fields c1) as (F1 & F2 & F3 & F4 & F5 & _).
    destruct (cinv_enqueue (try_clean_shutdown c1) hist dlv rcv fn) as (c' & E' & Hc' & Hcf & _); 
      rewrite ?F1, ?F2, ?F3, ?F5; try done.
    exists c'. split_and!; try done. by rewrite Hcf, F1.
Qed.

(** The byte of a probe is beyond the window. *)
Lemma probe_beyond cap r dlv rcv fn seg index :
  0 < cap < M63 -> zlen S + 2 * cap + 2 < M64 -> rinv S pisn cap r dlv rcv fn -> window_probe S pisn r seg index ->
  (index + zlen (str (payload seg)) <=? consumed (reassembler_ r) + StreamReassembler.capacity_ (reassembler_ r)) = false.
Proof using Hpisn.
  intros Hrc HS Hr (_ & _ & -> & Hw & _ & _ & -> & _). destruct (rinv_advert S pisn cap Hrc HS Hpisn _ _ _ _ Hr) as [_ Hw'].
  pose proof (ri_inv _ _ _ _ _ _ _ Hr) as Hi. rewrite (inv_consumed _ _ _ _ _ _ Hi), (inv_cap _ _ _ _ _ _ Hi).
  apply Z.leb_gt. lia.
Qed.

(** The receiver's part of a segment. *)
Lemma receive_segment c hist dlv rcv fn seg index :
  cfg_ok (cfg_ c) -> cinv S pisn c hist dlv rcv fn -> peer_segment S pisn (receiver_ c) seg index ->
  exists r, TCPReceiver.segment_received (receiver_ c) seg = Ok r
    /\ rinv S pisn (recv_capacity (cfg_ c)) r dlv
         (rcv ∪ stored (receiver_ c) seg index) (fn || heard (receiver_ c) seg && fin (header seg))
    /\ (heard (receiver_ c) seg = true -> is_listen_ r = false).
Proof using Hpisn.
  intros (Hrt & Hsc & Hrc & HS & _) [Hs Hr Hq Hrst] [_ [[Hc Had]|[Hp|Hp]]]; unfold stored.
  - destruct (rinv_segment S pisn _ Hrc HS Hpisn _ _ _ _ _ _ Hr Hc Had) as (r & E & Hr').
    rewrite (proj2 (Z.leb_le _ _) (proj1 Had)). exists r. split_and!; try done. apply (heard_listen _ _ _ E).
    intros Hl. left. destruct (state_spec S pisn _ Hrc HS Hpisn _ _ _ _ Hr) as [-> _]. by rewrite Hl.
  - destruct (rinv_probe S pisn _ Hrc HS Hpisn _ _ _ _ _ _ Hr Hp) as (r & E & Hr' & Hl). exists r.
    rewrite (probe_beyond _ _ _ _ _ _ _ Hrc HS Hr Hp). destruct Hp as (_ & _ & _ & _ & _ & Hfi & _).
    rewrite Hfi, union_empty_r_L, andb_false_r, orb_false_r. by split_and!.
  - exists (receiver_ c). rewrite (rinv_ack S pisn _ Hrc HS Hpisn _ _ _ _ _ Hr Hp).
    destruct Hp as (Hsy & Hfi & Hpl). unfold new_indices. rewrite Hpl, Hfi.
    assert ((if heard (receiver_ c) seg then indices index [] else ∅ : gset Z) = ∅) as ->.
    { destruct (heard (receiver_ c) seg); done. }
    destruct (_ <=? _); rewrite union_empty_r_L, andb_false_r, orb_false_r; split_and!; try done;
      unfold heard; rewrite Hsy, orb_false_r; apply negb_true_iff.
Qed.

Lemma wants_reply_ok c cap dlv rcv fn seg :
  0 < cap < M63 -> zlen S + 2 * cap + 2 < M64 -> rinv S pisn cap (receiver_ c) dlv rcv fn ->
  exists b, wants_reply c seg = Ok b /\ (0 < length_in_sequence_space seg -> b = true).
Proof using Hpisn.
  intros Hrc HS Hr. unfold wants_reply. destruct (Z.ltb_spec 0 (length_in_sequence_space seg)); [eauto|].
  case_bool_decide as Hst; [|exists false; split; [done|lia]].
  rewrite (ackno_ok _ _ _ _ _ Hrc HS Hr). cbn [mbind res_bind].
  destruct (state_spec S pisn cap Hrc HS Hpisn _ _ _ _ Hr) as [Hst' _].
  destruct (is_listen_ (receiver_ c)); [congruence|]. eexists. split; [done|lia].
Qed.

Lemma cinv_segment c hist dlv rcv fn seg index :
  cfg_ok (cfg_ c) -> cinv S pisn c hist dlv rcv fn -> peer_segment S pisn (receiver_ c) seg index ->
  rst (header seg) = false ->
  exists c', segment_received c seg = Ok c' /\ cfg_ c' = cfg_ c
    /\ cinv S pisn c' hist dlv (rcv ∪ brought c seg index) (fn || brought_fin c seg)
    /\ (ignored c seg = false -> heard (receiver_ c) seg = true -> 0 < length_in_sequence_space seg ->
        exists nw, nw <> [] /\ segments_out_ c' = segments_out_ c
           ++ map (stamped (Some (wrap (abs_ack_no (receiver_ c')) pisn)) (window_size (receiver_ c'))) nw).
Proof using Hpisn.
  intros Hcfg Hcv Hps Hrs. unfold segment_received. fold (ignored c seg).
  unfold brought, brought_fin. destruct (ignored c seg) eqn:Hig.
  { exists c. cbn [negb andb]. rewrite union_empty_r_L, orb_false_r. done. }
  cbn [negb andb]. rewrite Hrs. cbn [receiver_ set_ms].
  destruct (receive_segment c hist dlv rcv fn seg index Hcfg Hcv Hps) as (r & Er & Hr & Hls). rewrite Er.
  cbn [mbind res_bind]. destruct (Hcv) as [Hs _ Hq Hrst]. destruct (Hcfg) as (Hrt & Hsc & Hrc & HS & Hfi).
  (* the sender's half *)
  set (c1 := set_receiver r (set_ms 0 c)).
  set (c2 := if ack (header seg) then set_sender _ c1 else c1).
  assert (sinv (sender_ c2) hist /\ receiver_ c2 = r /\ cfg_ c2 = cfg_ c /\ need_send_rst_ c2 = false
    /\ segments_out_ c2 = segments_out_ c /\ TCPSender.segments_out_ (sender_ c2) = []) as (Hs2 & R2 & F2 & N2 & O2 & Q2).
  { subst c2 c1. destruct (ack (header seg)); cbn; split_and!; try done.
    - apply sinv_ack; [done|apply Hps].
    - unfold ack_received. repeat case_match; done. }
  set (c3 := if _ && _ then try_clean_shutdown _ else c2).
  assert (sender_ c3 = sender_ c2 /\ receiver_ c3 = r /\ cfg_ c3 = cfg_ c /\ need_send_rst_ c3 = false
    /\ segments_out_ c3 = segments_out_ c) as (S3 & R3 & F3 & N3 & O3).
  { subst c3. destruct (bool_decide _ && bool_decide (TCPSender.state (sender_ c2) = _)); [|by split_and!].
    destruct (try_clean_shutdown_fields (set_linger false c2)) as (-> & -> & -> & -> & -> & _). by split_and!. }
  clearbody c3. rewrite S3.
  destruct (fill_window_spec _ _ Hs2) as (s' & nw & E4 & Hs4 & Hex & _). rewrite E4. cbn [mbind res_bind].
  destruct (wants_reply_ok (set_sender s' c3) (recv_capacity (cfg_ c)) dlv
    (rcv ∪ stored (receiver_ c) seg index) (fn || heard (receiver_ c) seg && fin (header seg)) seg Hrc HS)
    as (b & E5 & Hb); [cbn; by rewrite R3|].
  rewrite E5. cbn [mbind res_bind].
  set (c5 := if b then set_sender _ _ else set_sender s' c3).
  assert (sinv (sender_ c5) hist /\ receiver_ c5 = r /\ cfg_ c5 = cfg_ c /\ need_send_rst_ c5 = false
    /\ segments_out_ c5 = segments_out_ c
    /\ (b = true -> TCPSender.segments_out_ (sender_ c5) <> [])) as (Hs5 & R5 & F5 & N5 & O5 & Q5).
  { subst c5. destruct b; cbn; (split_and!; try done).
    - by apply sinv_empty.
    - intros _. unfold send_empty_segment. by destruct (TCPSender.segments_out_ s') eqn:Eo; rewrite ?Eo. }
  clearbody c5. destruct (try_clean_shutdown_fields c5) as (G1 & G2 & G3 & G4 & G5 & _).
  destruct (cinv_enqueue (try_clean_shutdown c5) hist dlv (rcv ∪ stored (receiver_ c) seg index)
    (fn || heard (receiver_ c) seg && fin (header seg))) as (c' & E' & Hc' & Hcf & Hrc' & _ & Ho);
    rewrite ?G1, ?G2, ?G3, ?G5, ?F5, ?R5; try done.
  exists c'. split_and!; try done; [by rewrite Hcf, G1|].
  intros _ Hh Hlen. specialize (Hls Hh). rewrite G2, G3, G4, R5, O5, Hls in Ho.
  exists (TCPSender.segments_out_ (sender_ c5)). rewrite Hrc', G2, R5. split; [by apply Q5, Hb|exact Ho].
Qed.
End connection.

(** ** Histories of a connection

    [reach S pisn cfg c hist dlv rcv fn]: calls on a connection, each while it
    is active: segments of the peer that fit the window, the passing of time,
    writes until the stream is ended, reads of the inbound stream, and the
    owner taking segments from the outbound queue. *)
Definition read_inbound (c : TCPConnection) (len : Z) : res (list byte * TCPConnection) :=
  '(s, out) ← ByteStream.read (inbound_stream c) len;
  Ok (s, set_receiver (set_stream_out (receiver_ c) out) c).

Inductive reach (S : list byte) (pisn : WrappingInt32) (cfg : TCPConfig)
    : TCPConnection -> list byte -> list byte -> gset Z -> bool -> Prop :=
  | reach_new rnd : reach S pisn cfg (new cfg rnd) [] [] ∅ false
  | reach_connect c hist dlv rcv fn c' :
      reach S pisn cfg c hist dlv rcv fn -> active c = true -> connect c = Ok c' ->
      reach S pisn cfg c' hist dlv rcv fn
  | reach_write c hist dlv rcv fn data n c' :
      reach S pisn cfg c hist dlv rcv fn -> active c = true -> ended (sender_ c) = false ->
      zlen hist + zlen data + 2 < M63 -> write c data = Ok (n, c') ->
      reach S pisn cfg c' (hist ++ ztake n data) dlv rcv fn
  | reach_end c hist dlv rcv fn c' :
      reach S pisn cfg c hist dlv rcv fn -> active c = true -> end_input_stream c = Ok c' ->
      reach S pisn cfg c' hist dlv rcv fn
  | reach_tick c hist dlv rcv fn ms c' :
      reach S pisn cfg c hist dlv rcv fn -> active c = true -> tick c ms = Ok c' -> active c' = true ->
      reach S pisn cfg c' hist dlv rcv fn
  | reach_segment c hist dlv rcv fn seg index c' :
      reach S pisn cfg c hist dlv rcv fn -> active c = true ->
      peer_segment S pisn (receiver_ c) seg index -> rst (header seg) = false ->
      segment_received c seg = Ok c' ->
      reach S pisn cfg c' hist dlv (rcv ∪ brought c seg index) (fn || brought_fin c seg)
  | reach_read c hist dlv rcv fn len s c' :
      reach S pisn cfg c hist dlv rcv fn -> 0 <= len < M64 -> read_inbound c len = Ok (s, c') ->
      reach S pisn cfg c' hist (dlv ++ s) rcv fn
  | reach_drain c hist dlv rcv fn :
      reach S pisn cfg c hist dlv rcv fn -> reach S pisn cfg (set_out [] c) hist dlv rcv fn.

Lemma cinv_read S pisn c hist dlv rcv fn len :
  wi_ok pisn -> cfg_ok S (cfg_ c) -> cinv S pisn c hist dlv rcv fn -> 0 <= len < M64 ->
  exists s c', read_inbound c len = Ok (s, c') /\ cinv S pisn c' hist (dlv ++ s) rcv fn /\ cfg_ c' = cfg_ c.
Proof.
  intros Hp (_ & _ & Hrc & HS & _) [Hs Hr Hq Hrst] Hlen. unfold read_inbound, inbound_stream.
  destruct (rinv_read S pisn _ Hrc HS Hp _ _ _ _ len Hr Hlen) as (s & out & E & Hr'). rewrite E.
  cbn [mbind res_bind]. do 2 eexists. split_and!; [done| |done]. by split.
Qed.

Lemma reach_cinv S pisn cfg c hist dlv rcv fn :
  wi_ok pisn -> cfg_ok S cfg -> reach S pisn cfg c hist dlv rcv fn ->
  cinv S pisn c hist dlv rcv fn /\ cfg_ c = cfg.
Proof.
  intros Hp Hcfg. induction 1 as [rnd|c hist dlv rcv fn c' _ [H Ec] Hac E|c hist dlv rcv fn data n c' _ [H Ec] Hac Hen Hb E
    |c hist dlv rcv fn c' _ [H Ec] Hac E|c hist dlv rcv fn ms c' _ [H Ec] Hac E Hac'
    |c hist dlv rcv fn seg index c' _ [H Ec] Hac Hps Hrst E|c hist dlv rcv fn len s c' _ [H Ec] Hlen E
    |c hist dlv rcv fn _ [H Ec]]; try rewrite <-Ec in Hcfg.
  - split; [by apply cinv_new|done].
  - destruct (cinv_connect S pisn Hp _ _ _ _ _ Hcfg H) as (c1 & E1 & H1 & ? & _).
    rewrite E in E1. injection E1 as <-. split; [done|congruence].
  - destruct (cinv_write S pisn Hp _ _ _ _ _ data Hcfg H Hen Hb) as (n1 & c1 & E1 & H1 & ? & _).
    rewrite E in E1. injection E1 as <- <-. split; [done|congruence].
  - destruct (cinv_end S pisn Hp _ _ _ _ _ Hcfg H) as (c1 & E1 & H1 & ? & _).
    rewrite E in E1. injection E1 as <-. split; [done|congruence].
  - destruct (cinv_tick S pisn Hp _ _ _ _ _ ms Hcfg H) as (s & c1 & _ & E1 & ? & H1).
    rewrite E in E1. injection E1 as <-. unfold active in Hac'.
    destruct (_ <? _); [destruct H1; congruence|]. split; [done|congruence].
  - destruct (cinv_segment S pisn Hp _ _ _ _ _ _ _ Hcfg H Hps Hrst) as (c1 & E1 & ? & H1 & _).
    rewrite E in E1. injection E1 as <-. split; [done|congruence].
  - destruct (cinv_read S pisn _ _ _ _ _ len Hp Hcfg H Hlen) as (s1 & c1 & E1 & H1 & ?).
    rewrite E in E1. injection E1 as <- <-. split; [done|congruence].
  - split; [|done]. destruct H. by split.
Qed.

(** ** Properties *)

Definition sample_cfg (isn : Z) : TCPConfig := mkTCPConfig 1000 8 8 (Some (mkWrappingInt32 isn)).
Definition sample_server : TCPConnection := new (sample_cfg 100) 0.

Lemma sample_cfg_ok isn : 0 <= isn < M32 -> cfg_ok [x61; x62] (sample_cfg isn).
Proof. intros. unfold cfg_ok; cbn. split_and!; try lia; done. Qed.

(** C15: every segment of the peer that occupies sequence numbers is answered:
    once the receiver has heard the peer's SYN, at least one segment is queued
    in reply, and all the segments queued carry the ACK flag, the
    acknowledgment number of the receiver after this segment and its window
    (cut to 16 bits). *)
Theorem connection_acks (S : list byte) (pisn : WrappingInt32) (cfg : TCPConfig) (c : TCPConnection)
    (hist dlv : list byte) (rcv : gset Z) (fn : bool) (seg : TCPSegment) (index : Z) :
  wi_ok pisn -> cfg_ok S cfg -> reach S pisn cfg c hist dlv rcv fn ->
  peer_segment S pisn (receiver_ c) seg index -> rst (header seg) = false ->
  ignored c seg = false -> heard (receiver_ c) seg = true -> 0 < length_in_sequence_space seg ->
  exists c' nw, segment_received c seg = Ok c' /\ nw <> [] /\ segments_out c' = segments_out c ++ nw
    /\ Forall (fun out => ack (header out) = true
         /\ TCPHeader.ackno (header out) = wrap (abs_ack_no (receiver_ c')) pisn
         /\ win (header out) = Z.min (window_size (receiver_ c')) 65535) nw.
Proof.
  intros Hp Hcfg H Hps Hrst Hig Hh Hlen. apply reach_cinv in H as [H <-]; [|done..].
  destruct (cinv_segment S pisn Hp _ _ _ _ _ _ _ Hcfg H Hps Hrst) as (c' & E & Ecf & Hc' & Hnew).
  destruct (Hnew Hig Hh Hlen) as (nw & Hne & Ho). exists c'. eexists. split_and!; [done| |exact Ho|].
  - by destruct nw.
  - apply Forall_map, Forall_forall. intros out _. cbn.
    split_and!; try done. apply u16_small. unfold window_size.
    pose proof (u64_range (TCPReceiver.capacity_ (receiver_ c') - buffer_size (stream_out (receiver_ c')))). lia.
Qed.

Lemma connection_acks_witness :
  exists c' nw, segment_received sample_server sample_syn = Ok c' /\ nw <> []
    /\ segments_out c' = segments_out sample_server ++ nw
    /\ Forall (fun out => ack (header out) = true
         /\ TCPHeader.ackno (header out) = wrap (abs_ack_no (receiver_ c')) (mkWrappingInt32 7)
         /\ win (header out) = Z.min (window_size (receiver_ c')) 65535) nw.
Proof.
  apply (connection_acks [x61; x62] (mkWrappingInt32 7) (sample_cfg 100) sample_server [] [] ∅ false sample_syn 0);
    [split; cbn; lia|apply sample_cfg_ok; lia|apply reach_new| |reflexivity|reflexivity|reflexivity|reflexivity].
  split; [cbn; lia|]. left. split; [apply sample_segments_carry|].
  split; [vm_compute; discriminate|vm_compute; discriminate].
Defined.

(** How a connection is reset: a segment with the RST flag (except while
    listening, where it is dropped) ends it at once, without an answer; and a
    tick that makes a ninth consecutive retransmission ends it and queues one
    segment with the RST flag.  Either way both streams are in error and the
    connection is in the state RESET. *)
Theorem connection_reset (S : list byte) (pisn : WrappingInt32) (cfg : TCPConfig) (c : TCPConnection)
    (hist dlv : list byte) (rcv : gset Z) (fn : bool) (seg : TCPSegment) (ms : Z) (s : TCPSender) :
  wi_ok pisn -> cfg_ok S cfg -> reach S pisn cfg c hist dlv rcv fn ->
  (rst (header seg) = true ->
   if ignored c seg then segment_received c seg = Ok c else
   exists c', segment_received c seg = Ok c' /\ state_eqb (state c') (of_state RESET) = true
     /\ segments_out c' = segments_out c)
  /\ (TCPSender.tick (sender_ c) ms = Ok s -> MAX_RETX_ATTEMPTS < consecutive_retransmissions s ->
      exists c' out, tick c ms = Ok c' /\ state_eqb (state c') (of_state RESET) = true
        /\ segments_out c' = segments_out c ++ [out] /\ rst (header out) = true).
Proof.
  intros Hp Hcfg H. apply reach_cinv in H as [H <-]; [|done..]. split.
  - intros Hrst. unfold segment_received. fold (ignored c seg). destruct (ignored c seg); [done|].
    rewrite Hrst. eexists. split_and!; [done| |done]. apply state_eqb_eq. done.
  - intros Es Hgt. destruct (cinv_tick S pisn Hp _ _ _ _ _ ms Hcfg H) as (s' & c' & Es' & E & _ & Hc).
    rewrite Es in Es'. injection Es' as <-.
    destruct (Z.ltb_spec MAX_RETX_ATTEMPTS (consecutive_retransmissions s)); [|lia].
    destruct Hc as (_ & Hst & out & Ho & Hr). exists c', out. by split_and!.
Qed.

Definition sample_rst : TCPSegment :=
  mkTCPSegment (set_rst true (set_seqno (mkWrappingInt32 7) tcp_header_default)) empty_buffer.

(** A client whose SYN was retransmitted eight times. *)
Fixpoint tick_times (n : nat) (c : TCPConnection) : res TCPConnection :=
  match n with
  | O => Ok c
  | S n => c' ← tick c 1000000; if active c' then tick_times n c' else Fail RuntimeError
  end.

Lemma tick_times_reach S pisn cfg hist dlv rcv fn n : forall c c',
  reach S pisn cfg c hist dlv rcv fn -> active c = true -> tick_times n c = Ok c' ->
  reach S pisn cfg c' hist dlv rcv fn.
Proof.
  induction n as [|n IH]; intros c c' H Ha E; cbn [tick_times] in E; [by injection E as <-|].
  apply bind_Ok in E as (c1 & E1 & E). destruct (active c1) eqn:Ha1; [|done].
  apply (IH c1); try done. by eapply reach_tick.
Qed.

Definition or_server (r : res TCPConnection) : TCPConnection :=
  match r with Ok c => c | Fail _ => sample_server end.
Definition sample_client : TCPConnection := Eval vm_compute in or_server (connect (new (sample_cfg 7) 0)).
Definition sample_tired : TCPConnection := Eval vm_compute in or_server (tick_times 8 sample_client).
Definition sample_tired_sender : TCPSender := Eval vm_compute in
  or_else (TCPSender.tick (sender_ sample_tired) 1000000) (sender_ sample_tired).

Lemma sample_tired_reach : reach [x61; x62] (mkWrappingInt32 100) (sample_cfg 7) sample_tired [] [] ∅ false.
Proof.
  apply (tick_times_reach _ _ _ _ _ _ _ 8 sample_client); [|reflexivity|vm_compute; reflexivity].
  eapply reach_connect; [apply (reach_new _ _ _ 0)|reflexivity|vm_compute; reflexivity].
Qed.

Lemma connection_reset_witness :
  (exists c', segment_received sample_tired sample_rst = Ok c' /\ state_eqb (state c') (of_state RESET) = true
     /\ segments_out c' = segments_out sample_tired)
  /\ (exists c' out, tick sample_tired 1000000 = Ok c' /\ state_eqb (state c') (of_state RESET) = true
        /\ segments_out c' = segments_out sample_tired ++ [out] /\ rst (header out) = true).
Proof.
  destruct (connection_reset [x61; x62] (mkWrappingInt32 100) (sample_cfg 7) sample_tired [] [] ∅ false sample_rst
    1000000 sample_tired_sender) as [H1 H2];
    [split; cbn; lia|apply sample_cfg_ok; lia|apply sample_tired_reach|].
  split; [exact (H1 eq_refl)|]. apply H2; [vm_compute; reflexivity|vm_compute; reflexivity].
Defined.

(** A connection in CLOSING, whose own FIN (and possibly data) is still
    unacknowledged, is ended by the lingering timer alone: when no segment
    has come for ten timeouts a tick makes it inactive although bytes are in
    flight. *)
Theorem closing_abandons_data (S : list byte) (pisn : WrappingInt32) (cfg : TCPConfig) (c : TCPConnection)
    (hist dlv : list byte) (rcv : gset Z) (fn : bool) (ms : Z) (s : TCPSender) :
  wi_ok pisn -> cfg_ok S cfg -> TCPConnection.reach S pisn cfg c hist dlv rcv fn ->
  state_eqb (TCPConnection.state c) (of_state CLOSING) = true ->
  10 * rt_timeout cfg <= time_since_last_segment_received c + ms < M64 ->
  TCPSender.tick (sender_ c) ms = Ok s -> consecutive_retransmissions s <= MAX_RETX_ATTEMPTS ->
  exists c', TCPConnection.tick c ms = Ok c' /\ active c' = false
    /\ TCPConnection.bytes_in_flight c' = TCPConnection.bytes_in_flight c
    /\ TCPConnection.bytes_in_flight c' <> 0.
Proof.
  intros Hp Hcfg H Hst Hms Es Hret. apply reach_cinv in H as [H Ec]; [|done..]. rewrite <-Ec in *.
  apply state_eqb_eq in Hst.
  assert (TCPSender.state (sender_ c) = TCPSender.kFinSent /\ TCPReceiver.state (receiver_ c) = TCPReceiver.kFinRecv
    /\ linger_after_stream_finish_ c = true) as (Hs & Hr & Hl).
  { unfold TCPConnection.state, summary, sender_summary, receiver_summary in Hst.
    destruct (TCPSender.state (sender_ c)), (TCPReceiver.state (receiver_ c)), (active c),
      (linger_after_stream_finish_ c); cbn in Hst; try discriminate Hst; done. }
  assert (bytes_in_flight_ (sender_ c) <> 0) as Hbf.
  { unfold TCPSender.state in Hs. repeat case_match; try discriminate Hs.
    match goal with E : negb (_ =? 0) = true |- _ => apply negb_true_iff, Z.eqb_neq in E; done end. }
  assert (bytes_in_flight_ s = bytes_in_flight_ (sender_ c)) as Hsame.
  { unfold TCPSender.tick in Es. repeat case_match; by simplify_eq/=. }
  assert (0 <= rt_timeout (cfg_ c)) by apply Hcfg.
  destruct (cinv_tick S pisn Hp _ _ _ _ _ ms Hcfg H) as (s' & c' & Es' & E & _ & Hc').
  rewrite Es in Es'. injection Es' as <-. exists c'. split; [done|].
  unfold TCPConnection.tick in E. cbn [sender_ set_ms] in E. rewrite Es in E. cbn [mbind res_bind] in E.
  cbn [sender_ set_sender] in E. destruct (Z.ltb_spec MAX_RETX_ATTEMPTS (consecutive_retransmissions s)); [lia|].
  unfold time_since_last_segment_received in Hms.
  unfold try_clean_shutdown in E. cbn [linger_after_stream_finish_ set_sender set_ms receiver_ cfg_ ms_since_last_recv_] in E.
  rewrite Hl, Hr, u64_small in E by lia. rewrite bool_decide_true in E by done.
  destruct (Z.leb_spec (10 * rt_timeout (cfg_ c)) (ms_since_last_recv_ c + ms)); [|lia]. cbn [andb orb] in E.
  unfold enqueue_segments in E. apply bind_Ok in E as ([q out] & _ & [= <-]).
  unfold active, TCPConnection.bytes_in_flight, TCPSender.bytes_in_flight. cbn. by rewrite Hsame.
Qed.

(** A client that sent its FIN and then got the server's FIN, which does not
    acknowledge it. *)
Definition closing_syn_ack : TCPSegment :=
  mkTCPSegment (set_win 8 (set_ackno (mkWrappingInt32 8) (set_ack true
    (set_syn true (set_seqno (mkWrappingInt32 100) tcp_header_default))))) empty_buffer.
Definition closing_fin : TCPSegment :=
  mkTCPSegment (set_win 8 (set_ackno (mkWrappingInt32 8) (set_ack true
    (set_fin true (set_seqno (mkWrappingInt32 101) tcp_header_default))))) empty_buffer.
Definition closing_client1 : TCPConnection := Eval vm_compute in
  or_server (TCPConnection.segment_received sample_client closing_syn_ack).
Definition closing_client2 : TCPConnection := Eval vm_compute in or_server (end_input_stream closing_client1).
Definition closing_client : TCPConnection := Eval vm_compute in
  or_server (TCPConnection.segment_received closing_client2 closing_fin).
Definition closing_sender : TCPSender := Eval vm_compute in
  or_else (TCPSender.tick (sender_ closing_client) 10000) (sender_ closing_client).

Lemma closing_reach : exists rcv fn,
  TCPConnection.reach [] (mkWrappingInt32 100) (sample_cfg 7) closing_client [] [] rcv fn.
Proof.
  eexists _, _.
  eapply (TCPConnection.reach_segment _ _ _ closing_client2 _ _ _ _ closing_fin 0); [|reflexivity| |reflexivity|vm_compute; reflexivity].
  - eapply (TCPConnection.reach_end _ _ _ closing_client1); [|reflexivity|vm_compute; reflexivity].
    eapply (TCPConnection.reach_segment _ _ _ sample_client _ _ _ _ closing_syn_ack 0);
      [|reflexivity| |reflexivity|vm_compute; reflexivity].
    + eapply TCPConnection.reach_connect; [apply (TCPConnection.reach_new _ _ _ 0)|reflexivity|vm_compute; reflexivity].
    + split; [cbn; lia|]. left. split; [split; [reflexivity|done|]|].
      * split_and!; [lia|done|done|done].
      * split; [vm_compute; discriminate|vm_compute; discriminate].
  - split; [cbn; lia|]. left. split; [split; [reflexivity|done|]|].
    + split_and!; [lia|done|done|done].
    + split; [vm_compute; discriminate|intros _; vm_compute; split; done].
Qed.

Lemma closing_abandons_data_witness :
  exists c', TCPConnection.tick closing_client 10000 = Ok c' /\ active c' = false
    /\ TCPConnection.bytes_in_flight c' = TCPConnection.bytes_in_flight closing_client
    /\ TCPConnection.bytes_in_flight c' <> 0.
Proof.
  destruct closing_reach as (rcv & fn & H).
  apply (closing_abandons_data [] (mkWrappingInt32 100) (sample_cfg 7) closing_client [] [] rcv fn 10000 closing_sender);
    [split; cbn; lia| |exact H|vm_compute; reflexivity|split; vm_compute; congruence|vm_compute; reflexivity|vm_compute; discriminate].
  unfold cfg_ok; cbn. split_and!; try lia; done.
Defined.
