(* ===== verification/Handshake.v ===== *)
(** * Opening a connection

    Two connections that exchange their segments: the three-way handshake for
    any initial sequence numbers, capacities and timeouts. *)

From Stdlib Require Import ZArith Lia.
From S2P Require Import Prelude WrappingIntegers Ring ByteStream UnAssembleBuffer StreamReassembler Buffer Parser TCPHeader TCPSegment TCPReceiver TCPSender TCPState TCPConnection.

(** The owner takes the first segment from the outbound queue. *)
Definition take_segment (c : TCPConnection) : option (TCPSegment * TCPConnection) :=
  match TCPConnection.segments_out c with
  | seg :: q => Some (seg, set_out q c)
  | [] => None
  end.

(** [deliver a b]: one segment goes from [a] to [b]. *)
Definition deliver (a b : TCPConnection) : res (TCPConnection * TCPConnection) :=
  match take_segment a with
  | Some (seg, a') => b' ← TCPConnection.segment_received b seg; Ok (a', b')
  | None => Fail RuntimeError
  end.

(** SYN, SYN and ACK, ACK. *)
Definition handshake (client server : TCPConnection) : res (TCPConnection * TCPConnection) :=
  client ← connect client;
  '(client, server) ← deliver client server;
  '(server, client) ← deliver server client;
  '(client, server) ← deliver client server;
  Ok (client, server).

(** ** Lemmas *)

(** A receiver right after the peer's SYN. *)
Definition receiver_open (cap : Z) (pisn : WrappingInt32) : TCPReceiver :=
  mkTCPReceiver (StreamReassembler.new cap) cap (Some pisn) false.

Section opening.
Context (cap : Z) (pisn : WrappingInt32) (Hcap : 0 < cap < M63) (Hroom : 2 * cap + 2 < M64) (Hpisn : wi_ok pisn).

Lemma receiver_open_facts :
  TCPReceiver.state (receiver_open cap pisn) = TCPReceiver.kSynRecv
  /\ abs_ack_no (receiver_open cap pisn) = 1
  /\ TCPReceiver.ackno (receiver_open cap pisn) = Ok (Some (wrap 1 pisn)).
Proof using All. done. Qed.

Lemma receive_syn seg :
  syn (header seg) = true -> fin (header seg) = false -> str (payload seg) = [] -> seqno (header seg) = pisn ->
  TCPReceiver.segment_received (TCPReceiver.new cap) seg = Ok (receiver_open cap pisn).
Proof using All.
  intros Hs Hf Hp Hq. unfold TCPReceiver.segment_received. rewrite Hs, Hf, Hq. unfold copy. rewrite Hp.
  rewrite bool_decide_true by done. cbn [andb negb]. fold (receiver_open cap pisn).
  change (isn_value _) with (Ok pisn). cbn [mbind res_bind].
  change (abs_ack_no _) with 1.
  assert (unwrap (wi_add pisn 1) pisn 1 = 1) as ->.
  { change (wi_add pisn 1) with (wrap 1 pisn). by apply unwrap_wrap_near. }
  change (u64 (1 - 1)) with 0. cbn [Z.ltb Z.compare].
  rewrite (push_nothing [] cap _ [] ∅ false 0); [done| |rewrite zlen_nil; lia|lia].
  apply inv_new; [done|lia].
Qed.

Lemma receiver_open_ack seg :
  pure_ack seg -> TCPReceiver.segment_received (receiver_open cap pisn) seg = Ok (receiver_open cap pisn).
Proof using All.
  intros Hp. apply (rinv_ack [] pisn cap Hcap ltac:(rewrite zlen_nil; lia) Hpisn _ [] ∅ false); [|done].
  split; try done. apply inv_new; [done|lia].
Qed.
End opening.

(** A sender right after its SYN, and after the SYN is acknowledged. *)
Definition sender_opening (cap rto : Z) (isn : WrappingInt32) (rnd : Z) : TCPSender :=
  send_segment (TCPSender.new cap rto (Some isn) rnd) (syn_segment (TCPSender.new cap rto (Some isn) rnd)).

Definition sender_open (cap rto : Z) (isn : WrappingInt32) (w : Z) : TCPSender :=
  mkTCPSender isn [] [] rto (ByteStream.new cap) (mkTimer rto 0 false) 0 1 1 0 w.

Lemma fill_opening cap rto isn rnd :
  fill_window (TCPSender.new cap rto (Some isn) rnd) = Ok (sender_opening cap rto isn rnd).
Proof. done. Qed.

Lemma ack_opening cap rto isn rnd w :
  wi_ok isn ->
  ack_received (set_segments_out [] (sender_opening cap rto isn rnd)) (wrap 1 isn) w = sender_open cap rto isn w.
Proof.
  intros Hi. unfold ack_received. cbn [isn_ last_ack_no_ next_seq_no_ set_segments_out sender_opening].
  change (isn_ _) with isn. change (last_ack_no_ _) with 0. change (next_seq_no_ _) with 1.
  rewrite unwrap_wrap_near by lia. cbn [Z.leb Z.ltb Z.compare Pos.compare Pos.compare_cont orb].
  change (outstanding_segments_ _) with [syn_segment (TCPSender.new cap rto (Some isn) rnd)].
  cbn [ack_loop]. change (seqno (header _)) with isn.
  assert (unwrap isn isn 0 = 0) as -> by (rewrite <-(wrap_0 isn Hi) at 1; by apply unwrap_wrap_near).
  done.
Qed.

Lemma fill_open cap rto isn w :
  0 <= w < M16 -> fill_window (sender_open cap rto isn w) = Ok (sender_open cap rto isn w).
Proof.
  intros Hw. unfold fill_window. rewrite bool_decide_false by done.
  change (fill_fuel _) with 2%nat. cbn [fill_loop].
  destruct (free_window_size (sender_open cap rto isn w) =? 0); done.
Qed.

(** The segments of the handshake. *)
Definition syn_of (isn : WrappingInt32) : TCPSegment :=
  set_header (set_seqno isn (set_syn true tcp_header_default)) tcp_segment_default.
Definition ack_of (isn : WrappingInt32) : TCPSegment :=
  set_header (set_seqno (wrap 1 isn) tcp_header_default) tcp_segment_default.

Definition stamp (pisn : WrappingInt32) (cap : Z) (seg : TCPSegment) : TCPSegment :=
  stamped (Some (wrap 1 pisn)) (window_size (receiver_open cap pisn)) seg.

Definition connection_with (cfg : TCPConfig) (r : TCPReceiver) (s : TCPSender) (q : list TCPSegment) : TCPConnection :=
  mkTCPConnection cfg r s 0 q true true false.

Section handshake.
Context (cfg : TCPConfig) (isn pisn : WrappingInt32) (rnd : Z).
Context (Hisn : wi_ok isn) (Hpisn : wi_ok pisn) (Hfix : fixed_isn cfg = Some isn).
Context (Hrc : 0 < recv_capacity cfg < M63) (Hroom : 2 * recv_capacity cfg + 2 < M64).

Let rcap := recv_capacity cfg.
Let s1 := set_segments_out [] (sender_opening (send_capacity cfg) (rt_timeout cfg) isn rnd).

(** The active opener sends its SYN. *)
Lemma open_connect :
  connect (new cfg rnd) = Ok (connection_with cfg (TCPReceiver.new rcap) s1 [syn_of isn]).
Proof using All.
  unfold connect, new. rewrite Hfix. cbn [sender_]. rewrite fill_opening. done.
Qed.

(** The passive opener answers a SYN with its own, stamped. *)
Lemma open_accept seg :
  syn (header seg) = true -> fin (header seg) = false -> str (payload seg) = [] -> seqno (header seg) = pisn ->
  ack (header seg) = false -> rst (header seg) = false ->
  TCPConnection.segment_received (new cfg rnd) seg
  = Ok (connection_with cfg (receiver_open rcap pisn) s1 [stamp pisn rcap (syn_of isn)]).
Proof using All.
  intros Hs Hf Hp Hq Ha Hr. unfold TCPConnection.segment_received. rewrite Hs, Ha, Hr, andb_false_r.
  cbn [receiver_ sender_ set_ms new]. rewrite (receive_syn rcap pisn Hrc Hroom Hpisn) by done.
  cbn [mbind res_bind].
  change (bool_decide (TCPReceiver.state _ = TCPReceiver.kFinRecv)) with false. cbn [andb].
  unfold new. cbn [sender_ set_receiver set_ms]. rewrite Hfix, fill_opening. cbn [mbind res_bind].
  unfold wants_reply. assert (0 < length_in_sequence_space seg) as Hl.
  { unfold length_in_sequence_space. rewrite Hs, Hf, Hp. done. }
  destruct (Z.ltb_spec 0 (length_in_sequence_space seg)); [|lia]. done.
Qed.

(** The active opener gets the answer and acknowledges it. *)
Lemma open_complete seg w :
  syn (header seg) = true -> fin (header seg) = false -> str (payload seg) = [] -> seqno (header seg) = pisn ->
  ack (header seg) = true -> rst (header seg) = false -> TCPHeader.ackno (header seg) = wrap 1 isn ->
  win (header seg) = w -> 0 <= w < M16 ->
  TCPConnection.segment_received (connection_with cfg (TCPReceiver.new rcap) s1 []) seg
  = Ok (connection_with cfg (receiver_open rcap pisn)
          (sender_open (send_capacity cfg) (rt_timeout cfg) isn w) [stamp pisn rcap (ack_of isn)]).
Proof using All.
  intros Hs Hf Hp Hq Ha Hr Hack Hw Hwr. unfold TCPConnection.segment_received, connection_with.
  cbn [receiver_ sender_ set_ms]. change (bool_decide (TCPSender.state s1 = TCPSender.kClosed)) with false.
  rewrite Hr, Ha, andb_false_r. cbn [andb]. rewrite (receive_syn rcap pisn Hrc Hroom Hpisn) by done.
  cbn [mbind res_bind sender_ set_receiver]. rewrite Hack, Hw.
  pose proof (ack_opening (send_capacity cfg) (rt_timeout cfg) isn rnd w Hisn) as Ho. fold s1 in Ho.
  cbn [sender_ set_ms]. rewrite Ho. clear Ho.
  cbn [receiver_ set_sender]. change (bool_decide (TCPReceiver.state _ = TCPReceiver.kFinRecv)) with false. cbn [andb].
  cbn [sender_ set_sender]. rewrite fill_open by done. cbn [mbind res_bind].
  unfold wants_reply. assert (0 < length_in_sequence_space seg) as Hl.
  { unfold length_in_sequence_space. rewrite Hs, Hf, Hp. done. }
  destruct (Z.ltb_spec 0 (length_in_sequence_space seg)); [|lia]. done.
Qed.

(** The passive opener gets the acknowledgment and has nothing to answer. *)
Lemma open_confirm seg w :
  pure_ack seg -> seqno (header seg) = wrap 1 pisn -> ack (header seg) = true -> rst (header seg) = false ->
  TCPHeader.ackno (header seg) = wrap 1 isn -> win (header seg) = w -> 0 <= w < M16 ->
  TCPConnection.segment_received (connection_with cfg (receiver_open rcap pisn) s1 []) seg
  = Ok (connection_with cfg (receiver_open rcap pisn)
          (sender_open (send_capacity cfg) (rt_timeout cfg) isn w) []).
Proof using All.
  intros Hpure Hq Ha Hr Hack Hw Hwr. unfold TCPConnection.segment_received, connection_with.
  cbn [receiver_ sender_ set_ms]. change (bool_decide (TCPSender.state s1 = TCPSender.kClosed)) with false.
  rewrite Hr, Ha, andb_false_r. cbn [andb]. rewrite (receiver_open_ack rcap pisn Hrc Hroom Hpisn) by done.
  cbn [mbind res_bind sender_ set_receiver]. rewrite Hack, Hw.
  pose proof (ack_opening (send_capacity cfg) (rt_timeout cfg) isn rnd w Hisn) as Ho. fold s1 in Ho.
  cbn [sender_ set_ms]. rewrite Ho. clear Ho.
  cbn [receiver_ set_sender]. change (bool_decide (TCPReceiver.state _ = TCPReceiver.kFinRecv)) with false. cbn [andb].
  cbn [sender_ set_sender]. rewrite fill_open by done. cbn [mbind res_bind].
  unfold wants_reply. destruct Hpure as (Hs & Hf & Hp).
  assert (length_in_sequence_space seg = 0) as ->.
  { unfold length_in_sequence_space. rewrite Hs, Hf, Hp. done. }
  cbn [Z.ltb Z.compare]. cbn [receiver_].
  change (bool_decide (TCPReceiver.state _ = TCPReceiver.kSynRecv)) with true.
  change (TCPReceiver.ackno _) with (Ok (Some (wrap 1 pisn))). cbn [mbind res_bind].
  assert (wi_eqb (seqno (header seg)) (wi_sub (wrap 1 pisn) 1) = false) as ->; [|done].
  rewrite Hq, wi_sub_wrap. unfold wi_eqb. rewrite !raw_wrap. apply Z.eqb_neq.
  unfold wi_ok in Hpisn. wrap_lia.
Qed.
End handshake.

Lemma deliver_ok a b seg q b' :
  TCPConnection.segments_out a = seg :: q -> TCPConnection.segment_received b seg = Ok b' ->
  deliver a b = Ok (set_out q a, b').
Proof. intros Hq E. unfold deliver, take_segment. rewrite Hq. cbn. by rewrite E. Qed.

(** ** Properties *)

(** C16: the three-way handshake: for any initial sequence numbers and any
    capacities and timeouts, a client that connects to a listening server
    gets there in three segments, and then both are in the state ESTABLISHED
    with nothing in flight and empty queues, each knowing the other's window
    (cut to 16 bits). *)
Theorem handshake_establishes (ccfg scfg : TCPConfig) (ic is_ : WrappingInt32) (rc rs : Z) :
  wi_ok ic -> wi_ok is_ -> fixed_isn ccfg = Some ic -> fixed_isn scfg = Some is_ ->
  0 < recv_capacity ccfg -> 2 * recv_capacity ccfg + 2 < M64 ->
  0 < recv_capacity scfg -> 2 * recv_capacity scfg + 2 < M64 ->
  exists client server, handshake (new ccfg rc) (new scfg rs) = Ok (client, server)
    /\ state_eqb (TCPConnection.state client) (of_state ESTABLISHED) = true
    /\ state_eqb (TCPConnection.state server) (of_state ESTABLISHED) = true
    /\ TCPConnection.segments_out client = [] /\ TCPConnection.segments_out server = []
    /\ TCPConnection.bytes_in_flight client = 0 /\ TCPConnection.bytes_in_flight server = 0
    /\ window_size_ (sender_ client) = Z.min (recv_capacity scfg) 65535
    /\ window_size_ (sender_ server) = Z.min (recv_capacity ccfg) 65535.
Proof.
  intros Hic His Hfc Hfs Hc1 Hc2 Hs1 Hs2.
  assert (forall cfg p, 0 < recv_capacity cfg -> 2 * recv_capacity cfg + 2 < M64 ->
    u16 (Z.min (window_size (receiver_open (recv_capacity cfg) p)) 65535) = Z.min (recv_capacity cfg) 65535) as Hwin.
  { intros cfg p H1 H2. unfold window_size. cbn. rewrite Z.sub_0_r, u64_small, u16_small; lia. }
  unfold handshake. rewrite (open_connect ccfg ic ic rc) by (done || lia). cbn [mbind res_bind].
  pose proof (open_accept scfg is_ ic rs His Hic Hfs ltac:(lia) ltac:(lia) (syn_of ic)
    eq_refl eq_refl eq_refl eq_refl eq_refl eq_refl) as E1.
  rewrite (deliver_ok (connection_with _ _ _ [syn_of ic]) _ (syn_of ic) [] _ eq_refl E1).
  cbn [mbind res_bind].
  pose proof (open_complete ccfg ic is_ rc Hic His Hfc ltac:(lia) ltac:(lia)
    (stamp ic (recv_capacity scfg) (syn_of is_)) (Z.min (recv_capacity scfg) 65535)
    eq_refl eq_refl eq_refl eq_refl eq_refl eq_refl eq_refl (Hwin scfg ic Hs1 Hs2) ltac:(lia)) as E2.
  rewrite (deliver_ok (connection_with _ _ _ [stamp ic (recv_capacity scfg) (syn_of is_)]) _ _ [] _ eq_refl E2). cbn [mbind res_bind].
  pose proof (open_confirm scfg is_ ic rs His Hic Hfs ltac:(lia) ltac:(lia)
    (stamp is_ (recv_capacity ccfg) (ack_of ic)) (Z.min (recv_capacity ccfg) 65535)
    (conj eq_refl (conj eq_refl eq_refl)) eq_refl eq_refl eq_refl eq_refl (Hwin ccfg is_ Hc1 Hc2) ltac:(lia)) as E3.
  rewrite (deliver_ok (connection_with _ _ _ [stamp is_ (recv_capacity ccfg) (ack_of ic)]) _ _ [] _ eq_refl E3).
  cbn [mbind res_bind]. do 2 eexists. split_and!; try done; by apply state_eqb_eq.
Qed.

Lemma handshake_establishes_witness :
  exists client server, handshake (new (sample_cfg 4294967295) 0) (new (sample_cfg 100) 0) = Ok (client, server)
    /\ state_eqb (TCPConnection.state client) (of_state ESTABLISHED) = true
    /\ state_eqb (TCPConnection.state server) (of_state ESTABLISHED) = true
    /\ TCPConnection.segments_out client = [] /\ TCPConnection.segments_out server = []
    /\ TCPConnection.bytes_in_flight client = 0 /\ TCPConnection.bytes_in_flight server = 0
    /\ window_size_ (sender_ client) = Z.min 8 65535
    /\ window_size_ (sender_ server) = Z.min 8 65535.
Proof.
  apply (handshake_establishes (sample_cfg 4294967295) (sample_cfg 100) (mkWrappingInt32 4294967295)
    (mkWrappingInt32 100) 0 0); first [reflexivity | split; cbn; lia].
Defined.
