(* ===== verification/Address.v ===== *)
(** * Socket addresses (libsponge/util/address.{hh,cc})

    [Address] wraps a [sockaddr_storage].  Name resolution and printing are the
    C library's: [getaddrinfo], [getnameinfo] and [inet_ntoa] are the operations
    of the class [Libc], and [LibcLaws] states what their manual pages say of
    numeric IPv4 addresses.  What the adapters use of an address is the
    interface [AddressOps] with its laws [AddressLaws]; [Address] implements it
    over any C library that satisfies [LibcLaws], and [posix_libc] is one. *)

From Stdlib Require Import ZArith Lia.
From S2P Require Import Prelude Parser.

(** ** Decimal numbers: [std::to_string] and [std::stoi] *)

Definition digit (d : Z) : byte := z2b (48 + d).
Definition isdigit (b : byte) : bool := (48 <=? b2z b) && (b2z b <=? 57).
Definition isspace (b : byte) : bool := (b2z b =? 32) || ((9 <=? b2z b) && (b2z b <=? 13)).

Fixpoint dec_loop (fuel : nat) (n : Z) (acc : list byte) : list byte :=
  match fuel with
  | O => acc
  | S fuel =>
    let acc := digit (n mod 10) :: acc in
    if n / 10 =? 0 then acc else dec_loop fuel (n / 10) acc
  end.

(** Twenty digits are enough for 64 bits. *)
Definition to_string (n : Z) : list byte := dec_loop 20 n [].

Fixpoint digits_val (l : list byte) (acc : Z) : Z :=
  match l with
  | b :: l => if isdigit b then digits_val l (10 * acc + (b2z b - 48)) else acc
  | [] => acc
  end.

Fixpoint skip_while (p : byte -> bool) (l : list byte) : list byte :=
  match l with
  | b :: l' => if p b then skip_while p l' else l
  | [] => []
  end.

Definition stoi (l : list byte) : res Z :=
  let l := skip_while isspace l in
  let '(sign, l) :=
    match l with
    | b :: l' => if b2z b =? 45 then (-1, l') else if b2z b =? 43 then (1, l') else (1, l)
    | [] => (1, l)
    end in
  match l with
  | b :: _ =>
    if isdigit b then
      let v := sign * digits_val l 0 in
      if (- 2147483648 <=? v) && (v <=? 2147483647) then Ok v else Fail OutOfRange
    else Fail InvalidArgument
  | [] => Fail InvalidArgument
  end.

(** ** What the adapters use *)

Class AddressOps (Address : Type) := {
  ipv4_numeric : Address -> res Z;
  port : Address -> res Z;
  make_address : Z -> Z -> res Address;  (** [{inet_ntoa({htobe32(ip)}), p}] *)
  address_eqb : Address -> Address -> bool
}.

Class AddressLaws (Address : Type) `{AddressOps Address} := {
  make_total : forall ip p, 0 <= ip < M32 -> 0 <= p < M16 ->
    exists a, make_address ip p = Ok a /\ ipv4_numeric a = Ok ip /\ port a = Ok p;
  numeric_range : forall a ip, ipv4_numeric a = Ok ip -> 0 <= ip < M32;
  port_range : forall a p, port a = Ok p -> 0 <= p < M16;
  address_refl : forall a, address_eqb a a = true
}.

(** ** The C library *)

Definition AF_INET : Z := 2.
Definition AI_NUMERICHOST : Z := 4.
Definition AI_ALL : Z := 16.
Definition AI_NUMERICSERV : Z := 1024.
Definition NI_NUMERIC : Z := 3.  (** [NI_NUMERICHOST | NI_NUMERICSERV] *)

Record addrinfo : Type := mkHints { ai_flags : Z; ai_family : Z }.

(** [struct sockaddr_in] on a little-endian machine: the family in host
    order, port and address in network order, padding. *)
Definition sockaddr_in (ip p : Z) : list byte :=
  [z2b AF_INET; z2b (AF_INET / 256)] ++ be_bytes 2 p ++ be_bytes 4 ip ++ zreplicate 8 x00.

(** [getaddrinfo] returns its error code and the list of socket addresses,
    [getnameinfo] its error code, the host and the service. *)
Class Libc := {
  getaddrinfo : list byte -> list byte -> addrinfo -> Z * list (list byte);
  getnameinfo : list byte -> Z -> Z * (list byte * list byte);
  inet_ntoa : Z -> list byte
}.

Class LibcLaws `{Libc} := {
  getaddrinfo_numeric : forall ip p, 0 <= ip < M32 -> 0 <= p < M16 ->
    exists more, getaddrinfo (inet_ntoa ip) (to_string p) (mkHints (Z.lor AI_NUMERICHOST AI_NUMERICSERV) AF_INET)
      = (0, sockaddr_in ip p :: more);
  getnameinfo_numeric : forall ip p, 0 <= ip < M32 -> 0 <= p < M16 ->
    getnameinfo (sockaddr_in ip p) NI_NUMERIC = (0, (inet_ntoa ip, to_string p));
  inet_ntoa_nonzero : forall ip, 0 <= ip < M32 -> Forall (fun b => b2z b <> 0) (inet_ntoa ip)
}.

(** ** Address *)

Record Address : Type := mkAddress { _size : Z; _address : list byte }.

(** [sizeof(sockaddr_storage)] *)
Definition storage_size : Z := 128.

Definition of_sockaddr (addr : list byte) : res Address :=
  if storage_size <? zlen addr then Fail RuntimeError else
  storage ← memcpy (zreplicate storage_size x00) 0 addr 0 (zlen addr);
  Ok (mkAddress (zlen addr) storage).

(** [std::string::c_str] as a C function reads it: up to the first NUL. *)
Fixpoint c_str (s : list byte) : list byte :=
  match s with
  | b :: s => if b2z b =? 0 then [] else b :: c_str s
  | [] => []
  end.

Definition make_hints (flags family : Z) : addrinfo := mkHints flags family.

Definition ipv4_numeric_of (a : Address) : res Z :=
  match _address a with
  | f0 :: f1 :: _ =>
    if negb (b2z f0 + 256 * b2z f1 =? AF_INET) || negb (_size a =? 16) then Fail RuntimeError else
    ipv4_addr ← memcpy (zreplicate 16 x00) 0 (_address a) 0 (_size a);
    Ok (be_val (ztake 4 (zdrop 4 ipv4_addr)) 0)
  | _ => Fail MemoryFault
  end.

Definition from_ipv4_numeric (ip : Z) : res Address := of_sockaddr (sockaddr_in ip 0).

Definition eqb (a b : Address) : bool :=
  if negb (_size a =? _size b) then false
  else bool_decide (ztake (_size a) (_address a) = ztake (_size a) (_address b)).

Section address.
Context `{Libc}.

Definition resolve (node service : list byte) (hints : addrinfo) : res Address :=
  let '(gai_ret, resolved_address) := getaddrinfo (c_str node) (c_str service) hints in
  if negb (gai_ret =? 0) then Fail TaggedError else
  match resolved_address with
  | [] => Fail RuntimeError
  | addr :: _ => of_sockaddr addr
  end.

Definition of_hostname (hostname service : list byte) : res Address :=
  resolve hostname service (make_hints AI_ALL AF_INET).

Definition of_ip_port (ip : list byte) (p : Z) : res Address :=
  resolve ip (to_string p) (make_hints (Z.lor AI_NUMERICHOST AI_NUMERICSERV) AF_INET).

Definition ip_port (a : Address) : res (list byte * Z) :=
  let '(gni_ret, (ip, port)) := getnameinfo (ztake (_size a) (_address a)) NI_NUMERIC in
  if negb (gni_ret =? 0) then Fail TaggedError else
  p ← stoi port; Ok (ip, u16 p).

Definition ip_of (a : Address) : res (list byte) := '(ip, _) ← ip_port a; Ok ip.
Definition port_of (a : Address) : res Z := '(_, p) ← ip_port a; Ok p.

Definition address_to_string (a : Address) : res (list byte) :=
  '(ip, p) ← ip_port a; Ok (ip ++ [z2b 58] ++ to_string p).

#[export] Instance address_ops : AddressOps Address := {
  ipv4_numeric := ipv4_numeric_of;
  port := port_of;
  make_address ip p := of_ip_port (inet_ntoa ip) p;
  address_eqb := eqb
}.
End address.

(** ** Lemmas *)

Lemma b2z_digit d : 0 <= d < 10 -> b2z (digit d) = 48 + d.
Proof. intros. unfold digit. rewrite b2z_z2b, u8_small; lia. Qed.

Lemma isdigit_digit d : 0 <= d < 10 -> isdigit (digit d) = true.
Proof. intros Hd. unfold isdigit. rewrite b2z_digit by done. apply andb_true_intro. split; apply Z.leb_le; lia. Qed.

(** Reading the digits back, whatever follows them. *)
Lemma digits_val_dec fuel : forall n acc,
  0 <= n < 10 ^ Z.of_nat fuel -> digits_val (dec_loop fuel n acc) 0 = digits_val acc n.
Proof.
  induction fuel as [|fuel IH]; intros n acc Hn; cbn [dec_loop]; [by replace n with 0 by (cbn in Hn; lia)|].
  rewrite Nat2Z.inj_succ, Z.pow_succ_r in Hn by lia.
  pose proof (Z.mod_pos_bound n 10 ltac:(lia)). pose proof (Z.div_mod n 10 ltac:(lia)).
  assert (forall m, 10 * m + n mod 10 = n -> digits_val (digit (n mod 10) :: acc) m = digits_val acc n) as Hd.
  { intros m Hm. cbn [digits_val]. rewrite isdigit_digit, b2z_digit by done. f_equal. lia. }
  destruct (Z.eqb_spec (n / 10) 0) as [E|E]; [apply Hd; lia|].
  rewrite IH by (split; [apply Z.div_pos|apply Z.div_lt_upper_bound]; lia). apply Hd. lia.
Qed.

Lemma skip_digits_dec fuel : forall n acc, 0 <= n -> skip_while isdigit (dec_loop fuel n acc) = skip_while isdigit acc.
Proof.
  induction fuel as [|fuel IH]; intros n acc Hn; cbn [dec_loop]; [done|].
  assert (skip_while isdigit (digit (n mod 10) :: acc) = skip_while isdigit acc) as Hd.
  { cbn [skip_while]. rewrite isdigit_digit; [done|]. apply Z.mod_pos_bound. lia. }
  case_match; [done|]. rewrite IH by (apply Z.div_pos; lia). done.
Qed.

(** The digits are digits, and there is at least one. *)
Lemma dec_digits fuel : forall n acc, 0 <= n -> Forall (fun b => isdigit b = true) acc ->
  Forall (fun b => isdigit b = true) (dec_loop fuel n acc).
Proof.
  induction fuel as [|fuel IH]; intros n acc Hn Ha; cbn [dec_loop]; [done|].
  assert (Forall (fun b => isdigit b = true) (digit (n mod 10) :: acc)).
  { constructor; [|done]. apply isdigit_digit, Z.mod_pos_bound. lia. }
  case_match; [done|]. apply IH; [apply Z.div_pos; lia|done].
Qed.

Lemma dec_nonempty fuel : forall n acc, acc <> [] -> dec_loop fuel n acc <> [].
Proof. induction fuel as [|fuel IH]; intros n acc Ha; cbn [dec_loop]; [done|]. case_match; [done|by apply IH]. Qed.

Lemma to_string_digits n : 0 <= n -> exists b l, to_string n = b :: l /\ Forall (fun b => isdigit b = true) (b :: l).
Proof.
  intros Hn. pose proof (dec_digits 20 n [] Hn ltac:(done)) as HF. unfold to_string in *.
  assert (dec_loop 20 n [] <> []) as Hne.
  { cbn [dec_loop]. case_match; [done|]. by apply (dec_nonempty 19). }
  destruct (dec_loop 20 n []) as [|b l]; [done|]. eauto.
Qed.

Lemma isdigit_range b : isdigit b = true <-> 48 <= b2z b <= 57.
Proof. unfold isdigit. rewrite andb_true_iff, !Z.leb_le. done. Qed.

(** [stoi] inverts [to_string]. *)
Lemma stoi_to_string n : 0 <= n <= 2147483647 -> stoi (to_string n) = Ok n.
Proof.
  intros Hn. destruct (to_string_digits n ltac:(lia)) as (b & l & E & HF).
  pose proof (digits_val_dec 20 n [] ltac:(split; [lia|]; apply Z.le_lt_trans with 2147483647; [lia|done])) as HV.
  fold (to_string n) in HV. cbn [digits_val] in HV. unfold stoi. rewrite E in *.
  apply Forall_cons in HF as [Hb _]. pose proof (proj1 (isdigit_range b) Hb) as Hr.
  assert (isspace b = false) as Hsp.
  { unfold isspace. apply orb_false_iff. split; [apply Z.eqb_neq; lia|].
    apply andb_false_iff. right. apply Z.leb_gt. lia. }
  cbn [skip_while]. rewrite Hsp, (proj2 (Z.eqb_neq _ 45)), (proj2 (Z.eqb_neq _ 43)) by lia.
  rewrite Hb, HV. by rewrite Z.mul_1_l, !(proj2 (Z.leb_le _ _)) by lia.
Qed.

Lemma c_str_id s : Forall (fun b => b2z b <> 0) s -> c_str s = s.
Proof. induction 1 as [|b s Hb Hs IH]; cbn [c_str]; [done|]. by rewrite (proj2 (Z.eqb_neq _ _) Hb), IH. Qed.

Lemma c_str_to_string n : 0 <= n -> c_str (to_string n) = to_string n.
Proof.
  intros Hn. destruct (to_string_digits n Hn) as (b & l & -> & HF). apply c_str_id.
  eapply Forall_impl; [exact HF|]. intros c Hc%isdigit_range. lia.
Qed.

Lemma zlen_sockaddr_in ip p : zlen (sockaddr_in ip p) = 16.
Proof. unfold sockaddr_in. rewrite !zlen_app, !zlen_be_bytes. done. Qed.

Lemma of_sockaddr_in ip p :
  of_sockaddr (sockaddr_in ip p) = Ok (mkAddress 16 (sockaddr_in ip p ++ zreplicate 112 x00)).
Proof. reflexivity. Qed.

Lemma ipv4_numeric_sockaddr ip p :
  0 <= ip < M32 -> ipv4_numeric_of (mkAddress 16 (sockaddr_in ip p ++ zreplicate 112 x00)) = Ok ip.
Proof.
  intros Hi. transitivity (Ok (be_val (be_bytes 4 ip) 0)); [reflexivity|].
  rewrite be_val_bytes by lia. f_equal. apply Z.mod_small. done.
Qed.

(** The conversions between addresses and numbers are inverse. *)
Lemma from_ipv4_numeric_roundtrip ip :
  0 <= ip < M32 -> exists a, from_ipv4_numeric ip = Ok a /\ ipv4_numeric_of a = Ok ip.
Proof. intros Hi. eexists. split; [apply of_sockaddr_in|by apply ipv4_numeric_sockaddr]. Qed.

Section laws.
Context `{LibcLaws}.

Lemma of_ip_port_spec ip p :
  0 <= ip < M32 -> 0 <= p < M16 ->
  of_ip_port (inet_ntoa ip) p = Ok (mkAddress 16 (sockaddr_in ip p ++ zreplicate 112 x00)).
Proof.
  intros Hi Hp. unfold of_ip_port, resolve, make_hints.
  rewrite (c_str_id (inet_ntoa ip)) by (by apply inet_ntoa_nonzero). rewrite c_str_to_string by lia.
  destruct (getaddrinfo_numeric ip p Hi Hp) as [more ->]. apply of_sockaddr_in.
Qed.

Lemma ip_port_spec ip p :
  0 <= ip < M32 -> 0 <= p < M16 ->
  ip_port (mkAddress 16 (sockaddr_in ip p ++ zreplicate 112 x00)) = Ok (inet_ntoa ip, p).
Proof.
  intros Hi Hp. unfold ip_port. cbn [_size _address].
  rewrite ztake_app_exact by apply zlen_sockaddr_in.
  rewrite getnameinfo_numeric by done. cbn [Z.eqb negb]. rewrite stoi_to_string by lia. cbn. by rewrite u16_small.
Qed.

Lemma port_of_spec ip p :
  0 <= ip < M32 -> 0 <= p < M16 -> port_of (mkAddress 16 (sockaddr_in ip p ++ zreplicate 112 x00)) = Ok p.
Proof. intros Hi Hp. unfold port_of. by rewrite ip_port_spec. Qed.

#[export] Instance address_laws : AddressLaws Address.
Proof.
  split; cbn [ipv4_numeric port make_address address_eqb address_ops].
  - intros ip p Hi Hp. eexists. split_and!; [by apply of_ip_port_spec|by apply ipv4_numeric_sockaddr|by apply port_of_spec].
  - intros [s [|f0 [|f1 m]]] ip; cbn [ipv4_numeric_of _address _size]; try discriminate.
    case_match; [discriminate|]. intros (mem & _ & [= <-])%bind_Ok.
    pose proof (be_val_range (ztake 4 (zdrop 4 mem))) as Hr. split; [lia|].
    eapply Z.lt_le_trans; [apply Hr|]. change M32 with (256 ^ 4). apply Z.pow_le_mono_r; [lia|].
    rewrite zlen_ztake by lia. lia.
  - intros a p. unfold port_of, ip_port. destruct (getnameinfo _ _) as [r [i q]]. case_match; [discriminate|].
    intros ([x y] & (z & _ & [= <- <-])%bind_Ok & [= <-])%bind_Ok. apply u16_range.
  - intros a. unfold eqb. rewrite Z.eqb_refl. by apply bool_decide_eq_true_2.
Qed.
End laws.

(** ** A C library for numeric IPv4 addresses *)

Definition dot : byte := z2b 46.

(** The dotted quad, and reading it. *)
Definition dotted_quad (ip : Z) : list byte :=
  dec_loop 20 (ip / 16777216 mod 256) (dot :: dec_loop 20 (ip / 65536 mod 256)
    (dot :: dec_loop 20 (ip / 256 mod 256) (dot :: dec_loop 20 (ip mod 256) []))).

Fixpoint quad_val (k : nat) (l : list byte) (acc : Z) : Z :=
  match k with
  | O => acc
  | S k => quad_val k (drop 1 (skip_while isdigit l)) (256 * acc + digits_val l 0)
  end.

#[export] Instance posix_libc : Libc := {
  getaddrinfo node service hints := (0, [sockaddr_in (quad_val 4 node 0) (digits_val service 0)]);
  getnameinfo addr flags :=
    (0, (dotted_quad (be_val (ztake 4 (zdrop 4 addr)) 0), to_string (be_val (ztake 2 (zdrop 2 addr)) 0)));
  inet_ntoa := dotted_quad
}.

Lemma quad_val_step k n acc a :
  0 <= n < 256 -> quad_val (S k) (dec_loop 20 n (dot :: acc)) a = quad_val k acc (256 * a + n).
Proof.
  intros Hn. cbn [quad_val]. rewrite skip_digits_dec by lia.
  rewrite digits_val_dec by (split; [lia|]; apply Z.lt_trans with 256; [lia|done]). done.
Qed.

Lemma quad_val_quad ip : 0 <= ip < M32 -> quad_val 4 (dotted_quad ip) 0 = ip.
Proof.
  intros Hi. pose proof (fun x => Z.mod_pos_bound x 256 ltac:(lia)) as Hm.
  unfold dotted_quad. rewrite !quad_val_step by apply Hm. cbn [quad_val].
  rewrite digits_val_dec by (split; [apply Hm|]; apply Z.lt_trans with 256; [apply Hm|done]).
  cbn [digits_val]. Z.to_euclidean_division_equations. lia.
Qed.

Lemma dec_nonzero fuel : forall n acc, 0 <= n -> Forall (fun b => b2z b <> 0) acc ->
  Forall (fun b => b2z b <> 0) (dec_loop fuel n acc).
Proof.
  induction fuel as [|fuel IH]; intros n acc Hn Ha; cbn [dec_loop]; [done|].
  assert (Forall (fun b => b2z b <> 0) (digit (n mod 10) :: acc)).
  { constructor; [|done]. rewrite b2z_digit by (apply Z.mod_pos_bound; lia).
    pose proof (Z.mod_pos_bound n 10 ltac:(lia)). lia. }
  case_match; [done|]. apply IH; [apply Z.div_pos; lia|done].
Qed.

#[export] Instance posix_libc_laws : LibcLaws.
Proof.
  split; cbn [getaddrinfo getnameinfo inet_ntoa posix_libc].
  - intros ip p Hi Hp. exists []. rewrite quad_val_quad by done.
    unfold to_string. rewrite digits_val_dec; [done|]. split; [lia|]. apply Z.lt_trans with M16; [lia|done].
  - intros ip p Hi Hp. change (zdrop 2 (sockaddr_in ip p)) with (be_bytes 2 p ++ be_bytes 4 ip ++ zreplicate 8 x00).
    change (zdrop 4 (sockaddr_in ip p)) with (be_bytes 4 ip ++ zreplicate 8 x00).
    rewrite !ztake_app_exact by apply zlen_be_bytes. rewrite !be_val_bytes by lia.
    change (256 ^ Z.of_nat 4) with M32. change (256 ^ Z.of_nat 2) with M16. by rewrite !Z.mod_small.
  - intros ip Hi. unfold dotted_quad.
    pose proof (fun x => proj1 (Z.mod_pos_bound x 256 ltac:(lia))) as Hm.
    repeat first [apply dec_nonzero; [apply Hm|] | constructor; [by vm_compute|] | constructor].
Qed.
