(* ===== verification/TCPOverIP.v ===== *)
(** * Carrying segments in datagrams (libsponge/tcp_helpers/tcp_over_ip.{hh,cc},
    fd_adapter.{hh,cc}, lossy_fd_adapter.hh, the TUN adapter of tuntap_adapter.hh)

    The adapters translate between segments and what a device or socket
    carries.  Their common interface is the class [Adapter]; [LossyFdAdapter]
    is an instance built on any other, as the template is.  Socket addresses
    come in through the interface [AddressOps] of Address.v. *)

From Stdlib Require Import ZArith Lia.
From S2P Require Import Prelude WrappingIntegers Buffer Parser Checksum TCPHeader TCPSegment IPv4Header IPv4Datagram Address.

(** [FdAdapterConfig] and [FdAdapterBase] *)
Record FdAdapterBase (Address : Type) : Type := mkFdAdapterBase {
  source : Address;
  destination : Address;
  loss_rate_dn : Z;
  loss_rate_up : Z;
  _listen : bool
}.
Arguments mkFdAdapterBase {Address}.
Arguments source {Address}.
Arguments destination {Address}.
Arguments loss_rate_dn {Address}.
Arguments loss_rate_up {Address}.
Arguments _listen {Address}.

Section adapters.
Context {Address : Type} `{AddressOps Address}.

Definition listening (b : FdAdapterBase Address) : bool := _listen b.
Definition set_listening (l : bool) (b : FdAdapterBase Address) : FdAdapterBase Address :=
  mkFdAdapterBase (source b) (destination b) (loss_rate_dn b) (loss_rate_up b) l.

(** [config_mut() = c]: the configuration of [c], the listening flag of [b]. *)
Definition set_config (c b : FdAdapterBase Address) : FdAdapterBase Address :=
  mkFdAdapterBase (source c) (destination c) (loss_rate_dn c) (loss_rate_up c) (_listen b).

(** ** TCP in IPv4 *)

(** [not listening() and (x != a.ipv4_numeric())] *)
Definition wrong_address (b : FdAdapterBase Address) (x : Z) (a : Address) : res bool :=
  if listening b then Ok false else ip ← ipv4_numeric a; Ok (negb (x =? ip)).

Definition unwrap_tcp_in_ip (b : FdAdapterBase Address) (ip_dgram : IPv4Datagram)
    : res (option TCPSegment * FdAdapterBase Address) :=
  let h := IPv4Datagram.header ip_dgram in
  not_for_us ← wrong_address b (dst h) (source b);
  if not_for_us : bool then Ok (None, b) else
  not_from_peer ← wrong_address b (src h) (destination b);
  if not_from_peer : bool then Ok (None, b) else
  if negb (proto h =? PROTO_TCP) then Ok (None, b) else
  buf ← to_buffer (IPv4Datagram.payload ip_dgram);
  '(r, tcp_seg) ← TCPSegment.parse tcp_segment_default buf (pseudo_cksum h);
  if negb (bool_decide (r = NoError)) then Ok (None, b) else
  let th := TCPSegment.header tcp_seg in
  our_port ← port (source b);
  if negb (dport th =? our_port) then Ok (None, b) else
  if listening b && negb (syn th && negb (rst th)) then Ok (None, b) else
  b ← (if listening b then
         new_source ← make_address (dst h) our_port;
         new_destination ← make_address (src h) (sport th);
         Ok (mkFdAdapterBase new_source new_destination (loss_rate_dn b) (loss_rate_up b) false)
       else Ok b);
  peer_port ← port (destination b);
  if negb (sport th =? peer_port) then Ok (None, b) else
  Ok (Some tcp_seg, b).

(** [seg.header().sport = ...; seg.header().dport = ...]: the segment is
    passed by reference and keeps the ports. *)
Definition with_ports (sp dp : Z) (seg : TCPSegment) : TCPSegment :=
  set_header (set_dport dp (set_sport sp (TCPSegment.header seg))) seg.

Definition wrap_tcp_in_ip (b : FdAdapterBase Address) (seg : TCPSegment) : res (IPv4Datagram * TCPSegment) :=
  sp ← port (source b);
  dp ← port (destination b);
  let seg := with_ports sp dp seg in
  let h := ipv4_header_default in
  s ← ipv4_numeric (source b);
  d ← ipv4_numeric (destination b);
  let h := set_dst d (set_src s h) in
  let h := set_len (u16 (hlen h * 4 + doff (TCPSegment.header seg) * 4 + size (TCPSegment.payload seg))) h in
  payload ← TCPSegment.serialize seg (pseudo_cksum h);
  Ok (mkIPv4Datagram h payload, seg).

(** ** The adapter interface *)

(** [read] is given what the device delivers, [write] returns what goes out;
    [set_listening] and assignments to [config_mut()] are updates of the base. *)
Class Adapter (A In Out : Type) := {
  adapter_read : In -> A -> res (option TCPSegment * A);
  adapter_write : TCPSegment -> A -> res (Out * TCPSegment * A);
  adapter_config : A -> FdAdapterBase Address;
  adapter_update : (FdAdapterBase Address -> FdAdapterBase Address) -> A -> A;
  adapter_tick : Z -> A -> A
}.

(** [TCPOverIPv4OverTunFdAdapter]: the TUN device carries raw datagrams. *)
Definition tun_read (raw : list byte) (b : FdAdapterBase Address)
    : res (option TCPSegment * FdAdapterBase Address) :=
  '(r, ip_dgram) ← IPv4Datagram.parse ipv4_datagram_default (of_string raw);
  if negb (bool_decide (r = NoError)) then Ok (None, b) else unwrap_tcp_in_ip b ip_dgram.

Definition tun_write (seg : TCPSegment) (b : FdAdapterBase Address)
    : res (list byte * TCPSegment * FdAdapterBase Address) :=
  '(d, seg) ← wrap_tcp_in_ip b seg;
  bl ← IPv4Datagram.serialize d;
  Ok (concatenate bl, seg, b).

#[export] Instance tun_adapter : Adapter (FdAdapterBase Address) (list byte) (list byte) := {
  adapter_read := tun_read;
  adapter_write := tun_write;
  adapter_config b := b;
  adapter_update f b := f b;
  adapter_tick _ b := b
}.

(** [TCPOverUDPSocketAdapter]: the socket delivers a source address and a
    payload. *)
Definition udp_read (datagram : Address * list byte) (b : FdAdapterBase Address)
    : res (option TCPSegment * FdAdapterBase Address) :=
  let '(source_address, payload) := datagram in
  if negb (listening b) && negb (address_eqb source_address (destination b)) then Ok (None, b) else
  '(r, seg) ← TCPSegment.parse tcp_segment_default (of_string payload) 0;
  if negb (bool_decide (r = NoError)) then Ok (None, b) else
  if listening b then
    if syn (TCPSegment.header seg) && negb (rst (TCPSegment.header seg))
    then Ok (Some seg, mkFdAdapterBase (source b) source_address (loss_rate_dn b) (loss_rate_up b) false)
    else Ok (None, b)
  else Ok (Some seg, b).

Definition udp_write (seg : TCPSegment) (b : FdAdapterBase Address)
    : res ((Address * list byte) * TCPSegment * FdAdapterBase Address) :=
  sp ← port (source b);
  dp ← port (destination b);
  let seg := with_ports sp dp seg in
  bl ← TCPSegment.serialize seg 0;
  Ok ((destination b, concatenate bl), seg, b).

(** A wrapper type keeps the two adapters apart. *)
Record udp_base : Type := mkUdp { udp_cfg : FdAdapterBase Address }.

#[export] Instance udp_adapter : Adapter udp_base (Address * list byte) (Address * list byte) := {
  adapter_read d b := '(o, c) ← udp_read d (udp_cfg b); Ok (o, mkUdp c);
  adapter_write seg b := '(out, seg, c) ← udp_write seg (udp_cfg b); Ok (out, seg, mkUdp c);
  adapter_config := udp_cfg;
  adapter_update f b := mkUdp (f (udp_cfg b));
  adapter_tick _ b := b
}.

(** [LossyFdAdapter<AdapterT>]: [rnd] is the number the generator returns. *)
Definition _should_drop (cfg : FdAdapterBase Address) (uplink : bool) (rnd : Z) : bool :=
  let loss := if uplink then loss_rate_up cfg else loss_rate_dn cfg in
  negb (loss =? 0) && (u16 rnd <? loss).

(** [_rand] lists the numbers the generator will return. *)
Record LossyFdAdapter (A : Type) : Type := mkLossy { _adapter : A; _rand : nat -> Z }.
Arguments mkLossy {A}.
Arguments _adapter {A}.
Arguments _rand {A}.

(** The generator is only called when the loss rate is not 0. *)
Definition should_drop {A} (cfg : FdAdapterBase Address) (uplink : bool) (l : LossyFdAdapter A)
    : bool * LossyFdAdapter A :=
  let loss := if uplink then loss_rate_up cfg else loss_rate_dn cfg in
  if loss =? 0 then (false, l) else
  (_should_drop cfg uplink (_rand l 0%nat), mkLossy (_adapter l) (fun n => _rand l (S n))).

#[export] Instance lossy_adapter {A In Out} `{Adapter A In Out} : Adapter (LossyFdAdapter A) In (option Out) := {
  adapter_read raw l :=
    '(ret, a) ← adapter_read raw (_adapter l);
    let '(drop, l) := should_drop (adapter_config a) false (mkLossy a (_rand l)) in
    Ok (if drop then None else ret, l);
  adapter_write seg l :=
    let '(drop, l) := should_drop (adapter_config (_adapter l)) true l in
    if drop : bool then Ok (None, seg, l) else
    '(out, seg, a) ← adapter_write seg (_adapter l);
    Ok (Some out, seg, mkLossy a (_rand l));
  adapter_config l := adapter_config (_adapter l);
  adapter_update f l := mkLossy (adapter_update f (_adapter l)) (_rand l);
  adapter_tick ms l := mkLossy (adapter_tick ms (_adapter l)) (_rand l)
}.

(** ** Lemmas *)

Context `{!AddressLaws Address}.

(** A segment that fits a datagram. *)
Record sendable (seg : TCPSegment) : Prop := {
  se_header : TCPHeader.header_ok (TCPSegment.header seg);
  se_doff : 5 <= doff (TCPSegment.header seg) < 16;
  se_payload : buffer_wf (TCPSegment.payload seg);
  se_size : 20 + 4 * doff (TCPSegment.header seg) + zlen (str (TCPSegment.payload seg)) < M16
}.

(** The header of the datagram. *)
Definition dgram_header (sip dip : Z) (seg : TCPSegment) : IPv4Header :=
  set_len (20 + 4 * doff (TCPSegment.header seg) + zlen (str (TCPSegment.payload seg)))
    (set_dst dip (set_src sip ipv4_header_default)).

Lemma dgram_header_ok sip dip seg :
  sendable seg -> 0 <= sip < M32 -> 0 <= dip < M32 -> IPv4Header.header_ok (dgram_header sip dip seg).
Proof using Type.
  intros [_ Hd _ Hs] ? ?. pose proof (zlen_nonneg (str (TCPSegment.payload seg))).
  split; try (by split); cbn; lia.
Qed.

(** An adapter whose addresses are IPv4 addresses [sip] and [dip] with ports
    [sp] and [dp]. *)
Record connects (b : FdAdapterBase Address) (sip sp dip dp : Z) : Prop := {
  co_sip : ipv4_numeric (source b) = Ok sip;
  co_sp : port (source b) = Ok sp;
  co_dip : ipv4_numeric (destination b) = Ok dip;
  co_dp : port (destination b) = Ok dp
}.

(** The segment leaves with the ports and fits its checksum. *)
Lemma with_ports_ok seg sp dp ih :
  sendable seg -> 0 <= sp < M16 -> 0 <= dp < M16 -> 0 <= pseudo_cksum ih < 400000 ->
  segment_ok (with_ports sp dp seg) (pseudo_cksum ih).
Proof using Type.
  intros [Hh Hdo Hb Hsz] ? ? Hpc. pose proof (zlen_nonneg (str (TCPSegment.payload seg))).
  split; [|done|done|lia|]; cbn [with_ports set_header TCPSegment._header TCPSegment._payload set_dport set_sport doff].
  - destruct Hh. by split.
  - unfold TCPSegment.header, TCPSegment.payload in *. lia.
Qed.

Lemma dgram_len seg sp dp sip dip :
  sendable seg ->
  let h := set_dst dip (set_src sip ipv4_header_default) in
  set_len (u16 (hlen h * 4 + doff (TCPSegment.header (with_ports sp dp seg)) * 4
    + size (TCPSegment.payload (with_ports sp dp seg)))) h = dgram_header sip dip seg.
Proof using Type.
  intros [_ Hdo _ Hsz] h. pose proof (zlen_nonneg (str (TCPSegment.payload seg))).
  unfold dgram_header, h, size. f_equal. change (hlen _) with 5.
  change (doff (TCPSegment.header (with_ports sp dp seg))) with (doff (TCPSegment.header seg)).
  change (TCPSegment.payload (with_ports sp dp seg)) with (TCPSegment.payload seg). rewrite u16_small; lia.
Qed.

(** What [tun_write] puts on the wire, and what a parser finds there. *)
Lemma tun_write_spec a seg sip sp dip dp :
  sendable seg -> connects a sip sp dip dp ->
  exists raw ick tck b pb, tun_write seg a = Ok (raw, with_ports sp dp seg, a)
    /\ IPv4Datagram.parse ipv4_datagram_default (of_string raw)
       = Ok (NoError, mkIPv4Datagram (IPv4Header.set_cksum ick (dgram_header sip dip seg)) [b])
    /\ TCPSegment.parse tcp_segment_default b (pseudo_cksum (dgram_header sip dip seg))
       = Ok (NoError, mkTCPSegment (TCPHeader.set_cksum tck (TCPSegment.header (with_ports sp dp seg))) pb)
    /\ str pb = str (TCPSegment.payload seg).
Proof using All.
  intros Hse [Hs Hsp Hd Hdp]. destruct (Hse) as [_ _ _ Hsz].
  pose proof (numeric_range _ _ Hs). pose proof (numeric_range _ _ Hd).
  pose proof (port_range _ _ Hsp). pose proof (port_range _ _ Hdp).
  pose proof (zlen_nonneg (str (TCPSegment.payload seg))).
  pose proof (dgram_header_ok sip dip seg Hse ltac:(done) ltac:(done)) as Hih.
  pose proof (dgram_len seg sp dp sip dip Hse) as Hlen. cbn zeta in Hlen.
  set (ih := dgram_header sip dip seg) in *.
  assert (0 <= pseudo_cksum ih < 400000) as Hpc by (apply pseudo_cksum_range; [done|done|cbn; unfold PROTO_TCP; lia]).
  pose proof (with_ports_ok seg sp dp ih Hse ltac:(done) ltac:(done) Hpc) as Hok.
  destruct (segment_roundtrip _ _ Hok) as (bl & tck & Hser & Hwfl & Hbl & Hparse).
  assert (datagram_ok (mkIPv4Datagram ih bl)) as Hdg.
  { split; [done|done|]. cbn [IPv4Datagram._header IPv4Datagram._payload]. rewrite Hbl.
    change (hlen ih) with 5. cbn. unfold TCPSegment.header, TCPSegment.payload. lia. }
  destruct (datagram_roundtrip _ ipv4_datagram_default Hdg) as (dl & ick & b & Hds & _ & Hdp' & _ & Hbw & Hbs).
  destruct (Hparse tcp_segment_default b Hbw Hbs) as (pb & HP & _ & Hpb).
  exists (concatenate dl), ick, tck, b, pb. split_and!; [|exact Hdp'|exact HP|exact Hpb].
  unfold tun_write, wrap_tcp_in_ip. rewrite Hsp, Hdp. cbn [mbind res_bind]. rewrite Hs, Hd. cbn [mbind res_bind].
  rewrite Hlen, Hser. cbn [mbind res_bind]. by rewrite Hds.
Qed.

(** What [unwrap_tcp_in_ip] checks of a datagram when a connection is open. *)
Record for_connection (b : FdAdapterBase Address) (d : IPv4Datagram) (seg : TCPSegment) : Prop := {
  fc_connects : connects b (dst (IPv4Datagram.header d)) (dport (TCPSegment.header seg))
    (src (IPv4Datagram.header d)) (sport (TCPSegment.header seg));
  fc_proto : proto (IPv4Datagram.header d) = PROTO_TCP;
  fc_parse : exists buf, to_buffer (IPv4Datagram.payload d) = Ok buf
    /\ TCPSegment.parse tcp_segment_default buf (pseudo_cksum (IPv4Datagram.header d)) = Ok (NoError, seg)
}.

Lemma wrong_address_false b x a :
  listening b = false -> wrong_address b x a = Ok false <-> ipv4_numeric a = Ok x.
Proof using Type.
  intros Hl. unfold wrong_address. rewrite Hl. destruct (ipv4_numeric a) as [ip|e]; cbn; [|split; discriminate].
  destruct (Z.eqb_spec x ip) as [->|Hne]; cbn; split; congruence.
Qed.

(** On an open connection the adapter accepts exactly the segments of that
    connection. *)
Lemma unwrap_established b d seg b' :
  listening b = false -> unwrap_tcp_in_ip b d = Ok (Some seg, b') <-> b' = b /\ for_connection b d seg.
Proof using Type.
  intros Hl. unfold unwrap_tcp_in_ip. split.
  - intros (n1 & W1 & E)%bind_Ok. destruct n1; [discriminate|]. apply wrong_address_false in W1; [|done].
    apply bind_Ok in E as (n2 & W2 & E). destruct n2; [discriminate|]. apply wrong_address_false in W2; [|done].
    destruct (Z.eqb_spec (proto (IPv4Datagram.header d)) PROTO_TCP) as [Hp|]; cbn [negb] in E; [|discriminate].
    apply bind_Ok in E as (buf & Hb & E). apply bind_Ok in E as ([r s] & HP & E).
    destruct (bool_decide_reflect (r = NoError)) as [->|]; cbn [negb] in E; [|discriminate].
    apply bind_Ok in E as (sp & Hsp & E).
    destruct (Z.eqb_spec (dport (TCPSegment.header s)) sp) as [<-|]; cbn [negb] in E; [|discriminate].
    rewrite Hl in E. cbn [andb mbind res_bind] in E. apply bind_Ok in E as (dp & Hdp & E).
    destruct (Z.eqb_spec (sport (TCPSegment.header s)) dp) as [<-|]; cbn [negb] in E; [|discriminate].
    injection E as <- <-. split; [done|]. split; [by split|done|by exists buf].
  - intros [-> [[H1 H2 H3 H4] Hp (buf & Hb & HP)]].
    rewrite (proj2 (wrong_address_false b _ _ Hl) H1), (proj2 (wrong_address_false b _ _ Hl) H3).
    cbn [mbind res_bind]. rewrite Hp, Z.eqb_refl. cbn [negb]. rewrite Hb. cbn [mbind res_bind]. rewrite HP.
    cbn [mbind res_bind]. rewrite bool_decide_eq_true_2 by done. cbn [negb].
    rewrite H2. cbn [mbind res_bind]. rewrite Z.eqb_refl, Hl. cbn [negb andb mbind res_bind].
    rewrite H4. cbn [mbind res_bind]. by rewrite Z.eqb_refl.
Qed.

(** A listening adapter takes a SYN without RST and records its sender. *)
Lemma unwrap_listening b d buf seg :
  listening b = true -> proto (IPv4Datagram.header d) = PROTO_TCP ->
  0 <= src (IPv4Datagram.header d) < M32 -> 0 <= dst (IPv4Datagram.header d) < M32 ->
  0 <= sport (TCPSegment.header seg) < M16 ->
  to_buffer (IPv4Datagram.payload d) = Ok buf ->
  TCPSegment.parse tcp_segment_default buf (pseudo_cksum (IPv4Datagram.header d)) = Ok (NoError, seg) ->
  port (source b) = Ok (dport (TCPSegment.header seg)) ->
  if syn (TCPSegment.header seg) && negb (rst (TCPSegment.header seg))
  then exists b', unwrap_tcp_in_ip b d = Ok (Some seg, b') /\ listening b' = false
    /\ connects b' (dst (IPv4Datagram.header d)) (dport (TCPSegment.header seg))
         (src (IPv4Datagram.header d)) (sport (TCPSegment.header seg))
  else unwrap_tcp_in_ip b d = Ok (None, b).
Proof using All.
  intros Hl Hp Hs Hd Hsp Hb HP Hdp. pose proof (port_range _ _ Hdp) as Hr.
  unfold unwrap_tcp_in_ip, wrong_address. rewrite Hl. cbn [mbind res_bind].
  rewrite Hp, Z.eqb_refl. cbn [negb]. rewrite Hb. cbn [mbind res_bind]. rewrite HP. cbn [mbind res_bind].
  rewrite bool_decide_eq_true_2 by done. cbn [negb]. rewrite Hdp. cbn [mbind res_bind].
  rewrite Z.eqb_refl. cbn [negb andb].
  destruct (syn _ && negb _) eqn:E; cbn [negb]; [|done].
  destruct (make_total _ _ Hd Hr) as (ns & Hn1 & Hn2 & Hn3). rewrite Hn1. cbn [mbind res_bind].
  destruct (make_total _ _ Hs Hsp) as (nd & Hm1 & Hm2 & Hm3). rewrite Hm1. cbn [mbind res_bind destination].
  rewrite Hm3. cbn [mbind res_bind]. rewrite Z.eqb_refl. eexists. split_and!; [done|done|by split].
Qed.

(** ** Theorems *)

(** C35: a segment that one TUN adapter writes is delivered by the adapter at
    the other end with the same header, apart from the ports the writer fills
    in and the checksum, and the same payload.  An adapter with an open
    connection between the two addresses keeps its state.  A listening adapter
    takes the segment only when it has SYN and no RST, then stops listening and
    records the writer as its peer; anything else it drops, still listening. *)
Theorem tun_roundtrip a b seg sip sp dip dp :
  sendable seg -> connects a sip sp dip dp ->
  exists raw tck pb, let got := mkTCPSegment (TCPHeader.set_cksum tck (TCPSegment.header (with_ports sp dp seg))) pb in
    adapter_write seg a = Ok (raw, with_ports sp dp seg, a) /\ str pb = str (TCPSegment.payload seg)
    /\ (listening b = false -> connects b dip dp sip sp -> adapter_read raw b = Ok (Some got, b))
    /\ (listening b = true -> port (source b) = Ok dp ->
          if syn (TCPSegment.header seg) && negb (rst (TCPSegment.header seg))
          then exists b', adapter_read raw b = Ok (Some got, b') /\ listening b' = false /\ connects b' dip dp sip sp
          else adapter_read raw b = Ok (None, b)).
Proof using All.
  intros Hse Hc. destruct (tun_write_spec a seg sip sp dip dp Hse Hc) as (raw & ick & tck & buf & pb & HW & HD & HP & Hpb).
  destruct Hc as [Hs Hsp Hd Hdp]. pose proof (numeric_range _ _ Hs). pose proof (numeric_range _ _ Hd).
  exists raw, tck, pb. cbn zeta. split_and!; [exact HW|exact Hpb|..]; cbn [adapter_read tun_adapter]; unfold tun_read;
    rewrite HD; cbn [mbind res_bind]; rewrite bool_decide_eq_true_2 by done; cbn [negb].
  - intros Hl Hcb. apply unwrap_established; [done|]. split; [done|]. split; [done|done|by exists buf].
  - intros Hl Hpo. set (dg := mkIPv4Datagram _ _).
    pose proof (port_range _ _ Hsp). match type of HP with _ = Ok (_, ?s) => apply (unwrap_listening b dg buf s Hl); done end.
Qed.

(** With an open connection the TUN adapter hands up exactly the TCP
    segments of that connection: what the device delivers parses as a datagram
    between the two configured addresses with protocol TCP, its payload parses
    as a segment with a correct checksum, and the ports are the configured ones.
    The adapter's state does not change. *)
Theorem tun_read_established raw b seg b' :
  listening b = false ->
  adapter_read raw b = Ok (Some seg, b') <->
  b' = b /\ exists d, IPv4Datagram.parse ipv4_datagram_default (of_string raw) = Ok (NoError, d) /\ for_connection b d seg.
Proof using Type.
  intros Hl. cbn [adapter_read tun_adapter]. unfold tun_read.
  destruct (IPv4Datagram.parse _ _) as [[r d]|]; cbn [mbind res_bind].
  2: { split; [discriminate|]. by intros (_ & d & ? & _). }
  destruct (bool_decide_reflect (r = NoError)) as [->|Hne]; cbn [negb].
  - rewrite unwrap_established by done. split; [by intros [-> Hf]; eauto|].
    by intros (-> & d' & [= <-] & Hf).
  - split; [discriminate|]. by intros (_ & d' & [= -> _] & _).
Qed.

(** [LossyFdAdapter] drops segments and does nothing else.  A read leaves
    the inner adapter in the state its own read gives it and returns its
    segment or nothing; a write either reaches the inner adapter or leaves it
    alone.  With a loss rate of 0 nothing is dropped.  When the inner adapter
    fails, so does the lossy one. *)
Theorem lossy_only_drops {A In Out} `{Adapter A In Out} raw seg (l : LossyFdAdapter A) :
  match adapter_read raw (_adapter l) with
  | Ok (ret, a) => exists r l', adapter_read raw l = Ok (r, l') /\ _adapter l' = a
      /\ (r = ret \/ r = None) /\ (loss_rate_dn (adapter_config a) = 0 -> r = ret)
  | Fail e => adapter_read raw l = Fail e
  end
  /\ ((exists l', adapter_write seg l = Ok (None, seg, l') /\ _adapter l' = _adapter l
         /\ loss_rate_up (adapter_config (_adapter l)) <> 0)
     \/ match adapter_write seg (_adapter l) with
        | Ok (out, seg', a) => exists l', adapter_write seg l = Ok (Some out, seg', l') /\ _adapter l' = a
        | Fail e => adapter_write seg l = Fail e
        end).
Proof using Type.
  cbn [adapter_read adapter_write lossy_adapter]. unfold should_drop. split.
  - destruct (adapter_read raw (_adapter l)) as [[ret a]|e]; cbn [mbind res_bind]; [|done].
    destruct (Z.eqb_spec (loss_rate_dn (adapter_config a)) 0) as [E|E]; do 2 eexists.
    + split; [done|]. cbn. auto.
    + split; [done|]. split; [done|]. split; [destruct (_should_drop _ _ _); auto|done].
  - destruct (Z.eqb_spec (loss_rate_up (adapter_config (_adapter l))) 0) as [E|E].
    + right. destruct (adapter_write seg (_adapter l)) as [[[out s] a]|]; cbn [mbind res_bind]; [by eexists|done].
    + destruct (_should_drop _ _ _); [left; by eexists|right]. cbn [_adapter].
      destruct (adapter_write seg (_adapter l)) as [[[out s] a]|]; cbn [mbind res_bind]; [by eexists|done].
Qed.
End adapters.

Arguments udp_base : clear implicits.

(** ** Witnesses *)

Definition sample_segment : TCPSegment := set_header (set_syn true (TCPSegment.header tcp_segment_default)) tcp_segment_default.
Definition sample_address (ip p : Z) : Address :=
  mkAddress 16 (sockaddr_in ip p ++ zreplicate 112 x00).
Definition sample_base (l : bool) (sip sp dip dp : Z) : FdAdapterBase Address :=
  mkFdAdapterBase (sample_address sip sp) (sample_address dip dp) 0 0 l.

Lemma sample_sendable : sendable sample_segment.
Proof. split; [split; by vm_compute|by vm_compute|split; by vm_compute|by vm_compute]. Qed.

Lemma sample_connects l sip sp dip dp :
  0 <= sip < M32 -> 0 <= sp < M16 -> 0 <= dip < M32 -> 0 <= dp < M16 ->
  connects (sample_base l sip sp dip dp) sip sp dip dp.
Proof.
  intros Hs Hsp Hd Hdp. split; [exact (ipv4_numeric_sockaddr sip sp Hs)|exact (port_of_spec sip sp Hs Hsp)
    |exact (ipv4_numeric_sockaddr dip dp Hd)|exact (port_of_spec dip dp Hd Hdp)].
Qed.

(** A SYN from 10.0.0.1:1000 to a listener on 10.0.0.2:80. *)
Lemma tun_roundtrip_witness :
  exists raw tck pb b',
    adapter_write sample_segment (sample_base false 167772161 1000 167772162 80)
      = Ok (raw, with_ports 1000 80 sample_segment, sample_base false 167772161 1000 167772162 80)
    /\ adapter_read raw (sample_base true 0 80 0 0)
      = Ok (Some (mkTCPSegment (TCPHeader.set_cksum tck (TCPSegment.header (with_ports 1000 80 sample_segment))) pb), b')
    /\ listening b' = false /\ connects b' 167772162 80 167772161 1000.
Proof.
  destruct (tun_roundtrip (sample_base false 167772161 1000 167772162 80) (sample_base true 0 80 0 0)
    sample_segment 167772161 1000 167772162 80 sample_sendable) as (raw & tck & pb & HW & _ & _ & HL).
  - apply sample_connects; lia.
  - destruct (HL eq_refl) as (b' & HR & Hb & Hc); [by vm_compute|]. exists raw, tck, pb, b'. auto.
Defined.

(** The SYN again, with the receiving side already connected. *)
Lemma tun_read_established_witness :
  exists raw seg, adapter_read raw (sample_base false 167772162 80 167772161 1000)
    = Ok (Some seg, sample_base false 167772162 80 167772161 1000).
Proof.
  destruct (tun_write_spec (sample_base false 167772161 1000 167772162 80) sample_segment 167772161 1000 167772162 80)
    as (raw & ick & tck & buf & pb & _ & HD & HP & _); [exact sample_sendable|apply sample_connects; lia|].
  exists raw. eexists. apply tun_read_established; [done|]. split; [done|].
  eexists. split; [exact HD|]. split; [|done|exists buf; by split]. by apply sample_connects.
Defined.
