(* ===== verification/RandomGenerator.v ===== *)
(** * The random generator (libsponge/util/util.cc, [get_random_generator])

    [LossyFdAdapter] decides with a [std::mt19937] that [get_random_generator]
    seeds from the random device through a [std::seed_seq].  The C++ standard
    fixes both algorithms, so they are definitions here; only the numbers of
    the random device are an argument.

    The generator's words are 32 bits wide; the state is never the one in which
    all significant bits are 0, from which only zeros would follow; tempering
    loses nothing. *)

From Stdlib Require Import ZArith Lia.
From S2P Require Import Prelude Address TCPOverIP.

(** ** std::mt19937 *)

Definition state_size : nat := 624.
Definition shift_size : nat := 397.
Definition xor_mask : Z := 2567483615.
Definition tempering_b : Z := 2636928640.
Definition tempering_c : Z := 4022730752.

(** The last 624 words of the sequence, oldest first. *)
Definition mt19937 : Type := list Z.

(** The top bit of the oldest word with the other bits of the next one. *)
Definition joined (x0 x1 : Z) : Z := Z.lor (Z.land x0 2147483648) (Z.land x1 2147483647).

Definition twist (x0 x1 xm : Z) : Z :=
  let y := joined x0 x1 in
  Z.lxor (Z.lxor xm (Z.shiftr y 1)) (if Z.testbit y 0 then xor_mask else 0).

Definition mt_advance (g : mt19937) : mt19937 :=
  drop 1 g ++ [twist (nth 0 g 0) (nth 1 g 0) (nth shift_size g 0)].

Definition temper (x : Z) : Z :=
  let z1 := Z.lxor x (Z.shiftr x 11) in
  let z2 := Z.lxor z1 (Z.land (u32 (Z.shiftl z1 7)) tempering_b) in
  let z3 := Z.lxor z2 (Z.land (u32 (Z.shiftl z2 15)) tempering_c) in
  Z.lxor z3 (Z.shiftr z3 18).

(** [operator()] *)
Definition mt_call (g : mt19937) : Z * mt19937 :=
  let g := mt_advance g in (temper (nth (state_size - 1) g 0), g).

(** ** std::seed_seq *)

(** Indices wrap around. *)
Definition at_ (b : list Z) (i : nat) : Z := nth (i mod length b) b 0.
Definition put (b : list Z) (i : nat) (z : Z) : list Z := <[(i mod length b)%nat := u32 z]> b.

Definition seed_mix (z : Z) : Z := Z.lxor z (Z.shiftr z 27).

Definition seed_tail (n : nat) : nat :=
  (if 623 <=? n then 11 else if 68 <=? n then 7 else if 39 <=? n then 5 else if 7 <=? n then 3 else (n - 1) / 2)%nat.

(** The two loops of [generate], at index [k]; [v] are the stored numbers. *)
Definition seed_round1 (v : list Z) (p q : nat) (b : list Z) (k : nat) : list Z :=
  let n := length b in
  let r1 := u32 (1664525 * seed_mix (Z.lxor (Z.lxor (at_ b k) (at_ b (k + p))) (at_ b (k + n - 1)))) in
  let r2 := u32 (r1 + (if (k =? 0)%nat then zlen v
                       else if (k <=? length v)%nat then Z.of_nat (k mod n) + nth (k - 1) v 0
                       else Z.of_nat (k mod n))) in
  let b := put b (k + p) (at_ b (k + p) + r1) in
  let b := put b (k + q) (at_ b (k + q) + r2) in
  put b k r2.

Definition seed_round2 (p q : nat) (b : list Z) (k : nat) : list Z :=
  let n := length b in
  let r3 := u32 (1566083941 * seed_mix (u32 (at_ b k + at_ b (k + p) + at_ b (k + n - 1)))) in
  let r4 := u32 (r3 - Z.of_nat (k mod n)) in
  let b := put b (k + p) (Z.lxor (at_ b (k + p)) r3) in
  let b := put b (k + q) (Z.lxor (at_ b (k + q)) r4) in
  put b k r4.

Definition seed_generate (v : list Z) (n : nat) : list Z :=
  let t := seed_tail n in
  let p := ((n - t) / 2)%nat in
  let q := (p + t)%nat in
  let m := Nat.max (S (length v)) n in
  let b := replicate n 2341178251 in
  let b := foldl (seed_round1 v p q) b (seq 0 m) in
  foldl (seed_round2 p q) b (seq m n).

(** [seed_seq(begin, end)] keeps the numbers modulo 2^32. *)
Definition seed_seq (l : list Z) : list Z := map u32 l.

(** The engine built from a seed sequence; a state without a significant bit is
    replaced. *)
Definition mt_of_seed (v : list Z) : mt19937 :=
  let x := seed_generate v state_size in
  if (Z.shiftr (nth 0 x 0) 31 =? 0) && forallb (Z.eqb 0) (drop 1 x) then <[0%nat := 2147483648]> x else x.

(** ** The program's generator *)

(** [rd] are the numbers of the random device. *)
Definition get_random_generator (rd : nat -> Z) : mt19937 :=
  let seed_data := map rd (seq 0 state_size) in
  let seed := seed_seq seed_data in
  mt_of_seed seed.

Fixpoint mt_state (g : mt19937) (k : nat) : mt19937 :=
  match k with O => g | S k => mt_state (mt_call g).2 k end.

(** The [k]-th number drawn. *)
Definition draw (g : mt19937) (k : nat) : Z := (mt_call (mt_state g k)).1.

(** [LossyFdAdapter(AdapterT &&adapter)] with its member initializer. *)
Definition LossyFdAdapter_new {A} (adapter : A) (rd : nat -> Z) : LossyFdAdapter A :=
  mkLossy A adapter (draw (get_random_generator rd)).

(** *** Agreement with the standard's figures *)

(** The engine with a single seed, as the standard's check uses it. *)
Fixpoint mt_seed_words (n : nat) (i prev : Z) : list Z :=
  match n with
  | O => []
  | S n => let x := u32 (1812433253 * Z.lxor prev (Z.shiftr prev 30) + i) in x :: mt_seed_words n (i + 1) x
  end.

(** The ten thousandth number of the default engine, as the standard gives it. *)
Example mt19937_figure :
  (mt_call (mt_state (5489 :: mt_seed_words 623 1 5489) (Z.to_nat 9999))).1 = 4123659995.
Proof. vm_compute. reflexivity. Qed.

Example seed_seq_figure :
  seed_generate [1; 2; 3; 4; 5] 10
  = [4204997637; 4246533866; 1856049002; 1129615051; 690460811; 1075771511; 46783058; 3904109078; 1534123438; 1495905678].
Proof. vm_compute. reflexivity. Qed.

Definition sample_device (i : nat) : Z := u32 (Z.of_nat i * 2654435761).

Example generator_figures :
  map (draw (get_random_generator sample_device)) [0; 1; 2; 3; 1000]%nat
  = [719116409; 2918616152; 751804500; 790935433; 1044042619].
Proof. vm_compute. reflexivity. Qed.

(** ** Words *)

Definition word (z : Z) : Prop := 0 <= z < M32.

Lemma word_bits z : word z <-> 0 <= z /\ forall i, 32 <= i -> Z.testbit z i = false.
Proof.
  unfold word. split.
  - intros [H0 H1]. split; [done|]. intros i Hi. destruct (Z.eq_dec z 0) as [->|]; [apply Z.bits_0|].
    apply Z.bits_above_log2; [done|]. apply Z.log2_lt_pow2; [lia|]. change M32 with (2 ^ 32) in H1.
    pose proof (Z.pow_le_mono_r 2 32 i ltac:(lia) Hi). lia.
  - intros [H0 Hb]. split; [done|]. destruct (Z.eq_dec z 0) as [->|]; [lia|].
    change M32 with (2 ^ 32). apply Z.log2_lt_pow2; [lia|]. destruct (Z_lt_le_dec (Z.log2 z) 32) as [|Hl]; [done|exfalso].
    specialize (Hb _ Hl). rewrite Z.bit_log2 in Hb by lia. done.
Qed.

Lemma u32_word z : word (u32 z).
Proof. apply u32_range. Qed.

Lemma word_lxor a b : word a -> word b -> word (Z.lxor a b).
Proof.
  rewrite !word_bits. intros [? Ha] [? Hb]. split; [by apply Z.lxor_nonneg|]. intros i Hi. by rewrite Z.lxor_spec, Ha, Hb.
Qed.

Lemma word_shiftr a k : 0 <= k -> word a -> word (Z.shiftr a k).
Proof.
  rewrite !word_bits. intros Hk [? Ha]. split; [by apply Z.shiftr_nonneg|]. intros i Hi. rewrite Z.shiftr_spec by lia. apply Ha. lia.
Qed.

Lemma word_land a b : word a -> 0 <= b -> word (Z.land a b).
Proof.
  rewrite !word_bits. intros [? Ha] ?. split; [apply Z.land_nonneg; by left|]. intros i Hi. by rewrite Z.land_spec, Ha.
Qed.

Lemma word_joined x0 x1 : word x0 -> word x1 -> word (joined x0 x1).
Proof.
  rewrite !word_bits. intros [? H0] [? H1]. unfold joined. split.
  - apply Z.lor_nonneg. split; apply Z.land_nonneg; by left.
  - intros i Hi. by rewrite Z.lor_spec, !Z.land_spec, H0, H1.
Qed.

Lemma word_twist x0 x1 xm : word x0 -> word x1 -> word xm -> word (twist x0 x1 xm).
Proof.
  intros H0 H1 Hm. unfold twist. apply word_lxor.
  - apply word_lxor; [done|]. apply word_shiftr; [lia|by apply word_joined].
  - unfold word, xor_mask. destruct (Z.testbit _ 0); lia.
Qed.

Lemma word_temper x : word x -> word (temper x).
Proof.
  intros Hx. unfold temper, tempering_b, tempering_c.
  assert (forall z k, 0 <= k -> word z -> word (Z.lxor z (Z.shiftr z k))) as Hr by (intros; apply word_lxor; [done|by apply word_shiftr]).
  assert (forall z k m, 0 <= m -> word z -> word (Z.lxor z (Z.land (u32 (Z.shiftl z k)) m))) as Hl.
  { intros. apply word_lxor; [done|]. apply word_land; [apply u32_word|done]. }
  apply Hr; [lia|]. apply Hl; [lia|]. apply Hl; [lia|]. apply Hr; [lia|done].
Qed.

(** *** Tempering loses nothing *)

Lemma testbit_u32 z i : 0 <= i -> Z.testbit (u32 z) i = Z.testbit z i && (i <? 32).
Proof.
  intros Hi. unfold u32. change M32 with (2 ^ 32). destruct (Z.ltb_spec i 32).
  - rewrite Z.mod_pow2_bits_low by lia. by rewrite andb_true_r.
  - rewrite Z.mod_pow2_bits_high by lia. by rewrite andb_false_r.
Qed.

Lemma temper_lxor a b : temper (Z.lxor a b) = Z.lxor (temper a) (temper b).
Proof.
  assert (forall z y k, 0 <= k -> Z.lxor (Z.lxor z y) (Z.shiftr (Z.lxor z y) k) = Z.lxor (Z.lxor z (Z.shiftr z k)) (Z.lxor y (Z.shiftr y k))) as Hr.
  { intros z y k Hk. apply Z.bits_inj'. intros i Hi. rewrite !Z.lxor_spec, !Z.shiftr_spec, !Z.lxor_spec by lia.
    by destruct (Z.testbit z i), (Z.testbit y i), (Z.testbit z _), (Z.testbit y _). }
  assert (forall z y k m, 0 <= k -> Z.lxor (Z.lxor z y) (Z.land (u32 (Z.shiftl (Z.lxor z y) k)) m)
    = Z.lxor (Z.lxor z (Z.land (u32 (Z.shiftl z k)) m)) (Z.lxor y (Z.land (u32 (Z.shiftl y k)) m))) as Hl.
  { intros z y k m Hk. apply Z.bits_inj'. intros i Hi. rewrite !Z.lxor_spec, !Z.land_spec, !testbit_u32, !Z.shiftl_spec, !Z.lxor_spec by lia.
    by destruct (Z.testbit z i), (Z.testbit y i), (Z.testbit z (i - k)), (Z.testbit y (i - k)), (Z.testbit m i), (i <? 32). }
  unfold temper. rewrite (Hr a b 11) by lia. set (a1 := Z.lxor a _). set (b1 := Z.lxor b _).
  rewrite (Hl a1 b1 7) by lia. set (a2 := Z.lxor a1 _). set (b2 := Z.lxor b1 _).
  rewrite (Hl a2 b2 15) by lia. by rewrite Hr by lia.
Qed.

Lemma lxor_zero a b : Z.lxor a b = 0 -> forall i, Z.testbit a i = Z.testbit b i.
Proof. intros H i. apply (f_equal (fun z => Z.testbit z i)) in H. rewrite Z.lxor_spec, Z.bits_0 in H. by apply xorb_eq. Qed.

Lemma shift_right_zero z k : word z -> 0 < k -> Z.lxor z (Z.shiftr z k) = 0 -> z = 0.
Proof.
  intros [Hz Hb]%word_bits Hk H. apply Z.bits_inj'. intros i Hi. rewrite Z.bits_0.
  remember (Z.to_nat (32 - i)) as n eqn:En. revert i Hi En. induction n as [n IH] using lt_wf_ind. intros i Hi En.
  destruct (Z_le_gt_dec 32 i); [by apply Hb|]. rewrite (lxor_zero _ _ H), Z.shiftr_spec by done.
  apply (IH (Z.to_nat (32 - (i + k)))); lia.
Qed.

Lemma shift_left_zero z k m : word z -> 0 < k -> Z.lxor z (Z.land (u32 (Z.shiftl z k)) m) = 0 -> z = 0.
Proof.
  intros [Hz _]%word_bits Hk H. apply Z.bits_inj'. intros i Hi. rewrite Z.bits_0.
  remember (Z.to_nat i) as n eqn:En. revert i Hi En. induction n as [n IH] using lt_wf_ind. intros i Hi En.
  rewrite (lxor_zero _ _ H), Z.land_spec, testbit_u32, Z.shiftl_spec by done.
  destruct (Z_lt_le_dec i k); [rewrite Z.testbit_neg_r by lia; done|]. rewrite (IH (Z.to_nat (i - k))) by lia. done.
Qed.

Lemma temper_zero x : word x -> temper x = 0 -> x = 0.
Proof.
  intros Hx H. unfold temper in H. set (z1 := Z.lxor x (Z.shiftr x 11)) in H.
  assert (word z1) as W1 by (apply word_lxor; [done|apply word_shiftr; [lia|done]]).
  set (z2 := Z.lxor z1 _) in H. assert (word z2) as W2 by (apply word_lxor; [done|apply word_land; [apply u32_word|unfold tempering_b; lia]]).
  set (z3 := Z.lxor z2 _) in H. assert (word z3) as W3 by (apply word_lxor; [done|apply word_land; [apply u32_word|unfold tempering_c; lia]]).
  apply (shift_right_zero x 11); [done|lia|]. apply (shift_left_zero z1 7 tempering_b); [done|lia|].
  apply (shift_left_zero z2 15 tempering_c); [done|lia|]. by apply (shift_right_zero z3 18); [|lia|].
Qed.

(** Different words give different numbers. *)
Lemma temper_inj a b : word a -> word b -> temper a = temper b -> a = b.
Proof.
  intros Ha Hb E. apply Z.lxor_eq, temper_zero; [by apply word_lxor|]. rewrite temper_lxor, E. apply Z.lxor_nilpotent.
Qed.

(** ** The state *)

(** Of the oldest word only the top bit matters. *)
Definition live (g : mt19937) : Prop := Z.testbit (nth 0 g 0) 31 = true \/ exists z, z ∈ drop 1 g /\ z <> 0.

Record mt_ok (g : mt19937) : Prop := {
  mt_length : length g = state_size;
  mt_words : Forall word g;
  mt_live : live g
}.

Lemma word_nth g i : Forall word g -> word (nth i g 0).
Proof.
  intros H. destruct (Nat.lt_ge_cases i (length g)) as [Hi|Hi].
  - rewrite Forall_forall in H. apply H. by apply list_elem_of_In, nth_In.
  - rewrite nth_overflow by done. split; lia.
Qed.

(** Only a state without significant bits gives one without. *)
Lemma twist_zero x0 x1 : word x0 -> word x1 -> twist x0 x1 0 = 0 -> joined x0 x1 = 0.
Proof.
  intros H0 H1 H. unfold twist in H. rewrite Z.lxor_0_l in H. pose proof (word_joined _ _ H0 H1) as Hy.
  set (y := joined x0 x1) in *. apply word_bits in Hy as [Hy Hb]. pose proof (lxor_zero _ _ H) as Hx.
  assert (Z.testbit y 0 = false) as Hy0.
  { specialize (Hx 31). rewrite Z.shiftr_spec, (Hb (31 + 1)) in Hx by lia. by destruct (Z.testbit y 0). }
  apply Z.bits_inj'. intros i Hi. rewrite Z.bits_0. destruct (Z.eq_dec i 0) as [->|]; [done|].
  specialize (Hx (i - 1)). rewrite Hy0, Z.bits_0, Z.shiftr_spec in Hx by lia. by replace (i - 1 + 1) with i in Hx by lia.
Qed.

Lemma joined_zero x0 x1 :
  word x1 -> joined x0 x1 = 0 -> Z.testbit x0 31 = false /\ (Z.testbit x1 31 = false -> x1 = 0).
Proof.
  intros [_ Hb]%word_bits H. unfold joined in H. apply Z.lor_eq_0_iff in H as [H0 H1]. split.
  - apply (f_equal (fun z => Z.testbit z 31)) in H0. rewrite Z.land_spec, Z.bits_0 in H0. by apply andb_false_iff in H0 as [?|?].
  - intros Ht. apply Z.bits_inj'. intros i Hi. rewrite Z.bits_0. destruct (Z_le_gt_dec 32 i); [by apply Hb|].
    destruct (Z.eq_dec i 31) as [->|]; [done|]. apply (f_equal (fun z => Z.testbit z i)) in H1.
    change 2147483647 with (Z.ones 31) in H1. rewrite Z.land_spec, Z.bits_0, Z.ones_spec_low, andb_true_r in H1 by lia. done.
Qed.

Lemma advance_live g : length g = state_size -> Forall word g -> live g -> live (mt_advance g).
Proof.
  intros Hl Hw Hg. destruct g as [|x0 [|x1 g]]; [discriminate Hl|discriminate Hl|].
  unfold mt_advance. cbn [drop nth app]. set (x := twist _ _ _). unfold live. cbn [drop nth app].
  destruct (Z.testbit x1 31) eqn:E1; [by left|]. destruct (decide (Forall (fun z => z = 0) (g ++ [x]))) as [Hz|Hz].
  2: { right. apply not_Forall_Exists in Hz; [|apply _]. apply Exists_exists in Hz as (z & Hin & Hne). by exists z. }
  exfalso. apply Forall_app in Hz as [Hz Hx]. apply Forall_cons in Hx as [Hx _].
  assert (word x0 /\ word x1) as [W0 W1] by (inversion Hw as [|? ? ? Hw']; by inversion Hw').
  assert (nth (shift_size - 2) g 0 = 0) as Em.
  { destruct (nth_in_or_default (shift_size - 2) g 0) as [Hin|?]; [|done]. rewrite Forall_forall in Hz. by apply Hz, list_elem_of_In. }
  change (twist x0 x1 (nth (shift_size - 2) g 0) = 0) in Hx. rewrite Em in Hx.
  destruct (joined_zero _ _ W1 (twist_zero _ _ W0 W1 Hx)) as [H31 Hx1].
  destruct Hg as [Hg|(z & Hin & Hne)]; [change (Z.testbit x0 31 = true) in Hg; congruence|]. cbn in Hin. apply elem_of_cons in Hin as [->|Hin]; [auto|].
  rewrite Forall_forall in Hz. by apply Hne, Hz.
Qed.

Lemma mt_ok_advance g : mt_ok g -> mt_ok (mt_advance g).
Proof.
  intros [Hl Hw Hg]. split; [|..|by apply advance_live].
  - unfold mt_advance. rewrite length_app, length_drop, Hl. done.
  - unfold mt_advance. apply Forall_app. split; [by apply Forall_drop|]. apply Forall_singleton.
    apply word_twist; by apply word_nth.
Qed.

Lemma mt_ok_state k : forall g, mt_ok g -> mt_ok (mt_state g k).
Proof. induction k as [|k IH]; intros g H; [done|]. apply IH. by apply mt_ok_advance. Qed.

(** *** The seeded state *)

Definition seeded (n : nat) (b : list Z) : Prop := length b = n /\ Forall word b.

Lemma seeded_put n b i z : seeded n b -> seeded n (put b i z).
Proof. intros [Hl Hw]. split; [by unfold put; rewrite length_insert|]. apply Forall_insert; [done|apply u32_word]. Qed.

Lemma seeded_foldl n (f : list Z -> nat -> list Z) l : forall b,
  (forall b k, seeded n b -> seeded n (f b k)) -> seeded n b -> seeded n (foldl f b l).
Proof. induction l as [|k l IH]; intros b Hf Hb; cbn; auto. Qed.

Lemma seeded_generate v n : seeded n (seed_generate v n).
Proof.
  unfold seed_generate. apply seeded_foldl; [intros; unfold seed_round2; by repeat apply seeded_put|].
  apply seeded_foldl; [intros; unfold seed_round1; by repeat apply seeded_put|]. split; [apply length_replicate|].
  apply Forall_replicate. split; lia.
Qed.

Lemma mt_ok_of_seed v : mt_ok (mt_of_seed v).
Proof.
  destruct (seeded_generate v state_size) as [Hl Hw]. unfold mt_of_seed. set (x := seed_generate v state_size) in *.
  clearbody x. destruct x as [|x0 x]; [discriminate Hl|]. cbn [nth]. change (drop 1 (x0 :: x)) with x.
  destruct ((Z.shiftr x0 31 =? 0) && forallb (Z.eqb 0) x) eqn:E.
  - split; [exact Hl| |by left]. apply Forall_cons in Hw as [_ Hw]. cbn. constructor; [split; lia|done].
  - split; [done|done|]. apply Forall_cons in Hw as [W0 _]. apply andb_false_iff in E as [E|E]; unfold live; cbn [nth]; change (drop 1 (x0 :: x)) with x.
    + left. apply Z.eqb_neq in E. apply word_bits in W0 as [_ Hb]. destruct (Z.testbit x0 31) eqn:E31; [done|].
      exfalso. apply E. apply Z.bits_inj'. intros i Hi. rewrite Z.shiftr_spec, Z.bits_0 by done.
      destruct (Z.eq_dec i 0) as [->|]; [done|]. apply Hb. lia.
    + right. clear -E. induction x as [|z x IH]; cbn in E; [done|].
      destruct (Z.eqb_spec 0 z) as [<-|]; [|exists z; split; [by left|done]].
      destruct (IH E) as (z' & ? & ?). exists z'. split; [by right|done].
Qed.

(** *** The numbers drawn *)

Lemma mt_state_S g k : mt_state g (S k) = mt_advance (mt_state g k).
Proof. revert g. induction k as [|k IH]; intros g; [done|]. apply (IH (mt_advance g)). Qed.

Lemma draw_last g k : draw g k = temper (nth (state_size - 1) (mt_state g (S k)) 0).
Proof. by rewrite mt_state_S. Qed.

(** Later states hold the words drawn: word [i] after [k] steps. *)
Lemma word_drawn g k i :
  length g = state_size -> (i < k)%nat -> (k <= state_size)%nat -> Forall word g -> live g ->
  nth (state_size - 1 - i) (mt_state g k) 0 = nth (state_size - 1) (mt_state g (k - i)) 0.
Proof.
  intros Hl Hi Hk Hw Hg. revert i Hi Hk. induction k as [|k IH]; intros i Hi Hk; [lia|].
  destruct i as [|i]; [by rewrite !Nat.sub_0_r|]. cbn [Nat.sub]. rewrite <-(IH i) by lia. rewrite mt_state_S.
  pose proof (mt_length _ (mt_ok_state k g ltac:(by split))) as Hlk. unfold mt_advance. rewrite app_nth1 by (rewrite length_drop, Hlk; unfold state_size; lia).
  rewrite !nth_lookup, lookup_drop. f_equal. f_equal. unfold state_size in *. lia.
Qed.

Lemma mt_state_add g j k : mt_state g (j + k) = mt_state (mt_state g j) k.
Proof. revert g. induction j as [|j IH]; intros g; [done|]. apply IH. Qed.

(** Among 624 numbers in a row one is not 0. *)
Lemma draw_nonzero g : mt_ok g -> exists j, (j < state_size)%nat /\ draw g j <> 0.
Proof.
  intros H. destruct (decide (Forall (fun j => draw g j = 0) (seq 0 state_size))) as [Hz|Hz].
  2: { apply not_Forall_Exists in Hz; [|apply _]. apply Exists_exists in Hz as (j & Hin & Hne). apply elem_of_seq in Hin.
       exists j. split; [lia|done]. }
  exfalso. set (g' := mt_state g state_size). destruct (mt_ok_state state_size g H) as [Hl Hw Hg]. fold g' in Hl, Hw, Hg.
  assert (forall i, (i < state_size)%nat -> nth i g' 0 = 0) as Hall.
  { intros i Hi. destruct H as [Hl0 Hw0 Hg0]. set (k := (state_size - 1 - i)%nat).
    assert (i = state_size - 1 - k)%nat as Ei by lia. rewrite Ei. unfold g'. rewrite word_drawn by (done || lia).
    replace (state_size - k)%nat with (S (state_size - 1 - k)) by lia. apply temper_zero.
    - apply word_nth, mt_words. by apply mt_ok_state.
    - rewrite <-draw_last. rewrite Forall_forall in Hz. apply Hz, elem_of_seq. lia. }
  clearbody g'. destruct Hg as [Hg|(z & Hin & Hne)].
  - rewrite Hall, Z.bits_0 in Hg by (unfold state_size; lia). done.
  - apply Hne. apply list_elem_of_lookup in Hin as (i & Hi). rewrite lookup_drop in Hi.
    pose proof (lookup_lt_Some _ _ _ Hi). rewrite <-(Hall (1 + i)%nat) by lia. by rewrite nth_lookup, Hi.
Qed.

(** ** Property *)

(** The generator of the lossy adapter: whatever the random device
    returns, every number drawn is a 32-bit word; the state always has 624
    words and never degenerates, so that among any 624 numbers in a row one is
    not 0; and the number is an injective function of the newest word. *)
Theorem random_numbers (rd : nat -> Z) (k : nat) :
  let g := get_random_generator rd in
  0 <= draw g k < M32 /\ mt_ok (mt_state g k)
  /\ (exists j, (k <= j < k + state_size)%nat /\ draw g j <> 0)
  /\ (forall j, draw g j = draw g k -> nth (state_size - 1) (mt_state g (S j)) 0 = nth (state_size - 1) (mt_state g (S k)) 0).
Proof.
  intros g. assert (mt_ok g) as Hg by apply mt_ok_of_seed.
  assert (forall j, word (nth (state_size - 1) (mt_state g (S j)) 0)) as Hw.
  { intros j. apply word_nth, mt_words. by apply mt_ok_state. }
  split_and!.
  1, 2: rewrite draw_last; apply (word_temper _ (Hw k)).
  - by apply mt_ok_state.
  - destruct (draw_nonzero (mt_state g k)) as (j & Hj & Hne); [by apply mt_ok_state|].
    exists (k + j)%nat. split; [lia|]. unfold draw in *. by rewrite mt_state_add.
  - intros j Hd. rewrite !draw_last in Hd. by apply temper_inj.
Qed.

(** What the adapter uses: each decision consumes one number. *)
Lemma lossy_decision {A} (a : A) (cfg : FdAdapterBase Address) (uplink : bool) (rd : nat -> Z) :
  let l := LossyFdAdapter_new a rd in let g := get_random_generator rd in
  let loss := if uplink then loss_rate_up cfg else loss_rate_dn cfg in
  loss <> 0 ->
  (should_drop cfg uplink l).1 = (u16 (mt_call g).1 <? loss)
  /\ forall k, _rand A (should_drop cfg uplink l).2 k = draw (mt_call g).2 k.
Proof.
  intros l g loss Hne. unfold should_drop, _should_drop. fold loss. destruct (Z.eqb_spec loss 0); [done|].
  by split.
Qed.
