(* ===== verification/NetworkInterface.v ===== *)
(** * The network interface and the Ethernet adapter
    (libsponge/network_interface.{hh,cc} and the TAP adapter of
    libsponge/tcp_helpers/tuntap_adapter.{hh,cc})

    The interface is the placeholder the repository ships: it holds its
    addresses and an outbound queue, and does nothing with what it is given.
    The adapter around it is complete and is modelled as it is written, with
    the frames the TAP device is given as its output. *)

From Stdlib Require Import ZArith Lia.
From S2P Require Import Prelude Buffer Parser TCPHeader TCPSegment IPv4Header IPv4Datagram Ethernet Address TCPOverIP.

Section interface.
Context {Address : Type} `{AddressOps Address}.

(** ** NetworkInterface *)

Record NetworkInterface : Type := mkNetworkInterface {
  _ethernet_address : EthernetAddress;
  _ip_address : Address;
  _frames_out : list EthernetFrame
}.

Definition interface_new (ethernet_address : EthernetAddress) (ip_address : Address) : NetworkInterface :=
  mkNetworkInterface ethernet_address ip_address [].

Definition frames_out (i : NetworkInterface) : list EthernetFrame := _frames_out i.

(** The next hop has to be an IPv4 address; nothing is sent. *)
Definition send_datagram (dgram : IPv4Datagram) (next_hop : Address) (i : NetworkInterface) : res NetworkInterface :=
  next_hop_ip ← ipv4_numeric next_hop;
  Ok i.

Definition recv_frame (frame : EthernetFrame) (i : NetworkInterface) : option IPv4Datagram * NetworkInterface :=
  (None, i).

Definition interface_tick (ms_since_last_tick : Z) (i : NetworkInterface) : NetworkInterface := i.

(** ** TCPOverIPv4OverEthernetAdapter *)

Record TCPOverIPv4OverEthernetAdapter : Type := mkEthernetAdapter {
  _base : FdAdapterBase Address;
  _interface : NetworkInterface;
  _next_hop : Address
}.

(** [_tap.write(frame.serialize())] *)
Definition tap_write (frame : EthernetFrame) : list byte := concatenate (frame_serialize frame).

(** The adapter and the frames written to the device by its constructor. *)
Definition ethernet_adapter_new (base : FdAdapterBase Address) (eth_address : EthernetAddress)
    (ip_address next_hop : Address) : list (list byte) * TCPOverIPv4OverEthernetAdapter :=
  ([tap_write ethernet_frame_default], mkEthernetAdapter base (interface_new eth_address ip_address) next_hop).

(** [while (not frames_out().empty()) { _tap.write(frames_out().front().serialize()); frames_out().pop(); }] *)
Fixpoint pending_loop (frames : list EthernetFrame) : list (list byte) * list EthernetFrame :=
  match frames with
  | [] => ([], [])
  | f :: frames => let '(out, rest) := pending_loop frames in (tap_write f :: out, rest)
  end.

Definition send_pending (a : TCPOverIPv4OverEthernetAdapter)
    : list (list byte) * TCPOverIPv4OverEthernetAdapter :=
  let i := _interface a in
  let '(out, rest) := pending_loop (frames_out i) in
  (out, mkEthernetAdapter (_base a) (mkNetworkInterface (_ethernet_address i) (_ip_address i) rest) (_next_hop a)).

Definition set_interface (i : NetworkInterface) (a : TCPOverIPv4OverEthernetAdapter) : TCPOverIPv4OverEthernetAdapter :=
  mkEthernetAdapter (_base a) i (_next_hop a).
Definition set_base (b : FdAdapterBase Address) (a : TCPOverIPv4OverEthernetAdapter) : TCPOverIPv4OverEthernetAdapter :=
  mkEthernetAdapter b (_interface a) (_next_hop a).

(** [raw] is what the device delivers; the frames written meanwhile come with
    the result. *)
Definition tap_read (raw : list byte) (a : TCPOverIPv4OverEthernetAdapter)
    : res (option TCPSegment * list (list byte) * TCPOverIPv4OverEthernetAdapter) :=
  '(r, frame) ← frame_parse ethernet_frame_default (of_string raw);
  if negb (bool_decide (r = NoError)) then Ok (None, [], a) else
  let '(ip_dgram, i) := recv_frame frame (_interface a) in
  let '(out, a) := send_pending (set_interface i a) in
  match ip_dgram with
  | Some d => '(seg, b) ← unwrap_tcp_in_ip (_base a) d; Ok (seg, out, set_base b a)
  | None => Ok (None, out, a)
  end.

Definition tap_tick (ms_since_last_tick : Z) (a : TCPOverIPv4OverEthernetAdapter)
    : list (list byte) * TCPOverIPv4OverEthernetAdapter :=
  send_pending (set_interface (interface_tick ms_since_last_tick (_interface a)) a).

Definition tap_write_segment (seg : TCPSegment) (a : TCPOverIPv4OverEthernetAdapter)
    : res (list (list byte) * TCPSegment * TCPOverIPv4OverEthernetAdapter) :=
  '(d, seg) ← wrap_tcp_in_ip (_base a) seg;
  i ← send_datagram d (_next_hop a) (_interface a);
  let '(out, a) := send_pending (set_interface i a) in
  Ok (out, seg, a).

(** ** Lemmas *)

(** [send_pending] empties the queue and writes it in order. *)
Lemma pending_loop_spec frames : pending_loop frames = (map tap_write frames, []).
Proof using Type. induction frames as [|f frames IH]; cbn [pending_loop map]; [done|]. by rewrite IH. Qed.

Lemma send_pending_spec a :
  send_pending a = (map tap_write (frames_out (_interface a)),
    set_interface (mkNetworkInterface (_ethernet_address (_interface a)) (_ip_address (_interface a)) []) a).
Proof using Type. unfold send_pending. by rewrite pending_loop_spec. Qed.

Lemma send_pending_idle a : frames_out (_interface a) = [] -> send_pending a = ([], a).
Proof using Type.
  intros Hf. rewrite send_pending_spec, Hf. destruct a as [b [e i fo] n]. cbn in Hf. by rewrite Hf.
Qed.

(** The adapters the program can reach from a new one. *)
Inductive tap_reach (a0 : TCPOverIPv4OverEthernetAdapter) : TCPOverIPv4OverEthernetAdapter -> Prop :=
  | tap_reach_new : tap_reach a0 a0
  | tap_reach_read a raw seg out a' : tap_reach a0 a -> tap_read raw a = Ok (seg, out, a') -> tap_reach a0 a'
  | tap_reach_write a seg out seg' a' : tap_reach a0 a -> tap_write_segment seg a = Ok (out, seg', a') -> tap_reach a0 a'
  | tap_reach_tick a ms out a' : tap_reach a0 a -> tap_tick ms a = (out, a') -> tap_reach a0 a'.

Lemma tap_read_idle raw a seg out a' :
  frames_out (_interface a) = [] -> tap_read raw a = Ok (seg, out, a') -> seg = None /\ out = [] /\ a' = a.
Proof using Type.
  intros Hf. unfold tap_read. intros ([r f] & _ & E)%bind_Ok. cbn [recv_frame] in E.
  destruct (bool_decide _); cbn [negb] in E; [|by simplify_eq].
  rewrite send_pending_idle in E by done. destruct a. by injection E as <- <- <-.
Qed.

Lemma tap_write_idle seg a out seg' a' :
  frames_out (_interface a) = [] -> tap_write_segment seg a = Ok (out, seg', a') -> out = [] /\ a' = a.
Proof using Type.
  intros Hf. unfold tap_write_segment, send_datagram. intros ([d s] & _ & E)%bind_Ok.
  apply bind_Ok in E as (i & (ip & _ & [= <-])%bind_Ok & E).
  rewrite send_pending_idle in E by done. destruct a. by injection E as <- <- <-.
Qed.

Lemma tap_reach_idle a0 a : frames_out (_interface a0) = [] -> tap_reach a0 a -> a = a0.
Proof using Type.
  intros Hf. induction 1 as [|a raw seg out a' _ -> E|a seg out seg' a' _ -> E|a ms out a' _ -> E]; [done|..].
  - by apply tap_read_idle in E as (_ & _ & ->).
  - by apply tap_write_idle in E as (_ & ->).
  - unfold tap_tick, interface_tick in E. rewrite send_pending_idle in E by done.
    destruct a0. by injection E as _ <-.
Qed.

(** On the network interface as shipped the Ethernet adapter is silent:
    after any sequence of reads, writes and ticks of a new adapter, a frame
    from the device never yields a segment and a segment given to [write] is
    lost without a frame reaching the device; only the constructor's dummy
    frame is ever written. *)
Theorem ethernet_adapter_silent base eth ip hop a :
  tap_reach (ethernet_adapter_new base eth ip hop).2 a ->
  (forall raw seg out a', tap_read raw a = Ok (seg, out, a') -> seg = None /\ out = [] /\ a' = a)
  /\ (forall seg out seg' a', tap_write_segment seg a = Ok (out, seg', a') -> out = [] /\ a' = a)
  /\ (forall ms, tap_tick ms a = ([], a)).
Proof using Type.
  intros Hr. apply tap_reach_idle in Hr as ->; [|done]. split_and!.
  - intros raw seg out a'. by apply tap_read_idle.
  - intros seg out seg' a'. by apply tap_write_idle.
  - intros ms. apply send_pending_idle. done.
Qed.
End interface.

(** A SYN written to a new adapter. *)
Lemma ethernet_adapter_silent_witness :
  let a := (ethernet_adapter_new (sample_base false 167772161 1000 167772162 80) ETHERNET_BROADCAST
    (sample_address 167772161 0) (sample_address 167772162 0)).2 in
  exists seg', tap_write_segment sample_segment a = Ok ([], seg', a).
Proof.
  intros a.
  destruct (tap_write_segment sample_segment a) as [[[out s] a']|f] eqn:E; [|by vm_compute in E].
  destruct (ethernet_adapter_silent (sample_base false 167772161 1000 167772162 80) ETHERNET_BROADCAST
    (sample_address 167772161 0) (sample_address 167772162 0) a (tap_reach_new _)) as (_ & HW & _).
  destruct (HW _ _ _ _ E) as [-> ->]. by exists s.
Defined.
