(* ===== verification/Kernel.v ===== *)
(** * The operating system (the calls of libsponge/util and [SystemCall] of
    libsponge/util/util.cc)

    The program reaches the kernel, the clock and the devices through system
    calls.  [syscall R] lists the calls the sources make, with their arguments;
    [R] is what the call gives back: its return value with [errno], and what it
    writes to the memory passed to it.  A kernel is any state with a function
    that answers every call (class [Kernel]); [KernelLaws] states what the
    manual pages promise of the answers, with the bytes read from and written
    to each descriptor so far as the observable history. *)

From Stdlib Require Import ZArith Lia.
From S2P Require Import Prelude Buffer.

(** The return value of a call and the value of [errno] after it. *)
Record sysret : Type := mkRet { rv : Z; err : Z }.

(** [struct pollfd] of <poll.h> *)
Record pollfd : Type := mkPollfd { p_fd : Z; events : Z; revents : Z }.

Inductive syscall : Type -> Type :=
  | Close (fd : Z) : syscall sysret
  | Read (fd count : Z) : syscall (sysret * list byte)
  | Writev (fd : Z) (iov : list iovec) : syscall sysret
  | Fcntl (fd cmd arg : Z) : syscall sysret
  | Poll (fds : list pollfd) (timeout : Z) : syscall (sysret * list Z)  (** the revents *)
  | Shutdown (fd how : Z) : syscall sysret
  | Socketpair (domain type : Z) : syscall (sysret * (Z * Z))
  | Socket (domain type : Z) : syscall sysret
  | Getsockopt (fd level option : Z) : syscall (sysret * (Z * Z))  (** value and length *)
  | Setsockopt (fd level option value : Z) : syscall sysret
  | Getsockname (fd : Z) : syscall (sysret * list byte)
  | Getpeername (fd : Z) : syscall (sysret * list byte)
  | Bind (fd : Z) (address : list byte) : syscall sysret
  | Connect (fd : Z) (address : list byte) : syscall sysret
  | Listen (fd backlog : Z) : syscall sysret
  | Accept (fd : Z) : syscall sysret
  | Recvfrom (fd count flags : Z) : syscall (sysret * (list byte * list byte))  (** payload, source *)
  | Sendmsg (fd : Z) (address : list byte) (iov : list iovec) : syscall sysret
  | Open (path : list byte) (flags : Z) : syscall sysret
  | Ioctl (fd request : Z) (name : list byte) (flags : Z) : syscall sysret
  | Clock : syscall Z.  (** [steady_clock::now()], in milliseconds *)

Class Kernel (K : Type) := answer : forall R, syscall R -> K -> R * K.
Arguments answer {K _ R} c k.

(** [SystemCall(attempt, return_value, errno_mask)]: the return value is
    passed as an [int]. *)
Definition SystemCall (r : sysret) (errno_mask : Z) : res Z :=
  if (0 <=? i32 (rv r)) || (err r =? errno_mask) then Ok (i32 (rv r)) else Fail TaggedError.

(** ** What a kernel promises *)

Definition iov_bytes (iov : list iovec) : list byte := concat (map iov_base iov).

Definition status {R} (c : syscall R) : R -> sysret :=
  match c in syscall R return R -> sysret with
  | Read _ _ | Getsockname _ | Getpeername _ => fst
  | Poll _ _ => fst
  | Socketpair _ _ | Getsockopt _ _ _ => fst
  | Recvfrom _ _ _ => fst
  | Clock => fun _ => mkRet 0 0
  | Close _ | Writev _ _ | Fcntl _ _ _ | Shutdown _ _ | Socket _ _ | Setsockopt _ _ _ _ | Bind _ _
  | Connect _ _ | Listen _ _ | Accept _ | Sendmsg _ _ _ | Open _ _ | Ioctl _ _ _ _ => fun r => r
  end.

(** The bytes a call reads from, or writes to, the descriptor [fd]. *)
Definition bytes_in {R} (c : syscall R) (fd : Z) : R -> list byte :=
  match c in syscall R return R -> list byte with
  | Read fd' _ => fun r => if (fd' =? fd) && (0 <=? rv r.1) then r.2 else []
  | _ => fun _ => []
  end.
Definition bytes_out {R} (c : syscall R) (fd : Z) : R -> list byte :=
  match c in syscall R return R -> list byte with
  | Writev fd' iov => fun r => if (fd' =? fd) && (0 <=? rv r) then ztake (rv r) (iov_bytes iov) else []
  | _ => fun _ => []
  end.

(** The documented range of each answer. *)
Definition answer_ok {R} (c : syscall R) : R -> Prop :=
  match c in syscall R return R -> Prop with
  | Read _ n => fun r => 0 <= n -> zlen r.2 <= n /\ (0 <= rv r.1 -> rv r.1 = zlen r.2)
  | Writev _ iov => fun r => rv r <= zlen (iov_bytes iov)
  | Poll fds _ => fun r => length r.2 = length fds
  | Recvfrom _ n _ => fun r => 0 <= n ->
      zlen r.2.1 <= n /\ zlen r.2.2 <= 128 /\ (0 <= rv r.1 -> zlen r.2.1 = Z.min (rv r.1) n)
  | Clock => fun t => 0 <= t < M64
  | _ => fun _ => True
  end.

Class KernelLaws (K : Type) `{Kernel K} := {
  consumed : K -> Z -> list byte;
  produced : K -> Z -> list byte;
  answers_ok : forall R (c : syscall R) k, answer_ok c (answer c k).1;
  returns_int : forall R (c : syscall R) k, -1 <= rv (status c (answer c k).1) < M31;
  errno_set : forall R (c : syscall R) k,
    rv (status c (answer c k).1) < 0 -> 0 < err (status c (answer c k).1);
  consumed_by : forall R (c : syscall R) k fd,
    consumed (answer c k).2 fd = consumed k fd ++ bytes_in c fd (answer c k).1;
  produced_by : forall R (c : syscall R) k fd,
    produced (answer c k).2 fd = produced k fd ++ bytes_out c fd (answer c k).1
}.

(** The kernel after some calls. *)
Inductive reaches {K} `{Kernel K} (k : K) : K -> Prop :=
  | reaches_refl : reaches k k
  | reaches_call R (c : syscall R) k' : reaches k k' -> reaches k (answer c k').2.

Lemma calls_trans {K} `{Kernel K} (k1 k2 k3 : K) : reaches k1 k2 -> reaches k2 k3 -> reaches k1 k3.
Proof. intros H1. induction 1; [done|by constructor]. Qed.

Lemma reaches_once {K} `{Kernel K} (k : K) R (c : syscall R) : reaches k (answer c k).2.
Proof. constructor. constructor. Qed.

(** What every call preserves holds after any calls. *)
Lemma reaches_ind_inv {K} `{Kernel K} (I : K -> Prop) (k k' : K) :
  (forall R (c : syscall R) k, I k -> I (answer c k).2) -> reaches k k' -> I k -> I k'.
Proof. intros HI. induction 1; auto. Qed.

Section systemcall.
Context {K : Type} `{KernelLaws K}.

(** With no mask, a call fails exactly when it returns a negative value. *)
Lemma SystemCall_spec R (c : syscall R) k :
  let r := status c (answer c k).1 in
  SystemCall r 0 = if 0 <=? rv r then Ok (rv r) else Fail TaggedError.
Proof.
  intros r. pose proof (returns_int R c k) as Hr. pose proof (errno_set R c k) as He. fold r in Hr, He.
  assert (Hi : i32 (rv r) = rv r) by (revert Hr; clearbody r; intros; wrap_lia).
  unfold SystemCall. rewrite Hi. destruct (Z.leb_spec 0 (rv r)); [done|].
  destruct (Z.eqb_spec (err r) 0); [lia|done].
Qed.

End systemcall.

(** ** A kernel in memory

    Every descriptor has bytes waiting to be read and takes what is written to
    it, [chunk] bytes at most per call; a datagram socket receives the same
    datagram every time; every descriptor is ready for what it is polled for;
    time advances by ten milliseconds at each look. *)

Definition POLLIN : Z := 1.
Definition POLLOUT : Z := 4.
Definition POLLERR : Z := 8.
Definition POLLHUP : Z := 16.
Definition POLLNVAL : Z := 32.

Record machine : Type := mkMachine {
  waiting : gmap Z (list byte);
  taken : gmap Z (list byte);
  sent : gmap Z (list byte);
  datagram : list byte;
  chunk : nat;
  now : Z
}.

Definition at_fd (m : gmap Z (list byte)) (fd : Z) : list byte := default [] (m !! fd).

Definition machine_read (fd count : Z) (k : machine) : (sysret * list byte) * machine :=
  let data := take ((Z.to_nat count `min` chunk k) `min` 4096) (at_fd (waiting k) fd) in
  ((mkRet (zlen data) 0, data),
   mkMachine (<[fd := drop (length data) (at_fd (waiting k) fd)]> (waiting k))
     (<[fd := at_fd (taken k) fd ++ data]> (taken k)) (sent k) (datagram k) (chunk k) (now k)).

Definition machine_writev (fd : Z) (iov : list iovec) (k : machine) : sysret * machine :=
  let data := take (chunk k `min` 4096) (iov_bytes iov) in
  (mkRet (zlen data) 0,
   mkMachine (waiting k) (taken k) (<[fd := at_fd (sent k) fd ++ data]> (sent k)) (datagram k) (chunk k) (now k)).

Definition machine_recvfrom (count : Z) (k : machine) : (sysret * (list byte * list byte)) * machine :=
  let data := take (Z.to_nat count `min` 4096) (datagram k) in
  ((mkRet (zlen data) 0, (data, [])), k).

#[export] Instance machine_kernel : Kernel machine := fun R c =>
  match c in syscall R return machine -> R * machine with
  | Read fd n => machine_read fd n
  | Writev fd iov => machine_writev fd iov
  | Recvfrom _ n _ => machine_recvfrom n
  | Sendmsg _ _ iov => fun k => (mkRet (zlen (take 4096 (iov_bytes iov))) 0, k)
  | Poll fds _ => fun k =>
      let r := map (fun p => Z.land (events p) (POLLIN + POLLOUT)) fds in
      ((mkRet (if forallb (Z.eqb 0) r then 0 else 1) 0, r), k)
  | Socketpair _ _ => fun k => ((mkRet 0 0, (3, 4)), k)
  | Getsockopt _ _ _ => fun k => ((mkRet 0 0, (1, 4)), k)
  | Getsockname _ | Getpeername _ => fun k => ((mkRet 0 0, []), k)
  | Clock => fun k => (u64 (now k), mkMachine (waiting k) (taken k) (sent k) (datagram k) (chunk k) (now k + 10))
  | Socket _ _ | Accept _ | Open _ _ => fun k => (mkRet 5 0, k)
  | Close _ | Fcntl _ _ _ | Shutdown _ _ | Setsockopt _ _ _ _ | Bind _ _ | Connect _ _ | Listen _ _
  | Ioctl _ _ _ _ => fun k => (mkRet 0 0, k)
  end.

Lemma ztake_length_take {A} n (l : list A) : ztake (zlen (take n l)) l = take n l.
Proof.
  unfold ztake, zlen. rewrite Nat2Z.id, length_take. destruct (Nat.le_ge_cases n (length l)).
  - by rewrite Nat.min_l.
  - by rewrite Nat.min_r, !take_ge.
Qed.

Lemma machine_insert_at (m : gmap Z (list byte)) fd fd' d :
  at_fd (<[fd' := at_fd m fd' ++ d]> m) fd = at_fd m fd ++ (if fd' =? fd then d else []).
Proof.
  unfold at_fd. destruct (Z.eqb_spec fd' fd) as [->|?].
  - by rewrite lookup_insert_eq.
  - by rewrite lookup_insert_ne, app_nil_r by done.
Qed.

#[export] Instance machine_laws : KernelLaws machine.
Proof.
  refine {| consumed k := at_fd (taken k); produced k := at_fd (sent k) |}; intros R c k.
  - destruct c; cbn; try done.
    + intros ?. unfold zlen. rewrite length_take. lia.
    + unfold zlen. rewrite length_take. lia.
    + by rewrite length_map.
    + intros ?. unfold zlen. rewrite length_take. cbn. lia.
    + by apply u64_range.
  - destruct c; cbn; try lia; try (unfold zlen; rewrite length_take; lia).
    destruct (forallb _ _); cbn; lia.
  - destruct c; cbn; try lia; try (unfold zlen; lia). destruct (forallb _ _); cbn; lia.
  - intros fd. destruct c; cbn; rewrite ?app_nil_r; try done.
    rewrite machine_insert_at. destruct (fd0 =? fd); [|done].
    rewrite (proj2 (Z.leb_le _ _)) by (unfold zlen; lia). done.
  - intros fd. destruct c; cbn; rewrite ?app_nil_r; try done.
    rewrite machine_insert_at. destruct (fd0 =? fd); [|done].
    rewrite (proj2 (Z.leb_le _ _)) by (unfold zlen; lia). cbn [andb]. f_equal.
    symmetry. apply ztake_length_take.
Defined.
