(* ===== verification/FileDescriptor.v ===== *)
(** * File descriptors (libsponge/util/file_descriptor.{hh,cc})

    A [FileDescriptor] is a [shared_ptr] to an [FDWrapper]: several handles may
    name the same wrapper, and the wrapper's destructor runs when the last of
    them goes away.  [sys] is the part of the program's memory that holds the
    wrappers with their use counts, together with the kernel; a handle is the
    address of a wrapper. *)

From Stdlib Require Import ZArith Lia.
From S2P Require Import Prelude Buffer Kernel.

(** ** State *)

Record FDWrapper : Type := mkFDWrapper {
  _fd : Z;
  _eof : bool;
  _closed : bool;
  _read_count : Z;
  _write_count : Z
}.

Record sys (K : Type) : Type := mkSys {
  kern : K;
  wrappers : gmap Z FDWrapper;
  use_count : gmap Z Z;
  next_ptr : Z
}.
Arguments mkSys {K}.
Arguments kern {K}.
Arguments wrappers {K}.
Arguments use_count {K}.
Arguments next_ptr {K}.

(** A [FileDescriptor] object: the pointer [_internal_fd]. *)
Abbreviation FileDescriptor := Z (only parsing).

Definition F_GETFL : Z := 3.
Definition F_SETFL : Z := 4.
Definition O_NONBLOCK : Z := 2048.
Definition BUFFER_SIZE : Z := 1048576.

Section descriptors.
Context {K : Type} `{Kernel K}.

Definition lift {A} (r : res A) : M (sys K) A := fun s => a ← r; Ok (a, s).

(** A system call, and a checked one: [SystemCall(name, call)]. *)
Definition call {R} (c : syscall R) : M (sys K) R := fun s =>
  let '(r, k) := answer c (kern s) in Ok (r, mkSys k (wrappers s) (use_count s) (next_ptr s)).

Definition checked (c : syscall sysret) : M (sys K) Z :=
  r ← call c; lift (SystemCall r 0).

(** [*_internal_fd], and an assignment to its fields. *)
Definition deref (h : FileDescriptor) : M (sys K) FDWrapper := fun s =>
  match wrappers s !! h with Some w => Ok (w, s) | None => Fail MemoryFault end.

Definition update (h : FileDescriptor) (f : FDWrapper -> FDWrapper) : M (sys K) unit := fun s =>
  match wrappers s !! h with
  | Some w => Ok (tt, mkSys (kern s) (<[h := f w]> (wrappers s)) (use_count s) (next_ptr s))
  | None => Fail MemoryFault
  end.

(** ** Operations *)

Definition wrapper_new (fd : Z) : res FDWrapper :=
  if fd <? 0 then Fail RuntimeError else Ok (mkFDWrapper fd false false 0 0).

(** [FileDescriptor(fd)]: [make_shared<FDWrapper>(fd)]. *)
Definition new (fd : Z) : M (sys K) FileDescriptor := fun s =>
  w ← wrapper_new fd;
  let h := next_ptr s in
  Ok (h, mkSys (kern s) (<[h := w]> (wrappers s)) (<[h := 1]> (use_count s)) (h + 1)).

Definition set_closed (w : FDWrapper) : FDWrapper :=
  mkFDWrapper (_fd w) true true (_read_count w) (_write_count w).
Definition set_eof (w : FDWrapper) : FDWrapper :=
  mkFDWrapper (_fd w) true (_closed w) (_read_count w) (_write_count w).

(** [FDWrapper::close()], which is also [FileDescriptor::close()]. *)
Definition close (h : FileDescriptor) : M (sys K) unit :=
  w ← deref h;
  _ ← checked (Close (_fd w));
  update h set_closed.

Definition duplicate (h : FileDescriptor) : M (sys K) FileDescriptor := fun s =>
  match use_count s !! h with
  | Some n => Ok (h, mkSys (kern s) (wrappers s) (<[h := n + 1]> (use_count s)) (next_ptr s))
  | None => Fail MemoryFault
  end.

(** [~FDWrapper()]: a failure of [close()] is printed, not thrown. *)
Definition destruct_wrapper (w : FDWrapper) (k : K) : K :=
  if _closed w then k else (answer (Close (_fd w)) k).2.

(** [~FileDescriptor()]: [~shared_ptr()]. *)
Definition release (h : FileDescriptor) : M (sys K) unit := fun s =>
  match use_count s !! h, wrappers s !! h with
  | Some n, Some w =>
    if n =? 1
    then Ok (tt, mkSys (destruct_wrapper w (kern s)) (delete h (wrappers s)) (delete h (use_count s)) (next_ptr s))
    else Ok (tt, mkSys (kern s) (wrappers s) (<[h := n - 1]> (use_count s)) (next_ptr s))
  | _, _ => Fail MemoryFault
  end.

(** Several handles go out of scope, in this order. *)
Fixpoint release_all (hs : list FileDescriptor) : M (sys K) unit :=
  match hs with
  | [] => mret tt
  | h :: hs => _ ← release h; release_all hs
  end.

Definition register_read (h : FileDescriptor) : M (sys K) unit :=
  update h (fun w => mkFDWrapper (_fd w) (_eof w) (_closed w) (u32 (_read_count w + 1)) (_write_count w)).
Definition register_write (h : FileDescriptor) : M (sys K) unit :=
  update h (fun w => mkFDWrapper (_fd w) (_eof w) (_closed w) (_read_count w) (u32 (_write_count w + 1))).

Definition fd_num (h : FileDescriptor) : M (sys K) Z := w ← deref h; mret (_fd w).
Definition eof (h : FileDescriptor) : M (sys K) bool := w ← deref h; mret (_eof w).
Definition closed (h : FileDescriptor) : M (sys K) bool := w ← deref h; mret (_closed w).
Definition read_count (h : FileDescriptor) : M (sys K) Z := w ← deref h; mret (_read_count w).
Definition write_count (h : FileDescriptor) : M (sys K) Z := w ← deref h; mret (_write_count w).

(** [str.resize(n)] with a signed [n]: a negative one becomes a huge size. *)
Definition resize_signed (n : Z) (str : list byte) : res (list byte) :=
  if n <? 0 then Fail LengthError else Ok (resize n str).

(** [read(str, limit)] returns the new value of [str].  The kernel writes the
    bytes read to the start of the string's storage. *)
Definition read_into (str : list byte) (h : FileDescriptor) (limit : Z) : M (sys K) (list byte) :=
  let size_to_read := Z.min BUFFER_SIZE limit in
  let str := resize size_to_read str in
  fd ← fd_num h;
  '(r, data) ← call (Read fd size_to_read);
  str ← lift (memcpy str 0 data 0 (zlen data));
  bytes_read ← lift (SystemCall r 0);
  _ ← (if (0 <? limit) && (bytes_read =? 0) then update h set_eof else mret tt);
  if size_to_read <? bytes_read then lift (Fail RuntimeError) else
  str ← lift (resize_signed bytes_read str);
  _ ← register_read h;
  mret str.

Definition read (h : FileDescriptor) (limit : Z) : M (sys K) (list byte) := read_into [] h limit.

(** The [do ... while] loop of [write].  [fuel] bounds the number of calls of
    [writev]: each but the last one removes a byte at least. *)
Fixpoint write_loop (fuel : nat) (h : FileDescriptor) (buffer : BufferViewList) (total_bytes_written : Z)
    (write_all : bool) : M (sys K) Z :=
  match fuel with
  | O => lift (Fail OutOfFuel)
  | S fuel =>
    let iovecs := as_iovecs buffer in
    fd ← fd_num h;
    bytes_written ← checked (Writev fd iovecs);
    if (bytes_written =? 0) && negb (views_size buffer =? 0) then lift (Fail RuntimeError) else
    if views_size buffer <? bytes_written then lift (Fail RuntimeError) else
    _ ← register_write h;
    buffer ← lift (views_remove_prefix buffer (u64 bytes_written));
    let total_bytes_written := u64 (total_bytes_written + bytes_written) in
    if write_all && negb (views_size buffer =? 0)
    then write_loop fuel h buffer total_bytes_written write_all
    else mret total_bytes_written
  end.

Definition write (h : FileDescriptor) (buffer : BufferViewList) (write_all : bool) : M (sys K) Z :=
  write_loop (S (Z.to_nat (views_size buffer))) h buffer 0 write_all.

(** [write(str, write_all)] *)
Definition write_string (h : FileDescriptor) (str : list byte) (write_all : bool) : M (sys K) Z :=
  write h (views_of_string str) write_all.

Definition set_blocking (h : FileDescriptor) (blocking_state : bool) : M (sys K) unit :=
  fd ← fd_num h;
  flags ← checked (Fcntl fd F_GETFL 0);
  let flags := if blocking_state then Z.lxor flags (Z.land flags O_NONBLOCK) else Z.lor flags O_NONBLOCK in
  _ ← checked (Fcntl fd F_SETFL flags);
  mret tt.

End descriptors.

(** ** Lemmas *)

Definition set_kern {K} (k : K) (s : sys K) : sys K :=
  mkSys k (wrappers s) (use_count s) (next_ptr s).
Definition set_wrapper {K} (h : FileDescriptor) (w : FDWrapper) (s : sys K) : sys K :=
  mkSys (kern s) (<[h := w]> (wrappers s)) (use_count s) (next_ptr s).

(** What [j] writes, and a read, do to a wrapper. *)
Definition wrote (j : Z) (w : FDWrapper) : FDWrapper :=
  mkFDWrapper (_fd w) (_eof w) (_closed w) (_read_count w) (u32 (_write_count w + j)).
Definition did_read (at_end : bool) (w : FDWrapper) : FDWrapper :=
  mkFDWrapper (_fd w) (at_end || _eof w) (_closed w) (u32 (_read_count w + 1)) (_write_count w).

Lemma wrote_wrote i j w : wrote i (wrote j w) = wrote (j + i) w.
Proof. unfold wrote. cbn. f_equal. unfold u32. rewrite Zplus_mod_idemp_l. f_equal. lia. Qed.

(** A service is seen in the counts, also when they wrap around. *)
Lemma did_read_count e w : _read_count (did_read e w) <> _read_count w.
Proof. cbn. generalize (_read_count w). intros c E. wrap_lia. Qed.

Lemma wrote_count j w : 0 < j < M32 -> _write_count (wrote j w) <> _write_count w.
Proof. cbn. generalize (_write_count w). intros c Hj E. wrap_lia. Qed.

Lemma views_size_spec l : views_size l = u64 (zlen (concat l)).
Proof.
  replace l with (views_of_list (map of_string l)) by (unfold views_of_list; rewrite map_map; apply map_id).
  unfold views_size. rewrite views_size_from_sim. fold (list_size (map of_string l)).
  by rewrite list_size_spec, concat_views.
Qed.

Lemma views_remove_prefix_spec l n :
  0 <= n <= zlen (concat l) -> zlen (concat l) < M63 ->
  exists l', views_remove_prefix l n = Ok l' /\ concat l' = zdrop n (concat l).
Proof.
  revert n. induction l as [|v l IH]; intros n Hn Hl; cbn [views_remove_prefix concat] in *.
  - change (zlen (@nil byte)) with 0 in Hn. rewrite (proj2 (Z.ltb_ge _ _)) by lia. exists [].
    split; [done|]. by assert (n = 0) as -> by lia.
  - rewrite zlen_app in *. pose proof (zlen_nonneg v). pose proof (zlen_nonneg (concat l)).
    destruct (Z.ltb_spec 0 n) as [?|?].
    2:{ assert (n = 0) as -> by lia. exists (v :: l). by split. }
    destruct (Z.ltb_spec n (zlen v)).
    + exists (zdrop n v :: l). split; [done|]. cbn. by rewrite zdrop_app_le by lia.
    + rewrite u64_small by lia. destruct (IH (n - zlen v)) as (l' & -> & Hc); [lia..|].
      exists l'. split; [done|]. by rewrite Hc, zdrop_app_ge by lia.
Qed.

Lemma iov_bytes_views l : iov_bytes (as_iovecs l) = concat l.
Proof. unfold iov_bytes, as_iovecs. rewrite map_map. cbn. by rewrite map_id. Qed.

Lemma memcpy_prefix dst src :
  zlen src <= zlen dst -> memcpy dst 0 src 0 (zlen src) = Ok (src ++ zdrop (zlen src) dst).
Proof.
  intros. pose proof (zlen_nonneg src). unfold memcpy.
  rewrite !(proj2 (Z.leb_le _ _)) by lia. cbn [andb]. f_equal. unfold splice, ztake, zdrop, zlen.
  change (Z.to_nat 0) with 0%nat. rewrite !Nat2Z.id, take_0, drop_0, firstn_all. done.
Qed.

Lemma resize_prefix (l k : list byte) : resize (zlen l) (l ++ k) = l.
Proof.
  unfold resize. rewrite ztake_app_exact by done. rewrite zlen_app. pose proof (zlen_nonneg k).
  unfold zreplicate. rewrite (Z2Nat.nonpos (zlen l - _)) by lia. apply app_nil_r.
Qed.

Lemma zlen_eqb_nil {A} `{EqDecision A} (l : list A) : (zlen l =? 0) = bool_decide (l = []).
Proof. destruct l; [done|]. rewrite bool_decide_eq_false_2 by done. apply Z.eqb_neq. unfold zlen. cbn. lia. Qed.

Section lemmas.
Context {K : Type} `{KernelLaws K}.

Lemma lift_Ok_bind {A B} (a : A) (k : A -> M (sys K) B) s : (lift (Ok a) ≫= k) s = k a s.
Proof. done. Qed.
Lemma lift_Fail_bind {A B} f (k : A -> M (sys K) B) s : (lift (Fail f) ≫= k) s = Fail f.
Proof. done. Qed.

Lemma deref_Some (s : sys K) h w : wrappers s !! h = Some w -> deref h s = Ok (w, s).
Proof. intros E. unfold deref. by rewrite E. Qed.

Lemma update_Some (s : sys K) h w f :
  wrappers s !! h = Some w -> update h f s = Ok (tt, set_wrapper h (f w) s).
Proof. intros E. unfold update. by rewrite E. Qed.

Lemma update_if_Some (b : bool) (s : sys K) h w f :
  wrappers s !! h = Some w ->
  (if b then update h f else mret tt) s = Ok (tt, set_wrapper h (if b then f w else w) s).
Proof.
  intros E. destruct b; [by apply update_Some|].
  unfold mret, M_ret, set_wrapper. rewrite insert_id by done. by destruct s.
Qed.

Lemma fd_num_Some (s : sys K) h w : wrappers s !! h = Some w -> fd_num h s = Ok (_fd w, s).
Proof. intros E. unfold fd_num. by rewrite (M_bind_Ok _ _ _ _ _ (deref_Some _ _ _ E)). Qed.

Lemma checked_spec c (s : sys K) :
  status c = (fun r => r) ->
  checked c s = (let a := answer c (kern s) in
    if 0 <=? rv a.1 then Ok (rv a.1, set_kern a.2 s) else Fail TaggedError).
Proof.
  intros Hc. pose proof (SystemCall_spec sysret c (kern s)) as Hs. rewrite Hc in Hs.
  unfold checked, mbind, M_bind, call. destruct (answer c (kern s)) as [r k]. cbn in *.
  unfold lift. rewrite Hs. by destruct (0 <=? rv r).
Qed.

(** A call of [writev] on [fd] failed, or took nothing of a non-empty vector. *)
Definition refused (fd : Z) (f : fault) : Prop :=
  exists k iov, let n := rv (answer (Writev fd iov) k).1 in
    f = TaggedError /\ n < 0 \/ f = RuntimeError /\ n = 0 /\ iov_bytes iov <> [].

Lemma checked_writev (s : sys K) fd buffer :
  match checked (Writev fd (as_iovecs buffer)) s with
  | Ok (n, s') => n = rv (answer (Writev fd (as_iovecs buffer)) (kern s)).1
      /\ 0 <= n <= zlen (concat buffer) /\ exists k, s' = set_kern k s /\ reaches (kern s) k
      /\ (forall fd', produced k fd' = produced (kern s) fd' ++ if fd =? fd' then ztake n (concat buffer) else [])
      /\ (forall fd', consumed k fd' = consumed (kern s) fd')
  | Fail f => refused fd f
  end.
Proof.
  pose proof (answers_ok _ (Writev fd (as_iovecs buffer)) (kern s)) as Ha.
  pose proof (produced_by _ (Writev fd (as_iovecs buffer)) (kern s)) as Hp.
  pose proof (consumed_by _ (Writev fd (as_iovecs buffer)) (kern s)) as Hc.
  rewrite checked_spec by done. cbn in *. rewrite iov_bytes_views in *.
  destruct (Z.leb_spec 0 (rv (answer (Writev fd (as_iovecs buffer)) (kern s)).1)) as [Hr|].
  2:{ exists (kern s), (as_iovecs buffer). by left. }
  split; [done|]. split; [lia|]. eexists. split; [done|]. split; [apply reaches_once|]. split; intros fd'.
  - rewrite Hp. by destruct (fd =? fd').
  - by rewrite Hc, app_nil_r.
Qed.

(** What a write did, seen from outside: [m] bytes of [data] went to the
    descriptor of [w] in [j] calls. *)
Definition after_write (h : FileDescriptor) (w : FDWrapper) (data : list byte) (m j : Z) (s s' : sys K) : Prop :=
  exists k, s' = set_wrapper h (wrote j w) (set_kern k s) /\ reaches (kern s) k
  /\ (forall fd, produced k fd = produced (kern s) fd ++ if _fd w =? fd then ztake m data else [])
  /\ (forall fd, consumed k fd = consumed (kern s) fd).

Lemma ztake_add {A} n m (l : list A) : 0 <= n -> 0 <= m -> ztake n l ++ ztake m (zdrop n l) = ztake (n + m) l.
Proof. intros. unfold ztake, zdrop. rewrite Z2Nat.inj_add by lia. by rewrite take_take_drop. Qed.

Lemma after_write_trans h w data n m i j s s1 s2 :
  0 <= n -> 0 <= m ->
  after_write h w data n i s s1 -> after_write h (wrote i w) (zdrop n data) m j s1 s2 ->
  after_write h w data (n + m) (i + j) s s2.
Proof.
  intros Hn Hm (k & -> & Hr & Hp & Hc) (k' & -> & Hr' & Hp' & Hc'). exists k'. cbn in *. split_and!.
  - unfold set_wrapper, set_kern. cbn. by rewrite insert_insert_eq, wrote_wrote.
  - by eapply calls_trans.
  - intros fd. rewrite Hp', Hp, <-app_assoc. f_equal. destruct (_fd w =? fd); [|done].
    by rewrite ztake_add.
  - intros fd. by rewrite Hc', Hc.
Qed.

Lemma write_loop_spec h fuel : forall buffer total write_all (s : sys K) w,
  wrappers s !! h = Some w -> zlen (concat buffer) < M63 -> (Z.to_nat (zlen (concat buffer)) < fuel)%nat ->
  match write_loop fuel h buffer total write_all s with
  | Ok (n, s') => exists m j, n = u64 (total + m) /\ 0 <= m <= zlen (concat buffer)
      /\ (concat buffer <> [] -> 0 < m) /\ (write_all = true -> m = zlen (concat buffer))
      /\ 1 <= j <= 1 + m /\ (write_all = false -> j = 1)
      /\ after_write h w (concat buffer) m j s s'
  | Fail f => refused (_fd w) f
  end.
Proof.
  induction fuel as [|fuel IH]; intros buffer total write_all s w Hw Hb Hf; [lia|].
  cbn [write_loop]. rewrite (M_bind_Ok _ _ _ _ _ (fd_num_Some _ _ _ Hw)).
  pose proof (checked_writev s (_fd w) buffer) as Hc. unfold mbind, M_bind.
  destruct (checked _ s) as [[n s1]|f]; [|exact Hc].
  destruct Hc as (En & Hn & k & -> & Hre & Hp & Hcs).
  rewrite views_size_spec, u64_small by (pose proof (zlen_nonneg (concat buffer)); lia).
  destruct ((n =? 0) && negb (zlen (concat buffer) =? 0)) eqn:E0.
  { exists (kern s), (as_iovecs buffer). right. apply andb_true_iff in E0 as [E0 E1].
    apply Z.eqb_eq in E0. apply negb_true_iff, Z.eqb_neq in E1. rewrite iov_bytes_views.
    split_and!; [done|by rewrite <-En|]. intros E. by rewrite E in E1. }
  destruct (Z.ltb_spec (zlen (concat buffer)) n); [lia|].
  unfold register_write. rewrite (update_Some _ h w) by done.
  rewrite (u64_small n) by lia.
  destruct (views_remove_prefix_spec buffer n) as (b' & -> & Hb'); [lia..|]. cbn [lift mbind res_bind].
  rewrite views_size_spec, Hb'.
  pose proof (zlen_zdrop n (concat buffer) ltac:(lia)) as Hz.
  rewrite u64_small by (pose proof (zlen_nonneg (concat buffer)); lia).
  change (mkFDWrapper _ _ _ _ _) with (wrote 1 w).
  assert (Haw : after_write h w (concat buffer) n 1 s (set_wrapper h (wrote 1 w) (set_kern k s))) by (by exists k).
  destruct (write_all && _) eqn:Ew.
  - apply andb_true_iff in Ew as [-> Ew]. apply negb_true_iff, Z.eqb_neq in Ew.
    assert (0 < n) by (destruct (Z.eqb_spec n 0), (Z.eqb_spec (zlen (concat buffer)) 0); cbn in E0; lia).
    specialize (IH b' (u64 (total + n)) true (set_wrapper h (wrote 1 w) (set_kern k s)) (wrote 1 w)).
    rewrite Hb' in IH. specialize (IH (lookup_insert_eq _ _ _) ltac:(lia) ltac:(lia)).
    destruct (write_loop _ _ _ _ _ _) as [[r s']|f]; [|done].
    destruct IH as (m & j & -> & Hm & _ & Hall & Hj & _ & Ha). specialize (Hall eq_refl).
    exists (n + m), (1 + j). split_and!; try done; try lia.
    + unfold u64. rewrite Zplus_mod_idemp_l. f_equal. lia.
    + eapply after_write_trans; [lia|lia|exact Haw|exact Ha].
  - exists n, 1. cbn. split_and!; try done; try lia.
    + intros Hne. destruct (Z.eqb_spec n 0), (Z.eqb_spec (zlen (concat buffer)) 0) as [E|]; cbn in E0; try lia.
      by apply zlen_0_inv in E.
    + intros ->. cbn in Ew. apply negb_false_iff, Z.eqb_eq in Ew. lia.
Qed.

Lemma fd_write_spec h buffer write_all (s : sys K) w :
  wrappers s !! h = Some w -> zlen (concat buffer) < M63 ->
  match write h buffer write_all s with
  | Ok (n, s') => 0 <= n <= zlen (concat buffer) /\ (concat buffer <> [] -> 0 < n)
      /\ (write_all = true -> n = zlen (concat buffer))
      /\ exists j, 1 <= j <= 1 + n /\ (write_all = false -> j = 1) /\ after_write h w (concat buffer) n j s s'
  | Fail f => refused (_fd w) f
  end.
Proof.
  intros Hw Hb. unfold write.
  pose proof (write_loop_spec h (S (Z.to_nat (views_size buffer))) buffer 0 write_all s w Hw Hb) as Hl.
  rewrite views_size_spec, u64_small in * by (pose proof (zlen_nonneg (concat buffer)); lia).
  specialize (Hl ltac:(lia)). destruct (write_loop _ _ _ _ _ _) as [[n s']|f]; [|done].
  destruct Hl as (m & j & -> & ? & ? & ? & ? & ? & ?). rewrite Z.add_0_l, u64_small by lia.
  split_and!; try done; [lia..|]. exists j. by split_and!; [lia..| |].
Qed.

(** A prefix of [l] is offered, a shorter one may be taken. *)
Lemma wp_write_prefix h l n (s : sys K) w :
  wrappers s !! h = Some w -> 0 <= n < M63 ->
  wp (write_string h (ztake n l) false) (fun m s' => 0 <= m <= n /\ after_write h w l m 1 s s')
    (fun f => f = TaggedError \/ f = RuntimeError) s.
Proof.
  intros Hw Hn. assert (Hl : zlen (ztake n l) <= n) by (unfold zlen, ztake; rewrite length_take; lia).
  pose proof (fd_write_spec h (views_of_string (ztake n l)) false s w Hw) as Hs.
  change (concat (views_of_string (ztake n l))) with (ztake n l ++ []) in Hs. rewrite app_nil_r in Hs.
  specialize (Hs ltac:(lia)). unfold write_string, wp.
  destruct (write h _ false s) as [[m s']|f].
  2:{ destruct Hs as (? & ? & [[-> _]|[-> _]]); [by left|by right]. }
  destruct Hs as (Hm & _ & _ & j & _ & Hj & k & -> & Hre & Hp & Hc). rewrite (Hj eq_refl) in *.
  split; [lia|]. exists k. split_and!; try done. intros fd. rewrite Hp. destruct (_fd w =? fd); [|done].
  f_equal. unfold ztake. rewrite take_take. f_equal. lia.
Qed.

(** What a read did: [data] was taken from the descriptor of [w]. *)
Definition after_read (h : FileDescriptor) (w : FDWrapper) (limit : Z) (data : list byte) (s s' : sys K) : Prop :=
  exists k, s' = set_wrapper h (did_read ((0 <? limit) && bool_decide (data = [])) w) (set_kern k s)
  /\ reaches (kern s) k
  /\ (forall fd, consumed k fd = consumed (kern s) fd ++ if _fd w =? fd then data else [])
  /\ (forall fd, produced k fd = produced (kern s) fd).

Lemma read_into_eq h str limit (s : sys K) w :
  wrappers s !! h = Some w -> 0 <= limit ->
  read_into str h limit s =
    (let '((r, data), k) := answer (Read (_fd w) (Z.min BUFFER_SIZE limit)) (kern s) in
     if 0 <=? rv r
     then Ok (data, set_wrapper h (did_read ((0 <? limit) && bool_decide (data = [])) w) (set_kern k s))
     else Fail TaggedError).
Proof.
  intros Hw Hl. unfold read_into. rewrite (M_bind_Ok _ _ _ _ _ (fd_num_Some _ _ _ Hw)).
  set (n := Z.min BUFFER_SIZE limit). assert (0 <= n) by (unfold n, BUFFER_SIZE; lia).
  pose proof (answers_ok _ (Read (_fd w) n) (kern s)) as Ha.
  pose proof (SystemCall_spec _ (Read (_fd w) n) (kern s)) as Hs.
  unfold mbind at 1, M_bind at 1, call.
  destruct (answer (Read (_fd w) n) (kern s)) as [[r data] k]. cbn in Ha, Hs.
  destruct Ha as [Hd Hr]; [done|].
  unfold mbind, M_bind. unfold lift at 1. rewrite memcpy_prefix by (rewrite zlen_resize by done; lia).
  cbn [mbind res_bind]. unfold lift at 1. rewrite Hs. destruct (Z.leb_spec 0 (rv r)) as [Hrv|]; [|done].
  rewrite (Hr Hrv). cbn [mbind res_bind]. rewrite update_if_Some with (w := w) by done.
  rewrite (proj2 (Z.ltb_ge n (zlen data))) by lia.
  unfold lift, resize_signed. rewrite (proj2 (Z.ltb_ge (zlen data) 0)) by apply zlen_nonneg.
  rewrite resize_prefix. cbn [mbind res_bind].
  unfold register_read. erewrite update_Some by apply lookup_insert_eq.
  unfold mret, M_ret. f_equal. f_equal. unfold set_wrapper, set_kern. cbn. f_equal. rewrite insert_insert_eq.
  f_equal. rewrite zlen_eqb_nil. unfold did_read. by destruct ((0 <? limit) && _).
Qed.

Lemma fd_read_spec h limit (s : sys K) w :
  wrappers s !! h = Some w -> 0 <= limit ->
  match read h limit s with
  | Ok (data, s') => zlen data <= Z.min BUFFER_SIZE limit /\ after_read h w limit data s s'
  | Fail f => f = TaggedError
  end.
Proof.
  intros Hw Hl. unfold read. rewrite (read_into_eq h [] limit s w Hw Hl).
  set (n := Z.min BUFFER_SIZE limit). assert (0 <= n) by (unfold n, BUFFER_SIZE; lia).
  pose proof (answers_ok _ (Read (_fd w) n) (kern s)) as Ha.
  pose proof (produced_by _ (Read (_fd w) n) (kern s)) as Hp.
  pose proof (consumed_by _ (Read (_fd w) n) (kern s)) as Hc.
  pose proof (reaches_once (kern s) _ (Read (_fd w) n)) as Hre.
  destruct (answer (Read (_fd w) n) (kern s)) as [[r data] k]. cbn in *.
  destruct (Z.leb_spec 0 (rv r)); [|done]. destruct Ha as [Hd Hr]; [done|]. split; [done|].
  exists k. split_and!; [done|exact Hre| |].
  - intros fd. by rewrite Hc, andb_true_r.
  - intros fd. by rewrite Hp, app_nil_r.
Qed.

End lemmas.

(** ** Properties *)

Section properties.
Context {K : Type} `{KernelLaws K}.

(** C26: [FileDescriptor::write] of a buffer, whatever part of it each call of
    [writev] takes.  With [write_all] it returns the size of the buffer, and
    the descriptor was given exactly its bytes, in order, nothing else; without
    it one call is made and the bytes counted are a non-empty prefix.  It fails
    only when a call of [writev] fails or takes nothing of a non-empty vector:
    on a descriptor for which that never happens it always returns. *)
Theorem write_delivers (s : sys K) (h : FileDescriptor) (w : FDWrapper) (buffer : BufferViewList)
    (write_all : bool)
    (Hh : wrappers s !! h = Some w)
    (Hsize : zlen (concat buffer) < M63) :
  match write h buffer write_all s with
  | Ok (n, s') =>
      (if write_all then n = zlen (concat buffer)
       else 0 <= n <= zlen (concat buffer) /\ (concat buffer <> [] -> 0 < n))
      /\ produced (kern s') (_fd w) = produced (kern s) (_fd w) ++ ztake n (concat buffer)
      /\ (forall fd, fd <> _fd w -> produced (kern s') fd = produced (kern s) fd)
      /\ (exists j, 1 <= j <= 1 + n /\ (write_all = false -> j = 1) /\ wrappers s' = <[h := wrote j w]> (wrappers s))
      /\ use_count s' = use_count s
  | Fail f => refused (_fd w) f /\ (f = TaggedError \/ f = RuntimeError)
  end.
Proof.
  pose proof (fd_write_spec h buffer write_all s w Hh Hsize) as Hs.
  destruct (write h buffer write_all s) as [[n s']|f].
  - destruct Hs as (Hn & Hpos & Hall & j & Hj & Hj1 & k & -> & _ & Hp & Hc). cbn. split_and!.
    + destruct write_all; [by apply Hall|by split].
    + by rewrite Hp, Z.eqb_refl.
    + intros fd Hfd. rewrite Hp. destruct (Z.eqb_spec (_fd w) fd); [congruence|]. apply app_nil_r.
    + by exists j.
    + done.
  - split; [done|]. destruct Hs as (k & iov & [[-> _]|[-> _]]); [by left|by right].
Qed.

(** [FileDescriptor::read] asks for at most a megabyte and at most
    [limit] bytes; what it returns is what the kernel handed out, the read is
    counted, and the end-of-file flag is set exactly when bytes were asked for
    and none came (it is never cleared); its only failure is a failing system
    call. *)
Theorem read_behaviour (s : sys K) (h : FileDescriptor) (w : FDWrapper) (limit : Z)
    (Hh : wrappers s !! h = Some w)
    (Hlimit : 0 <= limit) :
  match read h limit s with
  | Ok (data, s') => zlen data <= Z.min BUFFER_SIZE limit
      /\ consumed (kern s') (_fd w) = consumed (kern s) (_fd w) ++ data
      /\ (forall fd, produced (kern s') fd = produced (kern s) fd)
      /\ use_count s' = use_count s
      /\ wrappers s' = <[h := mkFDWrapper (_fd w) ((0 <? limit) && bool_decide (data = []) || _eof w) (_closed w)
           (u32 (_read_count w + 1)) (_write_count w)]> (wrappers s)
  | Fail f => f = TaggedError
  end.
Proof.
  pose proof (fd_read_spec h limit s w Hh Hlimit) as Hs.
  destruct (read h limit s) as [[data s']|f]; [|done].
  destruct Hs as (Hd & k & -> & _ & Hc & Hp). cbn. split_and!; try done. by rewrite Hc, Z.eqb_refl.
Qed.

(** [n] handles of the same wrapper going out of scope. *)
Fixpoint release_times (n : nat) (h : FileDescriptor) : M (sys K) unit :=
  match n with
  | O => mret tt
  | S n => _ ← release h; release_times n h
  end.

(** C27: a wrapper shared by [n + 1] handles: while one of them is left no
    call is made and the wrapper stays; when the last goes away the descriptor
    is closed, once, unless it was closed already, and a failure of that
    [close] is not reported. *)
Theorem last_handle_closes (s : sys K) (h : FileDescriptor) (w : FDWrapper) (n : nat)
    (Hh : wrappers s !! h = Some w)
    (Hn : use_count s !! h = Some (Z.of_nat n + 1)) :
  release_times n h s = Ok (tt, mkSys (kern s) (wrappers s) (<[h := 1]> (use_count s)) (next_ptr s))
  /\ release_times (S n) h s = Ok (tt, mkSys
       (if _closed w then kern s else (answer (Close (_fd w)) (kern s)).2)
       (delete h (wrappers s)) (delete h (use_count s)) (next_ptr s)).
Proof.
  revert s Hh Hn. induction n as [|n IH]; intros s Hh Hn.
  - split.
    + cbn. unfold mret, M_ret. rewrite insert_id by done. by destruct s.
    + cbn. unfold mbind, M_bind, release. by rewrite Hn, Hh.
  - set (s1 := mkSys (kern s) (wrappers s) (<[h := Z.of_nat n + 1]> (use_count s)) (next_ptr s)).
    assert (E : release h s = Ok (tt, s1)).
    { unfold release, s1. rewrite Hn, Hh, (proj2 (Z.eqb_neq _ _)) by lia. repeat f_equal. lia. }
    destruct (IH s1) as [E1 E2]; [done|apply lookup_insert_eq|].
    split; [change (release_times (S n) h s) with ((release h ≫= fun _ => release_times n h) s)
           |change (release_times (S (S n)) h s) with ((release h ≫= fun _ => release_times (S n) h) s)];
      rewrite (M_bind_Ok _ _ _ _ _ E).
    + rewrite E1. cbn. by rewrite insert_insert_eq.
    + rewrite E2. cbn. by rewrite delete_insert_eq.
Qed.

End properties.

(** [set_blocking] changes bit 11 of the flags, [O_NONBLOCK], only. *)
Lemma blocking_flags flags i (Hi : 0 <= i) :
  Z.testbit (Z.lxor flags (Z.land flags O_NONBLOCK)) i = Z.testbit flags i && negb (i =? 11)
  /\ Z.testbit (Z.lor flags O_NONBLOCK) i = Z.testbit flags i || (i =? 11).
Proof.
  rewrite Z.lxor_spec, Z.land_spec, Z.lor_spec. change O_NONBLOCK with (2 ^ 11).
  rewrite Z.pow2_bits_eqb by lia. rewrite (Z.eqb_sym 11 i). by destruct (Z.testbit flags i), (i =? 11).
Qed.

(** ** Witnesses *)

(** Two bytes are taken per call; five wait at descriptor 0. *)
Definition sample_sys : sys machine :=
  mkSys (mkMachine {[ 0 := [x68; x65; x6c; x6c; x6f] ]} ∅ ∅ [x68; x65; x6c; x6c; x6f] 2 0)
    {[ 7 := mkFDWrapper 0 false false 0 0 ]} {[ 7 := 3 ]} 8.

Lemma write_delivers_witness :
  wrappers sample_sys !! 7 = Some (mkFDWrapper 0 false false 0 0)
  /\ zlen (concat [[x61; x62; x63]; []; [x64; x65]]) < M63
  /\ match write 7 [[x61; x62; x63]; []; [x64; x65]] true sample_sys with
     | Ok (n, s') => n = 5 /\ produced (kern s') 0 = [x61; x62; x63; x64; x65]
     | Fail _ => False
     end.
Proof.
  split_and!; [done|done|].
  pose proof (write_delivers sample_sys 7 (mkFDWrapper 0 false false 0 0) [[x61; x62; x63]; []; [x64; x65]] true
                eq_refl ltac:(done)) as Hw.
  destruct (write _ _ _ _) as [[n s']|f] eqn:E; [|by vm_compute in E].
  destruct Hw as (-> & Hp & _). split; [done|]. etransitivity; [exact Hp|done].
Defined.

Lemma read_behaviour_witness :
  wrappers sample_sys !! 7 = Some (mkFDWrapper 0 false false 0 0) /\ 0 <= 100
  /\ match read 7 100 sample_sys with
     | Ok (data, s') => data = [x68; x65] /\ consumed (kern s') 0 = [x68; x65]
     | Fail _ => False
     end.
Proof.
  split_and!; [done|lia|].
  pose proof (read_behaviour sample_sys 7 (mkFDWrapper 0 false false 0 0) 100 eq_refl ltac:(lia)) as Hr.
  destruct (read 7 100 sample_sys) as [[data s']|f] eqn:E; [|by vm_compute in E].
  destruct Hr as (_ & Hc & _).
  assert (Ed : data = [x68; x65]) by (vm_compute in E; congruence).
  split; [exact Ed|]. rewrite <-Ed. exact Hc.
Defined.

Lemma last_handle_closes_witness :
  wrappers sample_sys !! 7 = Some (mkFDWrapper 0 false false 0 0)
  /\ use_count sample_sys !! 7 = Some (Z.of_nat 2 + 1)
  /\ match release_times 3 7 sample_sys with Ok (_, s') => wrappers s' !! 7 = None | Fail _ => False end.
Proof.
  split_and!; [done|done|].
  destruct (last_handle_closes sample_sys 7 (mkFDWrapper 0 false false 0 0) 2 eq_refl eq_refl) as [_ E].
  rewrite E. apply lookup_delete_eq.
Defined.
