(* ===== verification/EventLoop.v ===== *)
(** * The event loop (class EventLoop of libsponge/util/eventloop.{hh,cc})

    A rule waits for a descriptor to be readable or writable and then runs its
    callback.  Callbacks are closures over the objects of the component that
    installs them: here they act on a pair of the descriptors with the kernel
    ([sys K]) and the component's own state [A].  [poll] is a call to the
    kernel. *)

From Stdlib Require Import ZArith Lia.
From S2P Require Import Prelude Buffer Kernel FileDescriptor.

Inductive Direction : Type := In | Out.

Inductive Result : Type := Success | Timeout | Exit.

#[export] Instance Direction_eq_dec : EqDecision Direction.
Proof. solve_decision. Defined.
#[export] Instance Result_eq_dec : EqDecision Result.
Proof. solve_decision. Defined.

(** [static_cast<short>(direction)] *)
Definition direction_events (d : Direction) : Z :=
  match d with In => POLLIN | Out => POLLOUT end.

Definition EINTR : Z := 4.

Section eventloop.
Context {K A : Type} `{Kernel K}.

Definition world : Type := sys K * A.

(** An operation on descriptors, and one on the component's state. *)
Definition on_sys {R} (m : M (sys K) R) : M world R := fun w =>
  '(r, s) ← m w.1; Ok (r, (s, w.2)).
Definition on_app {R} (m : M A R) : M world R := fun w =>
  '(r, a) ← m w.2; Ok (r, (w.1, a)).

Record Rule : Type := mkRule {
  fd : FileDescriptor;
  direction : Direction;
  callback : M world unit;
  interest : M world bool;
  cancel : M world unit
}.

Definition service_count (r : Rule) : M world Z :=
  on_sys (match direction r with In => read_count (fd r) | Out => write_count (fd r) end).

(** [add_rule(fd, direction, callback, interest, cancel)]: the rule owns a
    duplicate of the descriptor. *)
Definition add_rule (rules : list Rule) (r : Rule) : M world (list Rule) :=
  h ← on_sys (duplicate (fd r));
  mret (rules ++ [mkRule h (direction r) (callback r) (interest r) (cancel r)]).

(** Several calls of [add_rule]. *)
Fixpoint add_rules (rules new : list Rule) : M world (list Rule) :=
  match new with
  | [] => mret rules
  | r :: new => rules ← add_rule rules r; add_rules rules new
  end.

(** [this_rule.cancel(); it = _rules.erase(it);] destroys the rule, and with
    it its descriptor. *)
Definition cancel_and_erase (r : Rule) : M world unit :=
  _ ← cancel r; on_sys (release (fd r)).

(** The first loop of [wait_next_event]: the [pollfd] of each rule, whether
    there is something to poll, and the rules left. *)
Fixpoint setup (rules : list Rule) : M world (list pollfd * bool * list Rule) :=
  match rules with
  | [] => mret ([], false, [])
  | this_rule :: rules =>
    at_eof ← on_sys (eof (fd this_rule));
    if bool_decide (direction this_rule = In) && at_eof
    then _ ← cancel_and_erase this_rule; setup rules else
    is_closed ← on_sys (closed (fd this_rule));
    if is_closed : bool then _ ← cancel_and_erase this_rule; setup rules else
    interested ← interest this_rule;
    num ← on_sys (fd_num (fd this_rule));
    let p := mkPollfd num (if interested : bool then direction_events (direction this_rule) else 0) 0 in
    '(pollfds, something_to_poll, rules) ← setup rules;
    mret (p :: pollfds, interested || something_to_poll, this_rule :: rules)
  end.

(** The kernel's answers are written to the [revents] fields. *)
Fixpoint set_revents (pollfds : list pollfd) (answers : list Z) : list pollfd :=
  match pollfds, answers with
  | p :: pollfds, r :: answers => mkPollfd (p_fd p) (events p) r :: set_revents pollfds answers
  | _, _ => pollfds
  end.

(** What the second loop does with a ready rule. *)
Definition service (this_rule : Rule) : M world unit :=
  count_before ← service_count this_rule;
  _ ← callback this_rule;
  count_after ← service_count this_rule;
  if count_before =? count_after then
    still ← interest this_rule;
    if still : bool then on_sys (lift (Fail BusyWait)) else mret tt
  else mret tt.

(** The second loop: [idx] numbers the [pollfd]s, and advances with the rules,
    also when one is erased. *)
Fixpoint dispatch (rules : list Rule) (idx : nat) (pollfds : list pollfd) : M world (list Rule) :=
  match rules with
  | [] => mret []
  | this_rule :: rules =>
    this_pollfd ← on_sys (lift (match pollfds !! idx with Some p => Ok p | None => Fail MemoryFault end));
    let poll_error := negb (Z.land (revents this_pollfd) (Z.lor POLLERR POLLNVAL) =? 0) in
    if poll_error then on_sys (lift (Fail PollError)) else
    let poll_ready := negb (Z.land (revents this_pollfd) (events this_pollfd) =? 0) in
    let poll_hup := negb (Z.land (revents this_pollfd) POLLHUP =? 0) in
    if poll_hup && negb (events this_pollfd =? 0) && negb poll_ready
    then _ ← cancel_and_erase this_rule; dispatch rules (S idx) pollfds else
    _ ← (if poll_ready then service this_rule else mret tt);
    rest ← dispatch rules (S idx) pollfds;
    mret (this_rule :: rest)
  end.

(** [wait_next_event(timeout_ms)] returns its result and the new [_rules].
    The [catch] clause looks at the error of a failing [poll] and, when it is
    not [EINTR], does nothing; a [poll] that fails writes no [revents]. *)
Definition wait_next_event (timeout_ms : Z) (rules : list Rule) : M world (Result * list Rule) :=
  '(pollfds, something_to_poll, rules) ← setup rules;
  if negb something_to_poll then mret (Exit, rules) else
  '(r, answers) ← on_sys (call (Poll pollfds timeout_ms));
  match SystemCall r 0 with
  | Ok 0 => mret (Timeout, rules)
  | Ok _ => rules ← dispatch rules 0 (set_revents pollfds answers); mret (Success, rules)
  | Fail _ =>
    if err r =? EINTR then mret (Exit, rules) else
    rules ← dispatch rules 0 pollfds; mret (Success, rules)
  end.

(** [~EventLoop()] destroys the rules, and with them their descriptors. *)
Definition destroy_rules (rules : list Rule) : M world unit := on_sys (release_all (map fd rules)).

End eventloop.
Arguments world : clear implicits.
Arguments Rule : clear implicits.

Lemma wp_and {S X} (m : M S X) (Q Q' : X -> S -> Prop) F s :
  wp m Q F s -> wp m Q' (fun _ => True) s -> wp m (fun a s' => Q a s' /\ Q' a s') F s.
Proof. unfold wp. by destruct (m s) as [[a s']|f]. Qed.

Lemma sublist_Forall {X} (P : X -> Prop) l k : sublist l k -> Forall P k -> Forall P l.
Proof. induction 1; intros Hk; [done| |]; apply Forall_cons_1 in Hk as [? ?]; [constructor|]; auto. Qed.

Lemma Forall2_impl_r {X Y} (R R' : X -> Y -> Prop) (Q : Y -> Prop) l k :
  Forall2 R l k -> Forall Q k -> (forall x y, Q y -> R x y -> R' x y) -> Forall2 R' l k.
Proof. induction 1; intros HQ HR; constructor; apply Forall_cons_1 in HQ as [? ?]; auto. Qed.

(** ** The contract between a loop and its rules *)

Section contract.
Context {K A : Type} `{KernelLaws K}.

Definition count_of (d : Direction) (w : FDWrapper) : Z :=
  match d with In => _read_count w | Out => _write_count w end.

Definition set_counts (c : gmap Z Z) (s : sys K) : sys K := mkSys (kern s) (wrappers s) c (next_ptr s).

(** A predicate that says nothing of use counts and survives a call of
    [poll]. *)
Record loop_invariant (J : world K A -> Prop) : Prop := {
  li_counts : forall s a c, J (s, a) -> J (set_counts c s, a);
  li_poll : forall s a fds t, J (s, a) -> J (set_kern (answer (Poll fds t) (kern s)).2 s, a)
}.

(** A rule the loop can run, for an invariant [J] of its component, the faults
    [F] its callbacks may have, and what a callback may rely on ([P r], which
    an interested rule has): its interest can be asked at any time, its
    callback and its [cancel] keep the invariant, and after a callback the
    descriptor was read or written, or the rule is no longer interested. *)
Record good_rule (J : world K A -> Prop) (F : fault -> Prop) (P : Rule K A -> world K A -> Prop)
    (r : Rule K A) : Prop := {
  gr_pre : loop_invariant (P r);
  gr_fd : forall w, J w -> is_Some (wrappers w.1 !! fd r);
  gr_interest : forall w, J w -> exists b, interest r w = Ok (b, w) /\ (b = true -> P r w);
  gr_callback : forall w x, J w -> P r w -> wrappers w.1 !! fd r = Some x ->
    wp (callback r) (fun _ w' => J w' /\ use_count w'.1 = use_count w.1
      /\ ((exists x', wrappers w'.1 !! fd r = Some x' /\ count_of (direction r) x <> count_of (direction r) x')
         \/ interest r w' = Ok (false, w'))) F w;
  gr_cancel : forall w, J w ->
    wp (cancel r) (fun _ w' => J w' /\ use_count w'.1 = use_count w.1) F w
}.

(** The events of [r], run first, leave alone what [r'] relies on; so does the
    [cancel] of [r'] with [r]. *)
Record compatible (J : world K A -> Prop) (P : Rule K A -> world K A -> Prop) (r r' : Rule K A) : Prop := {
  cp_callback : forall w, J w -> P r w -> P r' w -> wp (callback r) (fun _ w' => P r' w') (fun _ => True) w;
  cp_cancel : forall w, J w -> P r' w -> wp (cancel r) (fun _ w' => P r' w') (fun _ => True) w;
  cp_cancel_later : forall w, J w -> P r w -> wp (cancel r') (fun _ w' => P r w') (fun _ => True) w
}.

(** [hs] are handles in existence: the use counts account for all of them. *)
Definition holds (hs : list Z) (s : sys K) : Prop :=
  forall h, h ∈ hs -> exists n, use_count s !! h = Some n /\ Z.of_nat (count_occ Z.eq_dec hs h) <= n.

Lemma holds_counts hs s s' : use_count s' = use_count s -> holds hs s -> holds hs s'.
Proof. unfold holds. by intros ->. Qed.

Lemma holds_perm hs hs' s : Permutation hs hs' -> holds hs s -> holds hs' s.
Proof.
  intros Hp Hh h Hin. destruct (Hh h) as (n & ? & ?); [by rewrite Hp|].
  exists n. split; [done|]. by rewrite <-(proj1 (Permutation_count_occ Z.eq_dec hs hs') Hp h).
Qed.

(** A handle that is not the last one goes away. *)
Lemma release_shared h hs (s : sys K) w :
  wrappers s !! h = Some w -> holds (h :: hs) s -> h ∈ hs ->
  exists c, release h s = Ok (tt, set_counts c s) /\ holds hs (set_counts c s).
Proof.
  intros Hw Hh Hin. destruct (Hh h) as (n & Hn & Hc); [by left|].
  rewrite count_occ_cons_eq in Hc by done.
  assert (0 < count_occ Z.eq_dec hs h)%nat by (by apply count_occ_In, list_elem_of_In).
  exists (<[h := n - 1]> (use_count s)). split.
  - unfold release. rewrite Hn, Hw, (proj2 (Z.eqb_neq _ _)) by lia. done.
  - intros h' Hin'. destruct (decide (h' = h)) as [->|Hne]; cbn.
    + exists (n - 1). rewrite lookup_insert_eq. split; [done|lia].
    + destruct (Hh h') as (n' & ? & Hc'); [by right|]. rewrite count_occ_cons_neq in Hc' by done.
      exists n'. by rewrite lookup_insert_ne by done.
Qed.

(** Handles go away one after the other; the others stay what they are, and no
    bytes move. *)
Lemma release_one h hs (s : sys K) :
  holds (h :: hs) s -> (forall h', h' ∈ h :: hs -> is_Some (wrappers s !! h')) ->
  exists s', release h s = Ok (tt, s') /\ holds hs s' /\ next_ptr s' = next_ptr s
    /\ (forall h', h' ∈ hs -> wrappers s' !! h' = wrappers s !! h')
    /\ (forall fd, consumed (kern s') fd = consumed (kern s) fd /\ produced (kern s') fd = produced (kern s) fd).
Proof.
  intros Hh Hw. destruct (Hw h) as [w Hx]; [by left|]. destruct (decide (h ∈ hs)) as [Hin|Hin].
  { destruct (release_shared h hs s w Hx Hh Hin) as (c & E & Hh'). by exists (set_counts c s). }
  destruct (Hh h) as (n & Hn & Hc); [by left|]. unfold release. rewrite Hn, Hx.
  assert (Hocc : forall h', h' ∈ hs -> exists n', use_count s !! h' = Some n' /\ Z.of_nat (count_occ Z.eq_dec hs h') <= n').
  { intros h' Hin'. destruct (Hh h') as (n' & ? & Hc'); [by right|]. rewrite count_occ_cons_neq in Hc' by congruence. eauto. }
  destruct (n =? 1); eexists; (split; [done|]); cbn.
  - split_and!; [|done| |].
    + intros h' Hin'. destruct (Hocc h' Hin') as (n' & Hn' & ?). exists n'. cbn. by rewrite lookup_delete_ne by congruence.
    + intros h' Hin'. apply lookup_delete_ne. congruence.
    + intros fd. unfold destruct_wrapper. destruct (_closed w); [done|]. by rewrite consumed_by, produced_by, !app_nil_r.
  - split_and!; [|done|done|done].
    intros h' Hin'. destruct (Hocc h' Hin') as (n' & Hn' & ?). exists n'. cbn. by rewrite lookup_insert_ne by congruence.
Qed.

Lemma release_all_ok hs : forall os (s : sys K),
  holds (hs ++ os) s -> (forall h, h ∈ hs ++ os -> is_Some (wrappers s !! h)) ->
  exists s', release_all hs s = Ok (tt, s') /\ holds os s' /\ next_ptr s' = next_ptr s
    /\ (forall h, h ∈ os -> wrappers s' !! h = wrappers s !! h)
    /\ (forall fd, consumed (kern s') fd = consumed (kern s) fd /\ produced (kern s') fd = produced (kern s) fd).
Proof.
  induction hs as [|h hs IH]; intros os s Hh Hw; cbn [release_all]; [by exists s|].
  destruct (release_one h (hs ++ os) s Hh Hw) as (s1 & E1 & Hh1 & Hn1 & Hw1 & Hk1).
  rewrite (M_bind_Ok _ _ _ _ _ E1). destruct (IH os s1 Hh1) as (s' & E & Hh' & Hn' & Hw' & Hk').
  { intros h' Hin. rewrite Hw1 by done. apply Hw. by right. }
  exists s'. split_and!; [done|done|congruence| |].
  - intros h' Hin. rewrite Hw' by done. apply Hw1, elem_of_app. by right.
  - intros fd. destruct (Hk' fd) as [-> ->]. apply Hk1.
Qed.

(** A handle is copied. *)
Lemma holds_duplicate h hs (s : sys K) :
  holds hs s -> h ∈ hs -> exists c, duplicate h s = Ok (h, set_counts c s) /\ holds (hs ++ [h]) (set_counts c s).
Proof.
  intros Hh Hin. destruct (Hh h Hin) as (n & Hn & Hc). unfold duplicate. rewrite Hn.
  exists (<[h := n + 1]> (use_count s)). split; [done|].
  intros h' Hin'. cbn. rewrite count_occ_app. cbn. destruct (Z.eq_dec h h') as [<-|Hne].
  - exists (n + 1). rewrite lookup_insert_eq. split; [done|lia].
  - assert (h' ∈ hs) as Hin2
      by (apply elem_of_app in Hin' as [?|Hin']; [done|by apply list_elem_of_singleton in Hin'; subst]).
    destruct (Hh h' Hin2) as (m & ? & ?). exists m. rewrite lookup_insert_ne by done. split; [done|lia].
Qed.

Lemma wp_on_sys {R} (m : M (sys K) R) (Q : R -> world K A -> Prop) F (w : world K A) :
  wp m (fun r s => Q r (s, w.2)) F w.1 -> wp (on_sys m) Q F w.
Proof. unfold wp, on_sys. by destruct (m w.1) as [[r s]|]. Qed.

Lemma wp_field {R} (f : FDWrapper -> R) h x (Q : R -> world K A -> Prop) F (w : world K A) :
  wrappers w.1 !! h = Some x -> Q (f x) w -> wp (on_sys (y ← deref h; mret (f y))) Q F w.
Proof.
  intros Hx HQ. apply wp_on_sys. destruct w as [s a]. cbn in *.
  eapply wp_Ok; [by rewrite (M_bind_Ok _ _ _ _ _ (deref_Some _ _ _ Hx))|done].
Qed.

Section rules.
Context (J : world K A -> Prop) (F : fault -> Prop) (P : Rule K A -> world K A -> Prop).
Hypothesis HJ : loop_invariant J.

(** New rules hold one more handle each of descriptors the component keeps. *)
Lemma wp_add_rules os new : forall rules w,
  J w -> holds (os ++ map fd rules) w.1 -> Forall (fun r : Rule K A => fd r ∈ os) new ->
  wp (add_rules rules new) (fun rules' w' => rules' = rules ++ new /\ J w'
    /\ holds (os ++ map fd rules') w'.1 /\ w'.2 = w.2) F w.
Proof.
  induction new as [|r new IH]; intros rules [s a] Hi Hh Hn; cbn [add_rules].
  { apply wp_ret. by rewrite app_nil_r. }
  apply Forall_cons_1 in Hn as [Hr Hn].
  destruct (holds_duplicate (fd r) _ s Hh) as (c & E & Hh'); [by apply elem_of_app; left|].
  apply wp_bind, wp_bind, wp_on_sys. eapply wp_Ok; [exact E|]. apply wp_ret. cbn [fst snd].
  assert (mkRule (fd r) (direction r) (callback r) (interest r) (cancel r) = r) as -> by (by destruct r).
  eapply wp_mono; [apply IH; [|by rewrite map_app, app_assoc|done]| |done].
  - by apply (li_counts J HJ).
  - intros rules' w' (-> & ? & ? & E2). rewrite <-app_assoc in *. by rewrite E2.
Qed.

(** The rules of a loop, with the handles [os] their component keeps. *)
Record loop_ok (os : list Z) (rules : list (Rule K A)) (w : world K A) : Prop := {
  lo_inv : J w;
  lo_good : Forall (good_rule J F P) rules;
  lo_compatible : ForallOrdPairs (compatible J P) rules;
  lo_owned : Forall (fun r : Rule K A => fd r ∈ os) rules;
  lo_holds : holds (os ++ map fd rules) w.1
}.

Lemma holds_keep os (r : Rule K A) rules s :
  holds (os ++ map fd (r :: rules)) s <-> holds ((os ++ [fd r]) ++ map fd rules) s.
Proof. by rewrite <-app_assoc. Qed.

Lemma loop_ok_keep os r rules w : loop_ok os (r :: rules) w -> loop_ok (os ++ [fd r]) rules w.
Proof.
  intros [? Hg Hc Ho Hh]. apply Forall_cons_1 in Hg as [? ?], Ho as [? Ho]. inversion Hc; subst. split; try done.
  - eapply Forall_impl; [exact Ho|]. cbn. set_solver.
  - by apply holds_keep.
Qed.

(** The rules left, when the first is kept and those after it were worked on. *)
Lemma loop_ok_back os r rules rules' w w' :
  loop_ok os (r :: rules) w -> loop_ok (os ++ [fd r]) rules' w' -> sublist rules' rules ->
  loop_ok os (r :: rules') w'.
Proof.
  intros [_ Hg Hc Ho _] [Hi Hg' Hc' _ Hh] Hs. inversion Hc as [|?? Hc1]; subst. split; [done| | | |by apply holds_keep].
  - constructor; [by apply (Forall_inv Hg)|done].
  - constructor; [|done]. by eapply sublist_Forall.
  - eapply sublist_Forall; [by constructor|exact Ho].
Qed.

(** One rule runs its [cancel] and leaves; [X] is anything its [cancel]
    leaves alone. *)
Lemma wp_cancel_and_erase (X : world K A -> Prop) os r rules w :
  loop_invariant X -> (forall w, J w -> X w -> wp (cancel r) (fun _ => X) (fun _ => True) w) ->
  loop_ok os (r :: rules) w -> X w ->
  wp (cancel_and_erase r) (fun _ w' => loop_ok os rules w' /\ X w') F w.
Proof.
  intros HX HXc [Hi Hg Hc Ho Hh] Hx. apply Forall_cons_1 in Hg as [Hr Hg], Ho as [Hro Ho]. inversion Hc; subst.
  apply wp_bind. eapply wp_mono; [exact (wp_and _ _ _ _ _ (gr_cancel J F P r Hr w Hi) (HXc w Hi Hx))| |done].
  intros _ [s a] [[Hi' Hu] Hx']. destruct (gr_fd J F P r Hr _ Hi') as [x Hw]. cbn in Hw, Hu.
  destruct (release_shared (fd r) (os ++ map fd rules) s x Hw) as (c & E & Hh').
  { eapply holds_counts; [exact Hu|]. eapply holds_perm; [|exact Hh]. cbn. by rewrite <-Permutation_middle. }
  { set_solver. }
  apply wp_on_sys. eapply wp_Ok; [exact E|].
  split; [split; try done; by apply (li_counts J HJ)|by apply (li_counts X HX)].
Qed.

(** A [pollfd] of the first loop: it asks for the rule's direction, and then
    the rule has what its callback relies on, or for nothing. *)
Definition pollfd_ok (w : world K A) (p : pollfd) (r : Rule K A) : Prop :=
  events p <> 0 -> P r w.

Definition leaves_alone (X : world K A -> Prop) (r : Rule K A) : Prop :=
  forall w, J w -> X w -> wp (cancel r) (fun _ => X) (fun _ => True) w.

Lemma wp_setup rules : forall os w (X : world K A -> Prop),
  loop_invariant X -> Forall (leaves_alone X) rules -> loop_ok os rules w -> X w ->
  wp (setup rules) (fun '(ps, any, rules') w' => (loop_ok os rules' w' /\ X w') /\ sublist rules' rules
    /\ Forall2 (pollfd_ok w') ps rules' /\ any = existsb (fun p => negb (events p =? 0)) ps) F w.
Proof.
  induction rules as [|r rules IH]; intros os w X HX HXr Hok Hx; cbn [setup].
  { apply wp_ret. by split_and!. }
  apply Forall_cons_1 in HXr as [HXr HXs].
  assert (Herase : wp (_ ← cancel_and_erase r; setup rules) (fun '(ps, any, rules') w' =>
      (loop_ok os rules' w' /\ X w') /\ sublist rules' (r :: rules)
      /\ Forall2 (pollfd_ok w') ps rules' /\ any = existsb (fun p => negb (events p =? 0)) ps) F w).
  { apply wp_bind. eapply wp_mono; [exact (wp_cancel_and_erase X _ _ _ _ HX HXr Hok Hx)| |done].
    intros ? w' [Hok' Hx']. eapply wp_mono; [exact (IH os w' X HX HXs Hok' Hx')| |done].
    intros [[ps any] rules'] w'' ([? ?] & ? & ? & ?). split_and!; try done; by constructor. }
  pose proof (lo_inv _ _ _ Hok) as Hi. pose proof (lo_good _ _ _ Hok) as Hg. apply Forall_cons_1 in Hg as [Hr _].
  pose proof (lo_compatible _ _ _ Hok) as Hc. inversion Hc as [|?? Hc1 _]; subst.
  destruct (gr_fd J F P r Hr w Hi) as [x Hw].
  apply wp_bind, (wp_field _eof _ x); [done|]. case_match; [done|].
  apply wp_bind, (wp_field _closed _ x); [done|]. case_match; [done|].
  destruct (gr_interest J F P r Hr w Hi) as (b & Hb & HP). apply wp_bind. eapply wp_Ok; [exact Hb|].
  apply wp_bind, (wp_field _fd _ x); [done|]. apply wp_bind.
  assert (HXP : loop_invariant (fun w => X w /\ (b = true -> P r w))).
  { destruct HX as [X1 X2], (gr_pre J F P r Hr) as [P1 P2]. split; [intros ??? [? ?]|intros ???? [? ?]]; split; auto. }
  assert (HXPr : Forall (leaves_alone (fun w => X w /\ (b = true -> P r w))) rules).
  { apply Forall_forall. intros r' Hin w1 Hi1 [Hx1 HP1]. rewrite Forall_forall in HXs, Hc1.
    pose proof (HXs r' Hin w1 Hi1 Hx1) as H1X. destruct b.
    - eapply wp_mono; [exact (wp_and _ _ _ _ _ H1X (cp_cancel_later _ _ _ _ (Hc1 r' Hin) w1 Hi1 (HP1 eq_refl)))| |done].
      by intros ? ? [? ?].
    - eapply wp_mono; [exact H1X| |done]. intros ? ? ?. by split. }
  eapply wp_mono; [exact (IH _ _ _ HXP HXPr (loop_ok_keep _ _ _ _ Hok) (conj Hx HP))| |done].
  intros [[ps any] rules'] w' ((Hok' & Hx' & HP') & Hs & Hps & ->). apply wp_ret. split_and!.
  - by eapply loop_ok_back.
  - done.
  - by constructor.
  - constructor; [|done]. intros Hev. apply HP'. by destruct b.
  - cbn. by destruct b, (direction r).
Qed.

(** The answers do not change what was asked for. *)
Lemma set_revents_ok w ps : forall answers (rules : list (Rule K A)),
  Forall2 (pollfd_ok w) ps rules -> length answers = length ps ->
  Forall2 (pollfd_ok w) (set_revents ps answers) rules.
Proof.
  induction ps as [|p ps IH]; intros [|x answers] rules Hf Hl; inversion Hf; subst; try done.
  cbn. constructor; [done|]. apply IH; [done|]. cbn in Hl. lia.
Qed.

(** The callback of a ready rule, with the check that follows it; [X] is
    anything the callback leaves alone. *)
Lemma wp_service (X : world K A -> Prop) os r rules w :
  (wp (callback r) (fun _ => X) (fun _ => True) w) ->
  loop_ok os (r :: rules) w -> P r w ->
  wp (service r) (fun _ w' => loop_ok os (r :: rules) w' /\ X w') F w.
Proof.
  intros HX Hok HP. unfold service. pose proof (lo_inv _ _ _ Hok) as Hi. pose proof (lo_good _ _ _ Hok) as Hg.
  apply Forall_cons_1 in Hg as [Hr _]. destruct (gr_fd J F P r Hr w Hi) as [x Hx].
  assert (Hcount : forall (Q : Z -> world K A -> Prop) w' y, wrappers w'.1 !! fd r = Some y ->
      Q (count_of (direction r) y) w' -> wp (service_count r) Q F w').
  { intros Q w' y Hy HQ. unfold service_count, count_of in *.
    by destruct (direction r); [apply (wp_field _read_count _ y)|apply (wp_field _write_count _ y)]. }
  apply wp_bind, (Hcount _ _ x); [done|]. apply wp_bind.
  eapply wp_mono; [exact (wp_and _ _ _ _ _ (gr_callback J F P r Hr w x Hi HP Hx) HX)| |done].
  intros _ w' [(Hi' & Hc & Hserved) Hx'].
  assert (Hok' : loop_ok os (r :: rules) w').
  { destruct Hok. split; try done. by eapply holds_counts. }
  destruct (gr_fd J F P r Hr w' Hi') as [x' Hw']. apply wp_bind, (Hcount _ _ x'); [done|].
  destruct (Z.eqb_spec (count_of (direction r) x) (count_of (direction r) x')) as [E|]; [|by apply wp_ret].
  destruct Hserved as [(x'' & Hx'' & Hne)|Hlost]; [simplify_eq/=; congruence|].
  apply wp_bind. by eapply wp_Ok; [exact Hlost|].
Qed.

(** A step that leaves alone what each of some rules relies on leaves alone
    what they rely on together. *)
Lemma wp_pending {R} (m : M (world K A) R) ps rules w :
  Forall2 (pollfd_ok w) ps rules ->
  Forall (fun r => P r w -> wp m (fun _ w' => P r w') (fun _ => True) w) rules ->
  wp m (fun _ w' => Forall2 (pollfd_ok w') ps rules) (fun _ => True) w.
Proof.
  intros Hf Hr. unfold wp in *. destruct (m w) as [[r w']|f]; [|done].
  induction Hf as [|p r' ps rules Hp Hf IH]; [constructor|].
  apply Forall_cons_1 in Hr as [Hr' Hr]. constructor; [|by apply IH]. intros Hev. apply Hr', Hp, Hev.
Qed.

Lemma pending_invariant ps rules :
  Forall (good_rule J F P) rules -> loop_invariant (fun w => Forall2 (pollfd_ok w) ps rules).
Proof.
  intros Hg. split; [intros s a c Hf|intros s a fds t Hf]; eapply Forall2_impl_r; try exact Hf; try exact Hg;
    intros p r Hr Hp Hev; [apply (li_counts _ (gr_pre _ _ _ _ Hr))|apply (li_poll _ (gr_pre _ _ _ _ Hr))]; by apply Hp.
Qed.

Lemma wp_dispatch ps rules : forall idx os w,
  loop_ok os rules w -> Forall2 (pollfd_ok w) (drop idx ps) rules ->
  wp (dispatch rules idx ps) (fun rules' w' => loop_ok os rules' w' /\ sublist rules' rules)
    (fun f => F f \/ f = PollError) w.
Proof.
  induction rules as [|r rules IH]; intros idx os w Hok Hps; cbn [dispatch].
  { by apply wp_ret. }
  pose proof (lo_inv _ _ _ Hok) as Hi. pose proof (lo_good _ _ _ Hok) as Hg.
  pose proof (lo_compatible _ _ _ Hok) as Hc. inversion Hc as [|?? Hc1 _]; subst.
  destruct (lookup_lt_is_Some_2 ps idx) as [p Hp].
  { apply Forall2_length in Hps. rewrite length_drop in Hps. cbn in Hps. lia. }
  rewrite (drop_S _ _ _ Hp) in Hps. inversion Hps as [|???? Hp1 Hps']; subst. rewrite Hp.
  apply wp_bind. destruct w as [s a]. eapply wp_Ok; [done|]. destruct (negb (Z.land (revents p) _ =? 0)); [by right|].
  set (X := fun w' => Forall2 (pollfd_ok w') (drop (S idx) ps) rules).
  destruct (_ && _ && _).
  - apply wp_bind. eapply wp_mono; [apply (wp_cancel_and_erase X os r rules); [|  |done|done]| |by left].
    + apply pending_invariant. by apply Forall_cons_1 in Hg as [_ ?].
    + intros w' Hi' HX. apply wp_pending; [done|].
      eapply Forall_impl; [exact Hc1|]. intros r' Hr' HP'. by apply (cp_cancel _ _ _ _ Hr').
    + intros ? w' [Hok' HX]. eapply wp_mono; [by apply (IH (S idx) os w' Hok')| |done].
      intros rules' w'' [? ?]. split; [done|by constructor].
  - apply wp_bind. eapply wp_mono with (F := F) (Q := fun _ w' => loop_ok os (r :: rules) w' /\ X w').
    + destruct (negb (Z.land (revents p) (events p) =? 0)) eqn:Er; [|by apply wp_ret].
      assert (HP : P r (s, a)). { apply Hp1. intros E. by rewrite E, Z.land_0_r in Er. }
      apply wp_service; [|done|done]. apply wp_pending; [done|].
      eapply Forall_impl; [exact Hc1|]. intros r' Hr' HP'. by apply (cp_callback _ _ _ _ Hr').
    + intros ? w' [Hok' HX]. apply wp_bind.
      eapply wp_mono; [by apply (IH (S idx) _ w' (loop_ok_keep _ _ _ _ Hok'))| |done].
      intros rules' w'' [Hok'' Hs]. apply wp_ret. split; [|by constructor]. by eapply loop_ok_back.
    + by left.
Qed.

(** The whole of [wait_next_event]. *)
Lemma wp_wait os rules t w :
  loop_ok os rules w ->
  wp (wait_next_event t rules) (fun '(_, rules') w' => loop_ok os rules' w' /\ sublist rules' rules)
    (fun f => F f \/ f = PollError) w.
Proof.
  intros Hok. unfold wait_next_event. apply wp_bind.
  eapply wp_mono; [apply (wp_setup rules os w (fun _ => True)); [done| |done|done]| |by left].
  { apply Forall_forall. intros r _ w' _ _. unfold wp. by destruct (cancel r w') as [[]|]. }
  intros [[ps any] rules'] [s a] ([Hok' _] & Hs & Hps & ->).
  destruct (negb (existsb _ _)); [by apply wp_ret|].
  apply wp_bind, wp_on_sys. unfold call.
  pose proof (answers_ok _ (Poll ps t) (kern s)) as Ha.
  assert (Hok2 : loop_ok os rules' (set_kern (answer (Poll ps t) (kern s)).2 s, a)).
  { destruct Hok'. split; try done. by apply (li_poll J HJ). }
  assert (Hps2 : Forall2 (pollfd_ok (set_kern (answer (Poll ps t) (kern s)).2 s, a)) ps rules').
  { apply (li_poll _ (pending_invariant ps rules' (lo_good _ _ _ Hok'))), Hps. }
  cbn [fst snd]. unfold wp at 1. destruct (answer (Poll ps t) (kern s)) as [[r answers] k]. cbn in Ha, Hok2, Hps2.
  fold (set_kern k s).
  assert (Hd : forall ps', Forall2 (pollfd_ok (set_kern k s, a)) ps' rules' ->
    wp (rules ← dispatch rules' 0 ps'; mret (Success, rules))
      (fun '(_, rules'') w' => loop_ok os rules'' w' /\ sublist rules'' rules) (fun f => F f \/ f = PollError)
      (set_kern k s, a)).
  { intros ps' Hl. apply wp_bind. eapply wp_mono; [by apply (wp_dispatch ps' rules' 0 os _ Hok2)| |done].
    intros rules'' w'' [? ?]. apply wp_ret. split; [done|]. by etrans. }
  destruct (SystemCall r 0) as [[|n|n]|f].
  - by apply wp_ret.
  - apply Hd. by apply set_revents_ok.
  - apply Hd. by apply set_revents_ok.
  - destruct (err r =? EINTR); [by apply wp_ret|]. by apply Hd.
Qed.

End rules.

End contract.

(** ** What a loop leaves alone

    A relation between the worlds before and after that holds for every step
    on descriptors and for every callback holds for the loop. *)

Section frame.
Context {K A : Type} `{Kernel K}.
Context (R : world K A -> world K A -> Prop).

Definition frames {X} (m : M (world K A) X) : Prop := forall w, wp m (fun _ w' => R w w') (fun _ => True) w.

Definition frames_rule (r : Rule K A) : Prop := frames (callback r) /\ frames (interest r) /\ frames (cancel r).

Context `{!PreOrder R} (Hsys : forall s s' a, R (s, a) (s', a)).

Lemma frames_ret {X} (x : X) : frames (mret x).
Proof using PreOrder0. intros w. apply wp_ret. reflexivity. Qed.

Lemma frames_bind {X Y} (m : M (world K A) X) (k : X -> M (world K A) Y) :
  frames m -> (forall x, frames (k x)) -> frames (m ≫= k).
Proof using PreOrder0.
  intros Hm Hk w. apply wp_bind. eapply wp_mono; [apply Hm| |done]. intros x w' Hw. cbn beta.
  eapply wp_mono; [apply Hk| |done]. intros y w'' Hw'. etransitivity; [exact Hw|exact Hw'].
Qed.

Lemma frames_on_sys {X} (m : M (sys K) X) : frames (on_sys m).
Proof using Hsys. intros [s a]. unfold wp, on_sys. cbn. by destruct (m s) as [[x s']|]; cbn. Qed.

#[local] Hint Resolve frames_ret frames_bind frames_on_sys : core.

Lemma frames_if {X} (b : bool) (m m' : M (world K A) X) : frames m -> frames m' -> frames (if b then m else m').
Proof using. by destruct b. Qed.

Lemma frames_setup rules : Forall frames_rule rules -> frames (setup rules).
Proof using PreOrder0 Hsys.
  induction 1 as [|r rules (Hc & Hi & Hx) _ IH]; cbn [setup]; [auto|].
  assert (Herase : frames (_ ← cancel_and_erase r; setup rules)) by (apply frames_bind; [by apply frames_bind|auto]).
  apply frames_bind; [auto|]. intros e. apply frames_if; [done|]. apply frames_bind; [auto|]. intros c.
  apply frames_if; [done|]. apply frames_bind; [auto|]. intros i. apply frames_bind; [auto|]. intros n.
  apply frames_bind; [auto|]. intros [[ps any] rs]. auto.
Qed.

Lemma frames_dispatch rules : Forall frames_rule rules -> forall idx ps, frames (dispatch rules idx ps).
Proof using PreOrder0 Hsys.
  induction 1 as [|r rules (Hc & Hi & Hx) _ IH]; intros idx ps; cbn [dispatch]; [auto|].
  apply frames_bind; [auto|]. intros p. apply frames_if; [auto|]. apply frames_if.
  - apply frames_bind; [by apply frames_bind|auto].
  - apply frames_bind; [|intros _; apply frames_bind; auto]. apply frames_if; [|auto].
    apply frames_bind; [by unfold service_count; auto|]. intros n. apply frames_bind; [auto|]. intros _.
    apply frames_bind; [by unfold service_count; auto|]. intros n'. apply frames_if; [|auto].
    apply frames_bind; [auto|]. intros b. by apply frames_if.
Qed.

Lemma setup_sublist (rules : list (Rule K A)) : forall w, wp (setup rules) (fun '(_, _, rules') _ => sublist rules' rules) (fun _ => True) w.
Proof using.
  induction rules as [|r rules IH]; intros w; cbn [setup]; [by apply wp_ret|].
  assert (Herase : forall w, wp (_ ← cancel_and_erase r; setup rules)
    (fun '(_, _, rules') _ => sublist rules' (r :: rules)) (fun _ => True) w).
  { intros w'. apply wp_bind. unfold wp at 1. destruct (cancel_and_erase r w') as [[_ w2]|]; [|done].
    eapply wp_mono; [apply IH| |done]. intros [[ps any] rs] _ ?. by constructor. }
  apply wp_bind. unfold wp at 1. destruct (on_sys _ w) as [[e w1]|]; [|done]. destruct (_ && e); [done|].
  apply wp_bind. unfold wp at 1. destruct (on_sys _ w1) as [[c w2]|]; [|done]. destruct c; [done|].
  apply wp_bind. unfold wp at 1. destruct (interest r w2) as [[i w3]|]; [|done].
  apply wp_bind. unfold wp at 1. destruct (on_sys _ w3) as [[n w4]|]; [|done]. apply wp_bind.
  eapply wp_mono; [apply IH| |done]. intros [[ps any] rs] w5 ?. apply wp_ret. by constructor.
Qed.

Lemma frames_wait t rules : Forall frames_rule rules -> frames (wait_next_event t rules).
Proof using PreOrder0 Hsys.
  intros Hr w. apply wp_bind. eapply wp_mono; [exact (wp_and _ _ _ _ _ (frames_setup rules Hr w) (setup_sublist rules w))| |done].
  intros [[ps any] rules'] w' [Hw Hs]. assert (Hr' : Forall frames_rule rules') by (by eapply sublist_Forall).
  assert (Hd : forall ps, frames (rules ← dispatch rules' 0 ps; mret (Success, rules)))
    by (intros ps'; apply frames_bind; [by apply frames_dispatch|auto]).
  eapply wp_mono; [| |done]; [|intros x w'' Hw'; etransitivity; [exact Hw|exact Hw']].
  revert w' Hw. enough (Hf : frames (if negb any then mret (Exit, rules') else
    '(r, answers) ← on_sys (call (Poll ps t));
    match SystemCall r 0 with
    | Ok 0 => mret (Timeout, rules')
    | Ok _ => rules ← dispatch rules' 0 (set_revents ps answers); mret (Success, rules)
    | Fail _ => if err r =? EINTR then mret (Exit, rules') else rules ← dispatch rules' 0 ps; mret (Success, rules)
    end)) by (intros w' _; apply Hf).
  apply frames_if; [auto|]. apply frames_bind; [auto|]. intros [r answers].
  destruct (SystemCall r 0) as [[| |]|]; auto. by apply frames_if.
Qed.

End frame.

(** ** Properties *)

Section properties.
Context {K A : Type} `{KernelLaws K}.

(** C18: a loop whose rules keep their side of the contract keeps its own.
    The rules' side: a callback, run when its rule was interested before the
    [poll] (so that [P] holds, which the other rules leave alone), keeps the
    invariant [J] and reads or writes its descriptor or gives up its interest.
    The loop's side: [wait_next_event] never reports a busy wait and never
    reads outside the [pollfd]s or uses a dead descriptor (unless a callback
    itself does: [F]); it fails only as a callback fails or when the kernel
    reports an error on a descriptor; the invariant holds afterwards, the rules
    are those of before less the cancelled ones, in order, and every rule left
    still owns its descriptor. *)
Theorem event_loop_contract (J : world K A -> Prop) (F : fault -> Prop) (P : Rule K A -> world K A -> Prop)
    (os : list Z) (rules : list (Rule K A)) (timeout_ms : Z) (w : world K A)
    (HJ : loop_invariant J)
    (Hok : loop_ok J F P os rules w) :
  match wait_next_event timeout_ms rules w with
  | Ok ((_, rules'), w') => loop_ok J F P os rules' w' /\ sublist rules' rules
  | Fail f => F f \/ f = PollError
  end.
Proof.
  pose proof (wp_wait J F P HJ os rules timeout_ms w Hok) as Hw. unfold wp in Hw.
  destruct (wait_next_event timeout_ms rules w) as [[[res rules'] w']|f]; exact Hw.
Qed.

(** The request for a rule that is not at its end: its descriptor, with its
    direction when it is interested. *)
Inductive polled (w : world K A) (r : Rule K A) : pollfd -> Prop :=
  | polled_intro x b :
      wrappers w.1 !! fd r = Some x -> bool_decide (direction r = In) && _eof x = false -> _closed x = false ->
      interest r w = Ok (b, w) ->
      polled w r (mkPollfd (_fd x) (if b then direction_events (direction r) else 0) 0).

Lemma setup_polled w rules ps :
  Forall2 (polled w) rules ps ->
  setup rules w = Ok ((ps, existsb (fun p => negb (events p =? 0)) ps, rules), w).
Proof.
  induction 1 as [|r p rules ps Hp Hps IH]; [done|]. destruct Hp as [x b Hx He Hc Hi]. destruct w as [s a].
  cbn [setup]. unfold eof, closed, fd_num. cbn in Hx.
  assert (Hf : forall R (f : FDWrapper -> R), on_sys (y ← deref (fd r); mret (f y)) (s, a) = Ok (f x, (s, a))).
  { intros. unfold on_sys. cbn. by rewrite (M_bind_Ok _ _ _ _ _ (deref_Some _ _ _ Hx)). }
  rewrite (M_bind_Ok _ _ _ _ _ (Hf _ _eof)), He. rewrite (M_bind_Ok _ _ _ _ _ (Hf _ _closed)), Hc.
  rewrite (M_bind_Ok _ _ _ _ _ Hi), (M_bind_Ok _ _ _ _ _ (Hf _ _fd)), (M_bind_Ok _ _ _ _ _ IH).
  cbn. by destruct b, (direction r).
Qed.

(** Without an event, nothing is done. *)
Lemma dispatch_idle ps (rules : list (Rule K A)) : forall idx w,
  (idx + length rules <= length ps)%nat -> Forall (fun p => revents p = 0) ps -> dispatch rules idx ps w = Ok (rules, w).
Proof.
  induction rules as [|r rules IH]; intros idx [s a] Hl Hz; [done|]. cbn [dispatch]. cbn in Hl.
  destruct (lookup_lt_is_Some_2 ps idx) as [p Hp]; [lia|]. rewrite Hp. unfold mbind, M_bind. cbn -[dispatch].
  rewrite (proj1 (Forall_lookup _ _) Hz idx p Hp), !Z.land_0_l. cbn -[dispatch]. by rewrite IH by (lia || done).
Qed.

(** C28: [wait_next_event] on rules none of which is at its end: [poll] is
    asked for each rule's descriptor, in order, for its direction when it is
    interested and for nothing otherwise; without an interested rule the
    result is [Exit] and no call is made.  A [poll] that times out gives
    [Timeout], an interrupted one [Exit], with the rules as they were.  Any
    other failure of [poll] is reported as [Success], with nothing done. *)
Theorem wait_outcomes (rules : list (Rule K A)) (ps : list pollfd) (timeout_ms : Z) (w : world K A)
    (Hps : Forall2 (polled w) rules ps) :
  wait_next_event timeout_ms rules w =
    if forallb (fun p => events p =? 0) ps then Ok ((Exit, rules), w) else
    let '((r, answers), k) := answer (Poll ps timeout_ms) (kern w.1) in
    let w' := (set_kern k w.1, w.2) in
    if 0 <? rv r then
      match dispatch rules 0 (set_revents ps answers) w' with
      | Ok (rules', w'') => Ok ((Success, rules'), w'')
      | Fail f => Fail f
      end
    else if rv r =? 0 then Ok ((Timeout, rules), w')
    else if err r =? EINTR then Ok ((Exit, rules), w')
    else Ok ((Success, rules), w').
Proof.
  unfold wait_next_event. rewrite (M_bind_Ok _ _ _ _ _ (setup_polled _ _ _ Hps)).
  replace (negb (existsb _ ps)) with (forallb (fun p => events p =? 0) ps).
  2:{ clear. induction ps as [|p ps IH]; [done|]. cbn. rewrite IH. by destruct (events p =? 0). }
  destruct (forallb _ ps); [done|]. destruct w as [s a]. unfold mbind at 1, M_bind at 1, on_sys at 1, call.
  pose proof (SystemCall_spec _ (Poll ps timeout_ms) (kern s)) as Hs. cbn [fst snd].
  destruct (answer (Poll ps timeout_ms) (kern s)) as [[r answers] k]. cbn in Hs |- *. rewrite Hs.
  destruct (Z.leb_spec 0 (rv r)) as [Hr|Hr].
  - destruct (rv r) as [|n|n] eqn:En; [done| |lia]. cbn.
    unfold mbind, M_bind. by destruct (dispatch _ _ _ _) as [[rules' w'']|f].
  - rewrite (proj2 (Z.ltb_ge 0 (rv r))), (proj2 (Z.eqb_neq (rv r) 0)) by lia. destruct (err r =? EINTR); [done|].
    unfold mbind, M_bind. rewrite dispatch_idle; [done| |].
    + cbn. by rewrite (Forall2_length _ _ _ Hps).
    + clear -Hps. induction Hps as [|?? ?? Hp]; constructor; [by destruct Hp|done].
Qed.

(** The second loop as it would be written over pairs of a rule and its own
    [pollfd]. *)
Fixpoint dispatch_pairs (l : list (Rule K A * pollfd)) : M (world K A) (list (Rule K A)) :=
  match l with
  | [] => mret []
  | (r, p) :: l =>
    if negb (Z.land (revents p) (Z.lor POLLERR POLLNVAL) =? 0) then on_sys (lift (Fail PollError)) else
    if negb (Z.land (revents p) POLLHUP =? 0) && negb (events p =? 0) && (Z.land (revents p) (events p) =? 0)
    then _ ← cancel_and_erase r; dispatch_pairs l
    else
      _ ← (if negb (Z.land (revents p) (events p) =? 0) then service r else mret tt);
      rest ← dispatch_pairs l;
      mret (r :: rest)
  end.

(** C29: the index of the second loop stays in step with the rules although
    rules are erased on the way: every rule is judged by the answer for its
    own descriptor, and the loop never reads past the [pollfd]s. *)
Theorem dispatch_in_step (rules : list (Rule K A)) (ps : list pollfd) (idx : nat) (w : world K A)
    (Hl : length ps = (idx + length rules)%nat) :
  dispatch rules idx ps w = dispatch_pairs (zip rules (drop idx ps)) w.
Proof.
  revert idx w Hl. induction rules as [|r rules IH]; intros idx [s a] Hl; [done|]. cbn in Hl.
  destruct (lookup_lt_is_Some_2 ps idx) as [p Hp]; [lia|].
  rewrite (drop_S ps p idx Hp). cbn [dispatch zip zip_with dispatch_pairs]. rewrite Hp.
  unfold mbind at 1, M_bind at 1. cbn [on_sys lift fst snd]. cbn.
  destruct (negb (Z.land (revents p) _ =? 0)); [done|].
  rewrite negb_involutive. destruct (_ && _).
  - unfold mbind, M_bind. destruct (cancel_and_erase r (s, a)) as [[_ w']|f]; [|done]. apply IH. lia.
  - unfold mbind, M_bind. destruct (negb (Z.land (revents p) (events p) =? 0)).
    + destruct (service r (s, a)) as [[_ w']|f]; [|done]. by rewrite IH by lia.
    + cbn [mret M_ret]. by rewrite IH by lia.
Qed.

End properties.

(** ** Witnesses *)

(** One rule that appends what can be read to a list. *)
Definition sample_rule : Rule machine (list byte) :=
  mkRule 7 In (data ← on_sys (read 7 100); on_app (fun a => Ok (tt, a ++ data))) (mret true) (mret tt).
Definition sample_world : world machine (list byte) := (sample_sys, []).
Definition sample_inv (w : world machine (list byte)) : Prop := is_Some (wrappers w.1 !! 7).

Lemma sample_loop_invariant : loop_invariant sample_inv.
Proof. by split. Qed.

Lemma sample_good_rule : good_rule sample_inv (eq TaggedError) (fun _ _ => True) sample_rule.
Proof.
  split; try done; cbn.
  - intros w Hi. by exists true.
  - intros [s a] x [y Hy] _ Hx. cbn in Hx, Hy. apply wp_bind, wp_on_sys. cbn [fst snd].
    pose proof (fd_read_spec 7 100 s x Hx ltac:(lia)) as Hr. unfold wp.
    destruct (read 7 100 s) as [[data s']|f]; [|exact (eq_sym Hr)].
    destruct Hr as (_ & k & -> & _). cbn. unfold sample_inv. cbn. rewrite lookup_insert_eq.
    split_and!; [done|done|]. left. eexists. split; [done|]. apply not_eq_sym, did_read_count.
Qed.

Lemma event_loop_contract_witness :
  loop_invariant sample_inv /\ loop_ok sample_inv (eq TaggedError) (fun _ _ => True) [7] [sample_rule] sample_world
  /\ match wait_next_event 10 [sample_rule] sample_world with
     | Ok ((r, rules'), w') => sublist rules' [sample_rule] /\ r = Success /\ w'.2 = [x68; x65]
     | Fail _ => False
     end.
Proof.
  assert (Hok : loop_ok sample_inv (eq TaggedError) (fun _ _ => True) [7] [sample_rule] sample_world).
  { split; [by eexists| | | |].
    - constructor; [exact sample_good_rule|constructor].
    - constructor; constructor.
    - constructor; [cbn; by left|constructor].
    - intros h Hh. apply list_elem_of_In in Hh. cbn in Hh. assert (h = 7) as -> by lia. exists 3. by split. }
  split_and!; [exact sample_loop_invariant|exact Hok|].
  pose proof (event_loop_contract sample_inv (eq TaggedError) (fun _ _ => True) [7] [sample_rule] 10 sample_world
                sample_loop_invariant Hok) as Hc.
  assert (E2 : match wait_next_event 10 [sample_rule] sample_world with
               | Ok ((r, _), w') => r = Success /\ w'.2 = [x68; x65] | Fail _ => False end) by (by vm_compute).
  destruct (wait_next_event 10 [sample_rule] sample_world) as [[[r rules'] w']|f]; [|exact E2].
  split; [exact (proj2 Hc)|exact E2].
Defined.

Lemma wait_outcomes_witness :
  Forall2 (polled sample_world) [sample_rule] [mkPollfd 0 POLLIN 0]
  /\ match wait_next_event 10 [sample_rule] sample_world with Ok ((r, _), _) => r = Success | Fail _ => False end.
Proof.
  assert (Hp : Forall2 (polled sample_world) [sample_rule] [mkPollfd 0 POLLIN 0]).
  { constructor; [|constructor].
    by apply (polled_intro sample_world sample_rule (mkFDWrapper 0 false false 0 0) true). }
  split; [exact Hp|].
  rewrite (wait_outcomes [sample_rule] [mkPollfd 0 POLLIN 0] 10 sample_world Hp). by vm_compute.
Defined.

Lemma dispatch_in_step_witness :
  length [mkPollfd 0 POLLIN POLLHUP; mkPollfd 0 POLLIN POLLIN] = (0 + length [sample_rule; sample_rule])%nat
  /\ match dispatch [sample_rule; sample_rule] 0 [mkPollfd 0 POLLIN POLLHUP; mkPollfd 0 POLLIN POLLIN] sample_world with
     | Ok (rules', w') => length rules' = 1%nat /\ w'.2 = [x68; x65] | Fail _ => False end.
Proof.
  split; [done|].
  rewrite (dispatch_in_step [sample_rule; sample_rule] [mkPollfd 0 POLLIN POLLHUP; mkPollfd 0 POLLIN POLLIN] 0
             sample_world eq_refl). by vm_compute.
Defined.
