(* ===== verification/Socket.v ===== *)
(** * Sockets and network devices (libsponge/util/socket.{hh,cc}, tun.{hh,cc})

    [Socket] and its subclasses are file descriptors with more system calls;
    [TunTapFD] is the descriptor of a TUN or TAP device.  An address is handed
    to the kernel as the first [size()] bytes of its storage. *)

From Stdlib Require Import ZArith Lia.
From S2P Require Import Prelude Buffer Kernel FileDescriptor Address.

Definition AF_UNIX : Z := 1.
Definition SOCK_STREAM : Z := 1.
Definition SOCK_DGRAM : Z := 2.
Definition SOL_SOCKET : Z := 1.
Definition SO_REUSEADDR : Z := 2.
Definition SO_TYPE : Z := 3.
Definition SO_DOMAIN : Z := 39.
Definition MSG_TRUNC : Z := 32.
Definition SHUT_RD : Z := 0.
Definition SHUT_WR : Z := 1.
Definition SHUT_RDWR : Z := 2.
Definition sizeof_int : Z := 4.
Definition O_RDWR : Z := 2.
Definition IFF_TUN : Z := 1.
Definition IFF_TAP : Z := 2.
Definition IFF_NO_PI : Z := 4096.
Definition IFNAMSIZ : Z := 16.
Definition TUNSETIFF : Z := 1074025674.

Section sockets.
Context {K : Type} `{Kernel K}.

(** What the kernel sees of an [Address]. *)
Definition sockaddr (a : Address) : list byte := ztake (_size a) (_address a).

(** [Socket(domain, type)] *)
Definition socket_new (domain type : Z) : M (sys K) FileDescriptor :=
  fd ← checked (Socket domain type);
  new fd.

(** A [getsockopt] of an [int], compared with what is expected. *)
Definition verify_option (h : FileDescriptor) (option expected : Z) : M (sys K) unit :=
  fd ← fd_num h;
  '(r, (actual_value, len)) ← call (Getsockopt fd SOL_SOCKET option);
  _ ← lift (SystemCall r 0);
  if negb (len =? sizeof_int) || negb (actual_value =? expected) then lift (Fail RuntimeError) else mret tt.

(** [Socket(fd, domain, type)] takes the descriptor over. *)
Definition socket_of_fd (h : FileDescriptor) (domain type : Z) : M (sys K) FileDescriptor :=
  _ ← verify_option h SO_DOMAIN domain;
  _ ← verify_option h SO_TYPE type;
  mret h.

(** [get_address(name, function)] for the two functions it is called with. *)
Definition get_address (function : Z -> syscall (sysret * list byte)) (h : FileDescriptor) : M (sys K) Address :=
  fd ← fd_num h;
  '(r, address) ← call (function fd);
  _ ← lift (SystemCall r 0);
  lift (of_sockaddr address).
Definition local_address (h : FileDescriptor) : M (sys K) Address := get_address Getsockname h.
Definition peer_address (h : FileDescriptor) : M (sys K) Address := get_address Getpeername h.

Definition bind (h : FileDescriptor) (address : Address) : M (sys K) unit :=
  fd ← fd_num h; _ ← checked (Bind fd (sockaddr address)); mret tt.
Definition connect (h : FileDescriptor) (address : Address) : M (sys K) unit :=
  fd ← fd_num h; _ ← checked (Connect fd (sockaddr address)); mret tt.

Definition shutdown (h : FileDescriptor) (how : Z) : M (sys K) unit :=
  fd ← fd_num h;
  _ ← checked (Shutdown fd how);
  if how =? SHUT_RD then register_read h
  else if how =? SHUT_WR then register_write h
  else if how =? SHUT_RDWR then _ ← register_read h; register_write h
  else lift (Fail RuntimeError).

(** [UDPSocket::recv(datagram, mtu)]: with [MSG_TRUNC] the return value is
    the real length of the datagram. *)
Definition recv (h : FileDescriptor) (mtu : Z) : M (sys K) (Address * list byte) :=
  let payload := zreplicate mtu x00 in
  fd ← fd_num h;
  '(r, (data, source)) ← call (Recvfrom fd (zlen payload) MSG_TRUNC);
  payload ← lift (memcpy payload 0 data 0 (zlen data));
  recv_len ← lift (SystemCall r 0);
  if mtu <? recv_len then lift (Fail RuntimeError) else
  _ ← register_read h;
  source_address ← lift (of_sockaddr source);
  payload ← lift (resize_signed recv_len payload);
  mret (source_address, payload).

Definition sendmsg_helper (fd_num : Z) (destination_address : list byte) (payload : BufferViewList)
    : M (sys K) unit :=
  bytes_sent ← checked (Sendmsg fd_num destination_address (as_iovecs payload));
  if negb (u64 bytes_sent =? views_size payload) then lift (Fail RuntimeError) else mret tt.

Definition sendto (h : FileDescriptor) (destination : Address) (payload : BufferViewList) : M (sys K) unit :=
  fd ← fd_num h; _ ← sendmsg_helper fd (sockaddr destination) payload; register_write h.
Definition send (h : FileDescriptor) (payload : BufferViewList) : M (sys K) unit :=
  fd ← fd_num h; _ ← sendmsg_helper fd [] payload; register_write h.

Definition listen (h : FileDescriptor) (backlog : Z) : M (sys K) unit :=
  fd ← fd_num h; _ ← checked (Listen fd backlog); mret tt.

Definition accept (h : FileDescriptor) : M (sys K) FileDescriptor :=
  _ ← register_read h;
  fd ← fd_num h;
  fd' ← checked (Accept fd);
  h' ← new fd';
  socket_of_fd h' AF_INET SOCK_STREAM.

Definition setsockopt (h : FileDescriptor) (level option option_value : Z) : M (sys K) unit :=
  fd ← fd_num h; _ ← checked (Setsockopt fd level option option_value); mret tt.
Definition set_reuseaddr (h : FileDescriptor) : M (sys K) unit := setsockopt h SOL_SOCKET SO_REUSEADDR 1.

(** [LocalStreamSocket(fd)] *)
Definition local_stream_socket (h : FileDescriptor) : M (sys K) FileDescriptor :=
  socket_of_fd h AF_UNIX SOCK_STREAM.

(** [ifr_name] after [strncpy] and the assignment of the terminator. *)
Definition ifr_name (devname : list byte) : list byte :=
  resize (IFNAMSIZ - 1) (c_str (ztake (IFNAMSIZ - 1) devname)) ++ [x00].

(** "/dev/net/tun" *)
Definition CLONEDEV : list byte := [x2f; x64; x65; x76; x2f; x6e; x65; x74; x2f; x74; x75; x6e].

Definition tuntap_new (devname : list byte) (is_tun : bool) : M (sys K) FileDescriptor :=
  fd ← checked (Open CLONEDEV O_RDWR);
  h ← new fd;
  let ifr_flags := Z.lor (if is_tun then IFF_TUN else IFF_TAP) IFF_NO_PI in
  fd ← fd_num h;
  _ ← checked (Ioctl fd TUNSETIFF (ifr_name devname) ifr_flags);
  mret h.

End sockets.

(** ** Lemmas *)

(** An [Address] object: its storage is a [sockaddr_storage]. *)
Definition address_wf (a : Address) : Prop := zlen (_address a) = storage_size /\ 0 <= _size a <= storage_size.

Lemma of_sockaddr_ok addr : zlen addr <= storage_size ->
  exists a, of_sockaddr addr = Ok a /\ address_wf a /\ sockaddr a = addr.
Proof.
  intros Hl. pose proof (zlen_nonneg addr). unfold of_sockaddr. rewrite (proj2 (Z.ltb_ge _ _)) by lia.
  rewrite memcpy_prefix by (rewrite zlen_zreplicate by (unfold storage_size; lia); done).
  eexists. split; [done|]. unfold sockaddr, address_wf. cbn [_address _size]. split.
  - rewrite zlen_app, zlen_zdrop, zlen_zreplicate by (unfold storage_size in *; lia). lia.
  - by apply ztake_app_exact.
Qed.

Section lemmas.
Context {K : Type} `{KernelLaws K}.

Lemma fd_num_checked h c (s : sys K) w :
  wrappers s !! h = Some w -> (forall fd, status (c fd) = (fun r => r)) ->
  (fd ← fd_num h; checked (c fd)) s = (let a := answer (c (_fd w)) (kern s) in
    if 0 <=? rv a.1 then Ok (rv a.1, set_kern a.2 s) else Fail TaggedError).
Proof.
  intros Hw Hc. rewrite (M_bind_Ok _ _ _ _ _ (fd_num_Some _ _ _ Hw)). by apply checked_spec.
Qed.

(** [shutdown] with one of the three values counts as a service in the
    directions it shuts down. *)
Lemma shutdown_spec h how (s : sys K) w :
  wrappers s !! h = Some w -> how ∈ [SHUT_RD; SHUT_WR; SHUT_RDWR] ->
  shutdown h how s = (let a := answer (Shutdown (_fd w) how) (kern s) in
    if 0 <=? rv a.1 then Ok (tt, set_wrapper h
      (if how =? SHUT_RD then did_read false w else if how =? SHUT_WR then wrote 1 w
       else wrote 1 (did_read false w)) (set_kern a.2 s)) else Fail TaggedError).
Proof.
  intros Hw Hhow. unfold shutdown. rewrite (M_bind_Ok _ _ _ _ _ (fd_num_Some _ _ _ Hw)).
  unfold mbind at 1, M_bind at 1. rewrite checked_spec by done. cbn.
  destruct (0 <=? rv _); [|done].
  assert (how = SHUT_RD \/ how = SHUT_WR \/ how = SHUT_RDWR) as [->|[->| ->]]
    by (apply list_elem_of_In in Hhow as [<-|[<-|[<-|[]]]]; auto).
  - unfold register_read. cbn. by rewrite (update_Some _ h w).
  - unfold register_write. cbn. by rewrite (update_Some _ h w).
  - unfold register_read, register_write, mbind, M_bind. cbn. rewrite (update_Some _ h w) by done.
    erewrite update_Some by apply lookup_insert_eq. unfold set_wrapper. cbn. by rewrite insert_insert_eq.
Qed.

Lemma recv_spec h mtu (s : sys K) w :
  wrappers s !! h = Some w -> 0 <= mtu ->
  recv h mtu s = (let '((r, (data, source)), k) := answer (Recvfrom (_fd w) mtu MSG_TRUNC) (kern s) in
    if rv r <? 0 then Fail TaggedError else
    if mtu <? rv r then Fail RuntimeError else
    a ← of_sockaddr source;
    Ok ((a, data), set_wrapper h (did_read false w) (set_kern k s))).
Proof.
  intros Hw Hm. unfold recv. rewrite (M_bind_Ok _ _ _ _ _ (fd_num_Some _ _ _ Hw)), zlen_zreplicate by done.
  pose proof (answers_ok _ (Recvfrom (_fd w) mtu MSG_TRUNC) (kern s)) as Ha.
  pose proof (SystemCall_spec _ (Recvfrom (_fd w) mtu MSG_TRUNC) (kern s)) as Hs.
  unfold mbind at 1, M_bind at 1, call.
  destruct (answer _ (kern s)) as [[r [data source]] k]. cbn in Ha, Hs.
  destruct Ha as (Hd & Hsrc & Hrv); [done|].
  rewrite memcpy_prefix by (rewrite zlen_zreplicate by done; lia). rewrite lift_Ok_bind, Hs.
  destruct (Z.leb_spec 0 (rv r)) as [Hr|Hr]; [|by rewrite (proj2 (Z.ltb_lt _ _)) by lia].
  rewrite (proj2 (Z.ltb_ge (rv r) 0)), lift_Ok_bind by lia.
  destruct (Z.ltb_spec mtu (rv r)); [done|]. specialize (Hrv Hr). rewrite Z.min_l in Hrv by lia.
  unfold register_read. rewrite (M_bind_Ok _ _ _ _ _ (update_Some (set_kern k s) h w _ Hw)).
  destruct (of_sockaddr_ok source Hsrc) as (a & -> & _). rewrite lift_Ok_bind. unfold resize_signed.
  by rewrite (proj2 (Z.ltb_ge (rv r) 0)), <-Hrv, resize_prefix by lia.
Qed.

End lemmas.

(** ** Properties *)

Section properties.
Context {K : Type} `{KernelLaws K}.

Lemma sendmsg_helper_spec fd addr payload (s : sys K) :
  zlen (concat payload) < M63 ->
  sendmsg_helper fd addr payload s = (let a := answer (Sendmsg fd addr (as_iovecs payload)) (kern s) in
    if rv a.1 <? 0 then Fail TaggedError else
    if rv a.1 =? zlen (concat payload) then Ok (tt, set_kern a.2 s) else Fail RuntimeError).
Proof.
  intros Hl. unfold sendmsg_helper, mbind, M_bind. rewrite checked_spec by done. cbn.
  pose proof (returns_int _ (Sendmsg fd addr (as_iovecs payload)) (kern s)) as Hr. cbn in Hr.
  destruct (Z.leb_spec 0 (rv (answer (Sendmsg fd addr (as_iovecs payload)) (kern s)).1)).
  - rewrite (proj2 (Z.ltb_ge _ _)) by lia. rewrite views_size_spec, !u64_small by (pose proof (zlen_nonneg (concat payload)); lia).
    by destruct (_ =? _).
  - by rewrite (proj2 (Z.ltb_lt _ _)) by lia.
Qed.

(** A datagram socket hands over whole datagrams or fails.  [recv]
    returns the datagram's payload, all of it and nothing else, and the address
    it came from; a datagram longer than [mtu] is an error, never a truncated
    payload.  [sendto] succeeds only when the kernel took the whole payload.
    Each success is counted once. *)
Theorem udp_whole_datagrams (s : sys K) (h : FileDescriptor) (w : FDWrapper) (mtu : Z)
    (destination : Address) (payload : BufferViewList)
    (Hh : wrappers s !! h = Some w)
    (Hmtu : 0 <= mtu)
    (Hpayload : zlen (concat payload) < M63) :
  match recv h mtu s with
  | Ok ((source, data), s') => exists len src k, answer (Recvfrom (_fd w) mtu MSG_TRUNC) (kern s) = ((len, (data, src)), k)
      /\ rv len = zlen data /\ zlen data <= mtu /\ sockaddr source = src
      /\ wrappers s' = <[h := did_read false w]> (wrappers s)
  | Fail f => let len := rv (answer (Recvfrom (_fd w) mtu MSG_TRUNC) (kern s)).1.1 in
      f = TaggedError /\ len < 0 \/ f = RuntimeError /\ mtu < len
  end
  /\ match sendto h destination payload s with
     | Ok (_, s') => rv (answer (Sendmsg (_fd w) (sockaddr destination) (as_iovecs payload)) (kern s)).1
           = zlen (concat payload)
         /\ wrappers s' = <[h := wrote 1 w]> (wrappers s)
     | Fail f => f = TaggedError \/ f = RuntimeError
     end.
Proof.
  split.
  - rewrite (recv_spec h mtu s w Hh Hmtu). pose proof (answers_ok _ (Recvfrom (_fd w) mtu MSG_TRUNC) (kern s)) as Ha.
    destruct (answer (Recvfrom (_fd w) mtu MSG_TRUNC) (kern s)) as [[r [data src]] k]. cbn in Ha |- *.
    destruct (Ha Hmtu) as (Hd & Hsrc & Hr). destruct (Z.ltb_spec (rv r) 0); [by left|].
    destruct (Z.ltb_spec mtu (rv r)); [by right|]. specialize (Hr ltac:(lia)).
    destruct (of_sockaddr_ok src Hsrc) as (a & -> & _ & Ea). cbn. exists r, src, k. split_and!; [done|lia|done|done|done].
  - unfold sendto. rewrite (M_bind_Ok _ _ _ _ _ (fd_num_Some _ _ _ Hh)). unfold mbind, M_bind.
    rewrite sendmsg_helper_spec by done. cbn. destruct (_ <? 0); [by left|].
    destruct (Z.eqb_spec (rv (answer (Sendmsg (_fd w) (sockaddr destination) (as_iovecs payload)) (kern s)).1)
                (zlen (concat payload))) as [E|E]; [|by right].
    unfold register_write. by rewrite (update_Some _ h w).
Qed.

End properties.

Lemma zlen_c_str s : zlen (c_str s) <= zlen s.
Proof. induction s as [|b s IH]; cbn; [lia|]. destruct (_ =? 0); rewrite ?zlen_cons; [unfold zlen at 1; cbn; pose proof (zlen_nonneg s)|]; lia. Qed.

(** The device name handed to the kernel fills its field and ends with a NUL,
    however long the name is; a name that fits is there unchanged. *)
Lemma ifr_name_bounds devname :
  zlen (ifr_name devname) = IFNAMSIZ /\ last (ifr_name devname) = Some x00
  /\ (zlen devname < IFNAMSIZ -> Forall (fun b => b2z b <> 0) devname -> c_str (ifr_name devname) = devname).
Proof.
  unfold ifr_name, IFNAMSIZ. split_and!.
  - rewrite zlen_app, zlen_resize by lia. done.
  - by rewrite last_snoc.
  - intros Hl Hz. rewrite (Z.sub_1_r 16). change (Z.pred 16) with 15.
    assert (Ht : ztake 15 devname = devname) by (unfold ztake, zlen in *; apply take_ge; lia). rewrite Ht.
    assert (Hc : forall k, c_str (devname ++ x00 :: k) = devname).
    { intros k. clear Hl Ht. induction Hz as [|b l Hb _ IH]; [done|]. cbn. rewrite (proj2 (Z.eqb_neq _ _)) by done. by rewrite IH. }
    assert (Hc' : c_str devname = devname).
    { clear -Hz. induction Hz as [|b l Hb _ IH]; [done|]. cbn. rewrite (proj2 (Z.eqb_neq _ _)) by done. by rewrite IH. }
    rewrite Hc', resize_ge by lia. rewrite <-app_assoc. unfold zreplicate.
    destruct (Z.to_nat (15 - zlen devname)); cbn; apply Hc.
Qed.

(** ** Witness *)

Lemma udp_whole_datagrams_witness :
  wrappers sample_sys !! 7 = Some (mkFDWrapper 0 false false 0 0) /\ 0 <= 1500
  /\ zlen (concat [[x61]]) < M63
  /\ match recv 7 1500 sample_sys with
     | Ok ((_, data), s') => data = [x68; x65; x6c; x6c; x6f] /\ zlen data <= 1500 | Fail _ => False end.
Proof.
  split_and!; [done|lia|done|].
  pose proof (udp_whole_datagrams sample_sys 7 (mkFDWrapper 0 false false 0 0) 1500 (mkAddress 0 []) [[x61]]
                eq_refl ltac:(lia) ltac:(done)) as [Hr _].
  assert (E : match recv 7 1500 sample_sys with Ok ((_, data), _) => data = [x68; x65; x6c; x6c; x6f] | Fail _ => False end)
    by (by vm_compute).
  destruct (recv 7 1500 sample_sys) as [[[src data] s']|f]; [|exact E].
  destruct Hr as (len & src' & k & _ & _ & Hl & _). split; [exact E|exact Hl].
Defined.
