(* ===== verification/WireSafety.v ===== *)
(** * The parsers on arbitrary input

    Whatever bytes arrive, the parsers of TCP segments, IPv4 datagrams,
    Ethernet frames and ARP messages return: they raise no exception, read
    nothing outside the buffer and leave every field of what they build within
    the range of its type.  The proofs run the parsers step by step with [wp]. *)

From Stdlib Require Import ZArith Lia.
From S2P Require Import Prelude WrappingIntegers Buffer Parser Checksum TCPHeader TCPSegment IPv4Header IPv4Datagram Ethernet ARPMessage.

(** ** The elementary steps *)

Definition wire (p : NetParser) : Prop := buffer_wf (_buffer p).

Lemma wire_check n p : wire p -> wire (_check_size n p).
Proof. unfold _check_size. by case_match. Qed.

Lemma check_size_error n p :
  error (_check_size n p) = false -> n <= zlen (str (_buffer (_check_size n p))).
Proof.
  unfold _check_size, size. destruct (Z.ltb_spec (zlen (str (_buffer p))) n); [|done].
  unfold error, get_error, set_error. cbn. by rewrite bool_decide_eq_true_2.
Qed.

Lemma parse_int_loop_total len b k : forall i ret,
  (0 < len)%nat -> (Z.of_nat (i + k) <= zlen (str b)) -> 0 <= ret < 2 ^ (8 * Z.of_nat len) ->
  exists v, parse_int_loop len b k i ret = Ok v /\ 0 <= v < 2 ^ (8 * Z.of_nat len).
Proof.
  induction k as [|k IH]; intros i ret Hl Hi Hr; cbn [parse_int_loop]; [by exists ret|].
  destruct (lookup_lt_is_Some_2 (str b) i) as [c Hc]; [unfold zlen in Hi; lia|].
  rewrite (at_ok b (Z.of_nat i) c) by (rewrite ?Nat2Z.id; done || lia). cbn.
  apply IH; [done|lia|]. apply Z.mod_pos_bound. lia.
Qed.

Definition never (f : fault) : Prop := False.

Lemma wp_parse_int len p :
  (0 < len)%nat -> wire p ->
  wp (_parse_int len) (fun v p' => wire p' /\ 0 <= v < 2 ^ (8 * Z.of_nat len)) never p.
Proof.
  intros Hl Hw. apply (wire_check (Z.of_nat len)) in Hw. unfold wp, _parse_int.
  assert (0 < 2 ^ (8 * Z.of_nat len)) by (apply Z.pow_pos_nonneg; lia).
  destruct (error _) eqn:E; [by split; [|lia]|]. pose proof (check_size_error _ _ E) as Hs.
  destruct (parse_int_loop_total len (_buffer (_check_size (Z.of_nat len) p)) len 0 0) as (v & -> & Hv); [lia..|].
  cbn. destruct (remove_prefix_ok _ (Z.of_nat len) Hw) as (b' & -> & Hb & _); [lia|]. by split.
Qed.

Lemma wp_u8 p : wire p -> wp p_u8 (fun v p' => wire p' /\ 0 <= v < M8) never p.
Proof. intros. by apply (wp_parse_int 1); [lia|]. Qed.
Lemma wp_u16 p : wire p -> wp p_u16 (fun v p' => wire p' /\ 0 <= v < M16) never p.
Proof. intros. by apply (wp_parse_int 2); [lia|]. Qed.
Lemma wp_u32 p : wire p -> wp p_u32 (fun v p' => wire p' /\ 0 <= v < M32) never p.
Proof. intros. by apply (wp_parse_int 4); [lia|]. Qed.

Lemma wp_p_remove_prefix n p : 0 <= n -> wire p -> wp (p_remove_prefix n) (fun _ p' => wire p') never p.
Proof.
  intros Hn Hw. apply (wire_check n) in Hw. unfold wp, p_remove_prefix.
  destruct (error _) eqn:E; [done|]. pose proof (check_size_error _ _ E) as Hs.
  destruct (remove_prefix_ok _ n Hw) as (b' & -> & Hb & _); [lia|]. done.
Qed.

Create HintDb wire.
#[export] Hint Resolve wp_u8 wp_u16 wp_u32 : wire.

(** One field: consume it and keep its range. *)
Ltac field_step :=
  apply wp_bind; eapply wp_mono; [solve [eauto with wire]| |done];
  let v := fresh "v" in let p := fresh "p" in let Hp := fresh "Hp" in let Hv := fresh "Hv" in
  intros v p [Hp Hv].

Lemma wp_parse_address k : forall p, wire p ->
  wp (parse_address k) (fun a p' => wire p' /\ length a = k) never p.
Proof.
  induction k as [|k IH]; intros p Hw; cbn [parse_address]; [by apply wp_ret|].
  field_step. apply wp_bind. eapply wp_mono; [by apply IH| |done].
  intros a p' [? <-]. by apply wp_ret.
Qed.
#[export] Hint Resolve wp_parse_address : wire.

(** ** The headers *)

Lemma wp_tcp_header p : wire p ->
  wp TCPHeader.parse (fun '(_, h) p' => wire p' /\ TCPHeader.header_ok h) never p.
Proof.
  intros Hw. unfold TCPHeader.parse. do 9 field_step.
  match goal with |- context [mkTCPHeader _ _ _ _ ?d] => set (off := d) end.
  assert (Ho : 0 <= off < 16) by (unfold off; rewrite Z.shiftr_div_pow2 by lia; split;
    [apply Z.div_pos; lia|apply Z.div_lt_upper_bound; lia]).
  assert (Hh : forall u a r s f g w c x, 0 <= w < M16 -> 0 <= c < M16 -> 0 <= x < M16 -> TCPHeader.header_ok
    (mkTCPHeader v v0 (WrappingInt32_of v1) (WrappingInt32_of v2) off u a r s f g w c x)).
  { intros. split; cbn; try done; unfold wi_ok; cbn; apply u32_range || lia. }
  destruct (off <? 5) eqn:E; [by apply wp_ret; auto|].
  apply wp_bind. apply Z.ltb_ge in E. eapply wp_mono; [by apply wp_p_remove_prefix; [unfold TCPHeader.LENGTH; lia|]| |done].
  intros [] p' Hp'. apply wp_bind. eapply wp_Ok; [done|]. case_match; by apply wp_ret; auto.
Qed.

(** The fields of an [IPv4Header] within their types. *)
Record ipv4_fields (h : IPv4Header) : Prop := {
  if_ver : 0 <= ver h < 16;
  if_hlen : 0 <= hlen h < 16;
  if_tos : 0 <= tos h < M8;
  if_len : 0 <= len h < M16;
  if_id : 0 <= id h < M16;
  if_offset : 0 <= offset h < 8192;
  if_ttl : 0 <= ttl h < M8;
  if_proto : 0 <= proto h < M8;
  if_cksum : 0 <= IPv4Header.cksum h < M16;
  if_src : 0 <= IPv4Header.src h < M32;
  if_dst : 0 <= IPv4Header.dst h < M32
}.

Lemma high_nibble v : 0 <= v < M8 -> 0 <= Z.shiftr v 4 < 16.
Proof.
  intros. rewrite Z.shiftr_div_pow2 by lia. split; [apply Z.div_pos; lia|apply Z.div_lt_upper_bound; lia].
Qed.

Lemma low_bits v n : 0 <= n -> 0 <= Z.land v (Z.ones n) < 2 ^ n.
Proof. intros. rewrite Z.land_ones by done. apply Z.mod_pos_bound. by apply Z.pow_pos_nonneg. Qed.

Lemma wp_ipv4_header h0 p : ipv4_fields h0 -> wire p ->
  wp (IPv4Header.parse h0) (fun '(_, h) p' => wire p' /\ ipv4_fields h) never p.
Proof.
  intros Hh0 Hw. unfold IPv4Header.parse. apply wp_bind. eapply wp_Ok; [done|].
  case_match; [by apply wp_ret|]. do 10 field_step.
  match goal with |- context [mkIPv4Header ?a ?b ?c ?d ?e ?f ?g ?i ?j ?k ?l ?m ?n] =>
    assert (Hh : ipv4_fields (mkIPv4Header a b c d e f g i j k l m n)) end.
  { split; cbn; try done; [by apply high_nibble|apply (low_bits v 4); lia|apply (low_bits v3 13); lia]. }
  repeat (case_match; [by apply wp_ret|]).
  match goal with E : (Z.land v 15 <? 5) = false |- _ => apply Z.ltb_ge in E end.
  apply wp_bind. eapply wp_mono; [by apply wp_p_remove_prefix; [unfold IPv4Header.LENGTH; lia|]| |done].
  intros [] p' Hp'. apply wp_bind. eapply wp_Ok; [done|]. repeat (case_match; [by apply wp_ret|]). by apply wp_ret.
Qed.

Lemma wp_eth_header h0 p : eth_header_ok h0 -> wire p ->
  wp (header_parse h0) (fun '(_, h) p' => wire p' /\ eth_header_ok h) never p.
Proof.
  intros Hh0 Hw. unfold header_parse. apply wp_bind. eapply wp_Ok; [done|].
  case_match; [by apply wp_ret|]. do 3 field_step. apply wp_bind. eapply wp_Ok; [done|]. by apply wp_ret.
Qed.

Lemma wp_arp m p : arp_ok m -> wire p ->
  wp (parse_body m) (fun '(_, m') _ => arp_ok m') never p.
Proof.
  intros Hm Hw. unfold parse_body. apply wp_bind. eapply wp_Ok; [done|].
  case_match; [by apply wp_ret|]. do 5 field_step. case_match.
  { apply wp_ret. by destruct Hm. }
  do 4 field_step. apply wp_bind. eapply wp_Ok; [done|]. by apply wp_ret.
Qed.

(** ** Whole packets *)

Lemma wp_total {S A} (m : M S A) Q s : wp m Q never s -> exists a s', m s = Ok (a, s') /\ Q a s'.
Proof. unfold wp. destruct (m s) as [[a s']|f]; [eauto|done]. Qed.

Lemma tcp_parse_total seg b pseudo :
  buffer_wf b -> TCPHeader.header_ok (TCPSegment.header seg) -> buffer_wf (TCPSegment.payload seg) ->
  exists r seg', TCPSegment.parse seg b pseudo = Ok (r, seg')
    /\ TCPHeader.header_ok (TCPSegment.header seg') /\ buffer_wf (TCPSegment.payload seg').
Proof.
  intros Hb Hh Hp. unfold TCPSegment.parse. case_match; [by eauto|].
  destruct (wp_total _ _ _ (wp_tcp_header (net_parser b) Hb)) as ([r h] & p & -> & ? & ?).
  eexists _, _. by split.
Qed.

Lemma ipv4_parse_total d b :
  buffer_wf b -> ipv4_fields (IPv4Datagram._header d) ->
  exists r d' pb, IPv4Datagram.parse d b = Ok (r, d') /\ IPv4Datagram._payload d' = [pb] /\ buffer_wf pb
    /\ ipv4_fields (IPv4Datagram._header d').
Proof.
  intros Hb Hh. unfold IPv4Datagram.parse.
  destruct (wp_total _ _ _ (wp_ipv4_header _ (net_parser b) Hh Hb)) as ([r h] & p & -> & ? & ?). cbn.
  case_match; eexists _, _, _; by split_and!.
Qed.

Lemma frame_parse_total f b :
  buffer_wf b -> eth_header_ok (Ethernet._header f) ->
  exists r f' pb, frame_parse f b = Ok (r, f') /\ Ethernet._payload f' = [pb] /\ buffer_wf pb
    /\ eth_header_ok (Ethernet._header f').
Proof.
  intros Hb Hh. unfold frame_parse.
  destruct (wp_total _ _ _ (wp_eth_header _ (net_parser b) Hh Hb)) as ([r h] & p & -> & ? & ?).
  eexists _, _, _. by split_and!.
Qed.

(** C23: no packet can break the parsers.  For every string shorter than 2^63
    bytes, parsing it as a TCP segment, an IPv4 datagram, an Ethernet frame or
    an ARP message into a new object returns a [ParseResult] (no exception, no
    access outside the string), and every field of the object is in the range
    of its C++ type. *)
Theorem parsers_well_typed (l : list byte) (pseudo : Z)
    (Hl : zlen l < M63) :
  (exists r seg, TCPSegment.parse tcp_segment_default (of_string l) pseudo = Ok (r, seg)
     /\ TCPHeader.header_ok (TCPSegment.header seg) /\ buffer_wf (TCPSegment.payload seg))
  /\ (exists r d, IPv4Datagram.parse ipv4_datagram_default (of_string l) = Ok (r, d)
     /\ ipv4_fields (IPv4Datagram._header d) /\ Forall buffer_wf (IPv4Datagram._payload d))
  /\ (exists r f, frame_parse ethernet_frame_default (of_string l) = Ok (r, f)
     /\ eth_header_ok (Ethernet._header f) /\ Forall buffer_wf (Ethernet._payload f))
  /\ (exists r m, ARPMessage.parse arp_message_default (of_string l) = Ok (r, m) /\ arp_ok m).
Proof.
  pose proof (of_string_wf l Hl) as Hb. split_and!.
  - destruct (tcp_parse_total tcp_segment_default (of_string l) pseudo) as (r & seg & ? & ? & ?); [done|by split|by split|].
    by exists r, seg.
  - destruct (ipv4_parse_total ipv4_datagram_default (of_string l)) as (r & d & pb & ? & Hp & ? & ?); [done|by split|].
    exists r, d. rewrite Hp. split_and!; [done|done|by constructor].
  - destruct (frame_parse_total ethernet_frame_default (of_string l)) as (r & f & pb & ? & Hp & ? & ?); [done|by split|].
    exists r, f. rewrite Hp. split_and!; [done|done|by constructor].
  - unfold ARPMessage.parse.
    destruct (wp_total _ _ _ (wp_arp arp_message_default (net_parser (of_string l)) ltac:(by split) Hb)) as ([r m] & p & -> & ?).
    by exists r, m.
Qed.

Lemma parsers_well_typed_witness :
  zlen (replicate 64 xff) < M63
  /\ exists r d, IPv4Datagram.parse ipv4_datagram_default (of_string (replicate 64 xff)) = Ok (r, d)
     /\ ipv4_fields (IPv4Datagram._header d).
Proof.
  split; [done|]. destruct (parsers_well_typed (replicate 64 xff) 0 ltac:(done)) as (_ & (r & d & E & Hf & _) & _).
  exists r, d. split; [exact E|exact Hf].
Defined.
