(* ===== verification/SegmentBounds.v ===== *)
(** * What a connection puts on the wire

    Whatever calls are made and whatever segments arrive, honest or not, the
    segments a connection queues are well formed and small: they fit an IPv4
    datagram with room to spare.  The invariant is on the three queues of a
    connection and is independent of what the peer sends. *)

From Stdlib Require Import ZArith Lia.
From S2P Require Import Prelude WrappingIntegers ByteStream Buffer TCPHeader TCPSegment TCPReceiver TCPSender TCPState TCPConnection.

(** A header without options whose fields are in range, a payload of at most
    [MAX_PAYLOAD_SIZE] bytes. *)
Record fits (seg : TCPSegment) : Prop := {
  ft_header : TCPHeader.header_ok (header seg);
  ft_doff : doff (header seg) = 5;
  ft_buffer : buffer_wf (payload seg);
  ft_size : zlen (str (payload seg)) <= MAX_PAYLOAD_SIZE
}.

Record sender_fits (s : TCPSender) : Prop := {
  sf_stream : ByteStream.wf (stream_ s);
  sf_isn : wi_ok (isn_ s);
  sf_out : Forall fits (TCPSender.segments_out_ s);
  sf_outstanding : Forall fits (outstanding_segments_ s)
}.

Record connection_fits (c : TCPConnection) : Prop := {
  cf_sender : sender_fits (sender_ c);
  cf_out : Forall fits (segments_out_ c)
}.

(** ** The sender *)

Lemma fits_default h d :
  TCPHeader.header_ok h -> doff h = 5 -> zlen d <= MAX_PAYLOAD_SIZE ->
  fits (set_payload (of_string d) (set_header h tcp_segment_default)).
Proof.
  intros Hh Hd Hl. unfold MAX_PAYLOAD_SIZE in Hl. split; try done. apply of_string_wf. lia.
Qed.

Lemma header_default_ok : TCPHeader.header_ok tcp_header_default.
Proof. by split. Qed.

Lemma header_ok_seqno n h : wi_ok n -> TCPHeader.header_ok h -> TCPHeader.header_ok (set_seqno n h).
Proof. intros ? []. by split. Qed.

Lemma fits_empty n b : wi_ok n -> fits (set_header (set_seqno n (set_syn b tcp_header_default)) tcp_segment_default).
Proof. intros Hn. by split. Qed.

Lemma send_segment_fits s seg : sender_fits s -> fits seg -> sender_fits (send_segment s seg).
Proof.
  intros [? ? ? ?] ?. split; try done; cbn; apply Forall_app; (split; [done|by constructor]).
Qed.

Lemma free_window_nonneg s : 0 <= free_window_size s.
Proof. unfold free_window_size. repeat case_match; try lia; apply u64_range. Qed.

Lemma fill_loop_fits fuel : forall s s', sender_fits s -> fill_loop fuel s = Ok s' -> sender_fits s'.
Proof.
  induction fuel as [|fuel IH]; intros s s' Hs E; cbn [fill_loop] in E; [done|].
  destruct (free_window_size s =? 0); [congruence|]. destruct (_ && _); [congruence|].
  apply bind_Ok in E as ([data bs] & Er & E). eapply IH; [|exact E]. clear E IH.
  set (n := Z.min _ MAX_PAYLOAD_SIZE) in *. destruct Hs as [Hw Hi Ho Hq].
  assert (Hn : 0 <= n <= MAX_PAYLOAD_SIZE).
  { pose proof (free_window_nonneg s). pose proof (wf_used _ Hw). unfold n, ByteStream.buffer_size, MAX_PAYLOAD_SIZE. lia. }
  destruct (read_contents _ n Hw) as (bs' & Er' & Hw' & _); [lia|]. rewrite Er in Er'. injection Er' as -> ->.
  apply send_segment_fits; [by split|].
  assert (Hd : fits (set_payload (of_string (ztake n (contents (stream_ s))))
            (set_header (set_seqno (wrap (next_seq_no_ s) (isn_ s)) tcp_header_default) tcp_segment_default))).
  { apply fits_default; [apply header_ok_seqno; [apply wrap_ok|apply header_default_ok]|done|].
    rewrite zlen_ztake by lia. lia. }
  destruct (_ && _ && _); [|exact Hd]. destruct Hd as [[] ? ? ?]. by split.
Qed.

Lemma fill_window_fits s s' : sender_fits s -> fill_window s = Ok s' -> sender_fits s'.
Proof.
  intros Hs E. unfold fill_window in E. case_bool_decide; [|by eapply fill_loop_fits].
  injection E as <-. apply send_segment_fits; [done|]. by apply fits_empty, Hs.
Qed.

Lemma ack_loop_fits q isn last ab fl t :
  Forall fits q -> Forall fits (ack_loop q isn last ab fl t).1.1.
Proof.
  revert fl t. induction q as [|seg q IH]; intros fl t Hq; cbn [ack_loop]; [done|].
  destruct (ab <? _); [done|]. apply IH. by apply Forall_cons_1 in Hq as [_ ?].
Qed.

Lemma ack_received_fits s n w : sender_fits s -> sender_fits (ack_received s n w).
Proof.
  intros [? ? ? Hq]. unfold ack_received. destruct (_ || _); [by destruct (_ =? _)|].
  pose proof (ack_loop_fits (outstanding_segments_ s) (isn_ s) (last_ack_no_ s) (unwrap n (isn_ s) (last_ack_no_ s))
    (bytes_in_flight_ s) (timer_reset_to (init_retransmission_timeout_ s) (timer_ s)) Hq) as Ha.
  destruct (ack_loop _ _ _ _ _ _) as [[q fl] t]. by split.
Qed.

Lemma sender_tick_fits s ms s' : sender_fits s -> TCPSender.tick s ms = Ok s' -> sender_fits s'.
Proof.
  intros [? ? Ho Hq] E. unfold TCPSender.tick in E. destruct (negb _); [injection E as <-; by split|].
  destruct (outstanding_segments_ s) as [|front q] eqn:Eq; [done|].
  destruct (if 0 <? window_size_ s then _ else _) as [count t]. injection E as <-. split; cbn; try done.
  apply Forall_app. split; [done|]. constructor; [by apply (Forall_inv Hq)|done].
Qed.

Lemma send_empty_fits s : sender_fits s -> sender_fits (send_empty_segment s).
Proof.
  intros [? ? Ho ?]. unfold send_empty_segment. destruct (TCPSender.segments_out_ s) eqn:E; [|by split; rewrite ?E].
  split; try done. constructor; [|done]. split; try done. apply header_ok_seqno; [apply wrap_ok|apply header_default_ok].
Qed.

(** ** The connection *)

Lemma add_ack_fits r seg seg' : fits seg -> add_ack r seg = Ok seg' -> fits seg'.
Proof.
  intros Hf E. apply bind_Ok in E as (a & Ea & E). destruct a as [n|]; [|congruence]. injection E as <-.
  assert (wi_ok n).
  { unfold ackno in Ea. destruct (TCPReceiver.state r); try done; apply bind_Ok in Ea as (i & _ & [= <-]); apply wrap_ok. }
  destruct Hf as [[] ? ? ?]. split; try done. split; try done. cbn. apply u16_range.
Qed.

Lemma enqueue_loop_fits r rst q : forall out q' out',
  Forall fits q -> Forall fits out -> enqueue_loop r rst q out = Ok (q', out') -> Forall fits q' /\ Forall fits out'.
Proof.
  induction q as [|seg q IH]; intros out q' out' Hq Ho E; cbn [enqueue_loop] in E; [by injection E as <- <-|].
  apply Forall_cons_1 in Hq as [Hseg Hq]. destruct rst.
  - injection E as <- <-. destruct Hseg as [Hh Hd Hb Hz]. destruct Hh. split.
    + constructor; [|done]. split; try done. destruct Hb as [Hb _]. by split.
    + apply Forall_app. split; [done|]. constructor; [|done]. by split.
  - apply bind_Ok in E as (seg' & Es & E). eapply IH; [done| |exact E].
    apply Forall_app. split; [done|]. constructor; [|done]. by eapply add_ack_fits.
Qed.

Lemma enqueue_fits c c' :
  sender_fits (sender_ c) -> Forall fits (segments_out_ c) -> enqueue_segments c = Ok c' -> connection_fits c'.
Proof.
  intros [? ? Hq ?] Ho E. apply bind_Ok in E as ([q out] & El & E). injection E as <-.
  destruct (enqueue_loop_fits _ _ _ _ _ _ Hq Ho El) as [? ?]. by split; [split|].
Qed.

Lemma try_clean_fits c : connection_fits c -> connection_fits (try_clean_shutdown c).
Proof. intros [? ?]. unfold try_clean_shutdown. by destruct (_ || _). Qed.

Lemma set_stream_fits bs s : ByteStream.wf bs -> sender_fits s -> sender_fits (set_stream_in bs s).
Proof. intros ? []. by split. Qed.

Lemma unclean_fits c : connection_fits c -> connection_fits (unclean_shutdown c).
Proof. intros [[Hw ? ? ?] ?]. split; [|done]. apply set_stream_fits; [|done]. destruct Hw. by split. Qed.

Lemma fill_enqueue_fits c c' :
  connection_fits c -> (s ← fill_window (sender_ c); enqueue_segments (set_sender s c)) = Ok c' -> connection_fits c'.
Proof.
  intros [Hs Ho] E. apply bind_Ok in E as (s & Ef & E).
  by eapply (enqueue_fits (set_sender s c)); [eapply fill_window_fits| |].
Qed.

Lemma segment_received_fits c seg c' :
  connection_fits c -> segment_received c seg = Ok c' -> connection_fits c'.
Proof.
  intros Hc E. unfold segment_received in E. destruct (_ && _ && _); [congruence|].
  assert (Hc0 : connection_fits (set_ms 0 c)) by (by destruct Hc).
  destruct (rst (header seg)). { injection E as <-. by apply unclean_fits. }
  apply bind_Ok in E as (r & _ & E).
  set (c1 := set_receiver r (set_ms 0 c)) in E. assert (H1 : connection_fits c1) by (by destruct Hc0).
  set (c2 := if ack (header seg) then _ else c1) in E.
  assert (H2 : connection_fits c2).
  { subst c2. destruct (ack _); [|done]. destruct H1. split; [by apply ack_received_fits|done]. }
  set (c3 := if _ && _ then _ else c2) in E.
  assert (H3 : connection_fits c3).
  { subst c3. destruct (_ && _); [|done]. apply try_clean_fits. by destruct H2. }
  clearbody c3. apply bind_Ok in E as (s & Ef & E). apply bind_Ok in E as (b & _ & E).
  assert (H4 : connection_fits (set_sender s c3)).
  { destruct H3. split; [by eapply fill_window_fits|done]. }
  set (c5 := if b then _ else _) in E.
  assert (H5 : connection_fits c5).
  { subst c5. destruct b; [|done]. destruct H4. split; [by apply send_empty_fits|done]. }
  destruct (try_clean_fits _ H5). by eapply (enqueue_fits (try_clean_shutdown c5)).
Qed.

Lemma tick_fits c ms c' : connection_fits c -> tick c ms = Ok c' -> connection_fits c'.
Proof.
  intros [Hs Ho] E. unfold tick in E. apply bind_Ok in E as (s & Et & E).
  assert (H1 : connection_fits (set_sender s (set_ms (u64 (ms_since_last_recv_ c + ms)) c))).
  { split; [by eapply sender_tick_fits|done]. }
  set (c1 := set_sender s _) in *.
  destruct (MAX_RETX_ATTEMPTS <? _).
  - destruct (unclean_fits _ H1) as [Hs' Ho'].
    eapply enqueue_fits; [| |exact E]; [by apply send_empty_fits|exact Ho'].
  - destruct (try_clean_fits _ H1). by eapply enqueue_fits.
Qed.

Lemma write_fits c data n c' : connection_fits c -> write c data = Ok (n, c') -> connection_fits c'.
Proof.
  intros [Hs Ho] E. unfold write in E. apply bind_Ok in E as ([m bs] & Ew & E).
  destruct (write_contents _ data (sf_stream _ Hs)) as (bs' & Ew' & Hw & _). unfold stream_in in Ew.
  rewrite Ew in Ew'. injection Ew' as -> ->.
  apply bind_Ok in E as (s & Ef & E). apply bind_Ok in E as (c2 & Ee & E). injection E as <- <-.
  eapply enqueue_fits; [| |exact Ee]; [|exact Ho]. eapply fill_window_fits; [|exact Ef]. by apply set_stream_fits.
Qed.

Lemma end_input_fits c c' : connection_fits c -> end_input_stream c = Ok c' -> connection_fits c'.
Proof.
  intros [Hs Ho] E. unfold end_input_stream in E.
  apply (fill_enqueue_fits (set_sender (TCPSender.end_input (sender_ c)) c)); [|exact E].
  split; [|done]. apply set_stream_fits; [|done]. destruct (sf_stream _ Hs). by split.
Qed.

Lemma read_inbound_fits c len s c' : connection_fits c -> read_inbound c len = Ok (s, c') -> connection_fits c'.
Proof. intros [? ?] E. apply bind_Ok in E as ([s' out] & _ & E). by injection E as <- <-. Qed.

(** ** Any calls, any segments *)

Inductive any_call : TCPConnection -> TCPConnection -> Prop :=
  | any_connect c c' : connect c = Ok c' -> any_call c c'
  | any_write c data n c' : write c data = Ok (n, c') -> any_call c c'
  | any_end c c' : end_input_stream c = Ok c' -> any_call c c'
  | any_tick c ms c' : tick c ms = Ok c' -> any_call c c'
  | any_segment c seg c' : segment_received c seg = Ok c' -> any_call c c'
  | any_read c len s c' : read_inbound c len = Ok (s, c') -> any_call c c'
  | any_pop c seg q : segments_out_ c = seg :: q -> any_call c (set_out q c)
  | any_destroy c c' : destroy c = Ok c' -> any_call c c'.

Lemma any_call_fits c c' : any_call c c' -> connection_fits c -> connection_fits c'.
Proof.
  intros [c0 c1 E|c0 data n c1 E|c0 c1 E|c0 ms c1 E|c0 seg c1 E|c0 len s c1 E|c0 seg q E|c0 c1 E] Hc.
  - by eapply fill_enqueue_fits.
  - by eapply write_fits.
  - by eapply end_input_fits.
  - by eapply tick_fits.
  - by eapply segment_received_fits.
  - by eapply read_inbound_fits.
  - destruct Hc as [? Ho]. split; [done|]. rewrite E in Ho. by apply Forall_cons_1 in Ho as [_ ?].
  - unfold destroy in E. destruct (active c0); [|congruence]. destruct Hc as [Hs Ho].
    eapply enqueue_fits; [| |exact E]; [by apply send_empty_fits|exact Ho].
Qed.

Lemma new_fits cfg rnd :
  0 < send_capacity cfg < M63 -> match fixed_isn cfg with Some isn => wi_ok isn | None => True end ->
  connection_fits (new cfg rnd).
Proof.
  intros Hc Hi. split; [|done]. split; try done.
  - by apply bs_wf_new.
  - cbn. destruct (fixed_isn cfg); [done|apply u32_range].
Qed.

(** C22: the segments of a connection are well typed and bounded, whatever
    happens: after any calls, with any segments from the peer, honest or not,
    every segment in the outbound queue has a 20-byte header with all fields
    in range and a payload of at most [MAX_PAYLOAD_SIZE] bytes, so that with
    its IPv4 header it stays far below the 65535 bytes of a datagram. *)
Theorem segments_fit_datagrams (cfg : TCPConfig) (rnd : Z) (c : TCPConnection)
    (Hcap : 0 < send_capacity cfg < M63)
    (Hisn : match fixed_isn cfg with Some isn => wi_ok isn | None => True end)
    (Hcalls : rtc any_call (new cfg rnd) c) :
  Forall (fun seg => fits seg /\ 20 + 4 * doff (header seg) + zlen (str (payload seg)) <= 1040) (segments_out c).
Proof.
  assert (Hc : connection_fits c).
  { pose proof (new_fits cfg rnd Hcap Hisn) as H0. induction Hcalls as [|x y z Hxy _ IH]; [done|].
    by eapply IH, any_call_fits. }
  destruct Hc as [_ Ho]. eapply Forall_impl; [exact Ho|]. intros seg [? Hd ? Hz]. split; [by split|].
  unfold MAX_PAYLOAD_SIZE in Hz. lia.
Qed.

Lemma segments_fit_datagrams_witness :
  exists c, rtc any_call (new (sample_cfg 7) 0) c /\ segments_out c <> []
    /\ Forall (fun seg => fits seg /\ 20 + 4 * doff (header seg) + zlen (str (payload seg)) <= 1040) (segments_out c).
Proof.
  destruct (connect (new (sample_cfg 7) 0)) as [c|] eqn:E; [|by vm_compute in E]. exists c.
  assert (Hr : rtc any_call (new (sample_cfg 7) 0) c) by (apply rtc_once, (any_connect _ _ E)).
  split; [exact Hr|]. split; [|apply (segments_fit_datagrams (sample_cfg 7) 0 c); [by cbn; lia|by vm_compute|exact Hr]].
  vm_compute in E. injection E as <-. done.
Defined.
