(* ===== verification/ConnectionStatus.v ===== *)
(** * A connection between two owners

    For the component that drives a connection (TCPSpongeSocket), a connection
    is either alive, in the invariant of TCPConnection.v, or dead: reset by
    the peer or by too many retransmissions, with both streams in error.  Both
    are kept by every call, no call fails, and what was read from the inbound
    stream with what waits in it stays a prefix of the peer's stream. *)

From Stdlib Require Import ZArith Lia.
From S2P Require Import Prelude WrappingIntegers Ring ByteStream UnAssembleBuffer StreamReassembler Buffer Parser TCPHeader TCPSegment TCPReceiver TCPSender TCPState TCPConnection SegmentBounds.

(** ** The end of the outbound stream *)

Lemma fill_loop_ended fuel : forall s s', fill_loop fuel s = Ok s' -> ended s' = ended s /\ error_ (stream_ s') = error_ (stream_ s).
Proof.
  induction fuel as [|fuel IH]; intros s s' E; cbn [fill_loop] in E; [done|].
  destruct (free_window_size s =? 0); [by injection E as <-|]. destruct (_ && _); [by injection E as <-|].
  apply bind_Ok in E as ([data bs] & Er & E). apply IH in E as [-> ->].
  apply bind_Ok in Er as (d & _ & Er). apply bind_Ok in Er as (bs' & Ep & Er). injection Er as <- <-.
  unfold pop_output in Ep. apply bind_Ok in Ep as (st & _ & Ep). injection Ep as <-. done.
Qed.

Lemma fill_window_ended s s' :
  fill_window s = Ok s' -> ended s' = ended s /\ error_ (stream_ s') = error_ (stream_ s).
Proof.
  intros E. unfold fill_window in E. case_bool_decide; [by injection E as <-|by eapply fill_loop_ended].
Qed.

(** [enqueue_segments] moves segments, nothing else. *)
Lemma enqueue_fields c c' :
  enqueue_segments c = Ok c' ->
  receiver_ c' = receiver_ c /\ active_ c' = active_ c /\ cfg_ c' = cfg_ c
  /\ stream_ (sender_ c') = stream_ (sender_ c).
Proof. intros E. apply bind_Ok in E as ([q out] & _ & E). by injection E as <-. Qed.

Lemma ack_received_stream s n w : stream_ (ack_received s n w) = stream_ s.
Proof. unfold ack_received. repeat case_match; done. Qed.

Lemma segment_received_ended c seg c' : segment_received c seg = Ok c' -> ended (sender_ c') = ended (sender_ c).
Proof.
  intros E. unfold segment_received in E. destruct (_ && _ && _); [by injection E as <-|].
  destruct (rst (header seg)); [by injection E as <-|]. apply bind_Ok in E as (r & _ & E).
  set (c1 := set_receiver r (set_ms 0 c)) in E. set (c2 := if ack (header seg) then _ else c1) in E.
  assert (H2 : stream_ (sender_ c2) = stream_ (sender_ c)).
  { subst c2. destruct (ack _); [|done]. cbn. apply ack_received_stream. }
  set (c3 := if _ && _ then _ else c2) in E.
  assert (H3 : sender_ c3 = sender_ c2).
  { subst c3. destruct (_ && _); [|done]. unfold try_clean_shutdown. by destruct (_ || _). }
  apply bind_Ok in E as (s & Ef & E). apply bind_Ok in E as (b & _ & E).
  apply fill_window_ended in Ef as [Ef _]. apply enqueue_fields in E as (_ & _ & _ & E).
  unfold ended in *. rewrite E. destruct (try_clean_shutdown_fields (if b then set_sender (send_empty_segment (sender_ (set_sender s c3))) (set_sender s c3) else set_sender s c3)) as (_ & _ & -> & _).
  rewrite <-H2, <-H3, <-Ef. destruct b; [|done]. cbn. unfold send_empty_segment. by destruct (TCPSender.segments_out_ s).
Qed.

Lemma sender_tick_stream s ms s' : TCPSender.tick s ms = Ok s' -> stream_ s' = stream_ s.
Proof.
  intros E. unfold TCPSender.tick in E. destruct (negb _); [by injection E as <-|].
  destruct (outstanding_segments_ s); [done|]. destruct (if 0 <? window_size_ s then _ else _). by injection E as <-.
Qed.

(** ** Dead connections *)

Definition dead (c : TCPConnection) : Prop :=
  active_ c = false /\ error_ (stream_ (sender_ c)) = true /\ error_ (inbound_stream c) = true.

(** A sender in error sends what is left, without a FIN. *)
Lemma fill_loop_error fuel : forall s,
  ByteStream.wf (stream_ s) -> error_ (stream_ s) = true -> (Z.to_nat (ByteStream.used_size_ (stream_ s)) < fuel)%nat ->
  exists s', fill_loop fuel s = Ok s' /\ ByteStream.wf (stream_ s').
Proof.
  induction fuel as [|fuel IH]; intros s Hw He Hf; [lia|]. cbn [fill_loop].
  destruct (Z.eqb_spec (free_window_size s) 0) as [|Hfree]; [eauto|].
  assert (TCPSender.state s = TCPSender.kError) as -> by (unfold TCPSender.state, ByteStream.error; by rewrite He).
  rewrite andb_false_r. cbn [negb andb]. rewrite !andb_true_r.
  destruct (Z.eqb_spec (ByteStream.buffer_size (stream_ s)) 0) as [|Hne]; [eauto|].
  pose proof (free_window_nonneg s). pose proof (ByteStream.wf_used _ Hw) as Hu. unfold ByteStream.buffer_size in *.
  set (n := Z.min _ MAX_PAYLOAD_SIZE). assert (0 < n) by (unfold n, MAX_PAYLOAD_SIZE; lia).
  destruct (read_contents _ n Hw) as (bs' & -> & Hw' & Hc' & Hcon & _ & _ & _ & He'); [lia|]. cbn [mbind res_bind].
  rewrite andb_false_r. apply IH; cbn; [done|congruence|].
  rewrite <-(length_contents bs') by done. rewrite Hcon, zlen_zdrop, length_contents by (done || lia). lia.
Qed.

Lemma fill_window_error s :
  ByteStream.wf (stream_ s) -> error_ (stream_ s) = true -> exists s', fill_window s = Ok s' /\ ByteStream.wf (stream_ s').
Proof.
  intros Hw He. unfold fill_window. case_bool_decide; [eauto|]. apply fill_loop_error; [done|done|].
  unfold fill_fuel, ByteStream.buffer_size. lia.
Qed.

Lemma enqueue_error c : error_ (inbound_stream c) = true -> exists c', enqueue_segments c = Ok c'.
Proof.
  intros He. unfold enqueue_segments.
  assert (Ha : ackno (receiver_ c) = Ok None).
  { unfold ackno, TCPReceiver.state, ByteStream.error. unfold inbound_stream in He. by rewrite He. }
  assert (Hl : forall q out, exists q' out', enqueue_loop (receiver_ c) (need_send_rst_ c) q out = Ok (q', out')).
  { intros q. induction q as [|seg q IH]; intros out; cbn [enqueue_loop]; [eauto|].
    destruct (need_send_rst_ c); [eauto|]. unfold add_ack. rewrite Ha. cbn [mbind res_bind]. apply IH. }
  destruct (Hl (TCPSender.segments_out (sender_ c)) (segments_out_ c)) as (q' & out' & ->). cbn. eauto.
Qed.

Lemma dead_fill_enqueue c :
  dead c -> ByteStream.wf (stream_ (sender_ c)) ->
  exists c', (s ← fill_window (sender_ c); enqueue_segments (set_sender s c)) = Ok c'
    /\ dead c' /\ receiver_ c' = receiver_ c /\ ended (sender_ c') = ended (sender_ c).
Proof.
  intros (Ha & He & Hi) Hw. destruct (fill_window_error _ Hw He) as (s & Es & _). rewrite Es. cbn [mbind res_bind].
  destruct (fill_window_ended _ _ Es) as [En Ee].
  destruct (enqueue_error (set_sender s c)) as [c' Ec]; [done|]. exists c'. split; [done|].
  apply enqueue_fields in Ec as (Hr & Hac & _ & Hs). unfold dead, inbound_stream, ended in *. cbn in *.
  rewrite Hr, Hac, Hs. by split_and!; try congruence.
Qed.

(** ** Connections that were reset

    Both streams are in error.  The sockets make few calls on such a connection,
    but all of them return, except for one. *)

(** A sender whose stream is in error. *)
Record spent (s : TCPSender) : Prop := {
  sp_stream : ByteStream.wf (stream_ s);
  sp_error : error_ (stream_ s) = true;
  sp_timer : started_ (timer_ s) = true -> outstanding_segments_ s <> []
}.

Lemma fill_loop_timer fuel : forall s s',
  (started_ (timer_ s) = true -> outstanding_segments_ s <> []) -> fill_loop fuel s = Ok s' ->
  started_ (timer_ s') = true -> outstanding_segments_ s' <> [].
Proof.
  induction fuel as [|fuel IH]; intros s s' Ht E; cbn [fill_loop] in E; [done|].
  destruct (free_window_size s =? 0); [by injection E as <-|]. destruct (_ && _); [by injection E as <-|].
  apply bind_Ok in E as ([data bs] & _ & E). eapply IH; [|exact E]. intros _. cbn. by destruct (outstanding_segments_ s).
Qed.

Lemma spent_fill s : spent s -> exists s', fill_window s = Ok s' /\ spent s' /\ ended s' = ended s.
Proof.
  intros [Hw He Ht]. destruct (fill_window_error s Hw He) as (s' & E & Hw'). exists s'.
  destruct (fill_window_ended _ _ E) as [En Ee]. split_and!; [done| |done]. split; [done|congruence|].
  unfold fill_window in E. case_bool_decide; [|by eapply fill_loop_timer].
  injection E as <-. intros _. cbn. by destruct (outstanding_segments_ s).
Qed.

Lemma ack_loop_timer q isn last ab : forall fl t, started_ t = false ->
  let '(q', _, t') := ack_loop q isn last ab fl t in started_ t' = true -> q' <> [].
Proof.
  induction q as [|seg q IH]; intros fl t Ht; cbn [ack_loop]; [congruence|]. destruct (ab <? _); [done|]. by apply IH.
Qed.

Lemma spent_ack s n w : spent s -> spent (ack_received s n w).
Proof.
  intros [Hw He Ht]. unfold ack_received. destruct (_ || _); [by destruct (_ =? _)|].
  pose proof (ack_loop_timer (outstanding_segments_ s) (isn_ s) (last_ack_no_ s) (unwrap n (isn_ s) (last_ack_no_ s))
    (bytes_in_flight_ s) (timer_reset_to (init_retransmission_timeout_ s) (timer_ s)) eq_refl) as Ha.
  by destruct (ack_loop _ _ _ _ _ _) as [[q fl] t].
Qed.

Lemma spent_tick s ms : spent s -> exists s', TCPSender.tick s ms = Ok s' /\ spent s' /\ ended s' = ended s.
Proof.
  intros [Hw He Ht]. unfold TCPSender.tick, expired, timer_tick. destruct (started_ (timer_ s)) eqn:Es; cbn [started_].
  - destruct (_ <=? _); cbn [andb negb].
    + destruct (outstanding_segments_ s) as [|front q] eqn:Eq; [by destruct (Ht eq_refl)|].
      destruct (if 0 <? window_size_ s then _ else _). eexists. split_and!; [reflexivity|by split|done].
    + eexists. split_and!; [reflexivity|by split|done].
  - rewrite Es. cbn [andb negb]. eexists. split_and!; [reflexivity|split; [done|done|cbn; congruence]|done].
Qed.

Lemma spent_out s q : spent s -> spent (set_segments_out q s).
Proof. by intros []. Qed.

Lemma spent_reply s : spent s -> spent (send_empty_segment s).
Proof. intros H. unfold send_empty_segment. destruct (TCPSender.segments_out_ s); [by apply spent_out|done]. Qed.

Lemma sinv_spent s hist : sinv s hist -> spent (set_stream_in (ByteStream.set_error (stream_in s)) s).
Proof.
  intros H. split; [by apply wf_set_error, (si_stream _ _ H)|done|]. cbn. rewrite (si_timer _ _ H). apply bool_decide_eq_true.
Qed.

(** A connection that was reset. *)
Record was_reset (c : TCPConnection) : Prop := {
  wr_active : active_ c = false;
  wr_linger : linger_after_stream_finish_ c = false;
  wr_inbound : error_ (inbound_stream c) = true;
  wr_sender : spent (sender_ c)
}.

(** Only the queues, the sender and the clock change; with a pending reset only
    resets are queued. *)
Record unchanged (c c' : TCPConnection) : Prop := {
  un_receiver : receiver_ c' = receiver_ c;
  un_cfg : cfg_ c' = cfg_ c;
  un_rst : need_send_rst_ c' = need_send_rst_ c;
  un_queue : exists new, segments_out c' = segments_out c ++ new
    /\ (need_send_rst_ c = true -> Forall (fun seg => rst (header seg) = true) new)
}.

Lemma unchanged_receiver c c1 c' : receiver_ c1 = receiver_ c -> cfg_ c1 = cfg_ c -> need_send_rst_ c1 = need_send_rst_ c ->
  segments_out c1 = segments_out c -> unchanged c1 c' -> unchanged c c'.
Proof. intros E1 E2 E3 E4 [H1 H2 H3 H4]. split; try congruence. by rewrite E3, E4 in H4. Qed.

Lemma reset_enqueue c : was_reset c ->
  exists c', enqueue_segments c = Ok c' /\ was_reset c' /\ unchanged c c' /\ ended (sender_ c') = ended (sender_ c).
Proof.
  intros [Ha Hl Hi Hs]. destruct (need_send_rst_ c) eqn:Hn.
  - destruct (TCPSender.segments_out_ (sender_ c)) as [|seg q] eqn:E.
    + exists (set_out (segments_out_ c) (set_sender (set_segments_out [] (sender_ c)) c)).
      unfold enqueue_segments, TCPSender.segments_out. rewrite Hn, E. split_and!; [done|by split; try apply spent_out| |done].
      split; try done. exists []. by rewrite app_nil_r.
    + rewrite (enqueue_rst c seg q Hn E). eexists. split_and!; [done|by split; try apply spent_out| |done].
      split; try done. eexists. split; [reflexivity|]. intros _. by constructor.
  - assert (ackno (receiver_ c) = Ok None) as Hk.
    { unfold ackno, TCPReceiver.state, ByteStream.error. unfold inbound_stream in Hi. by rewrite Hi. }
    rewrite (enqueue_ok c None Hk Hn). eexists. split_and!; [done|by split; try apply spent_out| |done].
    split; try done. eexists. split; [reflexivity|]. by rewrite Hn.
Qed.

(** The calls that fill the window and flush. *)
Lemma reset_fill c s : was_reset c -> spent s ->
  exists c', (s' ← fill_window s; enqueue_segments (set_sender s' c)) = Ok c' /\ was_reset c' /\ unchanged c c'
    /\ ended (sender_ c') = ended s.
Proof.
  intros [Ha Hl Hi _] Hs. destruct (spent_fill s Hs) as (s' & -> & Hs' & Ee). cbn [mbind res_bind].
  destruct (reset_enqueue (set_sender s' c)) as (c' & E & Hr & Hu & Ee'); [by split|]. exists c'. split_and!; [done|done| |rewrite Ee'; exact Ee].
  by apply (unchanged_receiver c (set_sender s' c)).
Qed.

Lemma reset_connect c : was_reset c ->
  exists c', connect c = Ok c' /\ was_reset c' /\ unchanged c c' /\ ended (sender_ c') = ended (sender_ c).
Proof. intros H. apply reset_fill; [done|apply H]. Qed.

Lemma reset_end c : was_reset c ->
  exists c', end_input_stream c = Ok c' /\ was_reset c' /\ unchanged c c' /\ ended (sender_ c') = true.
Proof.
  intros H. destruct (H) as [Ha Hl Hi [Hw He Ht]]. set (c1 := set_sender (TCPSender.end_input (sender_ c)) c).
  assert (spent (TCPSender.end_input (sender_ c))) as Hs by (split; [by apply wf_end_input|done|done]).
  destruct (reset_fill c1 (TCPSender.end_input (sender_ c))) as (c' & E & Hr & Hu & Ee); [by split|done|].
  exists c'. split_and!; [exact E|done|by apply (unchanged_receiver c c1)|by rewrite Ee].
Qed.

Lemma reset_write c data : was_reset c ->
  exists c', write c data = Ok (zlen (accepted (stream_in (sender_ c)) data), c') /\ was_reset c' /\ unchanged c c'
    /\ ended (sender_ c') = ended (sender_ c).
Proof.
  intros H. destruct (H) as [Ha Hl Hi [Hw He Ht]].
  destruct (write_contents (stream_in (sender_ c)) data Hw) as (bs & Ew & Hwb & _ & _ & _ & _ & Hie & Her).
  set (c1 := set_sender (set_stream_in bs (sender_ c)) c).
  assert (spent (set_stream_in bs (sender_ c))) as Hs by (split; [done|cbn; rewrite Her; exact He|exact Ht]).
  destruct (reset_fill c1 (set_stream_in bs (sender_ c))) as (c' & E & Hr & Hu & Ee); [by split|done|].
  exists c'. split_and!; [|done|by apply (unchanged_receiver c c1)|rewrite Ee; exact Hie].
  unfold write. rewrite Ew. cbn [mbind res_bind]. cbn [sender_ set_sender] in E |- *. fold c1 in E |- *.
  destruct (fill_window (set_stream_in bs (sender_ c))) as [s|]; [|done]. cbn [mbind res_bind] in *. by rewrite E.
Qed.

Lemma set_error_again bs : error_ bs = true -> ByteStream.set_error bs = bs.
Proof. destruct bs. cbn. by intros ->. Qed.

Lemma unclean_again c : error_ (inbound_stream c) = true -> receiver_ (unclean_shutdown c) = receiver_ c.
Proof.
  unfold inbound_stream. intros He. cbn. rewrite (set_error_again _ He). by destruct (receiver_ c) as [[] ? ? ?].
Qed.

Lemma unclean_was_reset c : ByteStream.wf (stream_ (sender_ c)) ->
  (started_ (timer_ (sender_ c)) = true -> outstanding_segments_ (sender_ c) <> []) -> was_reset (unclean_shutdown c).
Proof. intros Hw Ht. split; try done. split; [by apply wf_set_error|done|done]. Qed.

Lemma shutdown_was_reset c : was_reset c -> was_reset (try_clean_shutdown c).
Proof. intros [Ha Hl Hi Hs]. unfold try_clean_shutdown. by destruct (_ || _). Qed.

Lemma reset_state c : was_reset c -> state_eqb (TCPConnection.state c) (of_state RESET) = true.
Proof.
  intros [Ha Hl Hi [_ He _]]. apply state_eqb_eq. unfold TCPConnection.state, summary, sender_summary, receiver_summary.
  unfold inbound_stream in Hi. unfold TCPSender.state, TCPReceiver.state, ByteStream.error, active. by rewrite Hi, He, Ha, Hl.
Qed.

Lemma reset_set_out q c : was_reset c -> was_reset (set_out q c).
Proof. by intros []. Qed.

Lemma reset_tick c ms : was_reset c ->
  exists c' new, tick c ms = Ok c' /\ was_reset c' /\ receiver_ c' = receiver_ c /\ cfg_ c' = cfg_ c
    /\ ended (sender_ c') = ended (sender_ c) /\ segments_out c' = segments_out c ++ new
    /\ (need_send_rst_ c = true -> need_send_rst_ c' = true /\ Forall (fun seg => rst (header seg) = true) new).
Proof.
  intros [Ha Hl Hi Hs]. unfold tick. cbn [sender_ set_ms]. destruct (spent_tick _ ms Hs) as (s & -> & Hs' & Ee).
  cbn [mbind res_bind sender_ set_sender]. set (c0 := set_sender s _). destruct (_ <? _).
  - set (c1 := set_need_rst true _).
    assert (was_reset c1) as H1 by (destruct (unclean_was_reset c0 (sp_stream _ Hs') (sp_timer _ Hs')); by split).
    assert (receiver_ c1 = receiver_ c) as E1 by exact (unclean_again c0 Hi).
    destruct (reset_enqueue (set_sender (send_empty_segment (sender_ c1)) c1)) as (c' & E & Hr & [U1 U2 U3 (new & Un & Uf)] & Ee').
    { destruct H1. by split; try apply spent_reply. }
    exists c', new. split_and!; [exact E|done|by rewrite U1|by rewrite U2| |exact Un|].
    + rewrite Ee', <-Ee. unfold send_empty_segment. cbn. by destruct (TCPSender.segments_out_ _).
    + intros _. split; [by rewrite U3|]. by apply Uf.
  - destruct (try_clean_shutdown_fields c0) as (F1 & F2 & F3 & F4 & F5 & _).
    destruct (reset_enqueue (try_clean_shutdown c0)) as (c' & E & Hr & [U1 U2 U3 (new & Un & Uf)] & Ee');
      [apply shutdown_was_reset; by split|].
    exists c', new. split_and!; [exact E|done|by rewrite U1, F2|by rewrite U2, F1|by rewrite Ee', F3| |].
    + rewrite Un. unfold segments_out. by rewrite F4.
    + intros Hn. rewrite U3, F5. split; [done|]. apply Uf. by rewrite F5.
Qed.

(** The tick that gives up. *)
Lemma tick_resets c hist ms s c' :
  sinv (sender_ c) hist -> TCPSender.tick (sender_ c) ms = Ok s -> MAX_RETX_ATTEMPTS < consecutive_retransmissions s ->
  tick c ms = Ok c' ->
  was_reset c' /\ receiver_ c' = set_stream_out (receiver_ c) (ByteStream.set_error (stream_out (receiver_ c))).
Proof.
  intros H Es Hm E. destruct (sinv_tick _ _ ms H) as (s' & Es' & Hs). rewrite Es in Es'. injection Es' as <-.
  unfold tick in E. cbn [sender_ set_ms] in E. rewrite Es in E. cbn [mbind res_bind sender_ set_sender] in E.
  rewrite (proj2 (Z.ltb_lt _ _) Hm) in E. set (c0 := set_sender s _) in E. set (c1 := set_need_rst true _) in E.
  assert (was_reset c1) as H1.
  { destruct (unclean_was_reset c0) as [? ? ? ?]; [apply Hs| |by split].
    change (sender_ c0) with s. rewrite (si_timer _ _ Hs). apply bool_decide_eq_true. }
  destruct (reset_enqueue (set_sender (send_empty_segment (sender_ c1)) c1)) as (c2 & E2 & Hr & Hu & _).
  { destruct H1. by split; try apply spent_reply. }
  rewrite E in E2. injection E2 as <-. split; [done|]. by rewrite (un_receiver _ _ Hu).
Qed.

(** A connection that was reset takes a reset again; another segment is handled
    when its receiver handles it, and otherwise fails as the receiver does. *)
Lemma reset_rst c seg : was_reset c -> rst (header seg) = true ->
  exists c', segment_received c seg = Ok c' /\ was_reset c' /\ unchanged c c' /\ ended (sender_ c') = ended (sender_ c).
Proof.
  intros [Ha Hl Hi Hs] Hr. unfold segment_received.
  assert (TCPReceiver.state (receiver_ c) = TCPReceiver.kError) as ->.
  { unfold TCPReceiver.state, ByteStream.error. unfold inbound_stream in Hi. by rewrite Hi. }
  rewrite bool_decide_false by done. cbn [andb]. rewrite Hr. eexists. split_and!; [done| | |done].
  - by apply (unclean_was_reset (set_ms 0 c)); apply Hs.
  - split; [exact (unclean_again (set_ms 0 c) Hi)|done|done|]. exists []. by rewrite app_nil_r.
Qed.

Lemma reset_segment c seg : was_reset c -> rst (header seg) = false ->
  match TCPReceiver.segment_received (receiver_ c) seg with
  | Fail f => segment_received c seg = Fail f
  | Ok r => error_ (stream_out r) = true ->
      exists c', segment_received c seg = Ok c' /\ was_reset c' /\ unchanged (set_receiver r c) c'
        /\ ended (sender_ c') = ended (sender_ c)
  end.
Proof.
  intros [Ha Hl Hi Hs] Hr. unfold segment_received.
  assert (TCPReceiver.state (receiver_ c) = TCPReceiver.kError) as ->.
  { unfold TCPReceiver.state, ByteStream.error. unfold inbound_stream in Hi. by rewrite Hi. }
  rewrite bool_decide_false by done. cbn [andb]. rewrite Hr. cbn [receiver_ set_ms].
  destruct (TCPReceiver.segment_received (receiver_ c) seg) as [r|f]; [|done]. cbn [mbind res_bind]. intros He.
  assert (TCPReceiver.state r = TCPReceiver.kError) as Er by (unfold TCPReceiver.state, ByteStream.error; by rewrite He).
  set (c1 := set_receiver r (set_ms 0 c)). set (c2 := if ack (header seg) then _ else c1).
  assert (was_reset c2 /\ receiver_ c2 = r /\ unchanged (set_receiver r c) c2 /\ ended (sender_ c2) = ended (sender_ c))
    as ([Ha2 Hl2 Hi2 Hs2] & R2 & U2 & E2).
  { subst c2. destruct (ack _); cbn.
    - split_and!; [split; [done|done|done|by apply spent_ack]|done|split; try done; exists []; by rewrite app_nil_r|].
      unfold ended. cbn. by rewrite ack_received_stream.
    - split_and!; [by split|done|split; try done; exists []; by rewrite app_nil_r|done]. }
  rewrite R2, Er, (bool_decide_false (TCPReceiver.kError = TCPReceiver.kFinRecv)) by done. cbn [andb].
  destruct (spent_fill _ Hs2) as (s & -> & Hs' & Ee). cbn [mbind res_bind].
  assert (exists b, wants_reply (set_sender s c2) seg = Ok b) as [b ->].
  { unfold wants_reply. destruct (_ <? _); [eauto|]. cbn [receiver_ set_sender]. rewrite R2, Er, bool_decide_false by done. eauto. }
  cbn [mbind res_bind]. set (c3 := if b then _ else _).
  assert (was_reset c3 /\ receiver_ c3 = receiver_ c2 /\ cfg_ c3 = cfg_ c2 /\ need_send_rst_ c3 = need_send_rst_ c2
    /\ segments_out c3 = segments_out c2 /\ ended (sender_ c3) = ended (sender_ c)) as (H3 & R3 & F3 & N3 & O3 & E3).
  { subst c3. destruct b; cbn.
    - split_and!; try done; [by split; try apply spent_reply|]. rewrite <-E2, <-Ee. unfold send_empty_segment.
      cbn. by destruct (TCPSender.segments_out_ s).
    - split_and!; try done. by rewrite <-E2, <-Ee. }
  clearbody c3. destruct (try_clean_shutdown_fields c3) as (G1 & G2 & G3 & G4 & G5 & _).
  destruct (reset_enqueue (try_clean_shutdown c3)) as (c' & E & Hr' & [V1 V2 V3 (new & Vn & Vf)] & Ee');
    [by apply shutdown_was_reset|].
  exists c'. split_and!; [done|done| |by rewrite Ee', G3, E3]. destruct U2 as [W1 W2 W3 (nw & Wn & Wf)].
  split; [congruence|congruence|congruence|]. exists (nw ++ new). unfold segments_out in *. split.
  - by rewrite Vn, G4, O3, Wn, app_assoc.
  - intros Hn. apply Forall_app. split; [by apply Wf|]. apply Vf. by rewrite G5, N3, W3.
Qed.

(** ** Status of a connection *)

Section status.
Context (S : list byte) (pisn : WrappingInt32) (cfg : TCPConfig).
Context (Hpisn : wi_ok pisn) (Hcfg : cfg_ok S cfg).

Definition alive (c : TCPConnection) (hist dlv : list byte) : Prop :=
  cfg_ c = cfg /\ exists rcv fn, cinv S pisn c hist dlv rcv fn.

(** [dlv] was read from the inbound stream, [hist] written to the outbound
    one, as long as the connection is alive. *)
Record status (c : TCPConnection) (hist dlv : list byte) : Prop := {
  st_fits : connection_fits c;
  st_inbound : ByteStream.wf (inbound_stream c);
  st_prefix : exists m, dlv ++ contents (inbound_stream c) = ztake m S;
  st_mode : alive c hist dlv \/ dead c
}.

Lemma alive_status c hist dlv : connection_fits c -> alive c hist dlv -> status c hist dlv.
Proof.
  intros Hf Ha. split; [done| | |by left]; destruct Ha as (_ & rcv & fn & [_ [Hi _ _ _ _] _ _]).
  - destruct (inv_wf _ _ _ _ _ _ Hi). done.
  - exists (next (reassembler_ (receiver_ c))). exact (inv_prefix _ _ _ _ _ _ Hi).
Qed.

(** A call that leaves the receiver alone keeps a dead connection's status. *)
Lemma dead_status c c' hist hist' dlv :
  status c hist dlv -> connection_fits c' -> inbound_stream c' = inbound_stream c -> dead c' -> status c' hist' dlv.
Proof. intros [_ Hw Hp _] Hf E Hd. split; [done|by rewrite E|by rewrite E|by right]. Qed.

Lemma status_set_out q c hist dlv : Forall fits q -> status c hist dlv -> status (set_out q c) hist dlv.
Proof.
  intros Hq [[Hs _] Hw Hp Hm]. split; [by split|done|done|]. destruct Hm as [(Hc & rcv & fn & [])|Hd]; [left|by right].
  split; [done|]. exists rcv, fn. by split.
Qed.

Lemma unclean_dead c : dead (unclean_shutdown c).
Proof. done. Qed.

Lemma unclean_status c hist dlv : status c hist dlv -> status (unclean_shutdown c) hist dlv.
Proof.
  intros [Hf Hw Hp _]. split; [by apply unclean_fits| |exact Hp|by right]. destruct Hw. by split.
Qed.

(** ** The calls *)

Lemma status_new rnd : status (new cfg rnd) [] [].
Proof using Hpisn Hcfg.
  pose proof (cinv_new S pisn Hpisn cfg rnd Hcfg) as Hc.
  apply alive_status; [|split; [done|by exists ∅, false]].
  destruct Hc as [Hs _ _ _]. split; [|constructor]. by split; [apply Hs|apply Hs|constructor|constructor].
Qed.

Lemma status_connect c hist dlv :
  status c hist dlv -> alive c hist dlv ->
  exists c', connect c = Ok c' /\ status c' hist dlv /\ ended (sender_ c') = ended (sender_ c).
Proof using Hpisn Hcfg.
  intros Hst (Hc & rcv & fn & Hi). destruct (cinv_connect S pisn Hpisn c hist dlv rcv fn) as (c' & E & Hi' & Hc' & _);
    [by rewrite Hc|done|]. exists c'. split_and!; [done| |].
  - apply alive_status; [by eapply fill_enqueue_fits; [apply Hst|]|]. split; [congruence|eauto].
  - apply bind_Ok in E as (s & Ef & E). apply fill_window_ended in Ef as [Ef _].
    apply enqueue_fields in E as (_ & _ & _ & E). unfold ended in *. rewrite E. exact Ef.
Qed.

Lemma status_segment c hist dlv seg :
  status c hist dlv -> alive c hist dlv ->
  rst (header seg) = true \/ (exists index, peer_segment S pisn (receiver_ c) seg index) ->
  exists c', segment_received c seg = Ok c' /\ status c' hist dlv /\ ended (sender_ c') = ended (sender_ c).
Proof using Hpisn Hcfg.
  intros Hst (Hc & rcv & fn & Hi) Hseg.
  enough (exists c', segment_received c seg = Ok c' /\ status c' hist dlv) as (c' & E & Hst').
  { exists c'. split_and!; [done|done|]. by eapply segment_received_ended. }
  destruct (rst (header seg)) eqn:Hr.
  - unfold segment_received. destruct (_ && _ && _); [eauto|]. rewrite Hr. eexists. split; [done|].
    apply unclean_status. destruct Hst as [[] ? ? _]. split; try done. left. split; [done|].
    exists rcv, fn. by destruct Hi.
  - destruct Hseg as [|[index Hps]]; [done|].
    destruct (cinv_segment S pisn Hpisn c hist dlv rcv fn seg index) as (c' & E & Hc' & Hi' & _); [by rewrite Hc|done..|].
    exists c'. split; [done|]. apply alive_status; [by eapply segment_received_fits; [apply Hst|]|].
    split; [congruence|eauto].
Qed.

Lemma status_end c hist dlv :
  status c hist dlv ->
  exists c', end_input_stream c = Ok c' /\ status c' hist dlv /\ ended (sender_ c') = true.
Proof using Hpisn Hcfg.
  intros Hst.
  enough (exists c', end_input_stream c = Ok c' /\ status c' hist dlv) as (c' & E & Hst').
  { exists c'. split_and!; [done|done|]. apply bind_Ok in E as (s & Ef & E).
    apply fill_window_ended in Ef as [Ef _]. apply enqueue_fields in E as (_ & _ & _ & E).
    unfold ended in *. rewrite E. cbn. by rewrite Ef. }
  destruct (st_mode _ _ _ Hst) as [(Hc & rcv & fn & Hi)|Hd].
  - destruct (cinv_end S pisn Hpisn c hist dlv rcv fn) as (c' & E & Hi' & Hc' & _); [by rewrite Hc|done|].
    exists c'. split; [done|]. apply alive_status; [by eapply end_input_fits; [apply Hst|]|].
    split; [congruence|eauto].
  - assert (Hd' : dead (set_sender (TCPSender.end_input (sender_ c)) c)) by done.
    destruct (dead_fill_enqueue _ Hd') as (c' & E & Hd'' & Hr & _).
    { destruct (sf_stream _ (cf_sender _ (st_fits _ _ _ Hst))). by split. }
    exists c'. split; [done|]. eapply dead_status; [exact Hst| | |done].
    + by eapply end_input_fits; [apply Hst|].
    + unfold inbound_stream. by rewrite Hr.
Qed.

(** A write of at most the free space is accepted whole. *)
Lemma status_write c hist dlv data :
  status c hist dlv -> (alive c hist dlv -> ended (sender_ c) = false) ->
  zlen data <= remaining_outbound_capacity c -> (alive c hist dlv -> zlen hist + zlen data + 2 < M63) ->
  exists c', write c data = Ok (zlen data, c') /\ status c' (hist ++ data) dlv
    /\ ended (sender_ c') = ended (sender_ c).
Proof using Hpisn Hcfg.
  intros Hst Hen Hcap Hb. pose proof (sf_stream _ (cf_sender _ (st_fits _ _ _ Hst))) as Hw.
  pose proof (accepted_all (stream_in (sender_ c)) data Hw Hcap) as Hacc.
  destruct (write_contents (stream_in (sender_ c)) data Hw) as (bs & Ew & Hwb & _ & _ & _ & _ & Hie & Her).
  rewrite Hacc in Ew.
  enough (exists n c', write c data = Ok (n, c') /\ status c' (hist ++ data) dlv) as (n & c' & E & Hst').
  { pose proof E as E0. unfold write in E. rewrite Ew in E. cbn [mbind res_bind] in E.
    apply bind_Ok in E as (s & Ef & E). apply bind_Ok in E as (c2 & Ee & E). injection E as <- <-.
    exists c2. split_and!; [done|done|]. apply fill_window_ended in Ef as [Ef _].
    apply enqueue_fields in Ee as (_ & _ & _ & Ee). unfold ended in *. rewrite Ee. cbn. rewrite Ef. exact Hie. }
  destruct (st_mode _ _ _ Hst) as [Ha|Hd].
  - pose proof Ha as (Hc & rcv & fn & Hi).
    destruct (cinv_write S pisn Hpisn c hist dlv rcv fn data) as (n & c' & E & Hi' & Hc' & _);
      [by rewrite Hc|done|by apply Hen|by apply Hb|].
    exists n, c'. split; [done|]. apply alive_status; [by eapply write_fits; [apply Hst|]|]. split; [congruence|].
    exists rcv, fn. assert (n = zlen data) as ->.
    { unfold write in E. rewrite Ew in E. cbn [mbind res_bind] in E.
      apply bind_Ok in E as (s & _ & E). apply bind_Ok in E as (c2 & _ & E). by injection E as <- <-. }
    unfold ztake, zlen in Hi'. by rewrite Nat2Z.id, firstn_all in Hi'.
  - assert (Hd' : dead (set_sender (set_stream_in bs (sender_ c)) c)).
    { destruct Hd as (? & ? & ?). split_and!; [done| |done]. cbn. by rewrite Her. }
    destruct (dead_fill_enqueue _ Hd' Hwb) as (c' & E & Hd'' & Hr & _).
    assert (Ew2 : write c data = Ok (zlen data, c')).
    { unfold write. rewrite Ew. cbn [mbind res_bind]. cbn [sender_ set_sender] in E |- *.
      destruct (fill_window (set_stream_in bs (sender_ c))) as [s|]; [|done]. cbn [mbind res_bind] in *. by rewrite E. }
    exists (zlen data), c'. split; [done|]. eapply dead_status; [exact Hst| | |done].
    + by eapply write_fits; [apply Hst|].
    + unfold inbound_stream. by rewrite Hr.
Qed.

Lemma status_pop c hist dlv n :
  status c hist dlv -> 0 <= n < M64 ->
  exists out, pop_output (inbound_stream c) n = Ok out
    /\ status (set_receiver (set_stream_out (receiver_ c) out) c) hist (dlv ++ ztake n (contents (inbound_stream c))).
Proof using Hpisn Hcfg.
  intros Hst Hn. pose proof (st_inbound _ _ _ Hst) as Hw.
  destruct (read_contents _ n Hw) as (out & Er & Hwo & _ & Hco & _ & _ & _ & Heo); [lia|].
  pose proof Er as Er0. unfold read in Er. rewrite peek_output_spec in Er by (done || lia). cbn [mbind res_bind] in Er.
  apply bind_Ok in Er as (out' & Ep & Er). injection Er as ->. exists out. split; [done|].
  destruct (st_mode _ _ _ Hst) as [(Hc & rcv & fn & Hi)|Hd].
  - apply alive_status; [by destruct Hst as [[] _ _ _]|].
    destruct (cinv_read S pisn c hist dlv rcv fn n Hpisn) as (s & c' & E & Hi' & Hc'); [by rewrite Hc|done|done|].
    unfold read_inbound in E. rewrite Er0 in E. cbn [mbind res_bind] in E. injection E as <- <-.
    split; [done|]. by exists rcv, fn.
  - destruct Hst as [[? ?] _ [m Hp] _]. split; [done|exact Hwo| |].
    + exists m. rewrite <-app_assoc. match goal with |- context [_ ++ contents ?x] => change (contents x) with (contents out) end.
      rewrite Hco, ztake_zdrop. exact Hp.
    + right. destruct Hd as (? & ? & ?). split_and!; [done|done|]. cbn. change (error_ out = true). by rewrite Heo.
Qed.

Lemma status_tick c hist dlv ms :
  status c hist dlv -> alive c hist dlv ->
  exists c', tick c ms = Ok c' /\ status c' hist dlv /\ ended (sender_ c') = ended (sender_ c).
Proof using Hpisn Hcfg.
  intros Hst (Hc & rcv & fn & Hi).
  destruct (cinv_tick S pisn Hpisn c hist dlv rcv fn ms) as (s & c' & Es & E & Hc' & Hres); [by rewrite Hc|done|].
  exists c'. split; [done|]. pose proof (tick_fits _ _ _ (st_fits _ _ _ Hst) E) as Hf.
  unfold tick in E. cbn [sender_ set_ms] in E. rewrite Es in E. cbn [mbind res_bind sender_ set_sender] in E.
  apply sender_tick_stream in Es. destruct (MAX_RETX_ATTEMPTS <? _).
  - apply enqueue_fields in E as (Hr & Ha & _ & Hs). split.
    + destruct Hst as [_ Hw Hp _]. split; [done| | |right].
      * unfold inbound_stream. rewrite Hr. cbn. destruct Hw. by split.
      * unfold inbound_stream. rewrite Hr. exact Hp.
      * unfold dead, inbound_stream. rewrite Ha, Hr, Hs. split_and!; [done| |done].
        cbn. unfold send_empty_segment. cbn. by destruct (TCPSender.segments_out_ s).
    + unfold ended. rewrite Hs. rewrite <-Es. unfold send_empty_segment. cbn. by destruct (TCPSender.segments_out_ s).
  - split; [apply alive_status; [done|]; split; [congruence|eauto]|].
    apply enqueue_fields in E as (_ & _ & _ & Hs). unfold ended. rewrite Hs.
    destruct (try_clean_shutdown_fields (set_sender s (set_ms (u64 (ms_since_last_recv_ c + ms)) c))) as (_ & _ & -> & _).
    cbn. by rewrite Es.
Qed.

End status.
