(* ===== verification/ConnectionLife.v ===== *)
(** * The life of a connection

    All the calls that can be made on a connection, in every order: by its
    owner, by the clock, and by the arrival of segments of a peer that keeps to
    the window, resets included.  The connection is then in the invariant of
    TCPConnection.v, or it was reset: by the peer, or by its own ninth
    consecutive retransmission. *)

From Stdlib Require Import ZArith Lia.
From S2P Require Import Prelude WrappingIntegers Ring ByteStream UnAssembleBuffer StreamReassembler Buffer Parser TCPHeader TCPSegment TCPReceiver TCPSender TCPState TCPConnection SegmentBounds ConnectionStatus.

(** What the network brings: a reset, or a segment of the peer's stream. *)
Definition arrives (S : list byte) (pisn : WrappingInt32) (c : TCPConnection) (seg : TCPSegment) : Prop :=
  rst (header seg) = true \/ exists index, peer_segment S pisn (receiver_ c) seg index.

(** [life S pisn cfg c hist dlv]: a connection after any calls; [hist] was
    written to it and [dlv] read from it. *)
Inductive life (S : list byte) (pisn : WrappingInt32) (cfg : TCPConfig)
    : TCPConnection -> list byte -> list byte -> Prop :=
  | life_new rnd : life S pisn cfg (new cfg rnd) [] []
  | life_connect c hist dlv c' :
      life S pisn cfg c hist dlv -> connect c = Ok c' -> life S pisn cfg c' hist dlv
  | life_write c hist dlv data n c' :
      life S pisn cfg c hist dlv -> ended (sender_ c) = false -> zlen hist + zlen data + 2 < M63 ->
      write c data = Ok (n, c') -> life S pisn cfg c' (hist ++ ztake n data) dlv
  | life_end c hist dlv c' :
      life S pisn cfg c hist dlv -> end_input_stream c = Ok c' -> life S pisn cfg c' hist dlv
  | life_tick c hist dlv ms c' :
      life S pisn cfg c hist dlv -> tick c ms = Ok c' -> life S pisn cfg c' hist dlv
  | life_segment c hist dlv seg c' :
      life S pisn cfg c hist dlv -> arrives S pisn c seg -> segment_received c seg = Ok c' ->
      life S pisn cfg c' hist dlv
  | life_read c hist dlv len s c' :
      life S pisn cfg c hist dlv -> 0 <= len < M64 -> read_inbound c len = Ok (s, c') ->
      life S pisn cfg c' hist (dlv ++ s)
  | life_take c hist dlv q :
      life S pisn cfg c hist dlv -> life S pisn cfg (set_out q c) hist dlv.

(** The connection was reset before it heard the SYN of its peer. *)
Definition never_heard (c : TCPConnection) : bool := error_ (inbound_stream c) && is_listen_ (receiver_ c).

(** ** Invariant *)

Section life.
Context (S : list byte) (pisn : WrappingInt32) (cfg : TCPConfig).
Context (Hpisn : wi_ok pisn) (Hcfg : cfg_ok S cfg).

Definition ended_early (c : TCPConnection) (dlv : list byte) (rcv : gset Z) (fn : bool) : Prop :=
  was_reset c /\ rreset S pisn (recv_capacity cfg) (receiver_ c) dlv rcv fn.

Definition linv (c : TCPConnection) (hist dlv : list byte) : Prop :=
  cfg_ c = cfg /\ exists rcv fn, cinv S pisn c hist dlv rcv fn \/ ended_early c dlv rcv fn.

Lemma linv_alive c hist dlv rcv fn : cfg_ c = cfg -> cinv S pisn c hist dlv rcv fn -> linv c hist dlv.
Proof using. split; eauto. Qed.

Lemma linv_reset c c' hist dlv rcv fn :
  cfg_ c' = cfg -> was_reset c' -> receiver_ c' = receiver_ c ->
  rreset S pisn (recv_capacity cfg) (receiver_ c) dlv rcv fn -> linv c' hist dlv.
Proof using. intros. split; [done|]. exists rcv, fn. right. split; congruence. Qed.

Lemma linv_shutdown c hist dlv rcv fn :
  cfg_ c = cfg -> cinv S pisn c hist dlv rcv fn -> linv (unclean_shutdown c) hist dlv.
Proof using Hpisn Hcfg.
  intros Hc [Hs Hr _ _]. rewrite Hc in Hr. split; [done|]. exists rcv, fn. right. split; [|by apply rinv_reset].
  apply unclean_was_reset; [apply Hs|]. rewrite (si_timer _ _ Hs). apply bool_decide_eq_true.
Qed.

Ltac case_life H :=
  destruct H as (Hc & rcv & fn & [Hi|[Hw Hr]]); [pose proof Hcfg as Hok; rewrite <-Hc in Hok|].

Lemma linv_connect c hist dlv : linv c hist dlv -> exists c', connect c = Ok c' /\ linv c' hist dlv.
Proof using Hpisn Hcfg.
  intros H. case_life H.
  - destruct (cinv_connect S pisn Hpisn _ _ _ _ _ Hok Hi) as (c' & E & Hi' & Ec & _). exists c'. split; [done|].
    apply (linv_alive _ _ _ rcv fn); congruence.
  - destruct (reset_connect c Hw) as (c' & E & Hw' & Hu & _). exists c'. split; [done|].
    apply (linv_reset c c' _ _ rcv fn); try done; [by rewrite (un_cfg _ _ Hu)|apply Hu].
Qed.

Lemma linv_end c hist dlv : linv c hist dlv -> exists c', end_input_stream c = Ok c' /\ linv c' hist dlv.
Proof using Hpisn Hcfg.
  intros H. case_life H.
  - destruct (cinv_end S pisn Hpisn _ _ _ _ _ Hok Hi) as (c' & E & Hi' & Ec & _). exists c'. split; [done|].
    apply (linv_alive _ _ _ rcv fn); congruence.
  - destruct (reset_end c Hw) as (c' & E & Hw' & Hu & _). exists c'. split; [done|].
    apply (linv_reset c c' _ _ rcv fn); try done; [by rewrite (un_cfg _ _ Hu)|apply Hu].
Qed.

Lemma linv_write c hist dlv data :
  linv c hist dlv -> ended (sender_ c) = false -> zlen hist + zlen data + 2 < M63 ->
  exists n c', write c data = Ok (n, c') /\ linv c' (hist ++ ztake n data) dlv.
Proof using Hpisn Hcfg.
  intros H Hen Hb. case_life H.
  - destruct (cinv_write S pisn Hpisn _ _ _ _ _ data Hok Hi Hen Hb) as (n & c' & E & Hi' & Ec & _).
    exists n, c'. split; [done|]. apply (linv_alive _ _ _ rcv fn); congruence.
  - destruct (reset_write c data Hw) as (c' & E & Hw' & Hu & _). eexists _, c'. split; [exact E|].
    apply (linv_reset c c' _ _ rcv fn); try done; [by rewrite (un_cfg _ _ Hu)|apply Hu].
Qed.

Lemma linv_tick c hist dlv ms : linv c hist dlv -> exists c', tick c ms = Ok c' /\ linv c' hist dlv.
Proof using Hpisn Hcfg.
  intros H. case_life H.
  - destruct (cinv_tick S pisn Hpisn _ _ _ _ _ ms Hok Hi) as (s & c' & Es & E & Ec & Hc'). exists c'. split; [done|].
    destruct (Z.ltb_spec MAX_RETX_ATTEMPTS (consecutive_retransmissions s)) as [Hgt|];
      [|apply (linv_alive _ _ _ rcv fn); congruence].
    destruct (tick_resets c hist ms s c' (ci_sender _ _ _ _ _ _ _ Hi) Es Hgt E) as [Hw Er].
    split; [congruence|]. exists rcv, fn. right. split; [done|]. rewrite Er.
    apply rinv_reset. rewrite <-Hc. apply Hi.
  - destruct (reset_tick c ms Hw) as (c' & new & E & Hw' & Er & Ec & _). exists c'. split; [done|].
    apply (linv_reset c c' _ _ rcv fn); try done. by rewrite Ec.
Qed.

Lemma linv_read c hist dlv len :
  linv c hist dlv -> 0 <= len < M64 -> exists s c', read_inbound c len = Ok (s, c') /\ linv c' hist (dlv ++ s).
Proof using Hpisn Hcfg.
  intros H Hlen. case_life H.
  - destruct (cinv_read S pisn _ _ _ _ _ len Hpisn Hok Hi Hlen) as (s & c' & E & Hi' & Ec). exists s, c'. split; [done|].
    apply (linv_alive _ _ _ rcv fn); congruence.
  - destruct (Hcfg) as (_ & _ & Hrc & HS & _).
    destruct (rreset_read S pisn _ Hrc HS Hpisn _ _ _ _ len Hr Hlen) as (s & out & E & Hr').
    unfold read_inbound, inbound_stream. rewrite E. cbn [mbind res_bind]. eexists _, _. split; [reflexivity|].
    split; [done|]. exists rcv, fn. right. split; [|done]. destruct Hw. split; try done. apply Hr'.
Qed.

(** A segment, on the two kinds of connections. *)
Lemma linv_segment c hist dlv seg :
  linv c hist dlv -> arrives S pisn c seg ->
  if never_heard c && negb (rst (header seg)) then segment_received c seg = Fail BadOptionalAccess
  else exists c', segment_received c seg = Ok c' /\ linv c' hist dlv.
Proof using Hpisn Hcfg.
  intros H Harr. unfold never_heard. case_life H.
  - destruct (Hi) as [_ [_ _ He _ _] _ _]. unfold inbound_stream. rewrite He. cbn [andb].
    destruct (rst (header seg)) eqn:Hrst.
    + unfold segment_received. destruct (_ && _ && _); [exists c; split; [done|by apply (linv_alive _ _ _ rcv fn)]|].
      rewrite Hrst. eexists. split; [done|]. apply (linv_shutdown _ _ _ rcv fn); [done|]. by destruct Hi.
    + destruct Harr as [|[index Hps]]; [congruence|].
      destruct (cinv_segment S pisn Hpisn _ _ _ _ _ _ _ Hok Hi Hps Hrst) as (c' & E & Ec & Hi' & _).
      exists c'. split; [done|]. eapply linv_alive; [congruence|done].
  - rewrite (wr_inbound _ Hw). cbn [andb]. destruct (rst (header seg)) eqn:Hrst.
    { rewrite andb_false_r. destruct (reset_rst c seg Hw Hrst) as (c' & E & Hw' & Hu & _). exists c'. split; [done|].
      apply (linv_reset c c' _ _ rcv fn); try done; [by rewrite (un_cfg _ _ Hu)|apply Hu]. }
    rewrite andb_true_r. pose proof (reset_segment c seg Hw Hrst) as Hseg.
    destruct (is_listen_ (receiver_ c)) eqn:Hl.
    { rewrite (rreset_listen S pisn _ _ _ _ _ seg Hr Hl) in Hseg. exact Hseg. }
    destruct Harr as [|[index [_ Hps]]]; [congruence|]. destruct (Hcfg) as (_ & _ & Hrc & HS & _).
    destruct (rreset_segment S pisn _ Hrc HS Hpisn _ _ _ _ _ _ Hr Hl Hps) as (r & rcv' & fn' & E & Hr').
    rewrite E in Hseg. destruct (Hseg (rr_error _ _ _ _ _ _ _ Hr')) as (c' & E' & Hw' & Hu & _).
    exists c'. split; [done|]. apply (linv_reset (set_receiver r c) c' _ _ rcv' fn'); try done;
      [by rewrite (un_cfg _ _ Hu)|apply Hu].
Qed.

Lemma life_linv c hist dlv : life S pisn cfg c hist dlv -> linv c hist dlv.
Proof using Hpisn Hcfg.
  induction 1 as [rnd|c hist dlv c' _ H E|c hist dlv data n c' _ H Hen Hb E|c hist dlv c' _ H E|c hist dlv ms c' _ H E
    |c hist dlv seg c' _ H Ha E|c hist dlv len s c' _ H Hlen E|c hist dlv q _ H].
  - apply (linv_alive _ _ _ ∅ false); [done|by apply cinv_new].
  - destruct (linv_connect _ _ _ H) as (c1 & E1 & ?). congruence.
  - destruct (linv_write _ _ _ data H Hen Hb) as (n1 & c1 & E1 & ?). congruence.
  - destruct (linv_end _ _ _ H) as (c1 & E1 & ?). congruence.
  - destruct (linv_tick _ _ _ ms H) as (c1 & E1 & ?). congruence.
  - pose proof (linv_segment _ _ _ seg H Ha) as Hs. destruct (_ && _); [congruence|].
    destruct Hs as (c1 & E1 & ?). congruence.
  - destruct (linv_read _ _ _ len H Hlen) as (s1 & c1 & E1 & ?). congruence.
  - destruct H as (Hc & rcv & fn & [[]|[[] Hr]]); split; try done; exists rcv, fn; [by left|by right].
Qed.

Lemma linv_prefix c hist dlv : linv c hist dlv ->
  dlv ++ contents (inbound_stream c) = ztake (bytes_written (inbound_stream c)) S.
Proof using.
  intros (_ & rcv & fn & [[_ [Hi _ _ _ _] _ _]|[_ [Hi _ _ _ _]]]); exact (inv_prefix _ _ _ _ _ _ Hi).
Qed.

(** The destructor. *)
Lemma destroy_returns c : exists c', destroy c = Ok c'.
Proof using.
  unfold destroy. destruct (active c); [|eauto]. set (c1 := set_need_rst true c).
  assert (exists seg q, TCPSender.segments_out_ (send_empty_segment (sender_ c1)) = seg :: q) as (seg & q & Eq).
  { unfold send_empty_segment. destruct (TCPSender.segments_out_ (sender_ c1)) eqn:Eo; eauto. }
  rewrite (enqueue_rst _ seg q) by done. eauto.
Qed.
End life.

(** ** Properties *)

(** C7: whatever calls were made on a connection - by its owner, by the clock,
    or by the arrival of resets and of segments of the peer inside the window,
    before and after it was reset - the bytes read and waiting are a prefix of
    the peer's stream; a connection whose inbound stream is in error is in the
    state RESET; and the next call returns: connect, a write while the stream is
    not ended, the end of the stream, any tick, any read, the destructor, and
    the arrival of a segment, with one exception.  A segment other than a reset
    throws bad_optional_access exactly when the connection was reset before it
    heard the peer's SYN. *)
Theorem connection_safe (S : list byte) (pisn : WrappingInt32) (cfg : TCPConfig) (c : TCPConnection)
    (hist dlv : list byte) :
  wi_ok pisn -> cfg_ok S cfg -> life S pisn cfg c hist dlv ->
  dlv ++ contents (inbound_stream c) = ztake (bytes_written (inbound_stream c)) S
  /\ (error_ (inbound_stream c) = true -> state_eqb (TCPConnection.state c) (of_state RESET) = true)
  /\ (exists c', connect c = Ok c') /\ (exists c', end_input_stream c = Ok c')
  /\ (forall ms, exists c', tick c ms = Ok c') /\ (exists c', destroy c = Ok c')
  /\ (forall len, 0 <= len < M64 -> exists s c', read_inbound c len = Ok (s, c'))
  /\ (forall data, ended (sender_ c) = false -> zlen hist + zlen data + 2 < M63 ->
        exists n c', write c data = Ok (n, c'))
  /\ (forall seg, arrives S pisn c seg ->
        if never_heard c && negb (rst (header seg)) then segment_received c seg = Fail BadOptionalAccess
        else exists c', segment_received c seg = Ok c').
Proof.
  intros Hp Hcfg H. apply life_linv in H; [|done..]. split_and!.
  - by eapply linv_prefix.
  - destruct H as (_ & rcv & fn & [[_ [_ _ He _ _] _ _]|[Hw _]]); [unfold inbound_stream; congruence|].
    intros _. by apply reset_state.
  - destruct (linv_connect S pisn cfg Hp Hcfg _ _ _ H) as (c' & ? & _). eauto.
  - destruct (linv_end S pisn cfg Hp Hcfg _ _ _ H) as (c' & ? & _). eauto.
  - intros ms. destruct (linv_tick S pisn cfg Hp Hcfg _ _ _ ms H) as (c' & ? & _). eauto.
  - apply destroy_returns.
  - intros len Hlen. destruct (linv_read S pisn cfg Hp Hcfg _ _ _ len H Hlen) as (s & c' & ? & _). eauto.
  - intros data Hen Hb. destruct (linv_write S pisn cfg Hp Hcfg _ _ _ data H Hen Hb) as (n & c' & ? & _). eauto.
  - intros seg Ha. pose proof (linv_segment S pisn cfg Hp Hcfg _ _ _ seg H Ha) as Hs. destruct (_ && _); [done|].
    destruct Hs as (c' & ? & _). eauto.
Qed.

(** A client that gave up before the server's SYN and ACK came. *)
Definition sample_given_up : TCPConnection := Eval vm_compute in or_server (tick sample_tired 1000000).

Lemma sample_given_up_life : life [] (mkWrappingInt32 100) (sample_cfg 7) sample_given_up [] [].
Proof.
  assert (forall n c c', life [] (mkWrappingInt32 100) (sample_cfg 7) c [] [] -> tick_times n c = Ok c' ->
    life [] (mkWrappingInt32 100) (sample_cfg 7) c' [] []) as Hticks.
  { induction n as [|n IH]; intros c c' H E; cbn [tick_times] in E; [by injection E as <-|].
    apply bind_Ok in E as (c1 & E1 & E). destruct (active c1); [|done]. apply (IH c1); [|done]. by eapply life_tick. }
  eapply (life_tick _ _ _ sample_tired _ _ 1000000); [|vm_compute; reflexivity].
  apply (Hticks 8%nat sample_client); [|vm_compute; reflexivity].
  eapply life_connect; [apply (life_new _ _ _ 0)|vm_compute; reflexivity].
Qed.

(** The SYN and ACK that arrives later is not handled: [isn_] is empty, and the
    exception leaves [segment_received]. *)
Theorem late_syn_throws :
  life [] (mkWrappingInt32 100) (sample_cfg 7) sample_given_up [] []
  /\ arrives [] (mkWrappingInt32 100) sample_given_up closing_syn_ack
  /\ segment_received sample_given_up closing_syn_ack = Fail BadOptionalAccess.
Proof.
  split_and!; [apply sample_given_up_life| |vm_compute; reflexivity]. right. exists 0. split; [cbn; lia|].
  left. split; [split; [reflexivity|done|split_and!; [lia|done|done|done]]|].
  split; [vm_compute; discriminate|vm_compute; discriminate].
Qed.

Lemma connection_safe_witness :
  let c := sample_given_up in
  [] ++ contents (inbound_stream c) = ztake (bytes_written (inbound_stream c)) []
  /\ (error_ (inbound_stream c) = true -> state_eqb (TCPConnection.state c) (of_state RESET) = true)
  /\ (exists c', connect c = Ok c') /\ (exists c', end_input_stream c = Ok c')
  /\ (forall ms, exists c', tick c ms = Ok c') /\ (exists c', destroy c = Ok c')
  /\ (forall len, 0 <= len < M64 -> exists s c', read_inbound c len = Ok (s, c'))
  /\ (forall data, ended (sender_ c) = false -> zlen (@nil byte) + zlen data + 2 < M63 ->
        exists n c', write c data = Ok (n, c'))
  /\ (forall seg, arrives [] (mkWrappingInt32 100) c seg ->
        if never_heard c && negb (rst (header seg)) then segment_received c seg = Fail BadOptionalAccess
        else exists c', segment_received c seg = Ok c').
Proof.
  apply (connection_safe [] (mkWrappingInt32 100) (sample_cfg 7) sample_given_up [] []);
    [split; cbn; lia|unfold cfg_ok; cbn; split_and!; try lia; done|apply sample_given_up_life].
Defined.
