(* ===== verification/DatagramAdapters.v ===== *)
(** * The adapters on their devices (TCPOverUDPSocketAdapter of
    libsponge/tcp_helpers/fd_adapter.{hh,cc}, the adapters of
    tuntap_adapter.{hh,cc}, LossyFdAdapter of lossy_fd_adapter.hh)

    TCPOverIP.v and NetworkInterface.v translate between segments and what a
    device carries; here the devices are there: an adapter owns a descriptor,
    [read()] takes a datagram from it and [write(seg)] sends one.  The
    interface is [DatagramAdapter], the template parameter [AdaptT] of
    TCPSpongeSocket, and [DatagramAdapterLaws] is what the socket relies on. *)

From Stdlib Require Import ZArith Lia.
From S2P Require Import Prelude WrappingIntegers Buffer Parser TCPHeader TCPSegment IPv4Header IPv4Datagram Ethernet Address TCPOverIP NetworkInterface Kernel FileDescriptor Socket WireSafety.

(** [numeric_limits<size_t>::max()], the default [limit] of [read]. *)
Definition SIZE_MAX : Z := 18446744073709551615.

Arguments mkLossy {A}.
Arguments _adapter {A}.
Arguments _rand {A}.

Class DatagramAdapter (K T : Type) := {
  ad_fd : T -> FileDescriptor;
  ad_read : T -> M (sys K) (option TCPSegment * T);
  ad_write : TCPSegment -> T -> M (sys K) T;
  ad_config : T -> FdAdapterBase Address;
  ad_update : (FdAdapterBase Address -> FdAdapterBase Address) -> T -> T;
  ad_tick : Z -> T -> M (sys K) T
}.

Section adapters.
Context {K : Type} `{Kernel K} `{Libc}.

(** [TCPOverIPv4OverTunFdAdapter] *)
Record TunAdapter : Type := mkTunAdapter { _tun : FileDescriptor; tun_base : FdAdapterBase Address }.

Definition tun_adapter_read (t : TunAdapter) : M (sys K) (option TCPSegment * TunAdapter) :=
  raw ← FileDescriptor.read (_tun t) SIZE_MAX;
  '(seg, b) ← lift (tun_read raw (tun_base t));
  mret (seg, mkTunAdapter (_tun t) b).

Definition tun_adapter_write (seg : TCPSegment) (t : TunAdapter) : M (sys K) TunAdapter :=
  '(d, _) ← lift (wrap_tcp_in_ip (tun_base t) seg);
  bl ← lift (IPv4Datagram.serialize d);
  _ ← FileDescriptor.write (_tun t) (views_of_list bl) true;
  mret t.

#[export] Instance tun_datagrams : DatagramAdapter K TunAdapter := {
  ad_fd := _tun;
  ad_read := tun_adapter_read;
  ad_write := tun_adapter_write;
  ad_config := tun_base;
  ad_update f t := mkTunAdapter (_tun t) (f (tun_base t));
  ad_tick _ t := mret t
}.

(** [TCPOverUDPSocketAdapter]: [_sock.recv()] has an [mtu] of 65536. *)
Record UDPAdapter : Type := mkUDPAdapter { _sock : FileDescriptor; udp_base : FdAdapterBase Address }.

Definition udp_adapter_read (t : UDPAdapter) : M (sys K) (option TCPSegment * UDPAdapter) :=
  datagram ← recv (_sock t) 65536;
  '(seg, b) ← lift (udp_read datagram (udp_base t));
  mret (seg, mkUDPAdapter (_sock t) b).

Definition udp_adapter_write (seg : TCPSegment) (t : UDPAdapter) : M (sys K) UDPAdapter :=
  sp ← lift (port (source (udp_base t)));
  dp ← lift (port (destination (udp_base t)));
  bl ← lift (TCPSegment.serialize (with_ports sp dp seg) 0);
  _ ← sendto (_sock t) (destination (udp_base t)) (views_of_list bl);
  mret t.

#[export] Instance udp_datagrams : DatagramAdapter K UDPAdapter := {
  ad_fd := _sock;
  ad_read := udp_adapter_read;
  ad_write := udp_adapter_write;
  ad_config := udp_base;
  ad_update f t := mkUDPAdapter (_sock t) (f (udp_base t));
  ad_tick _ t := mret t
}.

(** [TCPOverIPv4OverEthernetAdapter] *)
Record TapAdapter : Type := mkTapAdapter {
  _tap : FileDescriptor;
  tap_state : TCPOverIPv4OverEthernetAdapter (Address := Address)
}.

(** [send_pending()] *)
Fixpoint tap_send_frames (h : FileDescriptor) (frames : list EthernetFrame) : M (sys K) unit :=
  match frames with
  | [] => mret tt
  | f :: frames =>
    _ ← FileDescriptor.write h (views_of_list (frame_serialize f)) true;
    tap_send_frames h frames
  end.

Definition tap_send_pending (t : TapAdapter) : M (sys K) TapAdapter :=
  let i := _interface (tap_state t) in
  _ ← tap_send_frames (_tap t) (frames_out i);
  mret (mkTapAdapter (_tap t)
    (set_interface (mkNetworkInterface (_ethernet_address i) (_ip_address i) []) (tap_state t))).

(** The constructor writes a dummy frame first. *)
Definition tap_adapter_new (tap : FileDescriptor) (base : FdAdapterBase Address) (eth_address : EthernetAddress)
    (ip_address next_hop : Address) : M (sys K) TapAdapter :=
  _ ← FileDescriptor.write tap (views_of_list (frame_serialize ethernet_frame_default)) true;
  mret (mkTapAdapter tap (mkEthernetAdapter base (interface_new eth_address ip_address) next_hop)).

Definition tap_adapter_read (t : TapAdapter) : M (sys K) (option TCPSegment * TapAdapter) :=
  raw ← FileDescriptor.read (_tap t) SIZE_MAX;
  '(r, frame) ← lift (frame_parse ethernet_frame_default (of_string raw));
  if negb (bool_decide (r = NoError)) then mret (None, t) else
  let '(ip_dgram, i) := recv_frame frame (_interface (tap_state t)) in
  t ← tap_send_pending (mkTapAdapter (_tap t) (set_interface i (tap_state t)));
  match ip_dgram with
  | Some d =>
    '(seg, b) ← lift (unwrap_tcp_in_ip (_base (tap_state t)) d);
    mret (seg, mkTapAdapter (_tap t) (set_base b (tap_state t)))
  | None => mret (None, t)
  end.

Definition tap_adapter_tick (ms_since_last_tick : Z) (t : TapAdapter) : M (sys K) TapAdapter :=
  tap_send_pending (mkTapAdapter (_tap t)
    (set_interface (interface_tick ms_since_last_tick (_interface (tap_state t))) (tap_state t))).

Definition tap_adapter_write (seg : TCPSegment) (t : TapAdapter) : M (sys K) TapAdapter :=
  '(d, _) ← lift (wrap_tcp_in_ip (_base (tap_state t)) seg);
  i ← lift (send_datagram d (_next_hop (tap_state t)) (_interface (tap_state t)));
  tap_send_pending (mkTapAdapter (_tap t) (set_interface i (tap_state t))).

#[export] Instance tap_datagrams : DatagramAdapter K TapAdapter := {
  ad_fd := _tap;
  ad_read := tap_adapter_read;
  ad_write := tap_adapter_write;
  ad_config t := _base (tap_state t);
  ad_update f t := mkTapAdapter (_tap t) (set_base (f (_base (tap_state t))) (tap_state t));
  ad_tick := tap_adapter_tick
}.

(** [LossyFdAdapter<AdapterT>] *)
Definition lossy_adapter_read {T} `{DatagramAdapter K T} (l : LossyFdAdapter T)
    : M (sys K) (option TCPSegment * LossyFdAdapter T) :=
  '(ret, t) ← (ad_read (_adapter l) : M (sys K) (option TCPSegment * T));
  let '(drop, l) := should_drop (ad_config (K := K) t) false (mkLossy t (_rand l)) in
  mret (if drop : bool then None else ret, l).

Definition lossy_adapter_write {T} `{DatagramAdapter K T} (seg : TCPSegment) (l : LossyFdAdapter T)
    : M (sys K) (LossyFdAdapter T) :=
  let '(drop, l) := should_drop (ad_config (K := K) (_adapter l)) true l in
  if drop : bool then mret l else
  t ← ad_write seg (_adapter l);
  mret (mkLossy t (_rand l)).

#[export] Instance lossy_datagrams {T} `{DatagramAdapter K T} : DatagramAdapter K (LossyFdAdapter T) := {
  ad_fd l := ad_fd (K := K) (_adapter l);
  ad_read := lossy_adapter_read;
  ad_write := lossy_adapter_write;
  ad_config l := ad_config (K := K) (_adapter l);
  ad_update f l := mkLossy (ad_update (K := K) f (_adapter l)) (_rand l);
  ad_tick ms l := t ← ad_tick ms (_adapter l); mret (mkLossy t (_rand l))
}.

End adapters.

(** ** What the socket relies on *)

(** The standard library's exceptions and the system's: not undefined
    behaviour, not a failed assertion. *)
Definition is_exception (f : fault) : Prop :=
  match f with
  | TaggedError | RuntimeError | OutOfRange | InvalidArgument | LengthError => True
  | _ => False
  end.

#[export] Instance is_exception_dec f : Decision (is_exception f).
Proof. destruct f; cbn; apply _. Defined.

Definition base_wf (b : FdAdapterBase Address) : Prop :=
  address_wf (source b) /\ address_wf (destination b).

Section laws.
Context {K : Type} `{KernelLaws K}.

(** An operation that touches no descriptor but [h]. *)
Definition only (h : FileDescriptor) (s s' : sys K) : Prop :=
  (use_count s' = use_count s /\ next_ptr s' = next_ptr s) /\ reaches (kern s) (kern s')
  /\ (forall h', h' <> h -> wrappers s' !! h' = wrappers s !! h')
  /\ exists x x', wrappers s !! h = Some x /\ wrappers s' !! h = Some x' /\ _fd x' = _fd x
     /\ (forall fd, fd <> _fd x ->
           consumed (kern s') fd = consumed (kern s) fd /\ produced (kern s') fd = produced (kern s) fd).

Lemma only_refl h s x : wrappers s !! h = Some x -> only h s s.
Proof. intros Hx. split_and!; [done|done|constructor|done|]. by exists x, x. Qed.

Lemma only_trans h s s1 s2 : only h s s1 -> only h s1 s2 -> only h s s2.
Proof.
  intros (Hc & Hr & Hw & x & x1 & Hx & Hx1 & Hf & Hk) (Hc' & Hr' & Hw' & y & y' & Hy & Hy' & Hf' & Hk').
  assert (y = x1) as -> by congruence. destruct Hc, Hc'. split_and!; [congruence|congruence|by eapply calls_trans| |].
  - intros h' Hne. by rewrite Hw', Hw.
  - exists x, y'. split_and!; [done|done|congruence|]. intros fd Hne.
    destruct (Hk fd Hne) as [<- <-]. apply Hk'. congruence.
Qed.

Lemma only_wrapper h s x x' k :
  wrappers s !! h = Some x -> _fd x' = _fd x -> reaches (kern s) k ->
  (forall fd, fd <> _fd x -> consumed k fd = consumed (kern s) fd /\ produced k fd = produced (kern s) fd) ->
  only h s (set_wrapper h x' (set_kern k s)).
Proof.
  intros Hx Hf Hr Hk. split_and!; [done|done|done| |].
  - intros h' Hne. cbn. by rewrite lookup_insert_ne.
  - exists x, x'. split_and!; try done. cbn. apply lookup_insert_eq.
Qed.

(** The device operations in this form. *)
Lemma wp_fd_read h limit (s : sys K) x :
  wrappers s !! h = Some x -> 0 <= limit ->
  wp (FileDescriptor.read h limit) (fun data s' => zlen data <= BUFFER_SIZE /\ only h s s'
    /\ exists x', wrappers s' !! h = Some x' /\ _read_count x' <> _read_count x) is_exception s.
Proof.
  intros Hx Hl. pose proof (fd_read_spec h limit s x Hx Hl) as Hr. unfold wp.
  destruct (FileDescriptor.read h limit s) as [[data s']|f]; [|by rewrite Hr].
  destruct Hr as (Hd & k & -> & Hre & Hc & Hp). split_and!; [lia| |].
  - apply (only_wrapper h s x); [done|done|done|]. intros fd Hne. rewrite Hc, Hp.
    rewrite (proj2 (Z.eqb_neq _ _)) by congruence. by rewrite app_nil_r.
  - eexists. split; [apply lookup_insert_eq|apply did_read_count].
Qed.

Lemma wp_fd_write h buffer all (s : sys K) x :
  wrappers s !! h = Some x -> zlen (concat buffer) < M63 ->
  wp (FileDescriptor.write h buffer all) (fun _ s' => only h s s'
    /\ exists x', wrappers s' !! h = Some x' /\ _read_count x' = _read_count x) is_exception s.
Proof.
  intros Hx Hb. pose proof (fd_write_spec h buffer all s x Hx Hb) as Hr. unfold wp.
  destruct (FileDescriptor.write h buffer all s) as [[n s']|f].
  - destruct Hr as (_ & _ & _ & j & _ & _ & k & -> & Hre & Hp & Hc). split.
    + apply (only_wrapper h s x); [done|done|done|]. intros fd Hne. rewrite Hc, Hp.
      rewrite (proj2 (Z.eqb_neq _ _)) by congruence. by rewrite app_nil_r.
    + eexists. split; [apply lookup_insert_eq|done].
  - destruct Hr as (k & iov & [[-> _]|[-> _]]); done.
Qed.

Lemma wp_recv h (s : sys K) x :
  wrappers s !! h = Some x ->
  wp (recv h 65536) (fun '(src, data) s' => zlen data <= 65536 /\ address_wf src /\ only h s s'
    /\ exists x', wrappers s' !! h = Some x' /\ _read_count x' <> _read_count x) is_exception s.
Proof.
  intros Hx. unfold wp. rewrite (recv_spec h 65536 s x Hx ltac:(lia)).
  pose proof (answers_ok _ (Recvfrom (_fd x) 65536 MSG_TRUNC) (kern s)) as Ha.
  pose proof (consumed_by _ (Recvfrom (_fd x) 65536 MSG_TRUNC) (kern s)) as Hc.
  pose proof (produced_by _ (Recvfrom (_fd x) 65536 MSG_TRUNC) (kern s)) as Hp.
  pose proof (reaches_once (kern s) _ (Recvfrom (_fd x) 65536 MSG_TRUNC)) as Hre.
  destruct (answer (Recvfrom (_fd x) 65536 MSG_TRUNC) (kern s)) as [[r [data src]] k]. cbn in Ha, Hc, Hp.
  destruct Ha as (Hd & Hs & _); [lia|]. destruct (rv r <? 0); [done|]. destruct (65536 <? rv r); [done|].
  destruct (of_sockaddr_ok src Hs) as (a & -> & Hwf & _). cbn. split; [done|]. split; [done|]. split.
  - apply (only_wrapper h s x); [done|done|done|]. intros fd _. by rewrite Hc, Hp, !app_nil_r.
  - eexists. split; [apply lookup_insert_eq|apply did_read_count].
Qed.

Lemma wp_sendto h a payload (s : sys K) x :
  wrappers s !! h = Some x -> zlen (concat payload) < M63 ->
  wp (sendto h a payload) (fun _ s' => only h s s') is_exception s.
Proof.
  intros Hx Hb. unfold sendto. apply wp_bind. eapply wp_Ok; [by apply fd_num_Some|]. apply wp_bind.
  unfold wp at 1. rewrite sendmsg_helper_spec by done. cbn beta zeta.
  pose proof (consumed_by _ (Sendmsg (_fd x) (sockaddr a) (as_iovecs payload)) (kern s)) as Hc.
  pose proof (produced_by _ (Sendmsg (_fd x) (sockaddr a) (as_iovecs payload)) (kern s)) as Hp. cbn in Hc, Hp.
  destruct (_ <? 0); [done|]. destruct (_ =? _); [|done]. unfold register_write, wp.
  rewrite (update_Some _ h x) by done.
  apply (only_wrapper h s x); [done|done|apply reaches_once|]. intros fd _. by rewrite Hc, Hp, !app_nil_r.
Qed.

End laws.

(** ** Exceptions of the translation *)

(** [m] returns with [Q], or throws. *)
Definition throws {A} (m : res A) (Q : A -> Prop) : Prop :=
  match m with Ok a => Q a | Fail f => is_exception f end.

Lemma throws_bind {A B} (m : res A) (k : A -> res B) P Q :
  throws m P -> (forall a, P a -> throws (k a) Q) -> throws (m ≫= k) Q.
Proof. destruct m; cbn; auto. Qed.

Lemma throws_mono {A} (m : res A) (P Q : A -> Prop) : throws m P -> (forall a, P a -> Q a) -> throws m Q.
Proof. destruct m; cbn; auto. Qed.

Lemma wp_lift {K A} `{Kernel K} (m : res A) (Q : A -> sys K -> Prop) (s : sys K) :
  throws m (fun a => Q a s) -> wp (lift m) Q is_exception s.
Proof. unfold wp, lift. by destruct m. Qed.

Lemma memcpy_into_16 a : address_wf a -> _size a = 16 ->
  exists d, memcpy (zreplicate 16 x00) 0 (_address a) 0 (_size a) = Ok d.
Proof.
  intros [Hl _] ->. unfold memcpy. rewrite Hl, zlen_zreplicate by lia. cbn. eauto.
Qed.

Section exceptions.
Context `{Libc}.

Lemma ipv4_numeric_throws (a : Address) : address_wf a -> throws (ipv4_numeric a) (fun _ => True).
Proof.
  intros Hwf. cbn. unfold ipv4_numeric_of. pose proof Hwf as [Hl _].
  destruct (_address a) as [|f0 [|f1 l]] eqn:E; [done|done|].
  destruct (_ || _) eqn:Eb; [done|]. apply orb_false_iff in Eb as [_ Eb]. apply negb_false_iff, Z.eqb_eq in Eb.
  rewrite <-E. destruct (memcpy_into_16 a Hwf Eb) as [d ->]. done.
Qed.

Lemma stoi_throws l : throws (stoi l) (fun _ => True).
Proof.
  unfold stoi. destruct (match skip_while isspace l with [] => _ | _ => _ end) as [sign l'].
  destruct l' as [|b l']; [done|]. destruct (isdigit b); [|done]. by destruct (_ && _).
Qed.

Lemma port_throws (a : Address) : throws (port a) (fun _ => True).
Proof.
  cbn. unfold port_of, ip_port. destruct (getnameinfo _ _) as [e [ip p]]. destruct (negb _); [done|]. cbn.
  pose proof (stoi_throws p) as Hs. destruct (stoi p); done.
Qed.

Lemma of_sockaddr_throws l : throws (of_sockaddr l) address_wf.
Proof.
  unfold of_sockaddr. destruct (Z.ltb_spec storage_size (zlen l)); [done|].
  destruct (of_sockaddr_ok l) as (a & E & Hwf & _); [done|].
  unfold of_sockaddr in E. rewrite (proj2 (Z.ltb_ge _ _)) in E by done. by rewrite E.
Qed.

Lemma make_address_throws ip p : throws (make_address (Address := Address) ip p) address_wf.
Proof.
  cbn. unfold of_ip_port, resolve. destruct (getaddrinfo _ _ _) as [e l]. destruct (negb _); [done|].
  destruct l; [done|]. apply of_sockaddr_throws.
Qed.

Lemma unwrap_throws b d pb :
  base_wf b -> IPv4Datagram._payload d = [pb] -> buffer_wf pb ->
  throws (unwrap_tcp_in_ip b d) (fun '(_, b') => base_wf b').
Proof.
  intros [Hs Hd] Hpl Hpb. unfold unwrap_tcp_in_ip.
  assert (Hwrong : forall x a, address_wf a -> throws (wrong_address b x a) (fun _ => True)).
  { intros x a Ha. unfold wrong_address. destruct (listening b); [done|].
    eapply throws_bind; [by apply ipv4_numeric_throws|done]. }
  eapply throws_bind; [by apply Hwrong|]. intros [] _; [done|].
  eapply throws_bind; [by apply Hwrong|]. intros [] _; [done|].
  destruct (negb (proto _ =? _)); [done|]. unfold IPv4Datagram.payload. rewrite Hpl. cbn [to_buffer mbind res_bind].
  destruct (tcp_parse_total tcp_segment_default pb (pseudo_cksum (IPv4Datagram.header d))) as (r & seg & -> & _); [done|by split|by split|].
  cbn [mbind res_bind]. destruct (negb _); [done|].
  eapply throws_bind; [apply port_throws|]. intros our_port _. destruct (negb _); [done|].
  destruct (listening b) eqn:El; cbn [andb].
  - destruct (negb _); [done|].
    eapply (throws_bind _ _ base_wf).
    + eapply throws_bind; [apply make_address_throws|]. intros a1 H1.
      eapply throws_bind; [apply make_address_throws|]. intros a2 H2. by split.
    + intros b' Hb'. eapply throws_bind; [apply port_throws|]. intros pp _. by destruct (negb _).
  - cbn [mbind res_bind]. eapply throws_bind; [apply port_throws|]. intros pp _. by destruct (negb _).
Qed.

(** A segment on its way out: what the sender builds. *)
Definition outgoing (seg : TCPSegment) : Prop :=
  buffer_wf (TCPSegment._payload seg) /\ zlen (str (TCPSegment._payload seg)) < M31 /\ doff (TCPSegment.header seg) < M8.

Lemma tcp_header_serialize_throws h : throws (TCPHeader.serialize h) (fun s => zlen s = 4 * Z.max 0 (doff h) ).
Proof.
  unfold TCPHeader.serialize. destruct (Z.ltb_spec (doff h) 5); [done|]. cbn [throws].
  rewrite zlen_resize by lia. lia.
Qed.

Lemma tcp_serialize_throws seg ck :
  outgoing seg -> throws (TCPSegment.serialize seg ck) (fun bl => zlen (concatenate bl) < M32).
Proof.
  intros (Hb & Hl & Hd). unfold TCPSegment.serialize.
  eapply throws_bind; [apply tcp_header_serialize_throws|]. intros s0 _.
  eapply throws_bind; [apply tcp_header_serialize_throws|]. intros s1 Hs1.
  cbn [throws concatenate append list_of_string list_of_buffer app]. change (str (of_string s1)) with s1.
  rewrite !zlen_app, Hs1. change (zlen (@nil byte)) with 0.
  change (doff (TCPHeader.set_cksum _ _)) with (doff (TCPSegment.header seg)). lia.
Qed.

Lemma with_ports_outgoing sp dp seg : outgoing seg -> outgoing (with_ports sp dp seg).
Proof. done. Qed.

Lemma wrap_throws b seg :
  base_wf b -> outgoing seg ->
  throws (wrap_tcp_in_ip b seg) (fun '(d, _) => hlen (IPv4Datagram._header d) = 5
    /\ zlen (concatenate (IPv4Datagram._payload d)) < M32).
Proof.
  intros [Hs Hd] Ho. unfold wrap_tcp_in_ip.
  eapply throws_bind; [apply port_throws|]. intros sp _. eapply throws_bind; [apply port_throws|]. intros dp _.
  eapply throws_bind; [by apply ipv4_numeric_throws|]. intros si _.
  eapply throws_bind; [by apply ipv4_numeric_throws|]. intros di _. cbv zeta.
  eapply throws_bind; [by apply tcp_serialize_throws, with_ports_outgoing|]. intros bl Hbl. by split.
Qed.

Lemma ipv4_serialize_throws d :
  hlen (IPv4Datagram._header d) = 5 -> zlen (concatenate (IPv4Datagram._payload d)) < M32 ->
  throws (IPv4Datagram.serialize d) (fun bl => zlen (concatenate bl) < M63).
Proof.
  intros Hh Hp. unfold IPv4Datagram.serialize. destruct (negb _); [done|].
  assert (Hser : forall h, hlen h = 5 -> throws (IPv4Header.serialize h) (fun s => zlen s = 20)).
  { intros h E. unfold IPv4Header.serialize. destruct (negb _); [done|]. destruct (_ <? _); [done|].
    cbn [throws]. rewrite zlen_resize by lia. lia. }
  eapply throws_bind; [by apply Hser|]. intros s0 _. eapply throws_bind; [by apply Hser|]. intros s1 Hs1.
  cbn [throws append list_of_string app concatenate]. change (str (of_string s1)) with s1. rewrite zlen_app, Hs1. lia.
Qed.

End exceptions.

(** ** The laws, and the four adapters *)

Class DatagramAdapterLaws (K T : Type) `{KernelLaws K} `{DatagramAdapter K T} := {
  ad_ok : T -> Prop;
  ad_base_wf : forall t, ad_ok t -> base_wf (ad_config t);
  ad_update_fd : forall f t, ad_fd (ad_update f t) = ad_fd t;
  ad_update_ok : forall f t, ad_ok t -> base_wf (f (ad_config t)) -> ad_ok (ad_update f t);
  ad_read_spec : forall t (s : sys K) x, ad_ok t -> wrappers s !! ad_fd t = Some x ->
    wp (ad_read t) (fun '(_, t') s' => ad_ok t' /\ ad_fd t' = ad_fd t /\ only (ad_fd t) s s'
      /\ exists x', wrappers s' !! ad_fd t = Some x' /\ _read_count x' <> _read_count x) is_exception s;
  ad_write_spec : forall seg t (s : sys K) x, ad_ok t -> outgoing seg -> wrappers s !! ad_fd t = Some x ->
    wp (ad_write seg t) (fun t' s' => ad_ok t' /\ ad_fd t' = ad_fd t /\ only (ad_fd t) s s') is_exception s;
  ad_tick_spec : forall ms t (s : sys K) x, ad_ok t -> wrappers s !! ad_fd t = Some x ->
    wp (ad_tick ms t) (fun t' s' => ad_ok t' /\ ad_fd t' = ad_fd t /\ only (ad_fd t) s s') is_exception s
}.

Section instances.
Context {K : Type} `{KernelLaws K} `{Libc}.

#[export] Instance tun_laws : DatagramAdapterLaws K TunAdapter.
Proof.
  refine {| ad_ok t := base_wf (tun_base t) |}; cbn; try done.
  - intros t s x Hok Hx. apply wp_bind.
    eapply wp_mono; [by apply (wp_fd_read _ _ s x)| |done]. intros raw s' (Hl & Ho & Hc). apply wp_bind, wp_lift.
    destruct (ipv4_parse_total ipv4_datagram_default (of_string raw)) as (r & d & pb & E & Hp & Hpb & _);
      [apply of_string_wf; unfold BUFFER_SIZE in Hl; lia|by split|].
    unfold tun_read. rewrite E. cbn [mbind res_bind]. destruct (negb _); [done|].
    eapply throws_mono; [by eapply unwrap_throws|]. intros [o b] Hb. by apply wp_ret.
  - intros seg t s x Hok Hout Hx. apply wp_bind, wp_lift. eapply throws_mono; [by apply wrap_throws|].
    intros [d seg'] [Hh Hp]. apply wp_bind, wp_lift. eapply throws_mono; [by apply ipv4_serialize_throws|].
    intros bl Hbl. apply wp_bind. eapply wp_mono; [apply (wp_fd_write _ _ true s x Hx); by rewrite concat_views| |done].
    intros n s' [Ho _]. by apply wp_ret.
  - intros _ t s x Hok Hx. split; [exact Hok|]. split; [done|by eapply only_refl].
Defined.

#[export] Instance udp_laws : DatagramAdapterLaws K UDPAdapter.
Proof.
  refine {| ad_ok t := base_wf (udp_base t) |}; cbn; try done.
  - intros t s x Hok Hx. apply wp_bind.
    eapply wp_mono; [by apply (wp_recv _ s x)| |done]. intros [src data] s' (Hl & Ha & Ho & Hc). apply wp_bind, wp_lift.
    destruct (tcp_parse_total tcp_segment_default (of_string data) 0) as (r & seg & E & _);
      [apply of_string_wf; lia|by split|by split|].
    unfold udp_read. destruct (_ && _); [done|]. rewrite E. cbn [mbind res_bind]. destruct (negb _); [done|].
    destruct (listening _); [|done]. destruct (_ && _); [|done]. cbn. destruct Hok as [Hs _]. by split; [|split; [done|by split]].
  - intros seg t s x Hok Hout Hx. apply wp_bind, wp_lift. eapply throws_mono; [apply port_throws|]. intros sp _.
    apply wp_bind, wp_lift. eapply throws_mono; [apply port_throws|]. intros dp _.
    apply wp_bind, wp_lift. eapply throws_mono; [by apply tcp_serialize_throws, with_ports_outgoing|]. intros bl Hbl.
    apply wp_bind. eapply wp_mono; [apply (wp_sendto _ _ _ s x Hx); rewrite concat_views; cbn beta in Hbl; lia| |done].
    intros n s' Ho. by apply wp_ret.
  - intros _ t s x Hok Hx. split; [exact Hok|]. split; [done|by eapply only_refl].
Defined.

Lemma wp_tap_send_pending t (s : sys K) x :
  frames_out (_interface (tap_state t)) = [] -> wrappers s !! _tap t = Some x ->
  wp (tap_send_pending t) (fun t' s' => t' = t /\ s' = s) is_exception s.
Proof.
  intros Hf Hx. unfold tap_send_pending. rewrite Hf. apply wp_bind. eapply wp_Ok; [done|]. apply wp_ret.
  destruct t as [h [b [e ip fr] n]]. cbn in *. by rewrite Hf.
Qed.

#[export] Instance tap_laws : DatagramAdapterLaws K TapAdapter.
Proof.
  refine {| ad_ok t := base_wf (_base (tap_state t)) /\ address_wf (_next_hop (tap_state t))
                       /\ frames_out (_interface (tap_state t)) = [] |}; cbn; try done.
  - by intros t [? _].
  - by intros f t (? & ? & ?) ?.
  - intros t s x (Hb & Hn & Hf) Hx. apply wp_bind.
    eapply wp_mono; [by apply (wp_fd_read _ _ s x)| |done]. intros raw s' (Hl & Ho & x' & Hx' & Hc). apply wp_bind, wp_lift.
    destruct (frame_parse_total ethernet_frame_default (of_string raw)) as (r & f & pb & E & _);
      [apply of_string_wf; unfold BUFFER_SIZE in Hl; lia|by split|].
    rewrite E. cbn [throws]. destruct (negb _); [by apply wp_ret; eauto 10|]. cbn [recv_frame]. apply wp_bind.
    eapply wp_mono; [apply (wp_tap_send_pending _ s' x' Hf Hx')| |done]. intros t' s'' [-> ->]. apply wp_ret.
    destruct t as [h [b [e ip fr] n]]. cbn in *. by eauto 10.
  - intros seg t s x (Hb & Hn & Hf) Hout Hx. apply wp_bind, wp_lift. eapply throws_mono; [by apply wrap_throws|].
    intros [d seg'] _. apply wp_bind, wp_lift. unfold send_datagram.
    eapply throws_bind; [by apply ipv4_numeric_throws|]. intros ip _. cbn [throws].
    eapply wp_mono; [by apply (wp_tap_send_pending _ s x)| |done]. intros t' s' [-> ->].
    destruct t as [h [b [e i fr] n]]. cbn in *. split; [by split|]. split; [done|by eapply only_refl].
  - intros ms t s x (Hb & Hn & Hf) Hx.
    eapply wp_mono; [by apply (wp_tap_send_pending _ s x)| |done]. intros t' s' [-> ->].
    destruct t as [h [b [e i fr] n]]. cbn in *. split; [by split|]. split; [done|by eapply only_refl].
Defined.

#[export] Instance lossy_laws {T} `{!DatagramAdapter K T} `{!DatagramAdapterLaws K T} : DatagramAdapterLaws K (LossyFdAdapter T).
Proof.
  refine {| ad_ok l := ad_ok (K := K) (_adapter l) |}.
  - intros l. exact (ad_base_wf (_adapter l)).
  - intros f l. exact (ad_update_fd f (_adapter l)).
  - intros f l. exact (ad_update_ok f (_adapter l)).
  - intros l s x Hok Hx. apply wp_bind. eapply wp_mono; [by apply ad_read_spec| |done].
    intros [o t] s' (? & ? & ? & ?). unfold should_drop. cbv zeta. by destruct (loss_rate_dn _ =? 0); apply wp_ret.
  - intros seg l s x Hok Hout Hx. unfold ad_write. cbn. unfold lossy_adapter_write, should_drop. cbv zeta.
    assert (Hw : forall l', _adapter l' = _adapter l -> wp (t ← ad_write seg (_adapter l'); mret (mkLossy t (_rand l')))
      (fun t' s' => ad_ok (_adapter t') /\ ad_fd (_adapter t') = ad_fd (_adapter l) /\ only (ad_fd (_adapter l)) s s') is_exception s).
    { intros l' ->. apply wp_bind. eapply wp_mono; [by apply (ad_write_spec seg (_adapter l) s x)| |done].
      intros t s' ?. by apply wp_ret. }
    assert (Hd : forall l', _adapter l' = _adapter l -> wp (mret l')
      (fun t' s' => ad_ok (_adapter t') /\ ad_fd (_adapter t') = ad_fd (_adapter l) /\ only (ad_fd (_adapter l)) s s') is_exception s).
    { intros l' E. apply wp_ret. rewrite E. split; [done|]. split; [done|]. by eapply only_refl. }
    destruct (loss_rate_up _ =? 0); [by apply Hw|]. destruct (_should_drop _ _ _); [by apply Hd|by apply Hw].
  - intros ms l s x Hok Hx. apply wp_bind. eapply wp_mono; [by apply (ad_tick_spec ms (_adapter l) s x)| |done].
    intros t s' ?. by apply wp_ret.
Defined.

End instances.
