(* ===== verification/TCPSpongeSocket.v ===== *)
(** * The socket (class TCPSpongeSocket of
    libsponge/tcp_helpers/tcp_sponge_socket.{hh,cc})

    A TCPSpongeSocket runs a [TCPConnection] in an event loop between two
    descriptors: [_thread_data], one end of a socket pair whose other end the
    application holds, and the descriptor of the datagram adapter.  Four rules
    move segments and bytes between them.  The rules are closures over the
    socket: here they act on the pair of the descriptors with the kernel and
    the socket object. *)

From Stdlib Require Import ZArith Lia String.
From S2P Require Import Prelude WrappingIntegers ByteStream Buffer TCPHeader TCPSegment TCPReceiver TCPSender TCPState TCPConnection SegmentBounds Address TCPOverIP Ethernet NetworkInterface Kernel FileDescriptor EventLoop Socket DatagramAdapters.

Definition TCP_TICK_MS : Z := 10.

Record TCPSpongeSocket (T : Type) : Type := mkTCPSpongeSocket {
  owner : FileDescriptor;  (** the LocalStreamSocket the class derives from *)
  _thread_data : FileDescriptor;
  _datagram_adapter : T;
  _tcp : option TCPConnection;
  _abort : bool;
  _inbound_shutdown : bool;
  _outbound_shutdown : bool;
  _fully_acked : bool;
  joinable : bool  (** [_tcp_thread.joinable()] *)
}.
Arguments mkTCPSpongeSocket {T}.
Arguments owner {T}.
Arguments _thread_data {T}.
Arguments _datagram_adapter {T}.
Arguments _tcp {T}.
Arguments _abort {T}.
Arguments _inbound_shutdown {T}.
Arguments _outbound_shutdown {T}.
Arguments _fully_acked {T}.
Arguments joinable {T}.

Section updates.
Context {T : Type}.
Implicit Types (sk : TCPSpongeSocket T).
Definition set_adapter (a : T) sk : TCPSpongeSocket T :=
  mkTCPSpongeSocket (owner sk) (_thread_data sk) a (_tcp sk) (_abort sk) (_inbound_shutdown sk)
    (_outbound_shutdown sk) (_fully_acked sk) (joinable sk).
Definition set_tcp (c : option TCPConnection) sk : TCPSpongeSocket T :=
  mkTCPSpongeSocket (owner sk) (_thread_data sk) (_datagram_adapter sk) c (_abort sk) (_inbound_shutdown sk)
    (_outbound_shutdown sk) (_fully_acked sk) (joinable sk).
Definition set_abort (b : bool) sk : TCPSpongeSocket T :=
  mkTCPSpongeSocket (owner sk) (_thread_data sk) (_datagram_adapter sk) (_tcp sk) b (_inbound_shutdown sk)
    (_outbound_shutdown sk) (_fully_acked sk) (joinable sk).
Definition set_inbound_shutdown (b : bool) sk : TCPSpongeSocket T :=
  mkTCPSpongeSocket (owner sk) (_thread_data sk) (_datagram_adapter sk) (_tcp sk) (_abort sk) b
    (_outbound_shutdown sk) (_fully_acked sk) (joinable sk).
Definition set_outbound_shutdown (b : bool) sk : TCPSpongeSocket T :=
  mkTCPSpongeSocket (owner sk) (_thread_data sk) (_datagram_adapter sk) (_tcp sk) (_abort sk) (_inbound_shutdown sk)
    b (_fully_acked sk) (joinable sk).
Definition set_fully_acked (b : bool) sk : TCPSpongeSocket T :=
  mkTCPSpongeSocket (owner sk) (_thread_data sk) (_datagram_adapter sk) (_tcp sk) (_abort sk) (_inbound_shutdown sk)
    (_outbound_shutdown sk) b (joinable sk).
Definition set_joinable (b : bool) sk : TCPSpongeSocket T :=
  mkTCPSpongeSocket (owner sk) (_thread_data sk) (_datagram_adapter sk) (_tcp sk) (_abort sk) (_inbound_shutdown sk)
    (_outbound_shutdown sk) (_fully_acked sk) b.
End updates.

Section socket.
Context {K T : Type} `{Kernel K} `{Libc} `{!DatagramAdapter K T}.

Definition W : Type := world K (TCPSpongeSocket T).

(** Reading and assigning members. *)
Definition self : M W (TCPSpongeSocket T) := on_app get_state.
Definition assign (f : TCPSpongeSocket T -> TCPSpongeSocket T) : M W unit := on_app (fun sk => Ok (tt, f sk)).

(** [_tcp->] on an empty optional is undefined; [_tcp.value()] throws. *)
Definition arrow : M W TCPConnection := on_app (fun sk =>
  match _tcp sk with Some c => Ok (c, sk) | None => Fail MemoryFault end).
Definition value : M W TCPConnection := on_app (fun sk =>
  match _tcp sk with Some c => Ok (c, sk) | None => Fail BadOptionalAccess end).

(** A call on the connection that changes it. *)
Definition on_tcp (f : TCPConnection -> res TCPConnection) : M W unit :=
  c ← arrow;
  c ← on_sys (lift (f c));
  assign (set_tcp (Some c)).

(** What the debugging output evaluates and could throw:
    [config().destination.to_string()]. *)
Definition print_address (a : Address) : M W unit :=
  _ ← on_sys (lift (address_to_string a)); mret tt.
Definition print_destination : M W unit :=
  sk ← self;
  print_address (destination (ad_config (_datagram_adapter sk))).

(** ** The four rules *)

(** Rule 1: from the datagrams into the connection. *)
Definition rule1_callback : M W unit :=
  sk ← self;
  '(seg, a) ← on_sys (ad_read (_datagram_adapter sk));
  _ ← assign (set_adapter a);
  _ ← match seg with
      | Some seg => on_tcp (fun c => segment_received c seg)
      | None => mret tt
      end;
  at_eof ← on_sys (eof (_thread_data sk));
  if negb at_eof then mret tt else
  c ← value;
  sk ← self;
  if (bytes_in_flight c =? 0) && negb (_fully_acked sk)
  then _ ← print_destination; assign (set_fully_acked true)
  else mret tt.

Definition rule1_interest : M W bool := c ← arrow; mret (active c).

(** Rule 2: from the application into the connection. *)
Definition end_outbound : M W unit :=
  _ ← on_tcp end_input_stream; assign (set_outbound_shutdown true).

Definition rule2_callback : M W unit :=
  sk ← self;
  c ← arrow;
  data ← on_sys (FileDescriptor.read (_thread_data sk) (remaining_outbound_capacity c));
  let len := zlen data in
  '(amount_written, c) ← on_sys (lift (TCPConnection.write c data));
  _ ← assign (set_tcp (Some c));
  if negb (amount_written =? len) then on_sys (lift (Fail ShortAccept)) else
  at_eof ← on_sys (eof (_thread_data sk));
  if at_eof : bool then _ ← end_outbound; print_destination else mret tt.

Definition rule2_interest : M W bool :=
  c ← arrow;
  sk ← self;
  mret (active c && negb (_outbound_shutdown sk) && (0 <? remaining_outbound_capacity c)).

(** Rule 3: from the connection to the application; only what was written is
    taken from the stream. *)
Definition rule3_callback : M W unit :=
  sk ← self;
  c ← arrow;
  let inbound := inbound_stream c in
  let amount_to_write := Z.min 65536 (buffer_size inbound) in
  buffer ← on_sys (lift (peek_output inbound amount_to_write));
  bytes_written ← on_sys (write_string (_thread_data sk) buffer false);
  inbound ← on_sys (lift (pop_output inbound bytes_written));
  _ ← assign (set_tcp (Some (set_receiver (set_stream_out (receiver_ c) inbound) c)));
  if ByteStream.eof inbound || ByteStream.error inbound then
    _ ← on_sys (shutdown (_thread_data sk) SHUT_WR);
    _ ← assign (set_inbound_shutdown true);
    print_destination
  else mret tt.

Definition rule3_interest : M W bool :=
  c ← arrow;
  sk ← self;
  let inbound := inbound_stream c in
  mret (negb (buffer_empty inbound)
        || ((ByteStream.eof inbound || ByteStream.error inbound) && negb (_inbound_shutdown sk))).

(** Rule 4: the connection's segments go out.  The adapter writes the ports
    into the segment, which is then popped. *)
Fixpoint send_segments (q : list TCPSegment) : M W unit :=
  match q with
  | [] => mret tt
  | seg :: q =>
    sk ← self;
    a ← on_sys (ad_write seg (_datagram_adapter sk));
    _ ← assign (set_adapter a);
    _ ← on_tcp (fun c => Ok (set_out q c));
    send_segments q
  end.

Definition rule4_callback : M W unit := c ← arrow; send_segments (segments_out c).
Definition rule4_interest : M W bool :=
  c ← arrow; mret (negb (bool_decide (length (segments_out c) = 0%nat))).

(** The rules as [add_rule] is given them. *)
Definition socket_rules (sk : TCPSpongeSocket T) : list (Rule K (TCPSpongeSocket T)) :=
  let dgram := ad_fd (_datagram_adapter sk) in
  [mkRule dgram In rule1_callback rule1_interest (mret tt);
   mkRule (_thread_data sk) In rule2_callback rule2_interest end_outbound;
   mkRule (_thread_data sk) Out rule3_callback rule3_interest (mret tt);
   mkRule dgram Out rule4_callback rule4_interest (mret tt)].

(** [_initialize_TCP(config)]; [rnd] is the random number the sender draws
    when no initial sequence number is configured. *)
Definition _initialize_TCP (config : TCPConfig) (rnd : Z) (rules : list (Rule K (TCPSpongeSocket T)))
    : M W (list (Rule K (TCPSpongeSocket T))) :=
  _ ← assign (set_tcp (Some (TCPConnection.new config rnd)));
  sk ← self;
  add_rules rules (socket_rules sk).

(** ** The loop *)

(** [timestamp_ms()] *)
Definition timestamp_ms : M W Z := on_sys (call Clock).

(** [_tcp_loop(condition)], at most [fuel] rounds: the rules left, and whether
    the loop is over. *)
Fixpoint tcp_loop (fuel : nat) (condition : M W bool) (base_time : Z) (rules : list (Rule K (TCPSpongeSocket T)))
    : M W (bool * list (Rule K (TCPSpongeSocket T))) :=
  match fuel with
  | O => mret (false, rules)
  | S fuel =>
    go_on ← condition;
    if negb go_on then mret (true, rules) else
    '(ret, rules) ← wait_next_event TCP_TICK_MS rules;
    sk ← self;
    if bool_decide (ret = Exit) || _abort sk then mret (true, rules) else
    c ← value;
    if active c then
      next_time ← timestamp_ms;
      let elapsed := u64 (next_time - base_time) in
      _ ← on_tcp (fun c => tick c elapsed);
      sk ← self;
      a ← on_sys (ad_tick elapsed (_datagram_adapter sk));
      _ ← assign (set_adapter a);
      tcp_loop fuel condition next_time rules
    else tcp_loop fuel condition base_time rules
  end.

Definition _tcp_loop (fuel : nat) (condition : M W bool) (rules : list (Rule K (TCPSpongeSocket T)))
    : M W (bool * list (Rule K (TCPSpongeSocket T))) :=
  base_time ← timestamp_ms;
  tcp_loop fuel condition base_time rules.

(** ** Connecting, listening, ending *)

Definition in_state (l : list State) : M W bool :=
  c ← arrow; mret (existsb (fun x => state_eqb (TCPConnection.state c) (of_state x)) l).

Definition configure (f : FdAdapterBase Address -> FdAdapterBase Address) : M W unit :=
  assign (fun sk => set_adapter (ad_update f (_datagram_adapter sk)) sk).

Definition connect (fuel : nat) (c_tcp : TCPConfig) (rnd : Z) (c_ad : FdAdapterBase Address)
    (rules : list (Rule K (TCPSpongeSocket T))) : M W (bool * list (Rule K (TCPSpongeSocket T))) :=
  sk ← self;
  if bool_decide (_tcp sk = None) then
    rules ← _initialize_TCP c_tcp rnd rules;
    _ ← configure (set_config c_ad);
    _ ← print_address (destination c_ad);
    _ ← on_tcp TCPConnection.connect;
    syn_sent ← in_state [SYN_SENT];
    if negb syn_sent then on_sys (lift (Fail RuntimeError)) else
    r ← _tcp_loop fuel (in_state [SYN_SENT]) rules;
    _ ← print_address (destination c_ad);
    _ ← assign (set_joinable true);
    mret r
  else on_sys (lift (Fail RuntimeError)).

Definition listen_and_accept (fuel : nat) (c_tcp : TCPConfig) (rnd : Z) (c_ad : FdAdapterBase Address)
    (rules : list (Rule K (TCPSpongeSocket T))) : M W (bool * list (Rule K (TCPSpongeSocket T))) :=
  sk ← self;
  if bool_decide (_tcp sk = None) then
    rules ← _initialize_TCP c_tcp rnd rules;
    _ ← configure (set_config c_ad);
    _ ← configure (set_listening true);
    r ← _tcp_loop fuel (in_state [LISTEN; SYN_RCVD; SYN_SENT]) rules;
    _ ← print_destination;
    _ ← assign (set_joinable true);
    mret r
  else on_sys (lift (Fail RuntimeError)).

(** [try { m } catch (const exception &e) { ... }] that only prints. *)
Definition caught {A} (m : res A) : res unit :=
  match m with
  | Ok _ => Ok tt
  | Fail f => if bool_decide (is_exception f) then Ok tt else Fail f
  end.

(** What [_tcp_main] does when its loop is over: [_tcp.reset()] destroys the
    connection, and with it its outbound queue. *)
Definition finish : M W unit :=
  sk ← self;
  _ ← on_sys (shutdown (owner sk) SHUT_RDWR);
  c ← value;
  _ ← on_sys (lift (caught (destroy c)));
  assign (set_tcp None).

Definition _tcp_main (fuel : nat) (rules : list (Rule K (TCPSpongeSocket T)))
    : M W (bool * list (Rule K (TCPSpongeSocket T))) :=
  sk ← self;
  if bool_decide (_tcp sk = None) then on_sys (lift (Fail RuntimeError)) else
  '(over, rules) ← _tcp_loop fuel (mret true) rules;
  _ ← (if over : bool then finish else mret tt);
  mret (over, rules).

(** [wait_until_closed()] and the destructor, up to the [join]: the thread
    goes on in its loop. *)
Definition wait_until_closed : M W unit :=
  sk ← self; on_sys (shutdown (owner sk) SHUT_RDWR).
Definition destructor : M W unit :=
  sk ← self; if joinable sk then assign (set_abort true) else mret tt.

(** [socket_pair_helper(SOCK_STREAM)] and the constructor. *)
Definition socket_pair_helper (type : Z) : M (sys K) (FileDescriptor * FileDescriptor) :=
  '(r, (fd0, fd1)) ← call (Socketpair AF_UNIX type);
  _ ← lift (SystemCall r 0);
  h0 ← FileDescriptor.new fd0;
  h1 ← FileDescriptor.new fd1;
  mret (h0, h1).

Definition sponge_socket_new (datagram_interface : T) : M (sys K) (TCPSpongeSocket T) :=
  '(h0, h1) ← socket_pair_helper SOCK_STREAM;
  first ← local_stream_socket h0;
  second ← local_stream_socket h1;
  _ ← set_blocking second false;
  mret (mkTCPSpongeSocket first second datagram_interface None false false false false false).

End socket.

(** ** The two ready-made sockets (CS144TCPSocket, FullStackSocket) *)

Definition LOCAL_TUN_IP_ADDRESS : list byte := list_byte_of_string "169.254.144.9".
Definition LOCAL_TAP_IP_ADDRESS : list byte := list_byte_of_string "169.254.10.9".
Definition LOCAL_TAP_NEXT_HOP_ADDRESS : list byte := list_byte_of_string "169.254.10.1".

(** [random_private_ethernet_address()]; [r] are the six random numbers. *)
Definition random_private_ethernet_address (r : list Z) : EthernetAddress :=
  let addr := map z2b r in
  match addr with
  | b0 :: addr => z2b (Z.land (Z.lor (b2z b0) 2) 254) :: addr
  | [] => []
  end.

(** The default [TCPConfig] with a timeout of 100 ms. *)
Definition socket_config : TCPConfig := mkTCPConfig 100 64000 64000 None.

(** The default [FdAdapterConfig] with its two addresses. *)
Definition multiplexer_config (ip : list byte) (port_rnd : Z) (address : Address) `{Libc} : res (FdAdapterBase Address) :=
  source ← of_hostname ip (to_string (u16 port_rnd));
  Ok (mkFdAdapterBase source address 0 0 false).

Section ready_made.
Context {K : Type} `{Kernel K} `{Libc}.

Definition cs144_socket_new (base : FdAdapterBase Address) : M (sys K) (TCPSpongeSocket TunAdapter) :=
  tun ← tuntap_new (list_byte_of_string "tun144") true;
  sponge_socket_new (mkTunAdapter tun base).

Definition cs144_connect (fuel : nat) (address : Address) (port_rnd rnd : Z) (rules : list (Rule K (TCPSpongeSocket TunAdapter)))
    : M (W (K := K) (T := TunAdapter)) (bool * list (Rule K (TCPSpongeSocket TunAdapter))) :=
  c ← on_sys (lift (multiplexer_config LOCAL_TUN_IP_ADDRESS port_rnd address));
  connect fuel socket_config rnd c rules.

Definition full_stack_socket_new (base : FdAdapterBase Address) (r : list Z) : M (sys K) (TCPSpongeSocket TapAdapter) :=
  tap ← tuntap_new (list_byte_of_string "tap10") false;
  ip_address ← lift (of_hostname LOCAL_TAP_IP_ADDRESS (list_byte_of_string "0"));
  next_hop ← lift (of_hostname LOCAL_TAP_NEXT_HOP_ADDRESS (list_byte_of_string "0"));
  adapter ← tap_adapter_new tap base (random_private_ethernet_address r) ip_address next_hop;
  sponge_socket_new adapter.

Definition full_stack_connect (fuel : nat) (address : Address) (port_rnd rnd : Z) (rules : list (Rule K (TCPSpongeSocket TapAdapter)))
    : M (W (K := K) (T := TapAdapter)) (bool * list (Rule K (TCPSpongeSocket TapAdapter))) :=
  c ← on_sys (lift (multiplexer_config LOCAL_TAP_IP_ADDRESS port_rnd address));
  connect fuel socket_config rnd c rules.

End ready_made.

(** A private address: of the last two bits of the first byte the upper one is
    set ("locally administered"), the lower one clear ("unicast"). *)
Lemma private_address_bits r0 r :
  exists b, random_private_ethernet_address (r0 :: r) = b :: map z2b r
    /\ Z.testbit (b2z b) 0 = false /\ Z.testbit (b2z b) 1 = true
    /\ forall i, 2 <= i < 8 -> Z.testbit (b2z b) i = Z.testbit r0 i.
Proof.
  eexists. split; [done|]. rewrite b2z_z2b.
  assert (Hb : forall i, 0 <= i < 8 -> Z.testbit (u8 (Z.land (Z.lor (b2z (z2b r0)) 2) 254)) i
    = (Z.testbit r0 i || Z.testbit 2 i) && Z.testbit 254 i).
  { intros i Hi. unfold u8. rewrite !(Z.mod_pow2_bits_low _ 8), Z.land_spec, Z.lor_spec by lia. rewrite b2z_z2b.
    unfold u8. by rewrite (Z.mod_pow2_bits_low _ 8) by lia. }
  split_and!; [rewrite Hb by lia; apply andb_false_r|rewrite Hb by lia; by rewrite orb_true_r|].
  intros i Hi. rewrite Hb by lia.
  assert (i = 2 \/ i = 3 \/ i = 4 \/ i = 5 \/ i = 6 \/ i = 7) as [->|[->|[->|[->|[->| ->]]]]] by lia;
    by rewrite orb_false_r, andb_true_r.
Qed.
