(* ===== verification/SocketThread.v ===== *)
(** * The thread of a socket (the event loop of
    libsponge/tcp_helpers/tcp_sponge_socket.cc)

    TCPSpongeSocket.v models the socket; here its four rules are shown to be
    rules the event loop can run (EventLoop.v), with the status of the
    connection (ConnectionStatus.v) as the loop's invariant: in whatever order
    the descriptors become ready and whatever the kernel answers, as long as the
    segments that arrive are resets or those of one peer that keeps to the
    window, the thread stops with an exception or goes on, the application is
    given a prefix of the peer's stream, and the connection is given the bytes
    the application wrote. *)

From Stdlib Require Import ZArith Lia.
From S2P Require Import Prelude WrappingIntegers Ring ByteStream UnAssembleBuffer StreamReassembler Buffer Parser TCPHeader TCPSegment TCPReceiver TCPSender TCPState TCPConnection SegmentBounds Address TCPOverIP Kernel FileDescriptor EventLoop Socket DatagramAdapters TCPSpongeSocket ConnectionStatus.

(** How the loop can end early: an exception, or [poll] reporting an error of a
    descriptor, which also is an exception. *)
Definition stops (f : fault) : Prop := is_exception f \/ f = PollError.

(** The destructor of a connection never fails, and an active connection's
    queue gets a reset. *)
Lemma destroy_total c : exists c', destroy c = Ok c'.
Proof.
  unfold destroy. destruct (active c); [|eauto]. unfold enqueue_segments. cbn [need_send_rst_ set_need_rst set_sender].
  set (q := TCPSender.segments_out _). destruct q as [|seg q]; cbn; eauto.
Qed.

Lemma destroy_reset c c' : active c = true -> destroy c = Ok c' -> exists seg, seg ∈ segments_out c' /\ rst (header seg) = true.
Proof.
  intros Ha E. unfold destroy in E. rewrite Ha in E. apply bind_Ok in E as ([q out] & El & E). injection E as <-.
  cbn [need_send_rst_ set_need_rst set_sender sender_ receiver_] in El. unfold send_empty_segment, TCPSender.segments_out in El. cbn in El.
  destruct (TCPSender.segments_out_ (sender_ c)) as [|seg q0] eqn:Eq; cbn in El; rewrite ?Eq in El; injection El as <- <-.
  - eexists. split; [apply elem_of_app; right; by left|done].
  - eexists. split; [apply elem_of_app; right; by left|done].
Qed.

Section steps.
Context {K T : Type} `{KernelLaws K} `{Libc} `{!DatagramAdapter K T}.
Implicit Types (w : W (K := K) (T := T)).

Lemma wp_self (Q : TCPSpongeSocket T -> W -> Prop) F w : Q w.2 w -> wp self Q F w.
Proof. by destruct w. Qed.

Lemma wp_assign f (Q : unit -> W -> Prop) F w : Q tt (w.1, f w.2) -> wp (assign f) Q F w.
Proof. done. Qed.

Lemma wp_arrow c (Q : TCPConnection -> W -> Prop) F w : _tcp w.2 = Some c -> Q c w -> wp arrow Q F w.
Proof. destruct w as [s sk]. intros E HQ. unfold wp, arrow, on_app. cbn in *. by rewrite E. Qed.

Lemma wp_value c (Q : TCPConnection -> W -> Prop) F w : _tcp w.2 = Some c -> Q c w -> wp value Q F w.
Proof. destruct w as [s sk]. intros E HQ. unfold wp, value, on_app. cbn in *. by rewrite E. Qed.

Lemma wp_lifted {R} (m : res R) a (Q : R -> W -> Prop) F w : m = Ok a -> Q a w -> wp (on_sys (lift m)) Q F w.
Proof. destruct w. by intros ->. Qed.

Lemma wp_on_tcp f c c' (Q : unit -> W -> Prop) F w :
  _tcp w.2 = Some c -> f c = Ok c' -> Q tt (w.1, set_tcp (Some c') w.2) -> wp (on_tcp f) Q F w.
Proof.
  intros Ec Ef HQ. apply wp_bind, (wp_arrow c); [done|]. apply wp_bind, (wp_lifted _ c'); [done|]. by apply wp_assign.
Qed.

Lemma address_to_string_throws a : throws (address_to_string a) (fun _ => True).
Proof.
  unfold address_to_string, ip_port. destruct (getnameinfo _ _) as [e [ip p]]. destruct (negb _); [done|]. cbn.
  pose proof (stoi_throws p) as Hs. by destruct (stoi p).
Qed.

Lemma wp_print_address a (Q : unit -> W -> Prop) w : Q tt w -> wp (print_address a) Q is_exception w.
Proof.
  intros HQ. apply wp_bind, wp_on_sys, wp_lift. eapply throws_mono; [apply address_to_string_throws|].
  intros _ _. apply wp_ret. by destruct w.
Qed.

Lemma wp_print (Q : unit -> W -> Prop) w : Q tt w -> wp print_destination Q is_exception w.
Proof. intros HQ. apply wp_bind, wp_self, wp_print_address, HQ. Qed.

Lemma wp_print_stops a (Q : unit -> W -> Prop) w : Q tt w -> wp (print_address a) Q stops w.
Proof. intros HQ. eapply wp_mono; [by apply wp_print_address|done|by left]. Qed.

Lemma finish_spec w c x :
  _tcp w.2 = Some c -> wrappers w.1 !! owner w.2 = Some x ->
  finish w = (let a := answer (Shutdown (_fd x) SHUT_RDWR) (kern w.1) in
    if 0 <=? rv a.1
    then Ok (tt, (set_wrapper (owner w.2) (wrote 1 (did_read false x)) (set_kern a.2 w.1), set_tcp None w.2))
    else Fail TaggedError).
Proof.
  destruct w as [s sk]. cbn. intros Ec Hx. unfold finish, mbind, M_bind, self, on_app, on_sys. cbn.
  rewrite (shutdown_spec _ SHUT_RDWR _ x) by (done || (by right; right; left)). cbn.
  destruct (0 <=? rv _); [|done]. cbn. unfold value, on_app. cbn. rewrite Ec. cbn.
  destruct (destroy_total c) as [c' ->]. done.
Qed.

End steps.

(** ** The abort flag

    Only the owner sets [_abort]; the thread's own steps leave it alone. *)

Section abort.
Context {K T : Type} `{Kernel K} `{Libc} `{!DatagramAdapter K T}.

Definition same_abort (w w' : W (K := K) (T := T)) : Prop := _abort w'.2 = _abort w.2.

#[local] Instance same_abort_preorder : PreOrder same_abort.
Proof. split; [done|]. unfold same_abort. intros x y z ? ?. congruence. Qed.

Lemma keeps_self : frames same_abort self.
Proof. intros [s sk]. done. Qed.
Lemma keeps_assign f : (forall sk, _abort (f sk) = _abort sk) -> frames same_abort (assign f).
Proof. intros Hf [s sk]. apply Hf. Qed.
Lemma keeps_arrow : frames same_abort arrow.
Proof. intros [s sk]. unfold wp, arrow, on_app. cbn. by destruct (_tcp sk). Qed.
Lemma keeps_value : frames same_abort value.
Proof. intros [s sk]. unfold wp, value, on_app. cbn. by destruct (_tcp sk). Qed.
Lemma keeps_sys {X} (m : M (sys K) X) : frames same_abort (on_sys m).
Proof. by apply frames_on_sys. Qed.

Create HintDb keeps discriminated.
#[local] Hint Resolve keeps_self keeps_assign keeps_arrow keeps_value keeps_sys : keeps.

Ltac keeps := repeat first
  [ progress auto with keeps | apply frames_ret; [apply _] | apply frames_bind; [apply _| |intros]
  | apply frames_if | case_match | match goal with |- forall _, _ => intros end ].

Lemma keeps_on_tcp f : frames same_abort (on_tcp f).
Proof. unfold on_tcp. keeps. Qed.
Lemma keeps_print : frames same_abort print_destination.
Proof. unfold print_destination, print_address. keeps. Qed.
#[local] Hint Resolve keeps_on_tcp keeps_print : keeps.

Lemma keeps_send q : frames same_abort (send_segments q).
Proof. induction q; cbn [send_segments]; keeps. Qed.
#[local] Hint Resolve keeps_send : keeps.

Lemma keeps_rules sk : Forall (frames_rule same_abort) (socket_rules sk).
Proof.
  repeat constructor; cbn [callback interest cancel];
    unfold rule1_callback, rule1_interest, rule2_callback, rule2_interest, rule3_callback, rule3_interest,
      rule4_callback, rule4_interest, end_outbound; keeps.
Qed.

(** With the flag set, the loop ends in its first round. *)
Lemma abort_ends_loop sk rules fuel condition base_time w :
  sublist rules (socket_rules sk) -> _abort w.2 = true -> frames same_abort condition ->
  wp (tcp_loop (S fuel) condition base_time rules) (fun '(over, _) _ => over = true) (fun _ => True) w.
Proof.
  intros Hr Ha Hc. cbn [tcp_loop]. apply wp_bind. eapply wp_mono; [apply Hc| |done]. intros go w1 H1.
  destruct (negb go); [by apply wp_ret|]. apply wp_bind.
  eapply wp_mono; [apply (frames_wait same_abort)| |done]; [done| |].
  { eapply sublist_Forall; [exact Hr|apply keeps_rules]. }
  intros [r rules'] w2 H2. apply wp_bind, wp_self. unfold same_abort in *. rewrite H2, H1, Ha, orb_true_r. by apply wp_ret.
Qed.

Lemma abort_ends_main sk rules fuel w :
  sublist rules (socket_rules sk) -> _abort w.2 = true ->
  wp (_tcp_main (S fuel) rules) (fun '(over, _) w' => over = true /\ _tcp w'.2 = None) (fun _ => True) w.
Proof.
  intros Hr Ha. apply wp_bind, wp_self. case_bool_decide; [by destruct w|]. apply wp_bind, wp_bind.
  eapply wp_mono; [apply keeps_sys| |done]. intros t w1 Ht. eapply wp_mono; [apply (abort_ends_loop sk)| |done].
  - done.
  - unfold same_abort in Ht. congruence.
  - apply frames_ret. apply _.
  - intros [over rules'] w2 ->. apply wp_bind, wp_bind, wp_self, wp_bind. unfold wp at 1.
    destruct (on_sys _ w2) as [[_ w3]|]; [|done]. apply wp_bind. unfold wp at 1.
    destruct (value w3) as [[c w4]|]; [|done]. apply wp_bind. unfold wp at 1.
    destruct (on_sys _ w4) as [[_ w5]|]; [|done]. by apply wp_assign, wp_ret.
Qed.

End abort.

(** ** The invariant of the thread *)

Section thread.
Context {K T : Type} `{KernelLaws K} `{Libc} `{!DatagramAdapter K T} `{!DatagramAdapterLaws K T}.
(** The peer's stream and initial sequence number, the configuration, the
    handles of [_thread_data], of the adapter and of the owner with the numbers
    of their descriptors, and the kernel at the start. *)
Context (S : list byte) (pisn : WrappingInt32) (cfg : TCPConfig) (td ah oh : FileDescriptor) (tfd afd ofd : Z) (k0 : K).
Context (Kinv : K -> Prop).

(** No descriptor but the two is read or written. *)
Definition others (k : K) : Prop := forall fd, fd <> tfd -> fd <> afd ->
  consumed k fd = consumed k0 fd /\ produced k fd = produced k0 fd.

Record sock_inv (w : W (K := K) (T := T)) : Prop := {
  si_td : _thread_data w.2 = td;
  si_td_fd : exists x, wrappers w.1 !! td = Some x /\ _fd x = tfd;
  si_ah : ad_fd (_datagram_adapter w.2) = ah;
  si_ah_fd : exists x, wrappers w.1 !! ah = Some x /\ _fd x = afd;
  si_owner : owner w.2 = oh;
  si_owner_fd : exists x, wrappers w.1 !! oh = Some x /\ _fd x = ofd;
  si_ptr : oh < next_ptr w.1;
  si_adapter : ad_ok (_datagram_adapter w.2);
  si_kern : Kinv (kern w.1);
  si_others : others (kern w.1);
  si_conn : exists c, _tcp w.2 = Some c
    /\ status S pisn cfg c (consumed (kern w.1) tfd) (produced (kern w.1) tfd)
    /\ (ended (sender_ c) = true -> _outbound_shutdown w.2 = true)
}.

(** What an interested rule may rely on when its callback runs. *)
Definition relies (r : Rule K (TCPSpongeSocket T)) (w : W (K := K) (T := T)) : Prop :=
  match direction r with
  | Out => True
  | In => if fd r =? td then _outbound_shutdown w.2 = false
          else exists c, _tcp w.2 = Some c /\ active c = true
  end.

(** What is assumed of the world.  The kernel stays within [Kinv], the
    application writes less than 2^63 bytes, and each segment that arrives at
    an active connection is a reset or one that a peer with the stream [S] may
    send ([peer_segment]): a part of the stream inside the window, the probe of a
    closed window, or a pure acknowledgment.  Without it the thread can fail an
    assertion of the reassembler (StreamReassembler.push_beyond_window_asserts). *)
Record environment : Prop := {
  env_closed : forall R (c : syscall R) k, Kinv k -> Kinv (answer c k).2;
  env_bound : forall k, Kinv k -> zlen (consumed k tfd) + 2 < M63;
  env_peer : forall (w : W) c seg a s', sock_inv w -> _tcp w.2 = Some c -> active c = true ->
    ad_read (_datagram_adapter w.2) w.1 = Ok ((Some seg, a), s') ->
    rst (header seg) = true \/ exists index, peer_segment S pisn (receiver_ c) seg index
}.

Context (Hpisn : wi_ok pisn) (Hcfg : cfg_ok S cfg) (Htd : td <> ah) (Hoh : oh <> td /\ oh <> ah) (Hfds : tfd <> afd) (Henv : environment).

Lemma kinv_reaches k k' : reaches k k' -> Kinv k -> Kinv k'.
Proof using Henv. apply reaches_ind_inv, Henv. Qed.

Lemma inv_only s s' sk : sock_inv (s, sk) -> only ah s s' -> sock_inv (s', sk).
Proof using Henv Htd Hoh Hfds.
  intros [? (x & Hx & Hf) ? (y & Hy & Hyf) ? (o & Ho & Hof) ? ? ? Hq Hc] ([_ Hn] & Hr & Hw & x1 & x2 & Hx1 & Hx2 & Hf2 & Hk). cbn in *.
  assert (x1 = y) as -> by congruence. destruct (Hk tfd) as [Ek Ep]; [congruence|].
  split; cbn; try done.
  - exists x. by rewrite Hw by done.
  - exists x2. by rewrite Hf2.
  - exists o. by rewrite Hw by apply Hoh.
  - by rewrite Hn.
  - by eapply kinv_reaches.
  - intros fd Ht Ha. destruct (Hk fd) as [-> ->]; [congruence|by apply Hq].
  - by rewrite Ek, Ep.
Qed.

Lemma inv_adapter s sk a : sock_inv (s, sk) -> ad_ok a -> ad_fd a = ah -> sock_inv (s, set_adapter a sk).
Proof using. intros [] ? ?. by split. Qed.

Lemma inv_tcp s sk c :
  sock_inv (s, sk) -> status S pisn cfg c (consumed (kern s) tfd) (produced (kern s) tfd) ->
  (ended (sender_ c) = true -> _outbound_shutdown sk = true) -> sock_inv (s, set_tcp (Some c) sk).
Proof using. intros [? ? ? ? ? ? ? ? ? ? _] Hs He. split; try done. by exists c. Qed.

Lemma sock_loop_invariant : loop_invariant sock_inv.
Proof using Henv.
  split.
  - intros s sk c []. by split.
  - intros s sk fds t [? ? ? ? ? ? ? ? Hk Hq Hc]. split; try done; cbn in *.
    + by apply Henv.
    + intros fd ? ?. rewrite consumed_by, produced_by, !app_nil_r. by apply Hq.
    + by rewrite consumed_by, produced_by, !app_nil_r.
Qed.

(** ** Rule 1 *)

Lemma inv_td_eof w x : wrappers w.1 !! td = Some x -> wp (on_sys (K := K) (A := TCPSpongeSocket T) (eof td))
  (fun b w' => b = _eof x /\ w' = w) is_exception w.
Proof using. intros Hx. by apply (wp_field _eof _ x). Qed.

Lemma rule1_ok w x :
  sock_inv w -> (exists c, _tcp w.2 = Some c /\ active c = true) -> wrappers w.1 !! ah = Some x ->
  wp rule1_callback (fun _ w' => (sock_inv w' /\ use_count w'.1 = use_count w.1
    /\ exists x', wrappers w'.1 !! ah = Some x' /\ _read_count x <> _read_count x')
    /\ _outbound_shutdown w'.2 = _outbound_shutdown w.2) is_exception w.
Proof using Hpisn Hcfg Htd Hoh Hfds Henv.
  intros Hi (c & Ec & Hac) Hx. pose proof (env_peer Henv w c) as Hpeer. destruct w as [s sk]. cbn in Ec, Hx.
  apply wp_bind, wp_self, wp_bind, wp_on_sys. cbn [fst snd] in *. pose proof (si_ah _ Hi) as Hah. cbn in Hah.
  assert (Hread : wp (ad_read (_datagram_adapter sk)) (fun '(o, a) s' => (ad_ok a /\ ad_fd a = ah /\ only ah s s'
      /\ exists x', wrappers s' !! ah = Some x' /\ _read_count x' <> _read_count x)
      /\ ad_read (_datagram_adapter sk) s = Ok ((o, a), s')) is_exception s).
  { rewrite <-Hah in Hx. pose proof (ad_read_spec (_datagram_adapter sk) s x (si_adapter _ Hi) Hx) as Hr. rewrite Hah in Hr. unfold wp in *.
    by destruct (ad_read _ s) as [[[o a] s']|f]. }
  eapply wp_mono; [exact Hread| |done]. clear Hread.
  intros [o a] s' [(Hok & Ha & Ho & x' & Hx' & Hne) Er]. apply wp_bind, wp_assign. cbn [fst snd].
  pose proof (inv_adapter _ _ _ (inv_only _ _ _ Hi Ho) Hok Ha) as Hi'. apply wp_bind.
  assert (Huse : use_count s' = use_count s) by apply Ho.
  eapply (wp_mono _ (fun _ w' => w'.1 = s' /\ sock_inv w' /\ _outbound_shutdown w'.2 = _outbound_shutdown sk)).
  - destruct o as [seg|]; [|by apply wp_ret].
    destruct (si_conn _ Hi') as (c0 & Ec0 & Hst & Hen). cbn in Ec0. assert (c0 = c) as -> by congruence.
    destruct (status_segment S pisn cfg Hpisn Hcfg c _ _ seg Hst) as (c' & E & Hst' & He').
    { destruct (st_mode _ _ _ _ _ _ Hst) as [?|(Hna & _)]; [done|]. unfold active in Hac. congruence. }
    { by eapply Hpeer. }
    eapply (wp_on_tcp _ c c'); [done|done|]. cbn. split_and!; [done| |done].
    apply (inv_tcp s' (set_adapter a sk)); [done|done|]. rewrite He'. exact Hen.
  - intros _ [s1 sk1] (E1 & Hi1 & Hout). cbn in E1, Hout. subst s1. destruct (si_td_fd _ Hi1) as (y & Hy & _).
    pose proof (si_td _ Hi) as Etd. cbn in Etd. rewrite Etd. apply wp_bind. eapply wp_mono; [by apply (inv_td_eof _ y)| |done].
    assert (Hdone : forall sk2, sock_inv (s', sk2) -> _outbound_shutdown sk2 = _outbound_shutdown sk1 ->
      (sock_inv (s', sk2) /\ use_count s' = use_count s
       /\ exists x', wrappers s' !! ah = Some x' /\ _read_count x <> _read_count x')
       /\ _outbound_shutdown sk2 = _outbound_shutdown sk).
    { intros sk2 H2 E2. split_and!; [done|done|eauto|congruence]. }
    intros b w' [-> ->]. destruct (negb _); [by apply wp_ret, Hdone|].
    destruct (si_conn _ Hi1) as (c1 & Ec1 & _). apply wp_bind, (wp_value c1); [done|]. apply wp_bind, wp_self.
    destruct (_ && _); [|by apply wp_ret, Hdone]. apply wp_bind, wp_print, wp_assign, Hdone; [|done].
    by destruct Hi1.
  - done.
Qed.

(** ** Rule 2 *)

(** A step on [_thread_data] and the connection. *)
Lemma inv_thread s sk x k c :
  sock_inv (s, sk) -> _fd x = tfd -> Kinv k -> others k -> status S pisn cfg c (consumed k tfd) (produced k tfd) ->
  (ended (sender_ c) = true -> _outbound_shutdown sk = true) ->
  sock_inv (set_wrapper td x (set_kern k s), set_tcp (Some c) sk).
Proof using Htd Hoh.
  intros [? _ ? (y & Hy & Hyf) ? (o & Ho & Hof) ? ? _ _ _] Hx Hk Hq Hs He. cbn in *. split; try done; cbn.
  - exists x. by rewrite lookup_insert_eq.
  - exists y. by rewrite lookup_insert_ne by done.
  - exists o. by rewrite lookup_insert_ne by (apply not_eq_sym, Hoh).
  - by exists c.
Qed.

Lemma end_outbound_ok w :
  sock_inv w ->
  wp end_outbound (fun _ w' => (sock_inv w' /\ w'.1 = w.1) /\ forall c, _tcp w.2 = Some c ->
    exists c', _tcp w'.2 = Some c' /\ active c' = active c) is_exception w.
Proof using Hpisn Hcfg.
  intros Hi. destruct w as [s sk]. destruct (si_conn _ Hi) as (c & Ec & Hst & _). cbn in Ec, Hst.
  destruct (status_end S pisn cfg Hpisn Hcfg c _ _ Hst) as (c' & E & Hst' & _).
  apply wp_bind. eapply (wp_on_tcp _ c c'); [done|done|]. apply wp_assign. cbn. split_and!; [|done|].
  - destruct Hi as [? ? ? ? ? ? ? ? ? ? _]. split; try done. by exists c'.
  - intros c0 Ec0. assert (c0 = c) as -> by congruence. exists c'. split; [done|].
    apply bind_Ok in E as (sd & _ & E). apply enqueue_fields in E as (_ & E & _). exact E.
Qed.

Lemma rule2_ok w x :
  sock_inv w -> _outbound_shutdown w.2 = false -> wrappers w.1 !! td = Some x ->
  wp rule2_callback (fun _ w' => sock_inv w' /\ use_count w'.1 = use_count w.1
    /\ exists x', wrappers w'.1 !! td = Some x' /\ _read_count x <> _read_count x') is_exception w.
Proof using Hpisn Hcfg Htd Hoh Hfds Henv.
  intros Hi Hout Hx. destruct w as [s sk]. cbn in Hout, Hx. pose proof (si_td _ Hi) as Etd. cbn in Etd.
  destruct (si_conn _ Hi) as (c & Ec & Hst & Hen). cbn in Ec, Hst, Hen.
  destruct (si_td_fd _ Hi) as (y & Hy & Hyf). cbn in Hy. assert (y = x) as -> by congruence.
  apply wp_bind, wp_self, wp_bind, (wp_arrow c); [done|]. cbn [fst snd]. rewrite Etd. apply wp_bind, wp_on_sys. cbn [fst snd].
  assert (Hcap : 0 <= remaining_outbound_capacity c) by (apply u64_range).
  pose proof (fd_read_spec td _ s x Hx Hcap) as Hr. unfold wp at 1.
  destruct (FileDescriptor.read td _ s) as [[data s']|f]; [|by rewrite Hr].
  destruct Hr as (Hd & k & -> & Hre & Hc & Hp).
  assert (Hk : Kinv k) by (eapply kinv_reaches; [exact Hre|by apply (si_kern _ Hi)]).
  assert (Hq : others k).
  { intros fd Ht Ha. rewrite Hc, Hp, (proj2 (Z.eqb_neq _ _)) by congruence. rewrite app_nil_r. by apply (si_others _ Hi). }
  pose proof (env_bound Henv k Hk) as Hb. specialize (Hc tfd). specialize (Hp tfd).
  rewrite Hyf, Z.eqb_refl in Hc. rewrite Hc, zlen_app in Hb.
  destruct (status_write S pisn cfg Hpisn Hcfg c _ _ data Hst) as (c' & E & Hst' & He'); [|lia|intros _; lia|].
  { intros _. apply not_true_is_false. intros E. apply Hen in E. congruence. }
  apply wp_bind, (wp_lifted _ (zlen data, c')); [done|]. apply wp_bind, wp_assign. cbn [fst snd].
  rewrite Z.eqb_refl. cbn [negb].
  assert (Hi' : sock_inv (set_wrapper td (did_read ((0 <? remaining_outbound_capacity c) && bool_decide (data = [])) x)
      (set_kern k s), set_tcp (Some c') sk)).
  { apply inv_thread; [done|done|done|done|by rewrite Hc, Hp|]. by rewrite He'. }
  apply wp_bind. eapply wp_mono; [eapply inv_td_eof, lookup_insert_eq| |done]. intros b w' [-> ->].
  assert (Hcount : forall w', sock_inv w' -> w'.1 = set_wrapper td (did_read ((0 <? remaining_outbound_capacity c) && bool_decide (data = [])) x) (set_kern k s) ->
    sock_inv w' /\ use_count w'.1 = use_count s /\ exists x', wrappers w'.1 !! td = Some x' /\ _read_count x <> _read_count x').
  { intros w' Hw' ->. split_and!; [done|done|]. eexists. split; [apply lookup_insert_eq|apply not_eq_sym, did_read_count]. }
  destruct (_eof _); [|by apply wp_ret, Hcount].
  apply wp_bind. eapply wp_mono; [by apply end_outbound_ok| |done]. intros _ w' [[Hi'' E1] _].
  by apply wp_print, Hcount.
Qed.

(** ** Rule 3 *)

Lemma rule3_ok w x :
  sock_inv w -> wrappers w.1 !! td = Some x ->
  wp rule3_callback (fun _ w' => sock_inv w' /\ use_count w'.1 = use_count w.1
    /\ exists x', wrappers w'.1 !! td = Some x' /\ _write_count x <> _write_count x') is_exception w.
Proof using Hpisn Hcfg Htd Hoh Hfds Henv.
  intros Hi Hx. destruct w as [s sk]. cbn in Hx. pose proof (si_td _ Hi) as Etd. cbn in Etd.
  destruct (si_conn _ Hi) as (c & Ec & Hst & Hen). cbn in Ec, Hst, Hen.
  destruct (si_td_fd _ Hi) as (y & Hy & Hyf). cbn in Hy. assert (y = x) as -> by congruence.
  apply wp_bind, wp_self, wp_bind, (wp_arrow c); [done|]. cbn [fst snd]. rewrite Etd.
  pose proof (st_inbound _ _ _ _ _ _ Hst) as Hw. pose proof (ByteStream.wf_used _ Hw) as Hu. unfold buffer_size.
  set (n := Z.min 65536 _). assert (Hn : 0 <= n <= 65536) by (unfold n; lia).
  apply wp_bind. eapply wp_lifted; [apply peek_output_spec; [done|lia]|].
  apply wp_bind, wp_on_sys. cbn [fst snd].
  eapply wp_mono; [apply (wp_write_prefix td _ n s x Hx); lia| |by intros f [->| ->]].
  intros m s' (Hm & k & -> & Hre & Hp & Hc).
  assert (Hk : Kinv k) by (eapply kinv_reaches; [exact Hre|by apply (si_kern _ Hi)]).
  assert (Hq : others k).
  { intros fd Ht Ha. rewrite Hc, Hp, (proj2 (Z.eqb_neq _ _)) by congruence. rewrite app_nil_r. by apply (si_others _ Hi). }
  specialize (Hp tfd). rewrite Hyf, Z.eqb_refl in Hp. specialize (Hc tfd).
  destruct (status_pop S pisn cfg Hpisn Hcfg c _ _ m Hst) as (out & Eo & Hst'); [lia|].
  apply wp_bind, (wp_lifted _ out); [done|]. apply wp_bind, wp_assign. cbn [fst snd].
  assert (Hi' : forall x', _fd x' = tfd -> forall k', Kinv k' -> others k' -> consumed k' tfd = consumed k tfd -> produced k' tfd = produced k tfd ->
     sock_inv (set_wrapper td x' (set_kern k' s), set_tcp (Some (set_receiver (set_stream_out (receiver_ c) out) c)) sk)).
  { intros x' Hx' k' Hk' Hq' Hck Hpk. apply inv_thread; [done|done|done|done| |done]. by rewrite Hck, Hpk, Hc, Hp. }
  destruct (_ || _).
  - apply wp_bind, wp_on_sys. cbn [fst snd]. unfold wp at 1.
    rewrite (shutdown_spec td SHUT_WR _ (wrote 1 x)) by (apply lookup_insert_eq || (right; left)).
    cbn zeta. destruct (0 <=? _); [|done]. apply wp_bind, wp_assign, wp_print. cbn [fst snd]. split_and!.
    + assert (Hs : sock_inv (set_wrapper td (wrote 1 (wrote 1 x)) (set_kern (answer (Shutdown (_fd (wrote 1 x)) SHUT_WR) k).2 s),
          set_tcp (Some (set_receiver (set_stream_out (receiver_ c) out) c)) sk)).
      { apply Hi'; [done|by apply Henv| |by rewrite consumed_by, app_nil_r|by rewrite produced_by, app_nil_r].
        intros fd ? ?. rewrite consumed_by, produced_by, !app_nil_r. by apply Hq. }
      destruct Hs as [? Htdf ? ? ? ? ? ? ? ? ?]. cbn in *. split; try done; cbn; rewrite insert_insert_eq; done.
    + done.
    + eexists. split; [apply lookup_insert_eq|]. apply not_eq_sym. cbn [SHUT_WR]. rewrite wrote_wrote. apply wrote_count. lia.
  - apply wp_ret. split_and!; [by apply Hi'|done|].
    eexists. split; [apply lookup_insert_eq|]. apply not_eq_sym, wrote_count. lia.
Qed.

(** ** Rule 4 *)

Lemma fits_outgoing seg : fits seg -> outgoing seg.
Proof using. intros [_ Hd Hb Hz]. unfold MAX_PAYLOAD_SIZE in Hz. unfold payload in *. split_and!; [done|lia|]. rewrite Hd. lia. Qed.

Lemma send_segments_ok q : forall w c,
  sock_inv w -> _tcp w.2 = Some c -> segments_out c = q ->
  wp (send_segments q) (fun _ w' => sock_inv w' /\ use_count w'.1 = use_count w.1
    /\ rule4_interest w' = Ok (false, w')) is_exception w.
Proof using Henv Htd Hoh Hfds.
  induction q as [|seg q IH]; intros [s sk] c Hi Ec Eq; cbn [send_segments].
  { apply wp_ret. split_and!; [done|done|]. cbn in Ec. unfold rule4_interest, mbind, M_bind, arrow, on_app. cbn.
    rewrite Ec. cbn. unfold mret, M_ret. by rewrite Eq. }
  destruct (si_conn _ Hi) as (c0 & Ec0 & Hst & Hen). cbn in Ec, Ec0, Hst, Hen. assert (c0 = c) as -> by congruence.
  pose proof (cf_out _ (st_fits _ _ _ _ _ _ Hst)) as Hf. unfold segments_out in Eq. rewrite Eq in Hf.
  apply Forall_cons_1 in Hf as [Hseg Hq]. pose proof (si_ah _ Hi) as Hah. cbn in Hah.
  destruct (si_ah_fd _ Hi) as (y & Hy & _). cbn in Hy.
  apply wp_bind, wp_self, wp_bind, wp_on_sys. cbn [fst snd].
  assert (Hw : wp (ad_write seg (_datagram_adapter sk)) (fun t' s' => ad_ok t' /\ ad_fd t' = ah /\ only ah s s') is_exception s).
  { rewrite <-Hah in Hy |- *. by apply (ad_write_spec seg (_datagram_adapter sk) s y (si_adapter _ Hi) (fits_outgoing _ Hseg)). }
  eapply wp_mono; [exact Hw| |done]. intros a s' (Hok & Ha & Ho). apply wp_bind, wp_assign. cbn [fst snd].
  pose proof (inv_adapter _ _ _ (inv_only _ _ _ Hi Ho) Hok Ha) as Hi'. apply wp_bind.
  eapply (wp_on_tcp _ c (set_out q c)); [done|done|]. cbn [fst snd].
  destruct (si_conn _ Hi') as (c1 & Ec1 & Hst1 & Hen1). cbn in Ec1, Hst1, Hen1. assert (c1 = c) as -> by congruence.
  eapply wp_mono; [eapply (IH (s', set_tcp (Some (set_out q c)) (set_adapter a sk)) (set_out q c)); [|done|done]| |done].
  - apply inv_tcp; [done|by apply status_set_out|done].
  - cbn. intros _ w' (? & -> & ?). split_and!; [done|apply Ho|done].
Qed.

(** ** The four rules together *)

Definition thread_rules : list (Rule K (TCPSpongeSocket T)) :=
  [mkRule ah In rule1_callback rule1_interest (mret tt);
   mkRule td In rule2_callback rule2_interest end_outbound;
   mkRule td Out rule3_callback rule3_interest (mret tt);
   mkRule ah Out rule4_callback rule4_interest (mret tt)].

Lemma relies_invariant r : loop_invariant (relies r).
Proof using. by split; intros; unfold relies in *; destruct (direction r). Qed.

Lemma wp_True {X R} (m : M X R) (Q : R -> X -> Prop) x : (forall a y, Q a y) -> wp m Q (fun _ => True) x.
Proof using. intros HQ. unfold wp. destruct (m x) as [[a y]|]; done. Qed.

Lemma rule1_good : good_rule sock_inv is_exception relies (mkRule ah In rule1_callback rule1_interest (mret tt)).
Proof using Hpisn Hcfg Htd Hoh Hfds Henv.
  assert (Hne : (ah =? td) = false) by (by apply Z.eqb_neq).
  split; [apply relies_invariant|..]; unfold relies; cbn [fd direction callback interest cancel count_of].
  - intros w Hi. destruct (si_ah_fd _ Hi) as (y & Hy & _). by eexists.
  - intros [s sk] Hi. destruct (si_conn _ Hi) as (c & Ec & _). cbn in Ec. exists (active c). rewrite Hne.
    split; [|by exists c]. unfold rule1_interest, mbind, M_bind, arrow, on_app. cbn. by rewrite Ec.
  - intros w x Hi HP Hx. rewrite Hne in HP. eapply wp_mono; [by apply (rule1_ok w x)| |done].
    intros _ w' [(? & ? & ?) _]. split_and!; [done|done|by left].
  - intros w Hi. by apply wp_ret.
Qed.

Lemma rule2_good : good_rule sock_inv is_exception relies (mkRule td In rule2_callback rule2_interest end_outbound).
Proof using Hpisn Hcfg Htd Hoh Hfds Henv.
  split; [apply relies_invariant|..]; unfold relies; cbn [fd direction callback interest cancel count_of].
  - intros w Hi. destruct (si_td_fd _ Hi) as (y & Hy & _). by eexists.
  - intros [s sk] Hi. destruct (si_conn _ Hi) as (c & Ec & _). cbn in Ec. rewrite Z.eqb_refl. eexists. split.
    + unfold rule2_interest, mbind, M_bind, arrow, on_app. cbn. by rewrite Ec.
    + cbn. intros E. apply andb_true_iff in E as [E _]. apply andb_true_iff in E as [_ E]. by apply negb_true_iff.
  - intros w x Hi HP Hx. rewrite Z.eqb_refl in HP. eapply wp_mono; [by apply (rule2_ok w x)| |done].
    intros _ w' (? & ? & ?). split_and!; [done|done|by left].
  - intros w Hi. eapply wp_mono; [by apply end_outbound_ok| |done]. intros _ w' [[? ->] _]. done.
Qed.

Lemma rule3_good : good_rule sock_inv is_exception relies (mkRule td Out rule3_callback rule3_interest (mret tt)).
Proof using Hpisn Hcfg Htd Hoh Hfds Henv.
  split; [apply relies_invariant|..]; unfold relies; cbn [fd direction callback interest cancel count_of].
  - intros w Hi. destruct (si_td_fd _ Hi) as (y & Hy & _). by eexists.
  - intros [s sk] Hi. destruct (si_conn _ Hi) as (c & Ec & _). cbn in Ec. eexists. split; [|done].
    unfold rule3_interest, mbind, M_bind, arrow, on_app. cbn. by rewrite Ec.
  - intros w x Hi HP Hx. eapply wp_mono; [by apply (rule3_ok w x)| |done].
    intros _ w' (? & ? & ?). split_and!; [done|done|by left].
  - intros w Hi. by apply wp_ret.
Qed.

Lemma rule4_good : good_rule sock_inv is_exception relies (mkRule ah Out rule4_callback rule4_interest (mret tt)).
Proof using Hpisn Hcfg Htd Hoh Hfds Henv.
  split; [apply relies_invariant|..]; unfold relies; cbn [fd direction callback interest cancel count_of].
  - intros w Hi. destruct (si_ah_fd _ Hi) as (y & Hy & _). by eexists.
  - intros [s sk] Hi. destruct (si_conn _ Hi) as (c & Ec & _). cbn in Ec. eexists. split; [|done].
    unfold rule4_interest, mbind, M_bind, arrow, on_app. cbn. by rewrite Ec.
  - intros w x Hi HP Hx. destruct (si_conn _ Hi) as (c & Ec & _). apply wp_bind, (wp_arrow c); [done|].
    eapply wp_mono; [by apply (send_segments_ok _ w c)| |done]. intros _ w' (? & ? & ?). split_and!; [done|done|by right].
  - intros w Hi. by apply wp_ret.
Qed.

(** Rules that write and do nothing when cancelled bother nobody. *)
Lemma compatible_out r r' :
  direction r' = Out -> cancel r' = mret tt -> compatible sock_inv relies r r'.
Proof using.
  intros Hd Hc. split.
  - intros w _ _ _. apply wp_True. intros _ y. unfold relies. by rewrite Hd.
  - intros w _ _. apply wp_True. intros _ y. unfold relies. by rewrite Hd.
  - intros w _ HP. rewrite Hc. by apply wp_ret.
Qed.

Lemma rules12_compatible :
  compatible sock_inv relies (mkRule ah In rule1_callback rule1_interest (mret tt))
    (mkRule td In rule2_callback rule2_interest end_outbound).
Proof using Hpisn Hcfg Htd Hoh Hfds Henv.
  assert (Hne : (ah =? td) = false) by (by apply Z.eqb_neq).
  split; unfold relies; cbn [fd direction callback cancel]; rewrite ?Z.eqb_refl, ?Hne.
  - intros w Hi HP Hout. destruct (si_ah_fd _ Hi) as (y & Hy & _).
    eapply wp_mono; [by apply (rule1_ok w y)| |done]. intros _ w' [_ ->]. done.
  - intros w _ Hout. by apply wp_ret.
  - intros w Hi (c & Ec & Hac). eapply wp_mono; [by apply end_outbound_ok| |done].
    intros _ w' [_ Hact]. destruct (Hact c Ec) as (c' & Ec' & Ha). exists c'. by rewrite Ha.
Qed.

Lemma thread_rules_ok w : sock_inv w -> holds ([td; ah; oh] ++ map fd thread_rules) w.1 ->
  loop_ok sock_inv is_exception relies [td; ah; oh] thread_rules w.
Proof using Hpisn Hcfg Htd Hoh Hfds Henv.
  intros Hi Hh. split; [done| | | |done].
  - constructor; [apply rule1_good|]. constructor; [apply rule2_good|]. constructor; [apply rule3_good|].
    constructor; [apply rule4_good|constructor].
  - constructor; [constructor; [apply rules12_compatible|by repeat (constructor; [by apply compatible_out|])]|].
    repeat (constructor; [by repeat (constructor; [by apply compatible_out|])|]). constructor.
  - repeat constructor; cbn; set_solver.
Qed.

(** ** The loop *)

Abbreviation thread_ok := (loop_ok sock_inv is_exception relies [td; ah; oh]).

Lemma thread_ok_step rules w w' :
  thread_ok rules w -> sock_inv w' -> use_count w'.1 = use_count w.1 -> thread_ok rules w'.
Proof using. intros [] ? Hu. split; try done. by eapply holds_counts. Qed.

(** The loop asks [condition], which looks at the socket. *)
Definition asks (condition : M (W (K := K) (T := T)) bool) : Prop :=
  forall w, sock_inv w -> exists b, condition w = Ok (b, w).

Lemma asks_in_state l : asks (in_state l).
Proof using.
  intros [s sk] Hi. destruct (si_conn _ Hi) as (c & Ec & _). cbn in Ec. eexists.
  unfold in_state, mbind, M_bind, arrow, on_app. cbn. by rewrite Ec.
Qed.

Lemma inv_kern s sk k :
  sock_inv (s, sk) -> Kinv k -> (forall fd, consumed k fd = consumed (kern s) fd /\ produced k fd = produced (kern s) fd) ->
  sock_inv (set_kern k s, sk).
Proof using.
  intros [? ? ? ? ? ? ? ? ? Hq ?] ? Hk. cbn in *. split; try done; cbn.
  - intros fd ? ?. destruct (Hk fd) as [-> ->]. by apply Hq.
  - by destruct (Hk tfd) as [-> ->].
Qed.

Lemma wp_timestamp w :
  sock_inv w -> wp timestamp_ms (fun _ w' => sock_inv w' /\ use_count w'.1 = use_count w.1 /\ w'.2 = w.2) stops w.
Proof using Henv.
  destruct w as [s sk]. intros Hi. apply wp_on_sys. cbn [fst snd]. unfold call, wp.
  pose proof (consumed_by _ Clock (kern s)) as Hc. pose proof (produced_by _ Clock (kern s)) as Hp.
  pose proof (env_closed Henv _ Clock _ (si_kern _ Hi)) as Hk. cbn in Hc, Hp, Hk.
  destruct (answer Clock (kern s)) as [t k]. cbn in *. split_and!; [|done|done]. apply inv_kern; [done|done|].
  intros fd. by rewrite Hc, Hp, !app_nil_r.
Qed.

(** The connection and the adapter are told of the time. *)
Lemma tick_ok w c ms :
  sock_inv w -> _tcp w.2 = Some c -> active c = true ->
  wp (_ ← on_tcp (fun c => tick c ms); sk ← self; a ← on_sys (ad_tick ms (_datagram_adapter sk)); assign (set_adapter a))
    (fun _ w' => sock_inv w' /\ use_count w'.1 = use_count w.1) is_exception w.
Proof using Hpisn Hcfg Htd Hoh Hfds Henv.
  intros Hi Ec Hac. destruct w as [s sk]. cbn in Ec.
  destruct (si_conn _ Hi) as (c0 & Ec0 & Hst & Hen). cbn in Ec0, Hst, Hen. assert (c0 = c) as -> by congruence.
  destruct (status_tick S pisn cfg Hpisn Hcfg c _ _ ms Hst) as (c' & E & Hst' & He').
  { destruct (st_mode _ _ _ _ _ _ Hst) as [?|(Hna & _)]; [done|]. unfold active in Hac. congruence. }
  apply wp_bind. eapply (wp_on_tcp _ c c'); [done|done|]. cbn [fst snd].
  assert (Hi' : sock_inv (s, set_tcp (Some c') sk)) by (apply inv_tcp; [done|done|by rewrite He']).
  apply wp_bind, wp_self, wp_bind, wp_on_sys. cbn [fst snd].
  destruct (si_ah_fd _ Hi') as (y & Hy & _). pose proof (si_ah _ Hi') as Hah. cbn in Hy, Hah.
  assert (Hw : wp (ad_tick ms (_datagram_adapter sk)) (fun t' s' => ad_ok t' /\ ad_fd t' = ah /\ only ah s s') is_exception s).
  { rewrite <-Hah in Hy |- *. by apply (ad_tick_spec ms (_datagram_adapter sk) s y (si_adapter _ Hi')). }
  eapply wp_mono; [exact Hw| |done]. intros a s' (Hok & Ha & Ho). apply wp_assign. cbn [fst snd]. split; [|apply Ho].
  apply inv_adapter; [|done|done]. by eapply inv_only.
Qed.

Lemma wp_tcp_loop condition fuel : asks condition -> forall base_time rules w,
  thread_ok rules w ->
  wp (tcp_loop fuel condition base_time rules) (fun '(_, rules') w' => thread_ok rules' w') stops w.
Proof using Hpisn Hcfg Htd Hoh Hfds Henv.
  intros Hask. induction fuel as [|fuel IH]; intros base_time rules w Hok; cbn [tcp_loop]; [by apply wp_ret|].
  destruct (Hask w (lo_inv _ _ _ _ _ _ Hok)) as [go E]. apply wp_bind. eapply wp_Ok; [exact E|].
  destruct (negb go); [by apply wp_ret|]. apply wp_bind.
  eapply wp_mono; [by apply (wp_wait sock_inv is_exception relies sock_loop_invariant)| |done].
  intros [ret rules'] w' [Hok' _]. pose proof (lo_inv _ _ _ _ _ _ Hok') as Hi'.
  apply wp_bind, wp_self. destruct (_ || _); [by apply wp_ret|].
  destruct (si_conn _ Hi') as (c & Ec & _). apply wp_bind, (wp_value c); [done|].
  destruct (active c) eqn:Hac; [|by apply IH]. apply wp_bind. eapply wp_mono; [by apply wp_timestamp| |done].
  intros next w1 (Hi1 & Hu1 & E1). rewrite <-E1 in Ec.
  set (ms := u64 _). pose proof (tick_ok w1 c ms Hi1 Ec Hac) as Ht.
  unfold wp, mbind, M_bind in Ht |- *. destruct (on_tcp _ w1) as [[[] w2]|f]; [|by left].
  destruct (self w2) as [[sk w3]|f]; [|by left]. destruct (on_sys _ w3) as [[a w4]|f]; [|by left].
  destruct (assign _ w4) as [[[] w5]|f]; [|by left]. destruct Ht as [Hi5 Hu5].
  apply IH. eapply thread_ok_step; [exact Hok'|done|congruence].
Qed.

Lemma wp_loop condition fuel rules w :
  asks condition -> thread_ok rules w ->
  wp (_tcp_loop fuel condition rules) (fun '(_, rules') w' => thread_ok rules' w') stops w.
Proof using Hpisn Hcfg Htd Hoh Hfds Henv.
  intros Hask Hok. apply wp_bind. eapply wp_mono; [apply wp_timestamp, Hok| |done].
  intros t w' (Hi & Hu & _). apply wp_tcp_loop; [done|]. by eapply thread_ok_step.
Qed.

(** ** From a new socket to a running one *)

(** A socket that is not connected: nothing went through the socket pair, the
    owner's handles are accounted for. *)
Record fresh (w : W (K := K) (T := T)) : Prop := {
  fr_td : _thread_data w.2 = td;
  fr_td_fd : exists x, wrappers w.1 !! td = Some x /\ _fd x = tfd;
  fr_ah : ad_fd (_datagram_adapter w.2) = ah;
  fr_ah_fd : exists x, wrappers w.1 !! ah = Some x /\ _fd x = afd;
  fr_owner : owner w.2 = oh;
  fr_owner_fd : exists x, wrappers w.1 !! oh = Some x /\ _fd x = ofd;
  fr_ptr : oh < next_ptr w.1;
  fr_adapter : ad_ok (_datagram_adapter w.2);
  fr_kern : Kinv (kern w.1);
  fr_start : kern w.1 = k0;
  fr_tcp : _tcp w.2 = None;
  fr_quiet : consumed (kern w.1) tfd = [] /\ produced (kern w.1) tfd = [];
  fr_handles : holds [td; ah; oh] w.1
}.

Lemma wp_initialize rnd w :
  fresh w -> wp (_initialize_TCP cfg rnd []) (fun rules w' => thread_ok rules w' /\ _tcp w'.2 = Some (TCPConnection.new cfg rnd)) stops w.
Proof using Hpisn Hcfg Htd Hoh Hfds Henv.
  destruct w as [s sk]. intros [? ? Hah ? ? ? ? ? ? Hk0 ? [Hc Hp] Hh]. cbn in *.
  apply wp_bind, wp_assign, wp_bind, wp_self. cbn [fst snd].
  assert (Hi : sock_inv (s, set_tcp (Some (TCPConnection.new cfg rnd)) sk)).
  { split; try done; [by intros fd _ _; cbn; rewrite Hk0|]. exists (TCPConnection.new cfg rnd). cbn. rewrite Hc, Hp. split_and!; [done| |done].
    by apply status_new. }
  assert (socket_rules (set_tcp (Some (TCPConnection.new cfg rnd)) sk) = thread_rules) as ->
    by (unfold socket_rules, thread_rules; cbn; rewrite Hah; by match goal with E : _thread_data sk = td |- _ => rewrite E end).
  eapply wp_mono; [apply (wp_add_rules sock_inv stops sock_loop_invariant [td; ah; oh] thread_rules [] _ Hi)| |done].
  - by rewrite app_nil_r.
  - repeat constructor; cbn; set_solver.
  - intros rules w' (-> & ? & ? & ->). split; [by apply thread_rules_ok|done].
Qed.

Lemma wp_configure f w rules :
  thread_ok rules w -> (base_wf (ad_config (_datagram_adapter w.2)) -> base_wf (f (ad_config (_datagram_adapter w.2)))) ->
  wp (configure f) (fun _ w' => thread_ok rules w' /\ _tcp w'.2 = _tcp w.2) stops w.
Proof using.
  destruct w as [s sk]. intros Hok Hf. apply wp_assign. cbn in *. split; [|done].
  pose proof (lo_inv _ _ _ _ _ _ Hok) as Hi. eapply thread_ok_step; [exact Hok| |done].
  apply inv_adapter; [done| |].
  - apply ad_update_ok; [apply (si_adapter _ Hi)|]. apply Hf, ad_base_wf, (si_adapter _ Hi).
  - rewrite ad_update_fd. apply (si_ah _ Hi).
Qed.

Lemma connect_syn_sent rnd :
  exists c', TCPConnection.connect (TCPConnection.new cfg rnd) = Ok c'
    /\ existsb (fun x => state_eqb (TCPConnection.state c') (of_state x)) [SYN_SENT] = true.
Proof using. eexists. split; reflexivity. Qed.

(** What both end with. *)
Lemma thread_ok_joinable rules s sk : thread_ok rules (s, sk) -> thread_ok rules (s, set_joinable true sk).
Proof using. intros Hok. eapply thread_ok_step; [exact Hok| |done]. by destruct (lo_inv _ _ _ _ _ _ Hok). Qed.

Lemma wp_connect fuel rnd c_ad w :
  fresh w -> base_wf c_ad ->
  wp (connect fuel cfg rnd c_ad []) (fun '(_, rules) w' => thread_ok rules w') stops w.
Proof using Hpisn Hcfg Htd Hoh Hfds Henv.
  intros Hf Hb. apply wp_bind, wp_self. rewrite (fr_tcp _ Hf), bool_decide_eq_true_2 by done.
  apply wp_bind. eapply wp_mono; [by apply wp_initialize| |done]. intros rules w1 [Hok1 E1].
  apply wp_bind. eapply wp_mono; [by eapply wp_configure| |done]. intros _ w2 [Hok2 E2].
  apply wp_bind, wp_print_stops, wp_bind. destruct (connect_syn_sent rnd) as (c' & E & Hsyn).
  destruct w2 as [s sk]. cbn in E2. rewrite E1 in E2. pose proof (lo_inv _ _ _ _ _ _ Hok2) as Hi.
  destruct (si_conn _ Hi) as (c & Ec & Hst & Hen). cbn in Ec, Hst, Hen. assert (c = TCPConnection.new cfg rnd) as -> by congruence.
  destruct (status_connect S pisn cfg Hpisn Hcfg _ _ _ Hst) as (c'' & E'' & Hst' & He').
  { by destruct (st_mode _ _ _ _ _ _ Hst) as [?|[? _]]. }
  assert (c'' = c') as -> by congruence. eapply wp_on_tcp; [done|exact E|]. cbn [fst snd].
  assert (Hok3 : thread_ok rules (s, set_tcp (Some c') sk)).
  { eapply thread_ok_step; [exact Hok2| |done]. apply inv_tcp; [done|done|by rewrite He']. }
  apply wp_bind, wp_bind, (wp_arrow c'); [done|]. apply wp_ret. rewrite Hsyn. cbn [negb].
  apply wp_bind. eapply wp_mono; [by apply wp_loop; [apply asks_in_state|]| |done].
  intros [over rules'] [s4 sk4] Hok4. apply wp_bind, wp_print_stops, wp_bind, wp_assign, wp_ret.
  by apply thread_ok_joinable.
Qed.

Lemma wp_listen fuel rnd c_ad w :
  fresh w -> base_wf c_ad ->
  wp (listen_and_accept fuel cfg rnd c_ad []) (fun '(_, rules) w' => thread_ok rules w') stops w.
Proof using Hpisn Hcfg Htd Hoh Hfds Henv.
  intros Hf Hb. apply wp_bind, wp_self. rewrite (fr_tcp _ Hf), bool_decide_eq_true_2 by done.
  apply wp_bind. eapply wp_mono; [by apply wp_initialize| |done]. intros rules w1 [Hok1 E1].
  apply wp_bind. eapply wp_mono; [by eapply wp_configure| |done]. intros _ w2 [Hok2 E2].
  apply wp_bind. eapply wp_mono; [by eapply wp_configure| |done]. intros _ w3 [Hok3 E3].
  apply wp_bind. eapply wp_mono; [by apply wp_loop; [apply asks_in_state|]| |done].
  intros [over rules'] [s4 sk4] Hok4. apply wp_bind, wp_bind, wp_self, wp_print_stops, wp_bind, wp_assign, wp_ret.
  by apply thread_ok_joinable.
Qed.

(** ** The end *)

(** What the application was given is a prefix of the peer's stream. *)
Definition gave_prefix (w : W (K := K) (T := T)) : Prop := exists m, produced (kern w.1) tfd = ztake m S.

Lemma inv_gave_prefix w : sock_inv w -> gave_prefix w.
Proof using.
  clear Htd Hoh Hfds. intros Hi. destruct (si_conn _ Hi) as (c & _ & Hst & _). destruct (st_prefix _ _ _ _ _ _ Hst) as [m Hm].
  exists (zlen (produced (kern w.1) tfd)).
  assert (Ht : ztake (zlen (produced (kern w.1) tfd)) (ztake m S) = produced (kern w.1) tfd) by (by rewrite <-Hm, ztake_app_exact).
  rewrite <-Ht at 1. unfold ztake. rewrite take_take. f_equal.
  assert (zlen (produced (kern w.1) tfd) <= Z.max 0 m); [|lia].
  pose proof (f_equal zlen Hm) as Hl. rewrite zlen_app in Hl. pose proof (zlen_nonneg (contents (inbound_stream c))).
  assert (zlen (ztake m S) <= Z.max 0 m) by (unfold zlen, ztake; rewrite length_take; lia). lia.
Qed.

(** The connection of a thread that goes on: alive, with what the application
    wrote as its outbound stream, or reset. *)
Definition connection_up (w : W (K := K) (T := T)) : Prop :=
  exists c, _tcp w.2 = Some c
    /\ (alive S pisn cfg c (consumed (kern w.1) tfd) (produced (kern w.1) tfd) \/ dead c).

Lemma inv_connection_up w : sock_inv w -> connection_up w.
Proof using.
  intros Hi. destruct (si_conn _ Hi) as (c & Ec & Hst & _). exists c. split; [done|by apply (st_mode _ _ _ _ _ _ Hst)].
Qed.

Lemma wp_main fuel rules w :
  thread_ok rules w ->
  wp (_tcp_main fuel rules) (fun '(over, _) w' => gave_prefix w' /\ others (kern w'.1) /\ (over = false -> connection_up w')) stops w.
Proof using Hpisn Hcfg Htd Hoh Hfds Henv.
  intros Hok. destruct (si_conn _ (lo_inv _ _ _ _ _ _ Hok)) as (c & Ec & _).
  apply wp_bind, wp_self. rewrite Ec, bool_decide_eq_false_2 by done.
  apply wp_bind. eapply wp_mono; [apply wp_loop; [|exact Hok]| |done]; [by intros ?; exists true|].
  intros [over rules'] w' Hok'. pose proof (lo_inv _ _ _ _ _ _ Hok') as Hi'. apply wp_bind. destruct over.
  - destruct (si_conn _ Hi') as (c' & Ec' & _). destruct (si_owner_fd _ Hi') as (x & Hx & _).
    rewrite <-(si_owner _ Hi') in Hx. unfold wp. rewrite (finish_spec w' c' x Ec' Hx). cbn zeta. destruct (0 <=? _); [|by left]. cbn. split_and!; [| |done].
    + destruct (inv_gave_prefix w' Hi') as [m Hm]. exists m. cbn. by rewrite produced_by, app_nil_r.
    + intros fd ? ?. rewrite consumed_by, produced_by, !app_nil_r. by apply (si_others _ Hi').
  - apply wp_ret, wp_ret. split_and!; [by apply inv_gave_prefix|apply Hi'|]. intros _. by apply inv_connection_up.
Qed.

(** Opening a socket, then its thread. *)
Definition life (connecting : bool) (fuel fuel' : nat) (rnd : Z) (c_ad : FdAdapterBase Address)
    : M (W (K := K) (T := T)) (bool * list (Rule K (TCPSpongeSocket T))) :=
  '(opened, rules) ← (if connecting then connect fuel cfg rnd c_ad [] else listen_and_accept fuel cfg rnd c_ad []);
  if opened : bool then _tcp_main fuel' rules else mret (false, rules).

End thread.

(** ** Properties *)

Section properties.
Context {K T : Type} `{KernelLaws K} `{Libc} `{!DatagramAdapter K T} `{!DatagramAdapterLaws K T}.

(** C17: a socket from [connect] or [listen_and_accept] to the end of its
    thread, over any of the adapters, in whatever order the descriptors become
    ready, for any number of rounds of the two loops, and whatever the kernel
    answers, provided that ([environment]) each segment that arrives is a reset,
    or one of the peer's stream inside the receiver's window, the probe of its
    closed window or a pure acknowledgment; the buffers of the configuration are
    not empty ([cfg_ok]), and streams and buffers are shorter than 2^63 bytes.
    The bytes given to the application are always a prefix of the peer's stream;
    no descriptor is read or written but the socket pair's and the adapter's;
    while the thread goes on, its connection is alive with the bytes read from
    the application as its outbound stream, or was reset.  It can only stop
    early with an exception: no undefined behaviour, no failed assertion, no
    empty [optional], no "busy wait" of the event loop, no short
    [TCPConnection::write]. *)
Theorem socket_life_safe (S : list byte) (pisn : WrappingInt32) (cfg : TCPConfig) (td ah oh : FileDescriptor) (tfd afd ofd : Z)
    (Kinv : K -> Prop) (connecting : bool) (fuel fuel' : nat) (rnd : Z) (c_ad : FdAdapterBase Address)
    (w : W (K := K) (T := T))
    (Hpisn : wi_ok pisn)
    (Hcfg : cfg_ok S cfg)
    (Hhandles : td <> ah)
    (Howner : oh <> td /\ oh <> ah)
    (Hnumbers : tfd <> afd)
    (Henv : environment S pisn cfg td ah oh tfd afd ofd (kern w.1) Kinv (T := T))
    (Had : base_wf c_ad)
    (Hw : fresh td ah oh tfd afd ofd (kern w.1) Kinv w) :
  match life cfg connecting fuel fuel' rnd c_ad w with
  | Ok ((over, _), w') => (exists m, produced (kern w'.1) tfd = ztake m S)
      /\ others tfd afd (kern w.1) (kern w'.1)
      /\ (over = false -> connection_up S pisn cfg tfd w')
  | Fail f => stops f
  end.
Proof.
  enough (Hl : wp (life cfg connecting fuel fuel' rnd c_ad) (fun '(over, _) w' => gave_prefix S tfd w'
    /\ others tfd afd (kern w.1) (kern w'.1) /\ (over = false -> connection_up S pisn cfg tfd w')) stops w).
  { unfold wp in Hl. by destruct (life _ _ _ _ _ _ w) as [[[over rules] w']|f]. }
  apply wp_bind. eapply (wp_mono _ (fun '(_, rules) w' => loop_ok (sock_inv S pisn cfg td ah oh tfd afd ofd (kern w.1) Kinv) is_exception (relies td) [td; ah; oh] rules w')).
  - destruct connecting; [by eapply wp_connect|by eapply wp_listen].
  - intros [opened rules] w' Hok. destruct opened; [by apply (wp_main S pisn cfg td ah oh tfd afd ofd (kern w.1) Kinv)|]. apply wp_ret.
    pose proof (lo_inv _ _ _ _ _ _ Hok) as Hi. split_and!; [by eapply inv_gave_prefix|by eapply si_others|]. intros _. by eapply inv_connection_up.
  - done.
Qed.

(** The end of the thread when its connection is still active, as after
    the destructor of the socket set [_abort]: the only system call made is the
    [shutdown] of the socket pair.  The destructor of the connection queues a
    RST, and the queue is destroyed with it: nothing is sent to the peer. *)
Theorem abort_sends_no_reset (w : W (K := K) (T := T)) (c : TCPConnection) (x : FDWrapper)
    (Htcp : _tcp w.2 = Some c)
    (Hactive : active c = true)
    (Howner : wrappers w.1 !! owner w.2 = Some x) :
  (exists c' seg, destroy c = Ok c' /\ seg ∈ segments_out c' /\ rst (header seg) = true)
  /\ match finish w with
     | Ok (_, w') => _tcp w'.2 = None
         /\ kern w'.1 = (answer (Shutdown (_fd x) SHUT_RDWR) (kern w.1)).2
         /\ _datagram_adapter w'.2 = _datagram_adapter w.2
     | Fail f => f = TaggedError /\ rv (answer (Shutdown (_fd x) SHUT_RDWR) (kern w.1)).1 < 0
     end.
Proof.
  split.
  - destruct (destroy_total c) as [c' E]. destruct (destroy_reset c c' Hactive E) as (seg & ? & ?). by exists c', seg.
  - rewrite (finish_spec w c x Htcp Howner). cbn zeta. destruct (Z.leb_spec 0 (rv (answer (Shutdown (_fd x) SHUT_RDWR) (kern w.1)).1)); [done|].
    split; [done|lia].
Qed.

(** C19: once the owner has set [_abort] (the destructor does, and then joins
    the thread), the thread ends: whatever state it was in, its loop makes one
    more round at most, and the thread returns with its connection destroyed,
    or stops with an exception; the segments that arrive are assumed to be those
    of C17 ([environment]). *)
Theorem abort_ends_thread (S : list byte) (pisn : WrappingInt32) (cfg : TCPConfig) (td ah oh : FileDescriptor) (tfd afd ofd : Z) (k0 : K)
    (Kinv : K -> Prop) (sk : TCPSpongeSocket T) (rules : list (Rule K (TCPSpongeSocket T))) (fuel : nat)
    (w : W (K := K) (T := T))
    (Hpisn : wi_ok pisn)
    (Hcfg : cfg_ok S cfg)
    (Hhandles : td <> ah)
    (Howner : oh <> td /\ oh <> ah)
    (Hnumbers : tfd <> afd)
    (Henv : environment S pisn cfg td ah oh tfd afd ofd k0 Kinv (T := T))
    (Hw : loop_ok (sock_inv S pisn cfg td ah oh tfd afd ofd k0 Kinv) is_exception (relies td) [td; ah; oh] rules w)
    (Hrules : sublist rules (socket_rules sk))
    (Habort : _abort w.2 = true) :
  match _tcp_main (Datatypes.S fuel) rules w with
  | Ok ((over, _), w') => over = true /\ _tcp w'.2 = None /\ exists m, produced (kern w'.1) tfd = ztake m S
  | Fail f => stops f
  end.
Proof.
  pose proof (wp_main S pisn cfg td ah oh tfd afd ofd k0 Kinv Hpisn Hcfg Hhandles Howner Hnumbers Henv (Datatypes.S fuel) rules w Hw) as Hm.
  pose proof (abort_ends_main sk rules fuel w Hrules Habort) as He. unfold wp in Hm, He.
  destruct (_tcp_main _ _ w) as [[[over rules'] w']|f]; [|exact Hm]. destruct Hm as (Hp & _ & _), He as [Ho Hn]. by split_and!.
Qed.

End properties.

(** ** Witnesses *)

(** A server over UDP: handle 1 is the owner's end of the socket pair
    (descriptor 3), handle 2 the thread's end (descriptor 4), handle 5 the UDP
    socket (descriptor 6).  The application wrote "ok" and closed its end.
    The peer's datagram, sent again and again, has SYN, the bytes "ab", and
    acknowledges the server's SYN. *)
Definition sample_datagram : list byte :=
  match TCPSegment.serialize (set_payload (of_string [x61; x62])
          (TCPSegment.set_header (set_seqno (mkWrappingInt32 7) (set_syn true (set_ack true (set_ackno (mkWrappingInt32 101)
             (set_win 1000 tcp_header_default))))) tcp_segment_default)) 0 with
  | Ok bl => concatenate bl
  | Fail _ => []
  end.

Definition sample_address : Address := mkAddress 16 (zreplicate 128 x00).
Definition sample_base : FdAdapterBase Address := mkFdAdapterBase sample_address sample_address 0 0 false.

Definition sample_machine : machine := mkMachine {[ 4 := [x6f; x6b] ]} ∅ ∅ sample_datagram 2 0.
Definition sample_socket : W (K := machine) (T := UDPAdapter) :=
  (mkSys sample_machine
     {[ 1 := mkFDWrapper 3 false false 0 0; 2 := mkFDWrapper 4 false false 0 0; 5 := mkFDWrapper 6 false false 0 0 ]}
     {[ 1 := 1; 2 := 1; 5 := 1 ]} 6,
   mkTCPSpongeSocket 1 2 (mkUDPAdapter 5 sample_base) None false false false false false).

Definition sample_kinv (k : machine) : Prop :=
  datagram k = sample_datagram /\ at_fd (taken k) 4 ++ at_fd (waiting k) 4 = [x6f; x6b].

Lemma sample_read_kinv fd n k : sample_kinv k -> sample_kinv (machine_read fd n k).2.
Proof.
  intros [Hd Hb]. split; [done|]. unfold machine_read. cbn [snd taken waiting].
  set (data := take _ (at_fd (waiting k) fd)). unfold at_fd in *. destruct (decide (fd = 4)) as [->|].
  - rewrite !lookup_insert_eq. cbn. rewrite <-app_assoc, <-Hb. f_equal. unfold data.
    rewrite length_take. set (l := default [] (waiting k !! 4)). set (i := (_ `min` 4096)%nat).
    destruct (Nat.le_ge_cases i (length l)).
    + rewrite Nat.min_l by done. apply take_drop.
    + by rewrite Nat.min_r, take_ge, drop_ge, app_nil_r by done.
  - by rewrite !lookup_insert_ne.
Qed.

Lemma sample_kinv_closed R (c : syscall R) k : sample_kinv k -> sample_kinv (answer c k).2.
Proof. destruct c; try done. apply sample_read_kinv. Qed.

(** The segment in a datagram. *)
Definition segment_of (d : list byte) : TCPSegment :=
  match TCPSegment.parse tcp_segment_default (of_string d) 0 with
  | Ok (_, seg) => seg
  | Fail _ => tcp_segment_default
  end.

(** The peer's first segment, without the bytes. *)
Definition first_datagram : list byte :=
  match TCPSegment.serialize (TCPSegment.set_header (set_seqno (mkWrappingInt32 7) (set_syn true (set_ack true
          (set_ackno (mkWrappingInt32 101) (set_win 1000 tcp_header_default))))) tcp_segment_default) 0 with
  | Ok bl => concatenate bl
  | Fail _ => []
  end.

(** A segment with the start of the peer's stream fits whatever was received. *)
Definition starts_stream (seg : TCPSegment) : Prop :=
  0 <= win (header seg) < M16 /\ carries [x61; x62] (mkWrappingInt32 7) seg 0 /\ zlen (str (payload seg)) <= 2.

Lemma stream_start_from_peer cfg seg c hist dlv :
  2 <= recv_capacity cfg -> starts_stream seg -> alive [x61; x62] (mkWrappingInt32 7) cfg c hist dlv ->
  peer_segment [x61; x62] (mkWrappingInt32 7) (receiver_ c) seg 0.
Proof.
  intros Hcap (Hwin & Hcar & Hlen) (Ec & rcv & fn & [_ [Hi _ _ _ _] _ _]). rewrite Ec in Hi.
  split; [exact Hwin|]. left. split; [exact Hcar|]. clear Hwin Hcar.
  pose proof (inv_next _ _ _ _ _ _ Hi) as Hn. pose proof (inv_cap _ _ _ _ _ _ Hi) as Hc.
  pose proof (inv_consumed _ _ _ _ _ _ Hi) as Hco. pose proof (inv_prefix _ _ _ _ _ _ Hi) as Hp. cbn in Hc. split.
  - unfold in_window. rewrite Hc, Hco. pose proof (zlen_nonneg dlv). lia.
  - intros _. change (zlen [x61; x62]) with 2 in Hn. unfold next in Hn.
    pose proof (ByteStream.wf_written _ (wf_output _ (inv_wf _ _ _ _ _ _ Hi))) as Hb.
    pose proof (u64_range (bytes_read_ (output_ (reassembler_ (receiver_ c))) + ByteStream.used_size_ (output_ (reassembler_ (receiver_ c))))) as Hr.
    rewrite <-Hb in Hr. unfold abs_ack_no, ByteStream.bytes_written, stream_out, StreamReassembler.stream_out.
    destruct (TCPReceiver.state _); rewrite ?u64_small; lia.
Qed.

Lemma sample_starts_stream seg : seg = segment_of sample_datagram \/ seg = segment_of first_datagram -> starts_stream seg.
Proof.
  intros Hseg. split_and!; [destruct Hseg as [->| ->]; by vm_compute..|destruct Hseg as [->| ->]; (split; [by vm_compute|done|by vm_compute])
    |destruct Hseg as [->| ->]; by vm_compute].
Qed.

Lemma sample_datagram_whole : take (Z.to_nat 65536 `min` 4096) sample_datagram = sample_datagram.
Proof. apply take_ge. replace (length sample_datagram) with 22%nat by (by vm_compute). lia. Qed.

(** What the UDP adapter reads is the segment in the datagram. *)
Lemma udp_adapter_read_segment {K} `{KernelLaws K} `{Libc} (t t' : UDPAdapter) (s s' : sys K) seg y :
  wrappers s !! _sock t = Some y -> udp_adapter_read t s = Ok ((Some seg, t'), s') ->
  seg = segment_of (answer (Recvfrom (_fd y) 65536 MSG_TRUNC) (kern s)).1.2.1.
Proof.
  intros Hy Er. unfold udp_adapter_read, mbind, M_bind in Er. rewrite (recv_spec (_sock t) 65536 s y Hy ltac:(lia)) in Er.
  destruct (answer _ (kern s)) as [[r [data src]] k]. cbn [fst snd]. destruct (rv r <? 0); [done|]. destruct (65536 <? rv r); [done|].
  destruct (of_sockaddr src) as [a|]; [|done]. cbn in Er. unfold lift, udp_read in Er. destruct (_ && _); [done|].
  unfold segment_of. destruct (TCPSegment.parse _ _ _) as [[r' sg]|]; [|done]. cbn [mbind res_bind] in *.
  repeat (case_match; simplify_eq/=; try done); by injection Er.
Qed.

Lemma sample_environment : environment [x61; x62] (mkWrappingInt32 7) (sample_cfg 100) 2 5 1 4 6 3 sample_machine sample_kinv (T := UDPAdapter).
Proof.
  split.
  - apply sample_kinv_closed.
  - intros k [_ Hb]. assert (zlen (at_fd (taken k) 4) <= 2); [|cbn; lia].
    pose proof (f_equal zlen Hb) as Hl. rewrite zlen_app in Hl. change (zlen [x6f; x6b]) with 2 in Hl.
    pose proof (zlen_nonneg (at_fd (waiting k) 4)). lia.
  - intros [s sk] c seg a s' Hi Ec Hac Er. right. exists 0. cbn in Ec, Er.
    destruct (si_ah_fd _ _ _ _ _ _ _ _ _ _ _ _ Hi) as (y & Hy & _). pose proof (si_ah _ _ _ _ _ _ _ _ _ _ _ _ Hi) as Hah. cbn in Hy, Hah.
    destruct (si_kern _ _ _ _ _ _ _ _ _ _ _ _ Hi) as [Hd _]. cbn in Hd.
    pose proof (udp_adapter_read_segment _ a s s' seg y (eq_trans (f_equal (fun h => wrappers s !! h) Hah) Hy) Er) as Hseg.
    unfold answer, machine_kernel, machine_recvfrom in Hseg. cbn [fst snd] in Hseg. rewrite Hd, sample_datagram_whole in Hseg.
    destruct (si_conn _ _ _ _ _ _ _ _ _ _ _ _ Hi) as (c0 & Ec0 & Hst & _). cbn in Ec0. assert (c0 = c) as -> by congruence.
    destruct (st_mode _ _ _ _ _ _ Hst) as [Ha|(Hna & _)]; [|unfold active in Hac; congruence].
    eapply stream_start_from_peer; [|apply sample_starts_stream; by left|done]. cbn. lia.
Qed.

Lemma sample_fresh : fresh 2 5 1 4 6 3 sample_machine sample_kinv sample_socket.
Proof.
  split; [done| |done| |done| |done| | |done|done|done|].
  - by exists (mkFDWrapper 4 false false 0 0).
  - by exists (mkFDWrapper 6 false false 0 0).
  - by exists (mkFDWrapper 3 false false 0 0).
  - by repeat split.
  - by split.
  - intros h Hh. apply list_elem_of_In in Hh. destruct Hh as [<-|[<-|[<-|[]]]]; exists 1; by split.
Qed.

Lemma sample_life :
  match life (sample_cfg 100) false 5 3 0 sample_base sample_socket with
  | Ok ((over, _), w') => over = false /\ produced (kern w'.1) 4 = [x61; x62]
  | Fail _ => False
  end.
Proof. vm_compute. by split. Qed.

Lemma socket_life_safe_witness :
  cfg_ok [x61; x62] (sample_cfg 100)
  /\ environment [x61; x62] (mkWrappingInt32 7) (sample_cfg 100) 2 5 1 4 6 3 sample_machine sample_kinv (T := UDPAdapter)
  /\ fresh 2 5 1 4 6 3 sample_machine sample_kinv sample_socket
  /\ match life (sample_cfg 100) false 5 3 0 sample_base sample_socket with
     | Ok ((over, _), w') => over = false /\ produced (kern w'.1) 4 = [x61; x62]
         /\ connection_up [x61; x62] (mkWrappingInt32 7) (sample_cfg 100) 4 w'
     | Fail _ => False
     end.
Proof.
  split_and!; [by apply sample_cfg_ok|exact sample_environment|exact sample_fresh|].
  assert (Hp : wi_ok (mkWrappingInt32 7)) by done. assert (Hc : cfg_ok [x61; x62] (sample_cfg 100)) by (by apply sample_cfg_ok).
  assert (Hn : 2 <> 5) by done. assert (Ho : 1 <> 2 /\ 1 <> 5) by done. assert (Hm : 4 <> 6) by done. assert (Hb : base_wf sample_base) by (by repeat split).
  pose proof (socket_life_safe (K := machine) (T := UDPAdapter) [x61; x62] (mkWrappingInt32 7) (sample_cfg 100) 2 5 1 4 6 3 sample_kinv
    false 5 3 0 sample_base sample_socket Hp Hc Hn Ho Hm sample_environment Hb sample_fresh) as Hl.
  pose proof sample_life as E.
  destruct (life (sample_cfg 100) false 5 3 0 sample_base sample_socket) as [[[over rules] w']|f]; [|exact E].
  split_and!; [exact (proj1 E)|exact (proj2 E)|exact (proj2 (proj2 Hl) (proj1 E))].
Defined.

(** The sample socket with an active connection. *)
Definition sample_active : W (K := machine) (T := UDPAdapter) :=
  (sample_socket.1, set_tcp (Some sample_server) sample_socket.2).

Lemma abort_sends_no_reset_witness :
  _tcp sample_active.2 = Some sample_server /\ active sample_server = true
  /\ wrappers sample_active.1 !! owner sample_active.2 = Some (mkFDWrapper 3 false false 0 0)
  /\ match finish sample_active with Ok (_, w') => _tcp w'.2 = None /\ sent (kern w'.1) = ∅ | Fail _ => False end.
Proof.
  split_and!; [done|done|done|].
  assert (E : match finish sample_active with Ok _ => True | Fail _ => False end) by (by vm_compute).
  destruct (abort_sends_no_reset sample_active sample_server (mkFDWrapper 3 false false 0 0) eq_refl eq_refl eq_refl) as [_ Hf].
  destruct (finish sample_active) as [[u w']|f]; [|exact E]. destruct Hf as (Hn & Hk & _). split; [exact Hn|]. rewrite Hk. done.
Defined.

(** The same socket with its rules installed and [_abort] set. *)
Definition sample_aborted : W (K := machine) (T := UDPAdapter) :=
  (mkSys sample_machine (wrappers sample_socket.1) {[ 1 := 1; 2 := 3; 5 := 3 ]} 6,
   set_abort true (set_tcp (Some sample_server) sample_socket.2)).

Lemma sample_aborted_ok :
  loop_ok (sock_inv [x61; x62] (mkWrappingInt32 7) (sample_cfg 100) 2 5 1 4 6 3 sample_machine sample_kinv) is_exception (relies 2) [2; 5; 1]
    (socket_rules sample_aborted.2) sample_aborted.
Proof.
  assert (Hp : wi_ok (mkWrappingInt32 7)) by done. assert (Hc : cfg_ok [x61; x62] (sample_cfg 100)) by (by apply sample_cfg_ok).
  assert (Hn : 2 <> 5) by done. assert (Ho : 1 <> 2 /\ 1 <> 5) by done. assert (Hm : 4 <> 6) by done. change (socket_rules sample_aborted.2) with (thread_rules (K := machine) (T := UDPAdapter) 2 5).
  refine (thread_rules_ok _ _ _ 2 5 1 4 6 3 sample_machine sample_kinv Hp Hc Hn Ho Hm sample_environment sample_aborted _ _).
  - split; [done| |done| |done| |done| | |done|].
    + by exists (mkFDWrapper 4 false false 0 0).
    + by exists (mkFDWrapper 6 false false 0 0).
    + by exists (mkFDWrapper 3 false false 0 0).
    + by repeat split.
    + by split.
    + exists sample_server. split_and!; [done| |done]. by apply (status_new _ _ _ Hp Hc 0).
  - intros h Hh. apply list_elem_of_In in Hh.
    destruct Hh as [<-|[<-|[<-|[<-|[<-|[<-|[<-|[]]]]]]]]; [exists 3|exists 3|exists 1|exists 3..]; by split.
Qed.

Lemma abort_ends_thread_witness :
  loop_ok (sock_inv [x61; x62] (mkWrappingInt32 7) (sample_cfg 100) 2 5 1 4 6 3 sample_machine sample_kinv) is_exception (relies 2) [2; 5; 1]
    (socket_rules sample_aborted.2) sample_aborted
  /\ _abort sample_aborted.2 = true
  /\ match _tcp_main 1 (socket_rules sample_aborted.2) sample_aborted with
     | Ok ((over, _), w') => over = true /\ _tcp w'.2 = None | Fail f => stops f end.
Proof.
  assert (Hp : wi_ok (mkWrappingInt32 7)) by done. assert (Hc : cfg_ok [x61; x62] (sample_cfg 100)) by (by apply sample_cfg_ok).
  assert (Hn : 2 <> 5) by done. assert (Ho : 1 <> 2 /\ 1 <> 5) by done. assert (Hm : 4 <> 6) by done. assert (Ha : _abort sample_aborted.2 = true) by done.
  split; [exact sample_aborted_ok|]. split; [exact Ha|].
  pose proof (abort_ends_thread [x61; x62] (mkWrappingInt32 7) (sample_cfg 100) 2 5 1 4 6 3 sample_machine sample_kinv sample_aborted.2
    (socket_rules sample_aborted.2) 0 sample_aborted Hp Hc Hn Ho Hm sample_environment sample_aborted_ok
    (reflexivity (R := sublist) _) Ha) as Hl.
  destruct (_tcp_main 1 (socket_rules sample_aborted.2) sample_aborted) as [[[over rules] w']|f]; [|exact Hl].
  split; [exact (proj1 Hl)|exact (proj1 (proj2 Hl))].
Defined.
