(* ===== verification/StreamCopy.v ===== *)
(** * Copying between a socket and the terminal
    (apps/bidirectional_stream_copy.cc)

    The programs tcp_native, tcp_udp, tcp_ipv4 and tcp_ip_ethernet end in
    [bidirectional_stream_copy]: four rules of an event loop move bytes from
    standard input through the byte stream [_outbound] to a socket, and from
    the socket through [_inbound] to standard output. *)

From Stdlib Require Import ZArith Lia.
From S2P Require Import Prelude ByteStream Buffer Kernel FileDescriptor EventLoop Socket.

Definition STDIN_FILENO : Z := 0.
Definition STDOUT_FILENO : Z := 1.
Definition max_copy_length : Z := 65536.
Definition copy_buffer_size : Z := 1048576.

(** The local variables the rules share. *)
Record copier : Type := mkCopier {
  _outbound : ByteStream;
  _inbound : ByteStream;
  _outbound_shutdown : bool;
  _inbound_shutdown : bool
}.

Definition set_outbound (b : ByteStream) (c : copier) : copier :=
  mkCopier b (_inbound c) (_outbound_shutdown c) (_inbound_shutdown c).
Definition set_inbound (b : ByteStream) (c : copier) : copier :=
  mkCopier (_outbound c) b (_outbound_shutdown c) (_inbound_shutdown c).
Definition outbound_is_shutdown (c : copier) : copier :=
  mkCopier (_outbound c) (_inbound c) true (_inbound_shutdown c).
Definition inbound_is_shutdown (c : copier) : copier :=
  mkCopier (_outbound c) (_inbound c) (_outbound_shutdown c) true.

Section copy.
Context {K : Type} `{Kernel K}.
Context (socket _input _output : FileDescriptor).

Definition variables : M (world K copier) copier := on_app get_state.
Definition modify (f : copier -> copier) : M (world K copier) unit := on_app (fun c => Ok (tt, f c)).

(** Rule 1: from standard input into [_outbound]. *)
Definition rule1_callback : M (world K copier) unit :=
  c ← variables;
  data ← on_sys (FileDescriptor.read _input (remaining_capacity (_outbound c)));
  '(_, b) ← on_sys (lift (ByteStream.write (_outbound c) data));
  _ ← modify (set_outbound b);
  at_eof ← on_sys (eof _input);
  if at_eof : bool then modify (fun c => set_outbound (end_input (_outbound c)) c) else mret tt.
Definition rule1_interest : M (world K copier) bool :=
  c ← variables;
  mret (negb (ByteStream.error (_outbound c)) && (0 <? remaining_capacity (_outbound c))
        && negb (ByteStream.error (_inbound c))).
Definition end_outbound : M (world K copier) unit := modify (fun c => set_outbound (end_input (_outbound c)) c).

(** Rule 2: from [_outbound] into the socket. *)
Definition rule2_callback : M (world K copier) unit :=
  c ← variables;
  let bytes_to_write := Z.min max_copy_length (buffer_size (_outbound c)) in
  data ← on_sys (lift (peek_output (_outbound c) bytes_to_write));
  bytes_written ← on_sys (write_string socket data false);
  b ← on_sys (lift (pop_output (_outbound c) bytes_written));
  _ ← modify (set_outbound b);
  if ByteStream.eof b then _ ← on_sys (shutdown socket SHUT_WR); modify outbound_is_shutdown else mret tt.
Definition rule2_interest : M (world K copier) bool :=
  c ← variables;
  mret (negb (buffer_empty (_outbound c)) || (ByteStream.eof (_outbound c) && negb (_outbound_shutdown c))).

(** Rule 3: from the socket into [_inbound]. *)
Definition rule3_callback : M (world K copier) unit :=
  c ← variables;
  data ← on_sys (FileDescriptor.read socket (remaining_capacity (_inbound c)));
  '(_, b) ← on_sys (lift (ByteStream.write (_inbound c) data));
  _ ← modify (set_inbound b);
  at_eof ← on_sys (eof socket);
  if at_eof : bool then modify (fun c => set_inbound (end_input (_inbound c)) c) else mret tt.
Definition rule3_interest : M (world K copier) bool :=
  c ← variables;
  mret (negb (ByteStream.error (_inbound c)) && (0 <? remaining_capacity (_inbound c))
        && negb (ByteStream.error (_outbound c))).
Definition end_inbound : M (world K copier) unit := modify (fun c => set_inbound (end_input (_inbound c)) c).

(** Rule 4: from [_inbound] to standard output. *)
Definition rule4_callback : M (world K copier) unit :=
  c ← variables;
  let bytes_to_write := Z.min max_copy_length (buffer_size (_inbound c)) in
  data ← on_sys (lift (peek_output (_inbound c) bytes_to_write));
  bytes_written ← on_sys (write_string _output data false);
  b ← on_sys (lift (pop_output (_inbound c) bytes_written));
  _ ← modify (set_inbound b);
  if ByteStream.eof b then _ ← on_sys (close _output); modify inbound_is_shutdown else mret tt.
Definition rule4_interest : M (world K copier) bool :=
  c ← variables;
  mret (negb (buffer_empty (_inbound c)) || (ByteStream.eof (_inbound c) && negb (_inbound_shutdown c))).

Definition copy_rules : list (Rule K copier) :=
  [mkRule _input In rule1_callback rule1_interest end_outbound;
   mkRule socket Out rule2_callback rule2_interest end_outbound;
   mkRule socket In rule3_callback rule3_interest end_inbound;
   mkRule _output Out rule4_callback rule4_interest end_inbound].

(** [while (true) { ... }], at most [fuel] rounds: is it over? *)
Fixpoint copy_loop (fuel : nat) (rules : list (Rule K copier)) : M (world K copier) (bool * list (Rule K copier)) :=
  match fuel with
  | O => mret (false, rules)
  | S fuel =>
    '(r, rules) ← wait_next_event (-1) rules;
    if bool_decide (r = Exit) then mret (true, rules) else copy_loop fuel rules
  end.

End copy.

(** The function: [_input] and [_output] are new handles, destroyed at the end
    with the rules.  The result tells whether it has returned. *)
Definition bidirectional_stream_copy {K} `{Kernel K} (fuel : nat) (socket : FileDescriptor)
    : M (world K copier) bool :=
  _input ← on_sys (new STDIN_FILENO);
  _output ← on_sys (new STDOUT_FILENO);
  _ ← modify (fun _ => mkCopier (ByteStream.new copy_buffer_size) (ByteStream.new copy_buffer_size) false false);
  _ ← on_sys (set_blocking socket false);
  _ ← on_sys (set_blocking _input false);
  _ ← on_sys (set_blocking _output false);
  rules ← add_rules [] (copy_rules socket _input _output);
  '(over, rules) ← copy_loop fuel rules;
  _ ← (if over : bool then _ ← on_sys (release_all [_output; _input]); destroy_rules rules else mret tt);
  mret over.

(** A read of at most the free space is accepted whole. *)
Lemma write_accepted b data :
  ByteStream.wf b -> zlen data <= remaining_capacity b ->
  exists b', ByteStream.write b data = Ok (zlen data, b') /\ ByteStream.wf b' /\ contents b' = contents b ++ data.
Proof.
  intros Hw Hl. destruct (write_contents b data Hw) as (b' & E & Hw' & _ & Hc & _).
  rewrite (accepted_all b data Hw Hl) in *. by exists b'.
Qed.

(** A system call failed, or took nothing. *)
Definition call_failed (f : fault) : Prop := f = TaggedError \/ f = RuntimeError.

(** ** One rule *)

Section rules.
Context {K : Type} `{KernelLaws K}.

Lemma wp_modify f (Q : unit -> world K copier -> Prop) F w : Q tt (w.1, f w.2) -> wp (modify f) Q F w.
Proof. done. Qed.
Lemma wp_variables (Q : copier -> world K copier -> Prop) F w : Q w.2 w -> wp variables Q F w.
Proof. by destruct w. Qed.

(** What a read rule does: [h] is read into the stream [b]. *)
Lemma wp_read_into_stream h x b (s : sys K) :
  wrappers s !! h = Some x -> ByteStream.wf b ->
  wp (FileDescriptor.read h (remaining_capacity b)) (fun data s' =>
    (exists b', ByteStream.write b data = Ok (zlen data, b') /\ ByteStream.wf b' /\ contents b' = contents b ++ data)
    /\ exists e k, s' = set_wrapper h (did_read e x) (set_kern k s)
       /\ (forall fd, consumed k fd = consumed (kern s) fd ++ if _fd x =? fd then data else [])
       /\ (forall fd, produced k fd = produced (kern s) fd)) call_failed s.
Proof.
  intros Hx Hw. assert (Hcap : 0 <= remaining_capacity b) by apply u64_range.
  pose proof (fd_read_spec h _ s x Hx Hcap) as Hr. unfold wp.
  destruct (FileDescriptor.read _ _ _) as [[data s']|f]; [|by left].
  destruct Hr as (Hl & k & -> & _ & Hc & Hp). split; [apply write_accepted; [done|lia]|]. by do 2 eexists.
Qed.

(** What a write rule does: a prefix of [b] goes to [h]. *)
Lemma wp_write_from_stream h x b (s : sys K) :
  wrappers s !! h = Some x -> ByteStream.wf b ->
  wp (write_string h (ztake (Z.min max_copy_length (buffer_size b)) (contents b)) false) (fun m s' =>
    (exists b', pop_output b m = Ok b' /\ ByteStream.wf b' /\ contents b' = zdrop m (contents b))
    /\ exists k, s' = set_wrapper h (wrote 1 x) (set_kern k s)
       /\ (forall fd, produced k fd = produced (kern s) fd ++ if _fd x =? fd then ztake m (contents b) else [])
       /\ (forall fd, consumed k fd = consumed (kern s) fd)) call_failed s.
Proof.
  intros Hx Hw. pose proof (ByteStream.wf_used _ Hw) as Hu. pose proof (ByteStream.wf_cap _ Hw) as Hcap.
  unfold buffer_size, max_copy_length. set (n := Z.min _ _). assert (0 <= n < M63) by (unfold n; lia).
  eapply wp_mono; [by apply (wp_write_prefix h (contents b) n s x)| |done].
  intros m s' (Hm & k & -> & _ & Hp & Hc). split; [|by exists k].
  destruct (pop_output_spec b m Hw) as (b' & E & Hw' & Hf); [lia|]. exists b'. split_and!; [done|done|].
  pose proof (f_equal f_data Hf) as Hd. exact Hd.
Qed.

(** The rules that read, and the rules that write, in general: [get] and [set]
    are the stream's. *)
Definition read_callback (h : FileDescriptor) (get : copier -> ByteStream) (set : ByteStream -> copier -> copier)
    : M (world K copier) unit :=
  c ← variables;
  data ← on_sys (FileDescriptor.read h (remaining_capacity (get c)));
  '(_, b) ← on_sys (lift (ByteStream.write (get c) data));
  _ ← modify (set b);
  at_eof ← on_sys (eof h);
  if at_eof : bool then modify (fun c => set (end_input (get c)) c) else mret tt.

Definition write_callback (h : FileDescriptor) (get : copier -> ByteStream) (set : ByteStream -> copier -> copier)
    (at_end : M (world K copier) unit) : M (world K copier) unit :=
  c ← variables;
  let bytes_to_write := Z.min max_copy_length (buffer_size (get c)) in
  data ← on_sys (lift (peek_output (get c) bytes_to_write));
  bytes_written ← on_sys (write_string h data false);
  b ← on_sys (lift (pop_output (get c) bytes_written));
  _ ← modify (set b);
  if ByteStream.eof b then at_end else mret tt.

Lemma wp_read_callback (J : world K copier -> Prop) h x get set s c :
  wrappers s !! h = Some x -> ByteStream.wf (get c) ->
  (forall b c, get (set b c) = b) -> (forall b b' c, set b (set b' c) = set b c) ->
  (forall e k data b, ByteStream.wf b -> contents b = contents (get c) ++ data ->
     (forall fd, consumed k fd = consumed (kern s) fd ++ if _fd x =? fd then data else []) ->
     (forall fd, produced k fd = produced (kern s) fd) ->
     J (set_wrapper h (did_read e x) (set_kern k s), set b c)) ->
  wp (read_callback h get set) (fun _ w' => J w' /\ use_count w'.1 = use_count s
    /\ exists x', wrappers w'.1 !! h = Some x' /\ _read_count x <> _read_count x') call_failed (s, c).
Proof.
  intros Hx Hw Hgs Hss HJ. apply wp_bind, wp_variables, wp_bind, wp_on_sys. cbn [fst snd].
  eapply wp_mono; [by apply (wp_read_into_stream h x)| |done].
  intros data s' ((b' & E & Hw' & Hb) & e & k & -> & Hc & Hp). apply wp_bind, wp_on_sys. cbn [fst snd].
  eapply wp_Ok; [unfold lift; by rewrite E|]. apply wp_bind, wp_modify. cbn [fst snd].
  apply wp_bind, (wp_field _eof _ (did_read e x)); [apply lookup_insert_eq|].
  assert (Hcount : exists x', wrappers (set_wrapper h (did_read e x) (set_kern k s)) !! h = Some x' /\ _read_count x <> _read_count x').
  { eexists. split; [apply lookup_insert_eq|apply not_eq_sym, did_read_count]. }
  destruct (_eof _).
  - apply wp_modify. cbn [fst snd]. rewrite Hgs, Hss. split_and!; [|done|done].
    eapply HJ; [by apply ByteStream.wf_end_input|exact Hb|done|done].
  - apply wp_ret. split_and!; [by eapply HJ|done|done].
Qed.

Lemma wp_write_callback (J : world K copier -> Prop) h x get set at_end s c :
  wrappers s !! h = Some x -> ByteStream.wf (get c) ->
  (forall k m b, ByteStream.wf b -> contents b = zdrop m (contents (get c)) ->
     (forall fd, produced k fd = produced (kern s) fd ++ if _fd x =? fd then ztake m (contents (get c)) else []) ->
     (forall fd, consumed k fd = consumed (kern s) fd) ->
     let w := (set_wrapper h (wrote 1 x) (set_kern k s), set b c) in
     J w /\ wp at_end (fun _ w' => J w' /\ use_count w'.1 = use_count s
       /\ exists x', wrappers w'.1 !! h = Some x' /\ _write_count x <> _write_count x') call_failed w) ->
  wp (write_callback h get set at_end) (fun _ w' => J w' /\ use_count w'.1 = use_count s
    /\ exists x', wrappers w'.1 !! h = Some x' /\ _write_count x <> _write_count x') call_failed (s, c).
Proof.
  intros Hx Hw HJ. apply wp_bind, wp_variables, wp_bind, wp_on_sys. cbn [fst snd].
  pose proof (ByteStream.wf_used _ Hw) as Hu.
  eapply wp_Ok; [unfold lift; rewrite peek_output_spec; [done|done|unfold max_copy_length, buffer_size; lia]|].
  apply wp_bind, wp_on_sys. cbn [fst snd]. eapply wp_mono; [by apply (wp_write_from_stream h x)| |done].
  intros m s' ((b' & E & Hw' & Hb) & k & -> & Hp & Hc). apply wp_bind, wp_on_sys. cbn [fst snd].
  eapply wp_Ok; [unfold lift; by rewrite E|]. apply wp_bind, wp_modify. cbn [fst snd].
  destruct (HJ k m b' Hw' Hb Hp Hc) as [Hj Hend]. destruct (ByteStream.eof b'); [exact Hend|].
  apply wp_ret. split_and!; [done|done|]. eexists. split; [apply lookup_insert_eq|apply not_eq_sym, wrote_count; lia].
Qed.

(** A step that only calls the kernel and moves no bytes. *)
Definition quiet (s s' : sys K) : Prop :=
  exists k, s' = set_kern k s /\ forall fd, consumed k fd = consumed (kern s) fd /\ produced k fd = produced (kern s) fd.

Lemma wp_set_blocking h x b (s : sys K) :
  wrappers s !! h = Some x -> wp (set_blocking h b) (fun _ s' => quiet s s') call_failed s.
Proof.
  intros Hx. apply wp_bind. eapply wp_Ok; [by apply fd_num_Some|]. apply wp_bind. unfold wp at 1.
  rewrite checked_spec by done. cbn zeta. destruct (0 <=? _); [|by left]. set (flags := if b then _ else _).
  apply wp_bind. unfold wp at 1. rewrite checked_spec by done. cbn zeta. destruct (0 <=? _); [|by left].
  apply wp_ret. eexists. split; [done|]. intros fd. cbn. by rewrite !consumed_by, !produced_by, !app_nil_r.
Qed.

End rules.

(** ** The invariant *)

Section contract.
Context {K : Type} `{KernelLaws K}.
(** The handles, the socket's descriptor, the kernel at the start. *)
Context (socket _input _output : FileDescriptor) (sfd : Z) (k0 : K).
Context (Hsfd : 1 < sfd).

(** Since the start, what was taken from [from] went to [to], in order, except
    for what waits in [b]. *)
Definition carried (k : K) (from to : Z) (b : ByteStream) : Prop :=
  exists moved, consumed k from = consumed k0 from ++ moved ++ contents b /\ produced k to = produced k0 to ++ moved.

(** No other descriptor is read or written. *)
Definition untouched (k : K) : Prop := forall fd, fd ∉ [STDIN_FILENO; STDOUT_FILENO; sfd] ->
  consumed k fd = consumed k0 fd /\ produced k fd = produced k0 fd.

Record copy_inv (w : world K copier) : Prop := {
  cp_input : exists x, wrappers w.1 !! _input = Some x /\ _fd x = STDIN_FILENO;
  cp_socket : exists x, wrappers w.1 !! socket = Some x /\ _fd x = sfd;
  cp_output : exists x, wrappers w.1 !! _output = Some x /\ _fd x = STDOUT_FILENO;
  cp_outbound : ByteStream.wf (_outbound w.2);
  cp_inbound : ByteStream.wf (_inbound w.2);
  cp_up : carried (kern w.1) STDIN_FILENO sfd (_outbound w.2);
  cp_down : carried (kern w.1) sfd STDOUT_FILENO (_inbound w.2);
  cp_untouched : untouched (kern w.1)
}.

Lemma carried_step k k' from to b b' data m :
  carried k from to b -> consumed k' from = consumed k from ++ data ->
  produced k' to = produced k to ++ ztake m (contents b) -> contents b' = zdrop m (contents b) ++ data ->
  carried k' from to b'.
Proof using.
  intros (moved & Hc & Hp) Hc' Hp' Hb. exists (moved ++ ztake m (contents b)). rewrite Hc', Hp', Hc, Hp, Hb.
  rewrite <-!app_assoc. do 2 f_equal. split; [|done]. f_equal.
  rewrite (app_assoc (ztake m _)), ztake_zdrop. done.
Qed.

Lemma carried_same k k' from to b b' :
  carried k from to b -> consumed k' from = consumed k from -> produced k' to = produced k to ->
  contents b' = contents b -> carried k' from to b'.
Proof using. intros (moved & ? & ?) Hc Hp Hb. exists moved. by rewrite Hc, Hp, Hb. Qed.

Lemma copy_loop_invariant : loop_invariant copy_inv.
Proof using.
  split.
  - intros s c u []. by split.
  - intros s c fds t [? ? ? ? ? ? ? Hu]. split; try done; cbn.
    1, 2: eapply carried_same; [done| | |done]; cbn; by rewrite ?consumed_by, ?produced_by, app_nil_r.
    intros fd Hfd. rewrite consumed_by, produced_by, !app_nil_r. by apply Hu.
Qed.

(** A step on one of the descriptors. *)
Lemma inv_descriptor s c h x x' k c' :
  copy_inv (s, c) -> wrappers s !! h = Some x -> _fd x' = _fd x ->
  ByteStream.wf (_outbound c') -> ByteStream.wf (_inbound c') ->
  carried k STDIN_FILENO sfd (_outbound c') -> carried k sfd STDOUT_FILENO (_inbound c') ->
  _fd x ∈ [STDIN_FILENO; STDOUT_FILENO; sfd] ->
  (forall fd, (_fd x =? fd) = false -> consumed k fd = consumed (kern s) fd /\ produced k fd = produced (kern s) fd) ->
  copy_inv (set_wrapper h x' (set_kern k s), c').
Proof using.
  intros [Hi Hs Ho _ _ _ _ Hu] Hx Hf. cbn in *.
  assert (Hk : forall h' fd, (exists y, wrappers s !! h' = Some y /\ _fd y = fd) ->
    exists y, <[h := x']> (wrappers s) !! h' = Some y /\ _fd y = fd).
  { intros h' fd (y & Hy & <-). destruct (decide (h' = h)) as [->|].
    - exists x'. rewrite lookup_insert_eq. split; [done|]. rewrite Hf. congruence.
    - exists y. by rewrite lookup_insert_ne. }
  intros ? ? ? ? Hin Hother. split; cbn; auto.
  intros fd Hfd. destruct (Hother fd) as [-> ->]; [apply Z.eqb_neq; congruence|by apply Hu].
Qed.

Lemma not_stdin : (sfd =? STDIN_FILENO) = false /\ (STDIN_FILENO =? sfd) = false.
Proof using Hsfd. unfold STDIN_FILENO. rewrite !Z.eqb_neq. lia. Qed.
Lemma not_stdout : (sfd =? STDOUT_FILENO) = false /\ (STDOUT_FILENO =? sfd) = false.
Proof using Hsfd. unfold STDOUT_FILENO. rewrite !Z.eqb_neq. lia. Qed.

Lemma copy_rule1_good : good_rule copy_inv call_failed (fun _ _ => True)
  (mkRule _input In (rule1_callback _input) rule1_interest end_outbound).
Proof using Hsfd.
  split; [done|..]; cbn [fd direction callback interest cancel count_of].
  - intros w Hi. destruct (cp_input _ Hi) as (y & Hy & _). by eexists.
  - intros [s c] Hi. by eexists.
  - intros [s c] x Hi _ Hx. cbn in Hx. destruct (cp_input _ Hi) as (y & Hy & Hf). cbn in Hy. assert (y = x) as -> by congruence.
    eapply wp_mono; [apply (wp_read_callback copy_inv _input x _outbound set_outbound); [done|by apply Hi|done|done|]| |done].
    + intros e k data b Hw Hb Hc Hp. apply (inv_descriptor s c _input x); [done|done|done|done|by apply Hi| | |rewrite Hf, !elem_of_cons; tauto|intros fd E; by rewrite Hc, Hp, E, app_nil_r].
      * eapply (carried_step _ _ _ _ _ _ data 0); [apply Hi| |cbn; by rewrite Hp, app_nil_r|done]. cbn. by rewrite Hc, Hf.
      * eapply carried_same; [apply Hi| |done|done]. cbn. by rewrite Hc, Hf, (proj2 not_stdin), app_nil_r.
    + intros _ w' (? & ? & ?). split_and!; [done|done|by left].
  - intros [s c] Hi. apply wp_modify. split; [|done]. destruct Hi. by split; try apply ByteStream.wf_end_input.
Qed.

Lemma copy_rule3_good : good_rule copy_inv call_failed (fun _ _ => True)
  (mkRule socket In (rule3_callback socket) rule3_interest end_inbound).
Proof using Hsfd.
  split; [done|..]; cbn [fd direction callback interest cancel count_of].
  - intros w Hi. destruct (cp_socket _ Hi) as (y & Hy & _). by eexists.
  - intros [s c] Hi. by eexists.
  - intros [s c] x Hi _ Hx. cbn in Hx. destruct (cp_socket _ Hi) as (y & Hy & Hf). cbn in Hy. assert (y = x) as -> by congruence.
    eapply wp_mono; [apply (wp_read_callback copy_inv socket x _inbound set_inbound); [done|by apply Hi|done|done|]| |done].
    + intros e k data b Hw Hb Hc Hp. apply (inv_descriptor s c socket x); [done|done|done|by apply Hi|done| | |rewrite Hf, !elem_of_cons; tauto|intros fd E; by rewrite Hc, Hp, E, app_nil_r].
      * eapply carried_same; [apply Hi| |done|done]. cbn. by rewrite Hc, Hf, (proj1 not_stdin), app_nil_r.
      * eapply (carried_step _ _ _ _ _ _ data 0); [apply Hi| |cbn; by rewrite Hp, app_nil_r|done].
        cbn. by rewrite Hc, Hf, Z.eqb_refl.
    + intros _ w' (? & ? & ?). split_and!; [done|done|by left].
  - intros [s c] Hi. apply wp_modify. split; [|done]. destruct Hi. by split; try apply ByteStream.wf_end_input.
Qed.

(** Both rules that write end with a call on their descriptor. *)
Lemma inv_after_call s c h x x' R (a : syscall R) f :
  copy_inv (s, c) -> wrappers s !! h = Some x -> _fd x' = _fd x -> _fd x ∈ [STDIN_FILENO; STDOUT_FILENO; sfd] ->
  (forall fd r, bytes_in a fd r = [] /\ bytes_out a fd r = []) ->
  _outbound (f c) = _outbound c -> _inbound (f c) = _inbound c ->
  copy_inv (set_wrapper h x' (set_kern (answer a (kern s)).2 s), f c).
Proof using.
  intros Hi Hx Hf Hin Ha Ho Hn.
  apply (inv_descriptor s c h x); [done|done|done|rewrite Ho; by apply Hi|rewrite Hn; by apply Hi|..|done|]; rewrite ?Ho, ?Hn.
  1, 2: eapply carried_same; [apply Hi| | |done]; cbn; rewrite ?consumed_by, ?produced_by;
      rewrite ?(proj1 (Ha _ _)), ?(proj2 (Ha _ _)); apply app_nil_r.
  intros fd _. by rewrite consumed_by, produced_by, (proj1 (Ha _ _)), (proj2 (Ha _ _)), !app_nil_r.
Qed.

Lemma copy_rule2_good : good_rule copy_inv call_failed (fun _ _ => True)
  (mkRule socket Out (rule2_callback socket) rule2_interest end_outbound).
Proof using Hsfd.
  split; [done|..]; cbn [fd direction callback interest cancel count_of].
  - intros w Hi. destruct (cp_socket _ Hi) as (y & Hy & _). by eexists.
  - intros [s c] Hi. by eexists.
  - intros [s c] x Hi _ Hx. cbn in Hx. destruct (cp_socket _ Hi) as (y & Hy & Hf). cbn in Hy. assert (y = x) as -> by congruence.
    eapply wp_mono; [apply (wp_write_callback copy_inv socket x _outbound set_outbound
      (_ ← on_sys (shutdown socket SHUT_WR); modify outbound_is_shutdown)); [done|by apply Hi|]| |done].
    + intros k m b Hw Hb Hp Hc w. assert (Hi' : copy_inv w).
      { apply (inv_descriptor s c socket x); [done|done|done|done|by apply Hi| | |rewrite Hf, !elem_of_cons; tauto|intros fd E; by rewrite Hc, Hp, E, app_nil_r].
        - eapply (carried_step _ _ _ _ _ _ [] m); [apply Hi|cbn; by rewrite Hc, app_nil_r| |cbn; by rewrite app_nil_r].
          cbn. by rewrite Hp, Hf, Z.eqb_refl.
        - eapply carried_same; [apply Hi|done| |done]. cbn. by rewrite Hp, Hf, (proj1 not_stdout), app_nil_r. }
      split; [done|]. apply wp_bind, wp_on_sys. cbn [fst snd w]. unfold wp at 1.
      rewrite (shutdown_spec socket SHUT_WR _ (wrote 1 x)) by (apply lookup_insert_eq || (right; left)).
      cbn zeta. destruct (0 <=? _); [|by left]. apply wp_modify. split_and!; [|done|].
      * apply (inv_after_call _ _ socket (wrote 1 x) _ _ (Shutdown _ SHUT_WR)); try done; [apply lookup_insert_eq|].
        cbn [_fd wrote]. rewrite Hf, !elem_of_cons. tauto.
      * eexists. split; [apply lookup_insert_eq|]. apply not_eq_sym. cbn [SHUT_WR]. rewrite wrote_wrote. by apply wrote_count.
    + intros _ w' (? & ? & ?). split_and!; [done|done|by left].
  - intros [s c] Hi. apply wp_modify. split; [|done]. destruct Hi. by split; try apply ByteStream.wf_end_input.
Qed.

Lemma copy_rule4_good : good_rule copy_inv call_failed (fun _ _ => True)
  (mkRule _output Out (rule4_callback _output) rule4_interest end_inbound).
Proof using Hsfd.
  split; [done|..]; cbn [fd direction callback interest cancel count_of].
  - intros w Hi. destruct (cp_output _ Hi) as (y & Hy & _). by eexists.
  - intros [s c] Hi. by eexists.
  - intros [s c] x Hi _ Hx. cbn in Hx. destruct (cp_output _ Hi) as (y & Hy & Hf). cbn in Hy. assert (y = x) as -> by congruence.
    eapply wp_mono; [apply (wp_write_callback copy_inv _output x _inbound set_inbound
      (_ ← on_sys (close _output); modify inbound_is_shutdown)); [done|by apply Hi|]| |done].
    + intros k m b Hw Hb Hp Hc w. assert (Hi' : copy_inv w).
      { apply (inv_descriptor s c _output x); [done|done|done|by apply Hi|done| | |rewrite Hf, !elem_of_cons; tauto|intros fd E; by rewrite Hc, Hp, E, app_nil_r].
        - eapply carried_same; [apply Hi|done| |done]. cbn. by rewrite Hp, Hf, (proj2 not_stdout), app_nil_r.
        - eapply (carried_step _ _ _ _ _ _ [] m); [apply Hi|cbn; by rewrite Hc, app_nil_r| |cbn; by rewrite app_nil_r].
          cbn. by rewrite Hp, Hf. }
      split; [done|]. apply wp_bind, wp_on_sys. cbn [fst snd w]. unfold close. apply wp_bind.
      eapply wp_Ok; [apply deref_Some, lookup_insert_eq|]. apply wp_bind. unfold wp at 1. rewrite checked_spec by done. cbn zeta.
      destruct (0 <=? _); [|by left]. eapply wp_Ok; [apply update_Some, lookup_insert_eq|]. apply wp_modify. split_and!; [|done|].
      * apply (inv_after_call _ _ _output (wrote 1 x) _ _ (Close _)); try done; [apply lookup_insert_eq|].
        cbn [_fd wrote]. rewrite Hf, !elem_of_cons. tauto.
      * eexists. split; [apply lookup_insert_eq|]. apply not_eq_sym, (wrote_count 1). lia.
    + intros _ w' (? & ? & ?). split_and!; [done|done|by left].
  - intros [s c] Hi. apply wp_modify. split; [|done]. destruct Hi. by split; try apply ByteStream.wf_end_input.
Qed.

Lemma copy_rules_ok w : copy_inv w ->
  holds ([socket; _input; _output] ++ map fd (copy_rules socket _input _output)) w.1 ->
  loop_ok copy_inv call_failed (fun _ _ => True) [socket; _input; _output] (copy_rules socket _input _output) w.
Proof using Hsfd.
  assert (Hc : forall r r', compatible copy_inv (fun _ _ => True) r r').
  { intros r r'. split; intros; unfold wp; by repeat case_match. }
  intros Hi Hh. split; [done| | | |done].
  - constructor; [apply copy_rule1_good|]. constructor; [apply copy_rule2_good|]. constructor; [apply copy_rule3_good|].
    constructor; [apply copy_rule4_good|constructor].
  - repeat (constructor; [by repeat (constructor; [by apply Hc|])|]). constructor.
  - repeat (constructor; [cbn; rewrite !elem_of_cons; by auto|]). constructor.
Qed.

Lemma wp_copy_loop fuel : forall rules w,
  loop_ok copy_inv call_failed (fun _ _ => True) [socket; _input; _output] rules w ->
  wp (copy_loop fuel rules) (fun '(_, rules') w' =>
    loop_ok copy_inv call_failed (fun _ _ => True) [socket; _input; _output] rules' w')
    (fun f => call_failed f \/ f = PollError) w.
Proof using Hsfd.
  induction fuel as [|fuel IH]; intros rules w Hok; cbn [copy_loop]; [by apply wp_ret|].
  apply wp_bind. eapply wp_mono; [by apply (wp_wait copy_inv call_failed (fun _ _ => True) copy_loop_invariant)| |done].
  intros [r rules'] w' [Hok' _]. case_bool_decide; [by apply wp_ret|by apply IH].
Qed.

(** What there is to say when the function returns, or is in its loop. *)
Definition copied (w : world K copier) : Prop :=
  carried (kern w.1) STDIN_FILENO sfd (_outbound w.2) /\ carried (kern w.1) sfd STDOUT_FILENO (_inbound w.2)
  /\ untouched (kern w.1) /\ (exists x, wrappers w.1 !! socket = Some x /\ _fd x = sfd) /\ holds [socket] w.1.

Lemma loop_copied rules w :
  loop_ok copy_inv call_failed (fun _ _ => True) [socket; _input; _output] rules w ->
  copied w /\ exists s', (_ ← release_all [_output; _input]; release_all (map fd rules)) w.1 = Ok (tt, s') /\ copied (s', w.2).
Proof using.
  intros [Hi _ _ Ho Hh]. destruct w as [s c]. destruct (Hi) as [[xi [Hxi _]] [xs [Hxs Hsf]] [xo [Hxo _]] _ _ Hup Hdn Hun]. cbn [fst snd] in *.
  assert (Hw : forall h, h ∈ [_output; _input] ++ map fd rules ++ [socket] -> is_Some (wrappers s !! h)).
  { intros h Hin. assert (h ∈ [socket; _input; _output]) as Hin'.
    { rewrite !elem_of_app, list_elem_of_fmap in Hin. destruct Hin as [Hin|[(r & -> & Hin)|Hin]].
      - clear -Hin. set_solver.
      - rewrite Forall_forall in Ho. by apply Ho.
      - clear -Hin. set_solver. }
    rewrite !elem_of_cons in Hin'. destruct Hin' as [->|[->|[->|Hin']]]; [by eexists|by eexists|by eexists|].
    by apply not_elem_of_nil in Hin'. }
  split; [split_and!; [done|done|done|by exists xs|]|].
  { intros h Hin. apply list_elem_of_singleton in Hin as ->. destruct (Hh socket) as (n & Hn & Hc); [by left|].
    exists n. split; [done|]. cbn in *. destruct (Z.eq_dec socket socket); [|done]. lia. }
  assert (Hp : Permutation ([socket; _input; _output] ++ map fd rules) ([_output; _input] ++ map fd rules ++ [socket])).
  { rewrite (Permutation_app_comm (map fd rules) [socket]), !app_assoc. apply Permutation_app_tail. cbn. solve_Permutation. }
  destruct (release_all_ok [_output; _input] (map fd rules ++ [socket]) s (holds_perm _ _ _ Hp Hh) Hw) as (s1 & E1 & Hh1 & _ & Hw1 & Hk1).
  destruct (release_all_ok (map fd rules) [socket] s1 Hh1) as (s2 & E2 & Hh2 & _ & Hw2 & Hk2).
  { intros h Hin. rewrite Hw1 by done. apply Hw, elem_of_app. by right. }
  exists s2. split; [by rewrite (M_bind_Ok _ _ _ _ _ E1)|].
  assert (Hk : forall fd, consumed (kern s2) fd = consumed (kern s) fd /\ produced (kern s2) fd = produced (kern s) fd).
  { intros fd. destruct (Hk2 fd) as [-> ->]. apply Hk1. }
  split_and!; cbn [fst snd].
  - eapply carried_same; [exact Hup|apply Hk|apply Hk|done].
  - eapply carried_same; [exact Hdn|apply Hk|apply Hk|done].
  - intros fd Hfd. destruct (Hk fd) as [-> ->]. by apply Hun.
  - exists xs. rewrite Hw2 by (by left). rewrite Hw1 by (apply elem_of_app; right; by left). done.
  - done.
Qed.

End contract.

(** ** Property *)

Section properties.
Context {K : Type} `{KernelLaws K}.

(** The memory after [_input] and [_output] were made. *)
Definition with_terminal (s : sys K) : sys K :=
  mkSys (kern s)
    (<[next_ptr s + 1 := mkFDWrapper STDOUT_FILENO false false 0 0]>
       (<[next_ptr s := mkFDWrapper STDIN_FILENO false false 0 0]> (wrappers s)))
    (<[next_ptr s + 1 := 1]> (<[next_ptr s := 1]> (use_count s))) (next_ptr s + 1 + 1).

Lemma terminal_handles (s : sys K) socket x :
  wrappers s !! socket = Some x -> socket < next_ptr s -> holds [socket] s ->
  wrappers (with_terminal s) !! socket = Some x
  /\ wrappers (with_terminal s) !! next_ptr s = Some (mkFDWrapper STDIN_FILENO false false 0 0)
  /\ wrappers (with_terminal s) !! (next_ptr s + 1) = Some (mkFDWrapper STDOUT_FILENO false false 0 0)
  /\ holds ([socket; next_ptr s; next_ptr s + 1] ++ []) (with_terminal s).
Proof.
  intros Hx Hlt Hh. cbn. set (ih := next_ptr s) in *. set (oh := ih + 1).
  assert (ih <> oh) by (unfold oh; lia).
  rewrite lookup_insert_eq, !(lookup_insert_ne _ oh), lookup_insert_eq, (lookup_insert_ne _ ih) by lia. split_and!; try done.
  intros h Hin. destruct (Hh socket) as (n & Hn & Hc); [by left|]. cbn in Hc. destruct (Z.eq_dec socket socket); [|done].
  rewrite ?app_nil_r in Hin |- *. rewrite !elem_of_cons in Hin. cbn [count_occ use_count with_terminal]. fold ih oh.
  destruct Hin as [->|[->|[->|Hin]]]; [exists n|exists 1|exists 1|by apply not_elem_of_nil in Hin];
    rewrite ?lookup_insert_eq, ?(lookup_insert_ne _ oh), ?lookup_insert_eq, ?(lookup_insert_ne _ ih) by lia;
    (split; [done|]); repeat destruct (Z.eq_dec _ _); lia.
Qed.

Lemma wp_copy (s : sys K) socket sfd x c fuel :
  wrappers s !! socket = Some x -> _fd x = sfd -> 1 < sfd -> socket < next_ptr s -> holds [socket] s ->
  wp (bidirectional_stream_copy fuel socket)
    (fun _ w' => copied socket sfd (kern s) w') (fun f => call_failed f \/ f = PollError) (s, c).
Proof.
  intros Hx Hf Hfd Hlt Hh. destruct (terminal_handles s socket x Hx Hlt Hh) as (H1 & H2 & H3 & Hh1).
  apply wp_bind, wp_on_sys. eapply wp_Ok; [done|]. apply wp_bind, wp_on_sys. eapply wp_Ok; [done|].
  apply wp_bind, wp_modify. cbn [fst snd kern wrappers use_count next_ptr]. fold (with_terminal s).
  set (ih := next_ptr s) in *. set (oh := ih + 1) in *. set (s1 := with_terminal s) in *.
  apply wp_bind, wp_on_sys. cbn [fst snd]. eapply wp_mono; [by apply (wp_set_blocking socket x)| |by left].
  intros _ ? (k1 & -> & Hk1). apply wp_bind, wp_on_sys. cbn [fst snd].
  eapply wp_mono; [by eapply (wp_set_blocking ih)| |by left].
  intros _ ? (k2 & -> & Hk2). apply wp_bind, wp_on_sys. cbn [fst snd].
  eapply wp_mono; [by eapply (wp_set_blocking oh)| |by left]. intros _ ? (k3 & -> & Hk3). cbn [kern set_kern] in *.
  assert (Hk : forall fd, consumed k3 fd = consumed (kern s) fd /\ produced k3 fd = produced (kern s) fd).
  { intros fd. destruct (Hk1 fd) as [A1 B1], (Hk2 fd) as [A2 B2], (Hk3 fd) as [A3 B3]. by rewrite A3, A2, A1, B3, B2, B1. }
  assert (Hn : ByteStream.wf (ByteStream.new copy_buffer_size)) by (by apply bs_wf_new).
  assert (Hc : contents (ByteStream.new copy_buffer_size) = []) by (apply zlen_0_inv; by rewrite length_contents).
  assert (Hinv : copy_inv socket ih oh sfd (kern s)
    (set_kern k3 s1, mkCopier (ByteStream.new copy_buffer_size) (ByteStream.new copy_buffer_size) false false)).
  { split; [by eexists|by eexists|by eexists|done|done|..]; cbn.
    1, 2: exists []; rewrite (proj1 (Hk _)), (proj2 (Hk _)), Hc; by rewrite !app_nil_r.
    intros fd _. apply Hk. }
  apply wp_bind.
  eapply wp_mono; [apply (wp_add_rules _ call_failed (copy_loop_invariant _ _ _ _ _) [socket; ih; oh] (copy_rules socket ih oh) [] _ Hinv Hh1)| |by left].
  - repeat (constructor; [cbn; rewrite !elem_of_cons; by auto|]). constructor.
  - intros rules w' (-> & Hi' & Hh' & _). apply wp_bind.
    eapply wp_mono; [eapply wp_copy_loop; [done|]; by apply copy_rules_ok| |done].
    intros [over rules] w2 Hok. destruct (loop_copied _ _ _ _ _ _ _ Hok) as (Hcp & s2 & E & Hcp2). apply wp_bind.
    destruct over; [|by apply wp_ret, wp_ret]. unfold wp, mbind, M_bind, destroy_rules, on_sys in *.
    destruct (release_all [oh; ih] w2.1) as [[u s3]|]; [|done]. cbn. by rewrite E.
Qed.

(** [bidirectional_stream_copy] copies faithfully in both directions,
    whatever the kernel takes and gives at each call, for any number of rounds:
    the bytes written to the socket are, in order, the bytes read from standard
    input, except for those that wait in [_outbound], and the bytes written to
    standard output are those read from the socket, except for those that wait
    in [_inbound]; no other descriptor is read or written.  It stops early only when a system call fails, [writev] takes
    nothing, or [poll] reports an error: never in a "busy wait". *)
Theorem stream_copy_faithful (s : sys K) (socket : FileDescriptor) (x : FDWrapper) (c : copier) (fuel : nat)
    (Hsocket : wrappers s !! socket = Some x)
    (Hfd : 1 < _fd x)
    (Hptr : socket < next_ptr s)
    (Howned : holds [socket] s) :
  match bidirectional_stream_copy fuel socket (s, c) with
  | Ok (_, (s', c')) => carried (kern s) (kern s') STDIN_FILENO (_fd x) (_outbound c')
      /\ carried (kern s) (kern s') (_fd x) STDOUT_FILENO (_inbound c')
      /\ untouched (_fd x) (kern s) (kern s')
  | Fail f => call_failed f \/ f = PollError
  end.
Proof.
  pose proof (wp_copy s socket (_fd x) x c fuel Hsocket eq_refl Hfd Hptr Howned) as Hs. unfold wp in Hs.
  destruct (bidirectional_stream_copy _ _ _) as [[r [s' c']]|f]; [|done]. by destruct Hs as (? & ? & ? & _).
Qed.

End properties.

(** ** Witness *)

(** The socket is handle 7, descriptor 5; "hi" waits at standard input and
    "yo!" at the socket. *)
Definition sample_wrapper : FDWrapper := mkFDWrapper 5 false false 0 0.
Definition sample_terminal : sys machine :=
  mkSys (mkMachine {[ 0 := [x68; x69]; 5 := [x79; x6f; x21] ]} ∅ ∅ [] 2 0)
    {[ 7 := mkFDWrapper 5 false false 0 0 ]} {[ 7 := 1 ]} 8.
Definition sample_copier : copier := mkCopier (ByteStream.new 4) (ByteStream.new 4) false false.

(** The loop with small streams: three rounds copy everything. *)
Example sample_copied :
  match copy_loop 3 (copy_rules 7 8 9) (with_terminal sample_terminal, sample_copier) with
  | Ok (_, (s', _)) => produced (kern s') 5 = [x68; x69] /\ produced (kern s') 1 = [x79; x6f; x21]
  | Fail _ => False
  end.
Proof. vm_compute. by split. Qed.

Lemma stream_copy_faithful_witness :
  wrappers sample_terminal !! 7 = Some sample_wrapper /\ 7 < next_ptr sample_terminal
  /\ holds [7] sample_terminal
  /\ match bidirectional_stream_copy 3 7 (sample_terminal, sample_copier) with
     | Ok (_, (s', c')) => carried (kern sample_terminal) (kern s') STDIN_FILENO (_fd sample_wrapper) (_outbound c')
         /\ carried (kern sample_terminal) (kern s') (_fd sample_wrapper) STDOUT_FILENO (_inbound c')
         /\ untouched (_fd sample_wrapper) (kern sample_terminal) (kern s')
     | Fail f => call_failed f \/ f = PollError
     end.
Proof.
  assert (Hh : holds [7] sample_terminal).
  { intros h Hin. apply list_elem_of_In in Hin. destruct Hin as [<-|[]]. exists 1. by split. }
  assert (H1 : 1 < _fd sample_wrapper) by done. assert (H2 : 7 < next_ptr sample_terminal) by done.
  split; [done|]. split; [done|]. split; [exact Hh|].
  pose proof (stream_copy_faithful sample_terminal 7 sample_wrapper sample_copier 3 eq_refl H1 H2 Hh) as Hc.
  destruct (bidirectional_stream_copy 3 7 (sample_terminal, sample_copier)) as [[r [s' c']]|f]; exact Hc.
Defined.
