(* ===== verification/Threads.v ===== *)
(** * Two threads and a kernel

    A program of src/apps that uses a TCPSpongeSocket runs in two threads: the
    owner's, which ends in [bidirectional_stream_copy], and the one of
    [_tcp_main], which [connect] and [listen_and_accept] start.  They share the
    kernel, and meet in the socket pair.

    What a thread does is the history of its system calls; a kernel as one
    thread sees it is the thread's history together with an oracle that answers
    the next call, whatever other threads and processes do ([view]).  A run of
    two threads is an interleaving of their histories; the socket pair is two
    queues of bytes in transit ([in_order]).  The theorem puts together what
    SocketThread.v and StreamCopy.v show of each thread alone. *)

From Stdlib Require Import ZArith Lia.
From S2P Require Import Prelude WrappingIntegers ByteStream Buffer TCPHeader TCPSegment TCPSender TCPReceiver TCPConnection ConnectionStatus Address TCPOverIP Kernel FileDescriptor EventLoop Socket DatagramAdapters TCPSpongeSocket SocketThread StreamCopy.

(** ** Histories *)

(** A system call with its answer. *)
Record event : Type := mkEvent {
  ev_result : Type;
  ev_call : syscall ev_result;
  ev_answer : ev_result
}.
Definition history : Type := list event.

Definition event_in (fd : Z) (e : event) : list byte := bytes_in (ev_call e) fd (ev_answer e).
Definition event_out (fd : Z) (e : event) : list byte := bytes_out (ev_call e) fd (ev_answer e).

(** The bytes read from, and written to, a descriptor. *)
Definition bytes_read (fd : Z) (h : history) : list byte := concat (map (event_in fd) h).
Definition bytes_written (fd : Z) (h : history) : list byte := concat (map (event_out fd) h).

Lemma bytes_read_app fd h h' : bytes_read fd (h ++ h') = bytes_read fd h ++ bytes_read fd h'.
Proof. unfold bytes_read. by rewrite map_app, concat_app. Qed.
Lemma bytes_written_app fd h h' : bytes_written fd (h ++ h') = bytes_written fd h ++ bytes_written fd h'.
Proof. unfold bytes_written. by rewrite map_app, concat_app. Qed.

(** ** The kernel as a thread sees it *)

Definition oracle : Type := forall R, history -> syscall R -> R.

Record lawful (o : oracle) : Prop := {
  lawful_ok : forall R (c : syscall R) h, answer_ok c (o R h c);
  lawful_int : forall R (c : syscall R) h, -1 <= rv (status c (o R h c)) < M31;
  lawful_errno : forall R (c : syscall R) h, rv (status c (o R h c)) < 0 -> 0 < err (status c (o R h c))
}.

Record view : Type := mkView {
  log : history;
  world_of : oracle;
  world_lawful : lawful world_of
}.

#[export] Instance view_kernel : Kernel view := fun R c v =>
  let r := world_of v R (log v) c in
  (r, mkView (log v ++ [mkEvent R c r]) (world_of v) (world_lawful v)).

#[export] Instance view_laws : KernelLaws view.
Proof.
  refine {| consumed v fd := bytes_read fd (log v); produced v fd := bytes_written fd (log v) |}; intros R c v.
  - apply (world_lawful v).
  - apply (world_lawful v).
  - apply (world_lawful v).
  - intros fd. cbn. unfold bytes_read. rewrite map_app, concat_app. cbn. by rewrite app_nil_r.
  - intros fd. cbn. unfold bytes_written. rewrite map_app, concat_app. cbn. by rewrite app_nil_r.
Defined.

(** A new thread inherits the history; the world answers it as it likes. *)
Definition forked (o : oracle) (Ho : lawful o) (v : view) : view := mkView (log v) o Ho.

(** ** Interleavings *)

Inductive interleaved {A : Type} : list A -> list A -> list A -> Prop :=
  | inter_nil : interleaved [] [] []
  | inter_l e a b g : interleaved a b g -> interleaved (e :: a) b (e :: g)
  | inter_r e a b g : interleaved a b g -> interleaved a (e :: b) (e :: g).

Lemma inter_sym {A} (a b g : list A) : interleaved a b g -> interleaved b a g.
Proof. induction 1; by constructor. Qed.

(** One after the other is an interleaving. *)
Lemma inter_app {A} (a b : list A) : interleaved a b (a ++ b).
Proof. induction a as [|e a IH]; cbn; [|by constructor]. induction b; by constructor. Qed.

(** What only one of the threads does is in the interleaving as that thread
    did it. *)
Lemma inter_concat {A B} (f : A -> list B) a b g :
  interleaved a b g -> concat (map f b) = [] -> concat (map f g) = concat (map f a).
Proof.
  induction 1 as [|e a b g _ IH|e a b g _ IH]; cbn; intros Hb; [done|by rewrite IH|].
  apply app_eq_nil in Hb as [-> ?]. by apply IH.
Qed.

(** ** The socket pair *)

(** The bytes written to [x] and not yet read from [y] are a queue: a read
    takes bytes from its front. *)
Fixpoint in_order (x y : Z) (queue : list byte) (g : history) : bool :=
  match g with
  | [] => true
  | e :: g =>
    let queue := queue ++ event_out x e in
    let data := event_in y e in
    bool_decide (data `prefix_of` queue) && in_order x y (drop (length data) queue) g
  end.

Definition socket_pair (x y : Z) (g : history) : Prop := in_order x y [] g = true /\ in_order y x [] g = true.

Lemma in_order_prefix x y g : forall queue,
  in_order x y queue g = true -> bytes_read y g `prefix_of` queue ++ bytes_written x g.
Proof.
  unfold bytes_read, bytes_written. induction g as [|e g IH]; intros queue; cbn; [intros _; apply prefix_nil|].
  intros E. apply andb_true_iff in E as [E1 E2]. apply bool_decide_eq_true in E1 as [l El]. specialize (IH _ E2).
  rewrite (app_assoc queue), El, <-app_assoc. apply prefix_app. rewrite El, drop_app_length in IH. exact IH.
Qed.

Lemma ztake_prefix (l S : list byte) m : l `prefix_of` ztake m S -> exists n, l = ztake n S.
Proof.
  intros [r Er]. exists (zlen l). assert (S = l ++ r ++ zdrop m S) as ->.
  { rewrite app_assoc, <-Er. symmetry. apply ztake_zdrop. }
  by rewrite ztake_app_exact.
Qed.

(** ** A socket and its owner *)

(** The owner's thread after [connect] or [listen_and_accept]: the end of
    [main] in apps/tcp_ipv4.cc, tcp_udp.cc and tcp_ip_ethernet.cc.  The join of
    [wait_until_closed] does nothing but wait. *)
Definition owner_thread {K} `{Kernel K} (fuel : nat) (socket : FileDescriptor) : M (world K copier) bool :=
  over ← bidirectional_stream_copy fuel socket;
  _ ← (if over : bool then on_sys (shutdown socket SHUT_RDWR) else mret tt);
  mret over.

Lemma wp_owner_thread {K} `{KernelLaws K} (s : sys K) socket sfd x c fuel :
  wrappers s !! socket = Some x -> _fd x = sfd -> 1 < sfd -> socket < next_ptr s -> holds [socket] s ->
  wp (owner_thread fuel socket) (fun _ w' => copied socket sfd (kern s) w') (fun f => call_failed f \/ f = PollError) (s, c).
Proof.
  intros Hx Hf Hfd Hlt Hh. apply wp_bind. eapply wp_mono; [by eapply wp_copy| |done].
  intros over [s' c'] Hc. apply wp_bind. destruct over; [|by apply wp_ret, wp_ret].
  destruct Hc as (Hup & Hdn & Hun & (y & Hy & Hyf) & Hhold). cbn [fst snd] in *.
  apply wp_on_sys. cbn [fst snd]. unfold wp at 1.
  rewrite (shutdown_spec socket SHUT_RDWR _ y) by (done || (right; right; left)). cbn zeta.
  destruct (0 <=? _); [|by left; left]. apply wp_ret. split_and!; cbn [fst snd kern wrappers set_wrapper set_kern].
  - eapply carried_same; [exact Hup|by rewrite consumed_by, app_nil_r|by rewrite produced_by, app_nil_r|done].
  - eapply carried_same; [exact Hdn|by rewrite consumed_by, app_nil_r|by rewrite produced_by, app_nil_r|done].
  - intros fd Hin. rewrite consumed_by, produced_by, !app_nil_r. by apply Hun.
  - eexists. by rewrite lookup_insert_eq.
  - done.
Qed.

(** The memory as the owner's thread sees it when the other one is started. *)
Definition owner_memory (o : oracle) (Ho : lawful o) (s : sys view) : sys view :=
  mkSys (forked o Ho (kern s)) (wrappers s) (use_count s) (next_ptr s).

(** [connect] or [listen_and_accept] of a new socket. *)
Definition open_socket {K T} `{Kernel K} `{Libc} `{!DatagramAdapter K T} (connecting : bool) (fuel : nat) (cfg : TCPConfig)
    (rnd : Z) (c_ad : FdAdapterBase Address) : M (W (K := K) (T := T)) (bool * list (Rule K (TCPSpongeSocket T))) :=
  if connecting then connect fuel cfg rnd c_ad [] else listen_and_accept fuel cfg rnd c_ad [].

(** The events of [after] since [before]. *)
Definition since (before after : sys view) (h : history) : Prop := log (kern after) = log (kern before) ++ h.

Section program.
Context {T : Type} `{Libc} `{!DatagramAdapter view T} `{!DatagramAdapterLaws view T}.

(** An opened socket: the thread can run, and the owner holds its end. *)
Lemma open_ok S pisn cfg td ah oh tfd afd ofd Kinv connecting fuel rnd c_ad (w w1 : W (K := view) (T := T)) opened rules :
  wi_ok pisn -> cfg_ok S cfg -> td <> ah -> oh <> td /\ oh <> ah -> tfd <> afd ->
  environment S pisn cfg td ah oh tfd afd ofd (kern w.1) Kinv (T := T) -> base_wf c_ad ->
  fresh td ah oh tfd afd ofd (kern w.1) Kinv w ->
  open_socket connecting fuel cfg rnd c_ad w = Ok ((opened, rules), w1) ->
  loop_ok (sock_inv S pisn cfg td ah oh tfd afd ofd (kern w.1) Kinv) is_exception (relies td) [td; ah; oh] rules w1
  /\ (exists x, wrappers w1.1 !! oh = Some x /\ _fd x = ofd) /\ oh < next_ptr w1.1 /\ holds [oh] w1.1.
Proof.
  intros Hp Hc Htd Hoh Hfd He Had Hf E.
  assert (Hok : loop_ok (sock_inv S pisn cfg td ah oh tfd afd ofd (kern w.1) Kinv) is_exception (relies td) [td; ah; oh] rules w1).
  { pose proof (wp_connect S pisn cfg td ah oh tfd afd ofd (kern w.1) Kinv Hp Hc Htd Hoh Hfd He fuel rnd c_ad w Hf Had) as H1.
    pose proof (wp_listen S pisn cfg td ah oh tfd afd ofd (kern w.1) Kinv Hp Hc Htd Hoh Hfd He fuel rnd c_ad w Hf Had) as H2.
    unfold open_socket in E. unfold wp in H1, H2. destruct connecting; rewrite E in *; done. }
  pose proof (lo_inv _ _ _ _ _ _ Hok) as Hi. split; [done|]. split_and!; [apply Hi|apply Hi|].
  intros k Hk. apply list_elem_of_singleton in Hk as ->.
  destruct (lo_holds _ _ _ _ _ _ Hok oh) as (n & Hn & Hle); [apply elem_of_app; left; right; right; left|].
  exists n. split; [done|]. destruct Hoh as [H1 H2]. rewrite count_occ_app in Hle. cbn in *.
  destruct (Z.eq_dec td oh), (Z.eq_dec ah oh), (Z.eq_dec oh oh); congruence || lia.
Qed.

Lemma numbers_differ (ofd tfd afd : Z) : NoDup [STDIN_FILENO; STDOUT_FILENO; ofd; tfd; afd] ->
  tfd <> afd /\ (tfd ∉ [STDIN_FILENO; STDOUT_FILENO; ofd])
  /\ forall fd, fd ∈ [STDIN_FILENO; STDOUT_FILENO; ofd] -> fd <> tfd /\ fd <> afd.
Proof.
  intros Hnd. rewrite !NoDup_cons, !not_elem_of_cons in Hnd. destruct Hnd as (H1 & H2 & H3 & H4 & _). split_and!; [tauto| |].
  - rewrite !not_elem_of_cons. repeat split; try (apply not_eq_sym; tauto). apply not_elem_of_nil.
  - intros fd Hfd. rewrite !elem_of_cons in Hfd. destruct Hfd as [->|[->|[->|Hfd]]]; [tauto..|by apply not_elem_of_nil in Hfd].
Qed.

(** The two sides of a thread's step, as histories. *)
Lemma since_bytes (s s' : sys view) h fd : since s s' h ->
  consumed (kern s') fd = consumed (kern s) fd ++ bytes_read fd h
  /\ produced (kern s') fd = produced (kern s) fd ++ bytes_written fd h.
Proof. unfold since. cbn. intros ->. by rewrite bytes_read_app, bytes_written_app. Qed.

(** A descriptor that a thread leaves alone. *)
Lemma since_idle (s s' : sys view) h fd : since s s' h ->
  consumed (kern s') fd = consumed (kern s) fd /\ produced (kern s') fd = produced (kern s) fd ->
  bytes_read fd h = [] /\ bytes_written fd h = [].
Proof.
  intros Hs [Hc Hp]. destruct (since_bytes s s' h fd Hs) as [Ec Ep]. rewrite Hc in Ec. rewrite Hp in Ep.
  split; [apply (app_inv_head (consumed (kern s) fd))|apply (app_inv_head (produced (kern s) fd))]; rewrite app_nil_r; congruence.
Qed.

(** The descriptors of one thread in the interleaving. *)
Lemma inter_left a b (g : history) fd : interleaved a b g -> bytes_read fd b = [] /\ bytes_written fd b = [] ->
  bytes_read fd g = bytes_read fd a /\ bytes_written fd g = bytes_written fd a.
Proof. intros Hg [Hr Hw]. split; by eapply inter_concat. Qed.

Lemma since_carried o Ho (s s' : sys view) h from to b :
  since s s' h -> carried (kern (owner_memory o Ho s)) (kern s') from to b -> (bytes_written to h) `prefix_of` (bytes_read from h).
Proof.
  intros Hs (moved & Hc & Hp). change (consumed (kern (owner_memory o Ho s)) from) with (consumed (kern s) from) in Hc.
  change (produced (kern (owner_memory o Ho s)) to) with (produced (kern s) to) in Hp.
  rewrite (proj1 (since_bytes s s' h from Hs)) in Hc. rewrite (proj2 (since_bytes s s' h to Hs)) in Hp.
  apply app_inv_head in Hc. apply app_inv_head in Hp. rewrite Hc, Hp. by apply prefix_app_r.
Qed.

(** Two pipes, one behind the other, are a pipe. *)
Lemma pipes_compose S ofd tfd h a b g m :
  (forall fd, fd ∈ [STDIN_FILENO; STDOUT_FILENO; ofd] ->
    (bytes_read fd h = [] /\ bytes_written fd h = []) /\ (bytes_read fd b = [] /\ bytes_written fd b = [])) ->
  bytes_read tfd a = [] /\ bytes_written tfd a = [] ->
  bytes_written STDOUT_FILENO a `prefix_of` bytes_read ofd a -> bytes_written ofd a `prefix_of` bytes_read STDIN_FILENO a ->
  interleaved a b g -> socket_pair ofd tfd (h ++ g) -> bytes_written tfd (h ++ b) = ztake m S ->
  (exists m, bytes_written STDOUT_FILENO (h ++ g) = ztake m S)
  /\ bytes_read tfd (h ++ g) `prefix_of` bytes_read STDIN_FILENO (h ++ g)
  /\ bytes_read tfd (h ++ b) = bytes_read tfd (h ++ g).
Proof.
  intros Hidle Ht Hdn Hup Hg [P1 P2] HS. apply in_order_prefix in P1, P2. cbn [app] in P1, P2.
  assert (Hat : forall fd, fd ∈ [STDIN_FILENO; STDOUT_FILENO; ofd] ->
    bytes_read fd (h ++ g) = bytes_read fd a /\ bytes_written fd (h ++ g) = bytes_written fd a).
  { intros fd Hfd. destruct (Hidle fd Hfd) as [[E1 E2] Eb]. destruct (inter_left a b g fd Hg Eb) as [E3 E4].
    by rewrite bytes_read_app, bytes_written_app, E1, E2, E3, E4. }
  destruct (inter_left b a g tfd (inter_sym _ _ _ Hg) Ht) as [Er Ew].
  rewrite (bytes_written_app tfd h g), Ew, <-bytes_written_app, HS in P2.
  destruct (Hat STDIN_FILENO ltac:(left)) as [A0 _]. destruct (Hat STDOUT_FILENO ltac:(right; left)) as [_ A1].
  destruct (Hat ofd ltac:(right; right; left)) as [A2 A2']. rewrite A2 in P2. rewrite A2' in P1. rewrite A0, A1. split_and!.
  - apply (ztake_prefix _ _ m). by etrans.
  - by etrans.
  - by rewrite !bytes_read_app, Er.
Qed.

(** What the thread of the socket does, as histories: before the thread
    starts, and in it. *)
Lemma thread_history S pisn cfg td ah oh tfd afd ofd Kinv connecting fuel fuel_b rnd c_ad
    (w w1 wb : W (K := view) (T := T)) rules rules' over h b
    (Hpisn : wi_ok pisn) (Hcfg : cfg_ok S cfg) (Hhandles : td <> ah /\ oh <> td /\ oh <> ah) (Hta : tfd <> afd)
    (Henv : environment S pisn cfg td ah oh tfd afd ofd (kern w.1) Kinv (T := T)) (Had : base_wf c_ad)
    (Hw : fresh td ah oh tfd afd ofd (kern w.1) Kinv w)
    (Hopen : open_socket connecting fuel cfg rnd c_ad w = Ok ((true, rules), w1))
    (Hthread : _tcp_main fuel_b rules w1 = Ok ((over, rules'), wb))
    (Hh : since w.1 w1.1 h) (Hb : since w1.1 wb.1 b) :
  (exists m, bytes_written tfd (h ++ b) = ztake m S) /\ bytes_read tfd (h ++ b) = consumed (kern wb.1) tfd
  /\ (forall fd, fd <> tfd -> fd <> afd ->
       (bytes_read fd h = [] /\ bytes_written fd h = []) /\ (bytes_read fd b = [] /\ bytes_written fd b = []))
  /\ (over = false -> connection_up S pisn cfg tfd wb)
  /\ exists x, (wrappers w1.1 !! oh = Some x /\ _fd x = ofd) /\ oh < next_ptr w1.1 /\ holds [oh] w1.1.
Proof.
  destruct Hhandles as (Htd & Hoh).
  destruct (open_ok _ _ _ _ _ _ _ _ _ _ _ _ _ _ _ _ _ _ Hpisn Hcfg Htd Hoh Hta Henv Had Hw Hopen) as (Hok & (x & Hx & Hxf) & Hptr & Hhold).
  pose proof (wp_main S pisn cfg td ah oh tfd afd ofd (kern w.1) Kinv Hpisn Hcfg Htd Hoh Hta Henv fuel_b rules w1 Hok) as Hm.
  unfold wp in Hm. rewrite Hthread in Hm. destruct Hm as ([m Hprod] & Hothers & Hup).
  assert (Hlog : since w.1 wb.1 (h ++ b)) by (unfold since in *; by rewrite Hb, Hh, app_assoc).
  destruct (since_bytes w.1 wb.1 (h ++ b) tfd Hlog) as [Bc Bp]. destruct (fr_quiet _ _ _ _ _ _ _ _ _ Hw) as [Q1 Q2].
  rewrite Q1 in Bc. rewrite Q2 in Bp. cbn [app] in Bc, Bp.
  assert (Hoi : others tfd afd (kern w.1) (kern w1.1)) by (by eapply si_others, lo_inv).
  split_and!; [exists m; congruence|done| |exact Hup|by exists x].
  intros fd N1 N2. destruct (Hoi fd N1 N2) as [E3 E4]. destruct (Hothers fd N1 N2) as [E1 E2].
  split; [by eapply since_idle|]. eapply since_idle; [exact Hb|]. by rewrite E1, E2, E3, E4.
Qed.

End program.
