(* ===== verification/Duplex.v ===== *)
(** * Two connections over an unreliable network

    Transfer.v joins a sender and a receiver; here two whole connections
    (TCPConnection.v) are joined, each of them sender and receiver, with the
    acknowledgments of one direction carried by the segments of the other, as
    on a real link: handshake, transfer in both directions and shutdown.  The
    network remembers every segment and delivers any of them at any time, as
    long as it is not 2^31 sequence numbers behind.

    A call on one connection is shown to be a sequence of steps of the two
    one-way transfers, so that their invariant carries over. *)

From Stdlib Require Import ZArith Lia.
From S2P Require Import Prelude WrappingIntegers Ring ByteStream UnAssembleBuffer StreamReassembler Buffer Parser TCPHeader TCPSegment TCPReceiver TCPSender Transfer TCPState TCPConnection.

(** ** The system *)

(** A connection with its owner: the bytes accepted from the owner, those the
    owner read, and the segments the connection has queued so far, each with its
    absolute sequence number and the absolute acknowledgment number of the
    moment.  The owner may leave segments in the queue. *)
Record endpoint : Type := mkEndpoint {
  conn : TCPConnection;
  written : list byte;
  read_bytes : list byte;
  sent : list (Z * Z * TCPSegment)
}.

Definition labelled (c : TCPConnection) (seg : TCPSegment) : Z * Z * TCPSegment :=
  (unwrap (seqno (header seg)) (isn_ (sender_ c)) (last_ack_no_ (sender_ c)), abs_ack_no (receiver_ c), seg).

(** After a call: what it appended to the queue is recorded. *)
Definition called (c : TCPConnection) (e : endpoint) : endpoint :=
  mkEndpoint c (written e) (read_bytes e)
    (sent e ++ map (labelled c) (drop (length (segments_out (conn e))) (segments_out c))).

(** The calls of one owner, who also takes segments from the queue; [net] is
    what the other end ever sent.  A tick that
    makes the connection give up and abort is not among them. *)
Inductive act (net : list (Z * Z * TCPSegment)) (e : endpoint) : endpoint -> Prop :=
  | act_connect c : connect (conn e) = Ok c -> act net e (called c e)
  | act_write data n c :
      ended (sender_ (conn e)) = false -> zlen (written e) + zlen data + 2 < M63 ->
      write (conn e) data = Ok (n, c) ->
      act net e (called c (mkEndpoint (conn e) (written e ++ ztake n data) (read_bytes e) (sent e)))
  | act_end c : end_input_stream (conn e) = Ok c -> act net e (called c e)
  | act_tick ms s c :
      TCPSender.tick (sender_ (conn e)) ms = Ok s -> consecutive_retransmissions s <= MAX_RETX_ATTEMPTS ->
      tick (conn e) ms = Ok c -> act net e (called c e)
  | act_segment a b seg c :
      (a, b, seg) ∈ net -> abs_ack_no (receiver_ (conn e)) - a <= M31 -> last_ack_no_ (sender_ (conn e)) - b <= M31 ->
      segment_received (conn e) seg = Ok c -> act net e (called c e)
  | act_read len l c :
      0 <= len < M64 -> read_inbound (conn e) len = Ok (l, c) ->
      act net e (mkEndpoint c (written e) (read_bytes e ++ l) (sent e))
  | act_take k : act net e (mkEndpoint (set_out (drop k (segments_out (conn e))) (conn e)) (written e) (read_bytes e) (sent e)).

Inductive duplex_step : endpoint * endpoint -> endpoint * endpoint -> Prop :=
  | step_left x x' y : act (sent y) x x' -> duplex_step (x, y) (x', y)
  | step_right x y y' : act (sent x) y y' -> duplex_step (x, y) (x, y').

Inductive duplex_steps : endpoint * endpoint -> endpoint * endpoint -> Prop :=
  | duplex_refl d : duplex_steps d d
  | duplex_more d1 d2 d3 : duplex_steps d1 d2 -> duplex_step d2 d3 -> duplex_steps d1 d3.

Definition endpoint_new (cfg : TCPConfig) (rnd : Z) : endpoint := mkEndpoint (new cfg rnd) [] [] [].

(** *** What is promised *)

(** [y] has read a prefix of what [x] wrote, and the end only after all of it. *)
Definition delivered (x y : endpoint) : Prop :=
  read_bytes y ++ contents (inbound_stream (conn y)) `prefix_of` written x
  /\ (eof (inbound_stream (conn y)) = true -> read_bytes y = written x /\ ended (sender_ (conn x)) = true).

(** Every call returns; [net] is what the other end sent. *)
Definition responsive (x : endpoint) (net : list (Z * Z * TCPSegment)) : Prop :=
  (exists c, connect (conn x) = Ok c) /\ (exists c, end_input_stream (conn x) = Ok c)
  /\ (forall ms, exists c, tick (conn x) ms = Ok c)
  /\ (forall data, ended (sender_ (conn x)) = false -> zlen (written x) + zlen data + 2 < M63 ->
        exists n c, write (conn x) data = Ok (n, c))
  /\ (forall a b seg, (a, b, seg) ∈ net ->
        abs_ack_no (receiver_ (conn x)) - a <= M31 -> last_ack_no_ (sender_ (conn x)) - b <= M31 ->
        exists c, segment_received (conn x) seg = Ok c)
  /\ (forall len, 0 <= len < M64 -> exists l c, read_inbound (conn x) len = Ok (l, c)).

(** ** Segments as the sender makes them *)

(** The sender sets neither ACK nor RST: the connection does. *)
Definition plain (seg : TCPSegment) : Prop := ack (header seg) = false /\ rst (header seg) = false.

Definition sender_plain (s : TCPSender) : Prop :=
  Forall plain (TCPSender.segments_out_ s) /\ Forall plain (outstanding_segments_ s).

Lemma send_segment_plain s seg : sender_plain s -> plain seg -> sender_plain (send_segment s seg).
Proof. intros [? ?] ?. split; cbn; apply Forall_app; (split; [done|by constructor]). Qed.

Lemma fill_loop_plain fuel : forall s s', sender_plain s -> fill_loop fuel s = Ok s' -> sender_plain s'.
Proof.
  induction fuel as [|fuel IH]; intros s s' Hs E; cbn [fill_loop] in E; [done|].
  destruct (free_window_size s =? 0); [by injection E as <-|]. destruct (_ && _); [by injection E as <-|].
  apply bind_Ok in E as ([data bs] & _ & E). eapply IH; [|exact E].
  apply send_segment_plain; [done|]. by destruct (_ && _ && _).
Qed.

Lemma fill_window_plain s s' : sender_plain s -> fill_window s = Ok s' -> sender_plain s'.
Proof.
  intros Hs E. unfold fill_window in E. case_bool_decide; [|by eapply fill_loop_plain].
  injection E as <-. by apply send_segment_plain.
Qed.

Lemma ack_loop_plain q isn last ab fl t : Forall plain q -> Forall plain (ack_loop q isn last ab fl t).1.1.
Proof.
  revert fl t. induction q as [|seg q IH]; intros fl t Hq; cbn [ack_loop]; [done|].
  destruct (ab <? _); [done|]. apply IH. by apply Forall_cons_1 in Hq as [_ ?].
Qed.

Lemma ack_received_plain s n w : sender_plain s -> sender_plain (ack_received s n w).
Proof.
  intros [Ho Hq]. unfold ack_received. destruct (_ || _); [by destruct (_ =? _)|].
  pose proof (ack_loop_plain (outstanding_segments_ s) (isn_ s) (last_ack_no_ s) (unwrap n (isn_ s) (last_ack_no_ s))
    (bytes_in_flight_ s) (timer_reset_to (init_retransmission_timeout_ s) (timer_ s)) Hq) as Ha.
  destruct (ack_loop _ _ _ _ _ _) as [[q fl] t]. by split.
Qed.

Lemma tick_plain s ms s' : sender_plain s -> TCPSender.tick s ms = Ok s' -> sender_plain s'.
Proof.
  intros [Ho Hq] E. unfold TCPSender.tick in E. destruct (negb _); [injection E as <-; by split|].
  destruct (outstanding_segments_ s) as [|front q] eqn:Eq; [done|]. apply Forall_cons_1 in Hq as [Hf Hq].
  destruct (if 0 <? window_size_ s then _ else _) as [count t]. injection E as <-. split; cbn; [|by constructor].
  apply Forall_app. split; [done|by constructor].
Qed.

Lemma send_empty_plain s : sender_plain s -> sender_plain (send_empty_segment s).
Proof.
  intros [Ho Hq]. unfold send_empty_segment. destruct (TCPSender.segments_out_ s) eqn:E; [|by split; rewrite ?E].
  split; [|done]. by constructor.
Qed.

Lemma sent_nothing_plain s : sender_plain s -> sender_plain (set_segments_out [] s).
Proof. intros [_ ?]. by split. Qed.

(** ** The invariant *)

(** A segment on the network: one of the sender's, with the acknowledgment of
    the moment. *)
Definition sent_ok (segs : list (Z * TCPSegment)) (acks : list (Z * WrappingInt32 * Z)) (p : Z * Z * TCPSegment) : Prop :=
  0 <= p.1.1 /\ 0 <= p.1.2 /\
  exists raw o w, (p.1.1, raw) ∈ segs /\ plain raw /\ p.2 = stamped o w raw
    /\ (forall n, o = Some n -> (p.1.2, n, u16 (Z.min w 65535)) ∈ acks).

(** What the one-way transfer from [x] to [y] sees. *)
Definition link (x y : endpoint) (segs : list (Z * TCPSegment)) (acks : list (Z * WrappingInt32 * Z)) : system :=
  mkSystem (sender_ (conn x)) (receiver_ (conn y)) (written x) (read_bytes y) segs acks.

Record calm (x : endpoint) (segs : list (Z * TCPSegment)) (acks : list (Z * WrappingInt32 * Z)) : Prop := {
  calm_out : Forall (fun seg => exists a b, (a, b, seg) ∈ sent x) (segments_out_ (conn x));
  calm_rst : need_send_rst_ (conn x) = false;
  calm_plain : sender_plain (sender_ (conn x));
  calm_sent : Forall (sent_ok segs acks) (sent x)
}.

(** Both directions; [sx] and [ax] are the segments and the acknowledgments
    of [x]. *)
Definition dinv (isnx : WrappingInt32) (capx : Z) (isny : WrappingInt32) (capy : Z) (x y : endpoint) : Prop :=
  exists sx ax sy ay rcx fnx rcy fny,
    sysinv isnx capy (link x y sx ay) rcx fnx /\ sysinv isny capx (link y x sy ax) rcy fny
    /\ calm x sx ax /\ calm y sy ay.

Lemma dinv_sym isnx capx isny capy x y : dinv isnx capx isny capy x y -> dinv isny capy isnx capx y x.
Proof. intros (sx & ax & sy & ay & rcx & fnx & rcy & fny & ? & ? & ? & ?). by exists sy, ay, sx, ax, rcy, fny, rcx, fnx. Qed.

Lemma sent_ok_more segs acks segs' acks' p :
  segs ⊆ segs' -> acks ⊆ acks' -> sent_ok segs acks p -> sent_ok segs' acks' p.
Proof.
  intros Hs Ha (? & ? & raw & o & w & Hin & Hp & E & Hn). split_and!; [done|done|].
  exists raw, o, w. split_and!; try done; [by apply Hs|]. intros n Ho. by apply Ha, Hn.
Qed.

Lemma labelled_nonneg c seg : 0 <= (labelled c seg).1.1 /\ 0 <= (labelled c seg).1.2.
Proof.
  unfold labelled, unwrap, abs_ack_no. cbn [fst snd]. split.
  - destruct (if _ <? _ then _ else _) as [p n]. destruct (_ || _); apply u64_range.
  - destruct (TCPReceiver.state _); try apply u64_range; lia.
Qed.

(** The receiver sees only the fields of the sender. *)
Lemma stamped_receive r o w seg :
  TCPReceiver.segment_received r (stamped o w seg) = TCPReceiver.segment_received r seg.
Proof. by destruct o. Qed.

Lemma stamped_rst o w seg : rst (header (stamped o w seg)) = rst (header seg).
Proof. by destruct o. Qed.

(** ** Calls are steps of the transfers *)

Section duplex.
Context (isnx isny : WrappingInt32) (capx capy : Z).
Context (Hcapx : 0 < capx) (Hcapx2 : 2 * capx < M63) (Hisnx : wi_ok isnx).
Context (Hcapy : 0 < capy) (Hcapy2 : 2 * capy < M63) (Hisny : wi_ok isny).

(** A call that has left segments in the sender's queue ends in
    [enqueue_segments]; the owner then puts them on the network. *)
Lemma finish c x y s0 sx ax sy ay rcx fnx rcy fny :
  sysinv isnx capy (post (sender_ c) (mkSystem s0 (receiver_ (conn y)) (written x) (read_bytes y) sx ay)) rcx fnx ->
  sysinv isny capx (mkSystem (sender_ (conn y)) (receiver_ c) (written y) (read_bytes x) sy ax) rcy fny ->
  sender_plain (sender_ c) -> segments_out_ c = segments_out_ (conn x) -> need_send_rst_ c = false ->
  Forall (fun seg => exists a b, (a, b, seg) ∈ sent x) (segments_out_ (conn x)) ->
  Forall (sent_ok sx ax) (sent x) -> calm y sy ay ->
  exists c', enqueue_segments c = Ok c' /\ dinv isnx capx isny capy (called c' x) y.
Proof using All.
  intros H1 H2 Hp Ho Hr Hq Hse Hy.
  destruct (room isny capx Hcapx Hcapx2 Hisny _ _ (iv_snd _ _ _ _ _ H2)) as [Hc HS].
  destruct (rinv_advert _ _ _ Hc HS Hisny _ _ _ _ (iv_rcv _ _ _ _ _ H2)) as [Ha _]. cbn [sys_receiver] in Ha.
  set (o := if is_listen_ (receiver_ c) then None else _) in Ha.
  rewrite (enqueue_ok c o Ha Hr), Ho. eexists. split; [done|].
  set (ax' := match o with Some n => (abs_ack_no (receiver_ c), n, advertised (receiver_ c)) :: ax | None => ax end).
  exists (sx ++ map (stamp (sender_ c)) (TCPSender.segments_out_ (sender_ c))), ax', sy, ay, rcx, fnx, rcy, fny.
  split_and!; [exact H1| |split; cbn; rewrite ?drop_app_length; try done|exact Hy].
  - subst ax'. destruct o as [n|]; [|exact H2]. exact (sysinv_reply isny capx Hcapx Hcapx2 Hisny _ _ _ _ H2 Ha).
  - apply Forall_app. split.
    + eapply Forall_impl; [exact Hq|]. intros seg (a & b & Hin). exists a, b. apply elem_of_app. by left.
    + apply Forall_forall. intros seg Hin. eexists _, _. apply elem_of_app. right.
      apply list_elem_of_fmap. exists seg. split; [reflexivity|done].
  - by apply sent_nothing_plain.
  - apply Forall_app. split.
    + eapply Forall_impl; [exact Hse|]. intros p. apply sent_ok_more; [by apply list_subseteq_app_l|]. subst ax'. by destruct o; [apply list_subseteq_cons|].
    + apply Forall_forall. intros p (seg & -> & Hin)%list_elem_of_fmap.
      split_and!; [apply labelled_nonneg|apply labelled_nonneg|].
      apply list_elem_of_fmap in Hin as (raw & -> & Hin). exists raw, o, (window_size (receiver_ c)). split_and!; try done.
      * apply elem_of_app. right. apply list_elem_of_fmap. exists raw. split; [|done]. unfold stamp, labelled. by destruct o.
      * destruct Hp as [Hp _]. rewrite Forall_forall in Hp. by apply Hp.
      * intros n ->. by left.
Qed.

Lemma duplex_connect x y :
  dinv isnx capx isny capy x y -> exists c, connect (conn x) = Ok c /\ dinv isnx capx isny capy (called c x) y.
Proof using All.
  intros (sx & ax & sy & ay & rcx & fnx & rcy & fny & H1 & H2 & [Ho Hr Hp Hs] & Hy). unfold connect.
  destruct (sysinv_fill isnx capy Hcapy Hcapy2 Hisnx _ _ _ H1) as (s & nw & E & H1' & _). cbn in E. rewrite E.
  cbn [mbind res_bind]. eapply (finish (set_sender s (conn x))); try done. by eapply fill_window_plain.
Qed.

Lemma duplex_write x y data :
  dinv isnx capx isny capy x y -> ended (sender_ (conn x)) = false -> zlen (written x) + zlen data + 2 < M63 ->
  exists c, let n := zlen (accepted (stream_in (sender_ (conn x))) data) in write (conn x) data = Ok (n, c)
    /\ dinv isnx capx isny capy (called c (mkEndpoint (conn x) (written x ++ ztake n data) (read_bytes x) (sent x))) y.
Proof using All.
  intros (sx & ax & sy & ay & rcx & fnx & rcy & fny & H1 & H2 & [Ho Hr Hp Hs] & Hy) He Hb. unfold write.
  destruct (write_contents (stream_in (sender_ (conn x))) data (si_stream _ _ (iv_snd _ _ _ _ _ H1))) as (bs & E & _).
  rewrite E. cbn [mbind res_bind]. set (n := zlen (accepted _ _)) in *. cbn [sender_ set_sender].
  pose proof (sysinv_write isnx capy Hcapy Hcapy2 Hisnx _ _ _ _ _ _ H1 He Hb E) as H1'.
  destruct (sysinv_fill isnx capy Hcapy Hcapy2 Hisnx _ _ _ H1') as (s & nw & E' & H1'' & _). cbn in E'. rewrite E'.
  cbn [mbind res_bind].
  destruct (finish (set_sender s (set_sender (set_stream_in bs (sender_ (conn x))) (conn x)))
    (mkEndpoint (conn x) (written x ++ ztake n data) (read_bytes x) (sent x)) y (sender_ (conn x)) sx ax sy ay rcx fnx rcy fny)
    as (c & Ec & Hd); try done; [exact (fill_window_plain (set_stream_in bs (sender_ (conn x))) s Hp E')|]. exists c. by rewrite Ec.
Qed.

Lemma duplex_end x y :
  dinv isnx capx isny capy x y -> exists c, end_input_stream (conn x) = Ok c /\ dinv isnx capx isny capy (called c x) y.
Proof using All.
  intros (sx & ax & sy & ay & rcx & fnx & rcy & fny & H1 & H2 & [Ho Hr Hp Hs] & Hy). unfold end_input_stream.
  pose proof (sysinv_end isnx capy Hcapy Hcapy2 Hisnx _ _ _ H1) as H1'. cbn [sender_ set_sender].
  destruct (sysinv_fill isnx capy Hcapy Hcapy2 Hisnx _ _ _ H1') as (s & nw & E & H1'' & _). cbn in E. rewrite E.
  cbn [mbind res_bind]. eapply (finish (set_sender s (set_sender _ (conn x)))); try done. exact (fill_window_plain (end_input (sender_ (conn x))) s Hp E).
Qed.

(** A tick that gives up returns as well, but leaves the transfer. *)
Lemma duplex_tick x y ms :
  dinv isnx capx isny capy x y ->
  exists s c, TCPSender.tick (sender_ (conn x)) ms = Ok s /\ tick (conn x) ms = Ok c
    /\ (consecutive_retransmissions s <= MAX_RETX_ATTEMPTS -> dinv isnx capx isny capy (called c x) y).
Proof using All.
  intros (sx & ax & sy & ay & rcx & fnx & rcy & fny & H1 & H2 & [Ho Hr Hp Hs] & Hy). unfold tick.
  destruct (sysinv_tick isnx capy Hcapy Hcapy2 Hisnx _ _ _ ms H1) as (s & E & H1'). cbn in E.
  exists s. cbn [sender_ set_ms]. rewrite E. cbn [mbind res_bind]. cbn [sender_ set_sender].
  destruct (Z.ltb_spec MAX_RETX_ATTEMPTS (consecutive_retransmissions s)) as [Hlt|_].
  - unfold enqueue_segments. cbn [need_send_rst_ set_sender set_need_rst].
    destruct (TCPSender.segments_out _); eexists; (split_and!; [done|reflexivity|lia]).
  - set (c := set_sender s _). destruct (try_clean_shutdown_fields c) as (F1 & F2 & F3 & F4 & F5 & _).
    destruct (finish (try_clean_shutdown c) x y (sender_ (conn x)) sx ax sy ay rcx fnx rcy fny) as (c' & Ec & Hd);
      rewrite ?F2, ?F3, ?F4, ?F5; try done; [by eapply tick_plain|]. by exists c'.
Qed.

Lemma duplex_read x y len :
  dinv isnx capx isny capy x y -> 0 <= len < M64 ->
  exists l c, read_inbound (conn x) len = Ok (l, c)
    /\ dinv isnx capx isny capy (mkEndpoint c (written x) (read_bytes x ++ l) (sent x)) y.
Proof using All.
  intros (sx & ax & sy & ay & rcx & fnx & rcy & fny & H1 & H2 & [Ho Hr Hp Hs] & Hy) Hl. unfold read_inbound, inbound_stream.
  destruct (sysinv_read isny capx Hcapx Hcapx2 Hisny _ _ _ len H2 Hl) as (l & out & E & _ & H2').
  cbn [link sys_receiver] in E. rewrite E. cbn [mbind res_bind]. exists l. eexists. split; [reflexivity|].
  by exists sx, ax, sy, ay, rcx, fnx, rcy, fny.
Qed.

(** *** A segment arrives *)

Lemma post_nothing s sys :
  TCPSender.segments_out_ s = [] ->
  post s sys = mkSystem s (sys_receiver sys) (sys_written sys) (sys_read sys) (sys_segments sys) (sys_acks sys).
Proof using. intros E. unfold post, TCPSender.segments_out, set_segments_out. rewrite E. cbn. rewrite app_nil_r. by destruct s; cbn in *; subst. Qed.

(** [send_empty_segment] sends nothing when the queue has a segment already. *)
Lemma sysinv_reply_segment sys rc fn s (b : bool) :
  sysinv isnx capy (post s sys) rc fn ->
  sysinv isnx capy (post (if b then send_empty_segment s else s) sys) rc fn.
Proof using All.
  intros H. destruct b; [|done]. destruct (TCPSender.segments_out_ s) as [|seg q] eqn:E.
  - rewrite (post_nothing s sys E) in H. exact (sysinv_empty isnx capy Hcapy Hcapy2 Hisnx _ _ _ H).
  - unfold send_empty_segment. by rewrite E.
Qed.

Lemma ack_received_queue s n w : TCPSender.segments_out_ (ack_received s n w) = TCPSender.segments_out_ s.
Proof using. unfold ack_received. repeat case_match; done. Qed.

(** The sender's half of [segment_received]. *)
Lemma duplex_ack x y sx ax ay rcx fnx a b seg :
  sysinv isnx capy (link x y sx ay) rcx fnx -> sent_ok ax ay (a, b, seg) ->
  last_ack_no_ (sender_ (conn x)) - b <= M31 -> sender_plain (sender_ (conn x)) ->
  let s := if ack (header seg) then ack_received (sender_ (conn x)) (TCPHeader.ackno (header seg)) (win (header seg))
           else sender_ (conn x) in
  sysinv isnx capy (mkSystem s (receiver_ (conn y)) (written x) (read_bytes y) sx ay) rcx fnx /\ sender_plain s.
Proof using All.
  intros H (_ & _ & raw & o & w & _ & [Hra _] & E & Hac) Hage Hp. cbn [fst snd] in *. destruct o as [n|]; subst seg; cbn [stamped].
  - cbn. specialize (Hac n eq_refl).
    destruct (sysinv_ack isnx capy Hcapy Hcapy2 Hisnx _ _ _ _ _ _ H Hac Hage) as [H' _].
    rewrite post_nothing in H' by (rewrite ack_received_queue; apply H). split; [exact H'|by apply ack_received_plain].
  - rewrite Hra. by split.
Qed.

(** What is between the acknowledgment and the reply changes no stream. *)
Lemma linger_fields c (b : bool) :
  let c' := if b then try_clean_shutdown (set_linger false c) else c in
  sender_ c' = sender_ c /\ receiver_ c' = receiver_ c /\ segments_out_ c' = segments_out_ c
  /\ need_send_rst_ c' = need_send_rst_ c.
Proof using.
  destruct b; cbv zeta iota; [|done]. destruct (try_clean_shutdown_fields (set_linger false c)) as (_ & -> & -> & -> & -> & _). done.
Qed.

Lemma duplex_segment x y a b seg :
  dinv isnx capx isny capy x y -> (a, b, seg) ∈ sent y ->
  abs_ack_no (receiver_ (conn x)) - a <= M31 -> last_ack_no_ (sender_ (conn x)) - b <= M31 ->
  exists c, segment_received (conn x) seg = Ok c /\ dinv isnx capx isny capy (called c x) y.
Proof using All.
  intros (sx & ax & sy & ay & rcx & fnx & rcy & fny & H1 & H2 & [Ho Hr Hp Hs] & Hy) Hin Hage Hage'.
  pose proof (calm_sent _ _ _ Hy) as Hok. rewrite Forall_forall in Hok. specialize (Hok _ Hin).
  unfold segment_received. destruct (_ && _ && _).
  { eexists. split; [done|]. exists sx, ax, sy, ay, rcx, fnx, rcy, fny. split_and!; try done.
    split; cbn; unfold segments_out; rewrite ?drop_all; cbn; rewrite ?app_nil_r; done. }
  destruct (duplex_ack x y sx sy ay rcx fnx a b seg H1 Hok Hage' Hp) as [H1' Hp'].
  destruct Hok as (_ & _ & raw & o & w & Hraw & [_ Hrst] & E & _). cbn [fst snd] in *.
  assert (rst (header seg) = false) as Hrs by (subst seg; by rewrite stamped_rst).
  rewrite Hrs. cbn [receiver_ set_ms].
  destruct (sysinv_deliver isny capx Hcapx Hcapx2 Hisny _ _ _ a raw H2 Hraw Hage) as (r & rcy' & fny' & Er & H2').
  cbn [link sys_receiver] in Er. assert (TCPReceiver.segment_received (receiver_ (conn x)) seg = Ok r) as ->
    by (subst seg; by rewrite stamped_receive).
  cbn [mbind res_bind]. set (c1 := set_receiver r (set_ms 0 (conn x))). set (c2 := if ack (header seg) then _ else c1).
  set (s := if ack (header seg) then _ else _) in H1', Hp'.
  assert (sender_ c2 = s /\ receiver_ c2 = r /\ segments_out_ c2 = segments_out_ (conn x) /\ need_send_rst_ c2 = false) as (S2 & R2 & O2 & N2).
  { subst c2 s. by destruct (ack (header seg)). }
  clearbody c2 s. destruct (linger_fields c2 (bool_decide (TCPReceiver.state (receiver_ c2) = TCPReceiver.kFinRecv)
    && bool_decide (TCPSender.state (sender_ c2) = TCPSender.kSynAcked))) as (S3 & R3 & O3 & N3).
  set (c3 := if _ && _ then _ else c2) in *. clearbody c3. rewrite S2 in S3. rewrite R2 in R3. rewrite O2 in O3. rewrite N2 in N3.
  destruct (sysinv_fill isnx capy Hcapy Hcapy2 Hisnx _ _ _ H1') as (s' & nw & E4 & H4 & _). cbn in E4. rewrite S3, E4.
  cbn [mbind res_bind].
  destruct (room isny capx Hcapx Hcapx2 Hisny _ _ (iv_snd _ _ _ _ _ H2')) as [Hc HS].
  destruct (wants_reply_ok (written y) isny Hisny (set_sender s' c3) capx (read_bytes x) rcy' fny' seg Hc HS) as (rep & Erep & _).
  { cbn [receiver_ set_sender]. rewrite R3. exact (iv_rcv _ _ _ _ _ H2'). }
  rewrite Erep. cbn [mbind res_bind]. cbn [sender_ set_sender].
  set (c4 := if rep then _ else _).
  assert (sender_ c4 = (if rep then send_empty_segment s' else s') /\ receiver_ c4 = r /\ segments_out_ c4 = segments_out_ (conn x)
    /\ need_send_rst_ c4 = false) as (S4 & R4 & O4 & N4) by (subst c4; by destruct rep).
  clearbody c4. destruct (try_clean_shutdown_fields c4) as (_ & F2 & F3 & F4 & F5 & _).
  eapply (finish (try_clean_shutdown c4) x y s sx ax sy ay); rewrite ?F2, ?F3, ?F4, ?F5, ?S4, ?R4, ?O4, ?N4; try done.
  - by apply sysinv_reply_segment.
  - pose proof (fill_window_plain _ _ Hp' E4). destruct rep; [by apply send_empty_plain|done].
Qed.

(** *** All calls *)

Lemma dinv_act x x' y :
  dinv isnx capx isny capy x y -> act (sent y) x x' -> dinv isnx capx isny capy x' y.
Proof using All.
  intros H. destruct 1 as [c E|data n c He Hb E|c E|ms s c Es Hs E|a b seg c Hin Ha Hb E|len l c Hl E|k].
  - destruct (duplex_connect x y H) as (c' & E' & H'). congruence.
  - destruct (duplex_write x y data H He Hb) as (c' & E' & H'). rewrite E in E'. by injection E' as -> ->.
  - destruct (duplex_end x y H) as (c' & E' & H'). congruence.
  - destruct (duplex_tick x y ms H) as (s' & c' & Es' & E' & H'). rewrite Es in Es'. injection Es' as <-.
    rewrite E in E'. injection E' as <-. by apply H'.
  - destruct (duplex_segment x y a b seg H Hin Ha Hb) as (c' & E' & H'). congruence.
  - destruct (duplex_read x y len H Hl) as (l' & c' & E' & H'). rewrite E in E'. by injection E' as -> ->.
  - destruct H as (sx & ax & sy & ay & rcx & fnx & rcy & fny & H1 & H2 & [Ho Hr Hp Hs] & Hy).
    exists sx, ax, sy, ay, rcx, fnx, rcy, fny. split_and!; try done. split; try done. cbn.
    rewrite <-(take_drop k (segments_out_ (conn x))) in Ho. by apply Forall_app in Ho as [_ ?].
Qed.

Lemma dinv_responsive x y : dinv isnx capx isny capy x y -> responsive x (sent y).
Proof using All.
  intros H. unfold responsive. split_and!.
  - destruct (duplex_connect x y H) as (c & E & _). eauto.
  - destruct (duplex_end x y H) as (c & E & _). eauto.
  - intros ms. destruct (duplex_tick x y ms H) as (s & c & _ & E & _). eauto.
  - intros data He Hb. destruct (duplex_write x y data H He Hb) as (c & E & _). eauto.
  - intros a b seg Hin Ha Hb. destruct (duplex_segment x y a b seg H Hin Ha Hb) as (c & E & _). eauto.
  - intros len Hl. destruct (duplex_read x y len H Hl) as (l & c & E & _). eauto.
Qed.

(** The sequence numbers are bounded by the length of the stream. *)
Lemma dinv_bounds x y :
  dinv isnx capx isny capy x y ->
  last_ack_no_ (sender_ (conn x)) <= zlen (written x) + 2 /\ abs_ack_no (receiver_ (conn y)) <= zlen (written x) + 2.
Proof using All.
  intros (sx & ax & sy & ay & rcx & fnx & rcy & fny & H & _).
  pose proof (iv_snd _ _ _ _ _ H) as Hs. pose proof (iv_rcv _ _ _ _ _ H) as Hr. cbn [link sys_sender sys_written sys_receiver] in *.
  pose proof (next_seq_range _ _ Hs). pose proof (si_acked _ _ Hs).
  destruct (room isnx capy Hcapy Hcapy2 Hisnx _ _ Hs) as [Hc HS].
  destruct (state_spec _ _ _ Hc HS Hisnx _ _ _ _ Hr) as [_ ->]. destruct (written_range _ _ _ Hc HS Hisnx _ _ _ _ Hr) as [_ Hn].
  split; [lia|]. pose proof (zlen_nonneg (written x)). destruct (is_listen_ _); [lia|]. destruct (fnx && _); lia.
Qed.

Lemma dinv_delivered x y : dinv isnx capx isny capy x y -> delivered x y.
Proof using. intros (sx & ax & sy & ay & rcx & fnx & rcy & fny & H & _). exact (sysinv_delivered _ _ _ _ _ H). Qed.
End duplex.

(** ** Runs *)

(** The initial sequence number of a connection. *)
Definition first_isn (cfg : TCPConfig) (rnd : Z) : WrappingInt32 :=
  match fixed_isn cfg with Some isn => isn | None => WrappingInt32_of rnd end.

(** A configuration with positive buffers, small enough for 64-bit indices. *)
Definition usable (cfg : TCPConfig) : Prop :=
  0 <= rt_timeout cfg < M16 /\ 0 < send_capacity cfg < M63 /\ 0 < recv_capacity cfg /\ 2 * recv_capacity cfg < M63
  /\ match fixed_isn cfg with Some isn => wi_ok isn | None => True end.

Lemma first_isn_ok cfg rnd : usable cfg -> wi_ok (first_isn cfg rnd).
Proof. intros (_ & _ & _ & _ & H). unfold first_isn. destruct (fixed_isn cfg); [done|apply u32_range]. Qed.

Lemma link_new cfgx rndx cfgy rndy :
  usable cfgx -> usable cfgy ->
  sysinv (first_isn cfgx rndx) (recv_capacity cfgy) (link (endpoint_new cfgx rndx) (endpoint_new cfgy rndy) [] []) ∅ false.
Proof.
  intros Hx Hy. pose proof (first_isn_ok cfgx rndx Hx) as Hi. destruct Hx as (Hrt & Hsc & _), Hy as (_ & _ & Hr1 & Hr2 & _).
  pose proof (sysinv_initial (first_isn cfgx rndx) (recv_capacity cfgy) Hr1 Hr2 Hi _ _ Hsc Hrt) as H.
  unfold initial in H. unfold link, endpoint_new, new, first_isn in *. cbn. by destruct (fixed_isn cfgx).
Qed.

Lemma dinv_steps cfgx rndx cfgy rndy d :
  usable cfgx -> usable cfgy -> duplex_steps (endpoint_new cfgx rndx, endpoint_new cfgy rndy) d ->
  dinv (first_isn cfgx rndx) (recv_capacity cfgx) (first_isn cfgy rndy) (recv_capacity cfgy) d.1 d.2.
Proof.
  intros Hx Hy. pose proof (first_isn_ok cfgx rndx Hx). pose proof (first_isn_ok cfgy rndy Hy).
  destruct (Hx) as (_ & _ & ? & ? & _), (Hy) as (_ & _ & ? & ? & _).
  remember (endpoint_new cfgx rndx, endpoint_new cfgy rndy) as d0 eqn:E0.
  induction 1 as [|d1 d2 d3 _ IH Hst]; subst; cbn [fst snd].
  - exists [], [], [], [], ∅, false, ∅, false. split_and!; try by apply link_new.
    1, 2: split; cbn; try done; by split.
  - specialize (IH eq_refl). destruct Hst as [x x' y Ha|x y y' Ha]; cbn [fst snd] in *.
    + by eapply dinv_act.
    + apply dinv_sym. eapply dinv_act; try done. by apply dinv_sym.
Qed.

(** ** Properties *)

(** Two connections on an unreliable network transfer both streams: in
    every state that two fresh connections reach by the calls of their owners
    and the arrival of any of the segments the other one sent, in any order
    and any number of times, what each owner reads is a prefix of what the
    other one wrote; end of file means that the other end closed its stream
    and that all of it was read; and every further call returns: no assertion
    fails, no access is out of range, no loop runs forever. *)
Theorem duplex_safe (cfgx cfgy : TCPConfig) (rndx rndy : Z) (x y : endpoint) :
  usable cfgx -> usable cfgy -> duplex_steps (endpoint_new cfgx rndx, endpoint_new cfgy rndy) (x, y) ->
  delivered x y /\ delivered y x /\ responsive x (sent y) /\ responsive y (sent x).
Proof.
  intros Hx Hy Hst. pose proof (dinv_steps _ _ _ _ _ Hx Hy Hst) as H. cbn [fst snd] in H. pose proof (dinv_sym _ _ _ _ _ _ H) as H'.
  pose proof (first_isn_ok cfgx rndx Hx). pose proof (first_isn_ok cfgy rndy Hy).
  destruct Hx as (_ & _ & ? & ? & _), Hy as (_ & _ & ? & ? & _).
  split_and!; [exact (dinv_delivered _ _ _ _ _ _ H)|exact (dinv_delivered _ _ _ _ _ _ H')|..];
    (eapply dinv_responsive; [..|eassumption]; assumption).
Qed.

(** *** A run *)

(** The calls as data; a segment is named by its position in what the other
    end sent. *)
Inductive call : Type :=
  | do_connect
  | do_write (data : list byte)
  | do_end
  | do_tick (ms : Z)
  | do_segment (i : nat)
  | do_read (len : Z)
  | do_take (k : nat).

Definition perform (net : list (Z * Z * TCPSegment)) (e : endpoint) (k : call) : option endpoint :=
  match k with
  | do_connect => match connect (conn e) with Ok c => Some (called c e) | _ => None end
  | do_write data =>
      if negb (ended (sender_ (conn e))) && (zlen (written e) + zlen data + 2 <? M63) then
        match write (conn e) data with
        | Ok (n, c) => Some (called c (mkEndpoint (conn e) (written e ++ ztake n data) (read_bytes e) (sent e)))
        | _ => None
        end
      else None
  | do_end => match end_input_stream (conn e) with Ok c => Some (called c e) | _ => None end
  | do_tick ms =>
      match TCPSender.tick (sender_ (conn e)) ms, tick (conn e) ms with
      | Ok s, Ok c => if consecutive_retransmissions s <=? MAX_RETX_ATTEMPTS then Some (called c e) else None
      | _, _ => None
      end
  | do_segment i =>
      match net !! i with
      | Some (a, b, seg) =>
          if (abs_ack_no (receiver_ (conn e)) - a <=? M31) && (last_ack_no_ (sender_ (conn e)) - b <=? M31) then
            match segment_received (conn e) seg with Ok c => Some (called c e) | _ => None end
          else None
      | None => None
      end
  | do_read len =>
      if (0 <=? len) && (len <? M64) then
        match read_inbound (conn e) len with
        | Ok (l, c) => Some (mkEndpoint c (written e) (read_bytes e ++ l) (sent e))
        | _ => None
        end
      else None
  | do_take k =>
      Some (mkEndpoint (set_out (drop k (segments_out (conn e))) (conn e)) (written e) (read_bytes e) (sent e))
  end.

Lemma perform_act net e k e' : perform net e k = Some e' -> act net e e'.
Proof.
  destruct k; cbn [perform]; intros E; repeat case_match; simplify_eq; rewrite ?andb_true_iff, ?Z.leb_le, ?Z.ltb_lt, ?negb_true_iff in *.
  - by apply act_connect.
  - apply act_write; tauto.
  - by apply act_end.
  - by eapply act_tick.
  - eapply act_segment; [by eapply list_elem_of_lookup_2|tauto..].
  - by eapply act_read.
  - apply act_take.
Qed.

(** [true] is the left end. *)
Fixpoint run (d : endpoint * endpoint) (ks : list (bool * call)) : option (endpoint * endpoint) :=
  match ks with
  | [] => Some d
  | (true, k) :: ks => match perform (sent d.2) d.1 k with Some x => run (x, d.2) ks | None => None end
  | (false, k) :: ks => match perform (sent d.1) d.2 k with Some y => run (d.1, y) ks | None => None end
  end.

Lemma run_steps ks : forall d0 d d', duplex_steps d0 d -> run d ks = Some d' -> duplex_steps d0 d'.
Proof.
  induction ks as [|[b k] ks IH]; intros d0 [x y] d' Hs E; cbn [run fst snd] in E; [by injection E as <-|].
  destruct b; [destruct (perform (sent y) x k) as [z|] eqn:Ep|destruct (perform (sent x) y k) as [z|] eqn:Ep];
    try done; (eapply IH; [|exact E]; eapply duplex_more; [exact Hs|]; constructor; by eapply perform_act).
Qed.

(** A handshake, some bytes each way with the first of them lost and sent
    again, and the closing of the left stream. *)
Definition sample_script : list (bool * call) :=
  [(true, do_connect); (false, do_segment 0); (true, do_segment 0); (false, do_segment 1);
   (true, do_write [x61; x62]); (false, do_write [x63]); (true, do_tick 1000); (true, do_segment 1);
   (false, do_segment 3); (false, do_segment 2); (true, do_end); (false, do_segment 5); (false, do_read 9); (true, do_read 9)].

Definition sample_duplex : endpoint * endpoint := (endpoint_new (sample_cfg 4294967295) 0, endpoint_new (sample_cfg 100) 0).

Definition sample_final : endpoint * endpoint :=
  Eval vm_compute in match run sample_duplex sample_script with Some d => d | None => sample_duplex end.

Lemma sample_run : run sample_duplex sample_script = Some (sample_final.1, sample_final.2).
Proof. vm_compute. reflexivity. Qed.

Lemma sample_usable isn : 0 <= isn < M32 -> usable (sample_cfg isn).
Proof. intros. unfold usable; cbn. split_and!; try lia; done. Qed.

(** The left stream arrived whole, with its end; the right one is open. *)
Lemma duplex_safe_witness :
  let '(x, y) := sample_final in
  read_bytes y = [x61; x62] /\ eof (inbound_stream (conn y)) = true /\ read_bytes x = [x63]
  /\ delivered x y /\ delivered y x.
Proof.
  pose proof (duplex_safe (sample_cfg 4294967295) (sample_cfg 100) 0 0 sample_final.1 sample_final.2
    (sample_usable 4294967295 ltac:(lia)) (sample_usable 100 ltac:(lia))
    (run_steps _ _ _ _ (duplex_refl _) sample_run)) as (Hxy & Hyx & _).
  split_and!; [reflexivity|reflexivity|reflexivity|exact Hxy|exact Hyx].
Defined.
