(* ===== verification/Aborted.v ===== *)
(** * Senders and receivers whose streams are in error

    [unclean_shutdown] of libsponge/tcp_connection.cc sets the error flag of the
    two streams of a connection and leaves everything else; the sender and the
    receiver go on from there.  Here they are compared with a sender and a
    receiver without the flag.  A sender in error does the same, except that it
    sends no SYN and no FIN; a receiver in error handles the same segments,
    except that it expects them near the sequence number 0 and throws when it
    has not heard the SYN.  *)

From Stdlib Require Import ZArith Lia.
From S2P Require Import Prelude WrappingIntegers Ring ByteStream UnAssembleBuffer StreamReassembler Buffer Parser TCPHeader TCPSegment TCPReceiver TCPSender Transfer TCPState TCPConnection ConnectionStatus Duplex.

(** ** Streams *)

(** In error, and ended when [e]. *)
Definition flagged (e : bool) (bs : ByteStream) : ByteStream :=
  mkByteStream (ByteStream.buffer_ bs) (ByteStream.used_size_ bs) (ByteStream.start_pos_ bs) (bytes_read_ bs) (bytes_written_ bs) e true.

Lemma read_flagged e bs len l bs' :
  ByteStream.read bs len = Ok (l, bs') ->
  ByteStream.read (flagged e bs) len = Ok (l, flagged e bs') /\ input_ended_ bs' = input_ended_ bs.
Proof.
  unfold ByteStream.read. intros E. apply bind_Ok in E as (ret & Ep & E). apply bind_Ok in E as (b & Eb & E).
  injection E as <- <-. change (peek_output (flagged e bs) len) with (peek_output bs len). rewrite Ep.
  cbn [mbind res_bind]. unfold pop_output in *. apply bind_Ok in Eb as (start & Es & Eb). injection Eb as <-.
  change (ByteStream.capacity (flagged e bs)) with (ByteStream.capacity bs).
  cbn [ByteStream.used_size_ ByteStream.start_pos_ flagged]. by rewrite Es.
Qed.

Lemma write_flagged e bs data n bs' :
  ByteStream.write bs data = Ok (n, bs') ->
  ByteStream.write (flagged e bs) data = Ok (n, flagged e bs') /\ input_ended_ bs' = input_ended_ bs.
Proof.
  unfold ByteStream.write. change (remaining_capacity (flagged e bs)) with (remaining_capacity bs).
  destruct (_ =? 0); [by intros [= <- <-]|]. intros E. apply bind_Ok in E as (p & Ep & E).
  change (end_pos (flagged e bs)) with (end_pos bs). rewrite Ep. cbn [mbind res_bind].
  apply bind_Ok in E as (buf & Eb & E). change (ByteStream.capacity (flagged e bs)) with (ByteStream.capacity bs).
  cbn [ByteStream.buffer_ ByteStream.start_pos_ flagged]. rewrite Eb. cbn [mbind res_bind] in *. cbn [ByteStream.used_size_ flagged].
  destruct (assert_ _) as [[]|]; [|done]. cbn [mbind res_bind] in *. by injection E as <- <-.
Qed.

(** ** The receiver *)

Definition failed (r : TCPReceiver) : TCPReceiver := set_stream_out r (ByteStream.set_error (stream_out r)).
Definition failed_reassembler (sr : StreamReassembler) : StreamReassembler :=
  StreamReassembler.set_stream_out sr (ByteStream.set_error (output_ sr)).

Lemma push_failed sr data index e sr' :
  StreamReassembler.push_substring sr data index e = Ok sr' ->
  StreamReassembler.push_substring (failed_reassembler sr) data index e = Ok (failed_reassembler sr').
Proof.
  unfold StreamReassembler.push_substring. cbn [output_ failed_reassembler StreamReassembler.set_stream_out StreamReassembler.buffer_ StreamReassembler.capacity_ eof_index_].
  change (ByteStream.bytes_written (ByteStream.set_error (output_ sr))) with (ByteStream.bytes_written (output_ sr)).
  destruct (_ <? _); [by intros [= <-]|]. intros E. apply bind_Ok in E as ([sv idx] & Es & E). rewrite Es.
  cbn [mbind res_bind] in *. destruct (assert_ _) as [[]|]; [|done]. cbn [mbind res_bind] in *.
  set (sv' := if _ <? zlen sv then _ else sv) in *. apply bind_Ok in E as ([buf out] & Eo & E). injection E as <-.
  assert (forall x o, end_if_complete x (ByteStream.set_error o) = ByteStream.set_error (end_if_complete x o)) as Hend.
  { intros [x|] o; [|done]. cbn. change (ByteStream.bytes_written (ByteStream.set_error o)) with (ByteStream.bytes_written o).
    by destruct (_ =? _). }
  destruct (negb (bool_decide (sv' = []))).
  - apply bind_Ok in Eo as ([popped buf'] & Ep & Eo). rewrite Ep. cbn [mbind res_bind].
    destruct (negb (bool_decide (popped = []))).
    + apply bind_Ok in Eo as ([n out'] & Ew & Eo). injection Eo as <- <-.
      destruct (write_flagged (input_ended_ (output_ sr)) _ _ _ _ Ew) as [Ew' Hie].
      change (flagged (input_ended_ (output_ sr)) (output_ sr)) with (ByteStream.set_error (output_ sr)) in Ew'.
      rewrite Ew'. cbn [mbind res_bind]. rewrite <-Hie.
      change (flagged (input_ended_ out') out') with (ByteStream.set_error out'). by rewrite Hend.
    + injection Eo as <- <-. cbn [mbind res_bind]. by rewrite Hend.
  - injection Eo as <- <-. cbn [mbind res_bind]. by rewrite Hend.
Qed.

Lemma failed_fields r : TCPReceiver.state (failed r) = TCPReceiver.kError /\ abs_ack_no (failed r) = 0 /\ ackno (failed r) = Ok None.
Proof. unfold abs_ack_no, ackno. by assert (TCPReceiver.state (failed r) = TCPReceiver.kError) as ->. Qed.

Lemma failed_again r : failed (failed r) = failed r.
Proof. done. Qed.

Lemma failed_listen r seg :
  TCPReceiver.isn_ r = None -> TCPReceiver.segment_received (failed r) seg = Fail BadOptionalAccess.
Proof.
  intros Hi. unfold TCPReceiver.segment_received. destruct (failed_fields r) as [-> _].
  rewrite bool_decide_false by done. cbn [andb]. unfold isn_value. cbn. by rewrite Hi.
Qed.

(** What a receiver that has heard the SYN does with a segment near 0. *)
Lemma failed_segment S isn cap r dlv rcv fn seg r' :
  0 < cap < M63 -> zlen S + 2 * cap + 2 < M64 -> wi_ok isn -> rinv S isn cap r dlv rcv fn -> is_listen_ r = false ->
  TCPReceiver.segment_received r seg = Ok r' ->
  (exists index, carries S isn seg index /\ - M31 <= 1 + index - abs_ack_no r < M31 /\ 1 + index < M31) \/ pure_ack seg ->
  TCPReceiver.segment_received (failed r) seg = Ok (failed r').
Proof.
  intros Hc HS Hw [Hi _ _ Hri _] Hl E Hseg. rewrite Hl in Hri.
  destruct Hseg as [(index & Hca & Hnear & Hsmall)|Hp].
  - destruct (Hca) as [_ _ (Hx & _)].
    rewrite (push_heard S isn Hw r Hri Hl seg index Hca Hnear) in E by lia. apply bind_Ok in E as (sr & E & Er). injection Er as <-.
    rewrite (push_heard S isn Hw (failed r) Hri Hl seg index Hca); [|rewrite (proj1 (proj2 (failed_fields r))); lia|lia].
    change (reassembler_ (failed r)) with (failed_reassembler (reassembler_ r)). by rewrite (push_failed _ _ _ _ _ E).
  - rewrite (heard_ack S isn cap Hc HS Hw r dlv rcv fn Hi Hri Hl seg Hp) in E. injection E as <-.
    exact (heard_ack S isn cap Hc HS Hw (failed r) dlv rcv fn (inv_set_error S cap _ _ _ _ Hi) Hri Hl seg Hp).
Qed.

(** ** The sender *)

(** [g] with its stream in error, and more in the queue. *)
Definition disabled (e : bool) (pre : list TCPSegment) (g : TCPSender) : TCPSender :=
  set_segments_out (pre ++ TCPSender.segments_out_ g) (set_stream_in (flagged e (stream_ g)) g).

Definition mirrors (pre : list TCPSegment) (s g : TCPSender) : Prop :=
  exists e, s = disabled e pre g /\ (ended g = true -> e = true).

(** The end of its stream, once known, has been sent. *)
Definition sealed (g : TCPSender) : Prop :=
  ended g = true -> ByteStream.used_size_ (stream_ g) = 0 /\ TCPSender.state g <> TCPSender.kSynAcked.

Lemma fill_loop_mirrors e pre fuel : forall g g', sealed g -> fill_loop fuel g = Ok g' ->
  fill_loop fuel (disabled e pre g) = Ok (disabled e pre g') /\ ended g' = ended g.
Proof.
  induction fuel as [|fuel IH]; intros g g' Hse E; cbn [fill_loop] in *; [done|].
  change (free_window_size (disabled e pre g)) with (free_window_size g).
  destruct (free_window_size g =? 0); [by injection E as <-|].
  assert (TCPSender.state (disabled e pre g) = TCPSender.kError) as -> by done.
  rewrite (bool_decide_false (TCPSender.kError = TCPSender.kSynAcked)), !andb_false_r by done.
  assert (ByteStream.input_ended (stream_ g) && bool_decide (TCPSender.state g = TCPSender.kSynAcked) = false) as Hn.
  { destruct (ByteStream.input_ended (stream_ g)) eqn:Ei; [|done]. apply bool_decide_eq_false. by apply Hse. }
  rewrite Hn in E. cbn [negb] in *. rewrite andb_true_r in *.
  change (ByteStream.buffer_size (stream_ (disabled e pre g))) with (ByteStream.buffer_size (stream_ g)).
  destruct (Z.eqb_spec (ByteStream.buffer_size (stream_ g)) 0) as [|Hb]; [by injection E as <-|].
  change (stream_ (disabled e pre g)) with (flagged e (stream_ g)).
  apply bind_Ok in E as ([data bs] & Er & E). destruct (read_flagged e _ _ _ _ Er) as [-> Hie]. cbn [mbind res_bind].
  rewrite !andb_false_r in *.
  assert (ended g = false) as Hen by (destruct (ended g) eqn:He; [by destruct (Hse He)|done]).
  match type of E with fill_loop _ (send_segment ?s ?sg) = _ => set (seg := sg) in *; set (g1 := send_segment s seg) in * end.
  destruct (IH g1 g') as [IH1 IH2]; [|done|].
  - intros He. change (input_ended_ bs = true) in He. rewrite Hie in He. unfold ended in Hen. congruence.
  - split; [|rewrite IH2; exact Hie]. rewrite <-IH1. f_equal. subst g1. unfold send_segment, disabled, set_segments_out, set_stream_in.
    cbn. f_equal. by rewrite <-app_assoc.
Qed.

Lemma mirrors_fill pre s g g' : mirrors pre s g -> sealed g -> 1 <= next_seq_no_ g -> fill_window g = Ok g' ->
  exists s', fill_window s = Ok s' /\ mirrors pre s' g'.
Proof.
  intros (e & -> & He) Hse Hn E. unfold fill_window in *. rewrite bool_decide_false in E.
  - destruct (fill_loop_mirrors e pre _ _ _ Hse E) as [E' Ee]. exists (disabled e pre g'). split; [exact E'|].
    exists e. split; [done|]. by rewrite Ee.
  - unfold TCPSender.state. destruct (ByteStream.error _); [done|]. destruct (Z.eqb_spec (next_seq_no_ g) 0); [lia|].
    by repeat case_match.
Qed.

Lemma mirrors_ack pre s g n w : mirrors pre s g -> mirrors pre (ack_received s n w) (ack_received g n w).
Proof.
  intros (e & -> & He). exists e. unfold ack_received, disabled. cbn. destruct (_ || _).
  - by destruct (_ =? _).
  - by destruct (ack_loop _ _ _ _ _ _) as [[q fl] t].
Qed.

Lemma mirrors_tick pre s g ms g' : mirrors pre s g -> TCPSender.tick g ms = Ok g' ->
  exists s', TCPSender.tick s ms = Ok s' /\ mirrors pre s' g'.
Proof.
  intros (e & -> & He) E. unfold TCPSender.tick in *. cbn [timer_ disabled set_segments_out set_stream_in].
  destruct (negb _); [injection E as <-; eexists; split; [reflexivity|by exists e]|].
  cbn [outstanding_segments_ window_size_ retransmission_count_ disabled set_segments_out set_stream_in].
  destruct (outstanding_segments_ g) as [|front q]; [done|].
  destruct (if 0 <? window_size_ g then _ else _) as [count t]. injection E as <-.
  eexists. split; [reflexivity|]. exists e. split; [|done]. unfold disabled, set_segments_out, set_stream_in. cbn. by rewrite <-app_assoc.
Qed.

(** An answer, when it sends one. *)
Lemma mirrors_reply pre s g : mirrors pre s g ->
  exists b : bool, mirrors pre (send_empty_segment s) (if b then send_empty_segment g else g).
Proof.
  intros (e & -> & He). unfold send_empty_segment at 1. cbn [TCPSender.segments_out_ disabled set_segments_out].
  destruct pre as [|p pre]; [|by exists false, e]. cbn [app]. destruct (TCPSender.segments_out_ g) as [|x q] eqn:Eg.
  - exists true, e. unfold send_empty_segment. rewrite Eg. split; [|done]. unfold disabled, set_segments_out, set_stream_in. done.
  - exists false, e. split; [|done]. unfold disabled. by rewrite Eg.
Qed.

Lemma mirrors_end pre s g : mirrors pre s g -> mirrors pre (TCPSender.end_input s) g.
Proof. intros (e & -> & _). by exists true. Qed.

Lemma mirrors_write pre s g data n bs : mirrors pre s g -> ByteStream.write (stream_in g) data = Ok (n, bs) ->
  exists bs', ByteStream.write (stream_in s) data = Ok (n, bs') /\ mirrors pre (set_stream_in bs' s) (set_stream_in bs g).
Proof.
  intros (e & -> & He) E. destruct (write_flagged e _ _ _ _ E) as [E' Hie]. exists (flagged e bs). split; [exact E'|].
  exists e. split; [done|]. change (ended (set_stream_in bs g)) with (input_ended_ bs). by rewrite Hie.
Qed.

(** The error flag again changes nothing. *)
Lemma mirrors_error pre s g : mirrors pre s g -> set_stream_in (ByteStream.set_error (stream_in s)) s = s.
Proof. by intros (e & -> & _). Qed.

(** ** The transfer *)

Section transfer.
Context (isn : WrappingInt32) (cap : Z).
Context (Hcap : 0 < cap) (Hcap2 : 2 * cap < M63) (Hisn : wi_ok isn).

(** What is on the network, for a receiver in error. *)
Lemma wire_near sys rc fn a seg :
  sysinv isn cap sys rc fn -> (a, seg) ∈ sys_segments sys -> abs_ack_no (sys_receiver sys) - a <= M31 -> a < M31 ->
  (exists index, carries (sys_written sys) isn seg index /\ - M31 <= 1 + index - abs_ack_no (sys_receiver sys) < M31
     /\ 1 + index < M31) \/ pure_ack seg.
Proof using All.
  intros H Hin Hage Ha. pose proof (iv_net _ _ _ _ _ H) as Hn. rewrite Forall_forall in Hn.
  destruct (Hn _ Hin) as [(Hat & Hle & _)|Hp]; [left|by right]. cbn in *.
  exists (if syn (header seg) then 0 else a - 1). split; [by eapply (seg_at_carries isn cap Hcap Hcap2 Hisn)|].
  pose proof (si_acked _ _ (iv_snd _ _ _ _ _ H)). pose proof (iv_ack _ _ _ _ _ H). destruct Hat as [_ Hl Hs _].
  destruct (syn (header seg)); [destruct Hs as (-> & _)|]; lia.
Qed.

(** A sender that has not sent the end of its stream may be one that does not
    know it. *)
Definition reopened (s : TCPSender) : TCPSender :=
  set_stream_in (mkByteStream (ByteStream.buffer_ (stream_ s)) (ByteStream.used_size_ (stream_ s)) (ByteStream.start_pos_ (stream_ s))
    (bytes_read_ (stream_ s)) (bytes_written_ (stream_ s)) false (error_ (stream_ s))) s.

Lemma seg_at_reopened hist e a seg :
  zlen hist < M63 -> a + seg_len seg <= zlen hist + 1 -> seg_at isn hist e a seg -> seg_at isn hist false a seg.
Proof using.
  intros Hb Hle [Hq Hl Hs Hf]. split; try done. intros Hfin. destruct (Hf Hfin) as [_ Hend].
  pose proof (zlen_nonneg (str (payload seg))). destruct (syn (header seg)) eqn:Esy; [destruct Hs as (_ & _ & ?); congruence|].
  rewrite (seg_len_eq seg), Hfin, Esy in Hle by lia. lia.
Qed.

Lemma contiguous_reopened hist e b q : forall a, zlen hist < M63 -> b <= zlen hist + 1 ->
  contiguous isn hist e a q b -> contiguous isn hist false a q b.
Proof using.
  induction q as [|seg q IH]; intros a Hb Hle; cbn; [done|]. intros [Hat Hq].
  destruct (contiguous_le _ _ _ _ _ _ Hq) as [Hle' _]. split; [apply (seg_at_reopened _ e); lia || done|by apply IH].
Qed.

Lemma sysinv_reopened sys rc fn :
  sysinv isn cap sys rc fn -> next_seq_no_ (sys_sender sys) <> zlen (sys_written sys) + 2 ->
  sysinv isn cap (mkSystem (reopened (sys_sender sys)) (sys_receiver sys) (sys_written sys) (sys_read sys) (sys_segments sys)
    (sys_acks sys)) rc fn.
Proof using All.
  intros H Hne. pose proof (next_seq_range _ _ (iv_snd _ _ _ _ _ H)) as Hrg. pose proof (si_bound _ _ (iv_snd _ _ _ _ _ H)) as Hbd.
  destruct (room isn cap Hcap Hcap2 Hisn _ _ (iv_snd _ _ _ _ _ H)) as [Hc HS].
  destruct H as [Hs Hi Ho Hr Hf Hl Hk Ha Hw Hq Hn Hac].
  assert (fn = false) as -> by (destruct fn; [by destruct (Hf eq_refl)|done]).
  assert (abs_ack_no (sys_receiver sys) <= zlen (sys_written sys) + 1) as Hab.
  { destruct (state_spec _ _ _ Hc HS Hisn _ _ _ _ Hr) as [_ ->]. destruct (written_range _ _ _ Hc HS Hisn _ _ _ _ Hr) as [_ Hnx].
    pose proof (zlen_nonneg (sys_written sys)). destruct (is_listen_ _); cbn; lia. }
  split; cbn [sys_sender sys_receiver sys_written sys_read sys_segments sys_acks]; try done.
  - destruct Hs as [S1 S2 S3 S4 S5 S6 S7 S8 S9 S10 S11 S12 S13 S14 S15 S16]. split; try done.
    + by destruct S1.
    + destruct S8 as [?|[?|(? & _)]]; [by left|by right; left|done].
    + change (isn_ (reopened (sys_sender sys))) with (isn_ (sys_sender sys)). rewrite Hi in *.
      apply (contiguous_reopened _ (ended (sys_sender sys))); [lia|cbn; lia|exact S12].
  - left. destruct Hw as [?|[Hw _]]; [done|]. pose proof (si_acked _ _ Hs). lia.
  - eapply Forall_impl; [exact Hn|]. intros p [(Hat & Hle & Hft)|?]; [left|by right].
    split_and!; try done. apply (seg_at_reopened _ (ended (sys_sender sys))); [lia|lia|done].
  - eapply Forall_impl; [exact Hac|]. intros [[b n] w] (? & ? & ? & Hx). split_and!; try done; lia.
Qed.
End transfer.

(** ** Connections that have opened *)

(** Nothing was heard and nothing sent again before the SYN was sent. *)
Definition opened (c : TCPConnection) : Prop :=
  next_seq_no_ (sender_ c) = 0 -> is_listen_ (receiver_ c) = true /\ retransmission_count_ (sender_ c) = 0.

Lemma fill_opens s hist s' : sinv s hist -> fill_window s = Ok s' -> 1 <= next_seq_no_ s'.
Proof.
  intros H E. pose proof (si_acked _ _ H). destruct (Z.eqb_spec (next_seq_no_ s) 0) as [E0|].
  - unfold fill_window in E. rewrite (state_cases s hist H), E0, bool_decide_true in E by done. injection E as <-. cbn. by rewrite E0.
  - destruct (fill_window_spec s hist H) as (s1 & nw & E1 & _ & Hex & _). rewrite E in E1. injection E1 as <-.
    pose proof (ex_next _ _ _ Hex). lia.
Qed.

Lemma enqueue_next c c' : enqueue_segments c = Ok c' ->
  next_seq_no_ (sender_ c') = next_seq_no_ (sender_ c) /\ retransmission_count_ (sender_ c') = retransmission_count_ (sender_ c)
  /\ is_listen_ (receiver_ c') = is_listen_ (receiver_ c).
Proof. intros E. apply bind_Ok in E as ([q out] & _ & E). by injection E as <-. Qed.

Lemma fill_enqueue_opened s hist c c' :
  sinv s hist -> (s' ← fill_window s; enqueue_segments (set_sender s' c)) = Ok c' -> opened c'.
Proof.
  intros Hs E. apply bind_Ok in E as (s' & Ef & E). apply enqueue_next in E as (Hn & _). apply (fill_opens _ _ _ Hs) in Ef.
  cbn in Hn. intros H0. lia.
Qed.

Lemma opened_tick s hist ms s' :
  sinv s hist -> TCPSender.tick s ms = Ok s' -> next_seq_no_ s = 0 ->
  next_seq_no_ s' = next_seq_no_ s /\ retransmission_count_ s' = retransmission_count_ s.
Proof.
  intros H E H0. pose proof (si_acked _ _ H). assert (outstanding_segments_ s = []) as Ho by (apply (base_front s hist H); lia).
  pose proof (si_timer _ _ H) as Ht. rewrite Ho, bool_decide_false in Ht by auto.
  unfold TCPSender.tick, timer_tick, expired in E. rewrite Ht in E. cbn [negb andb] in E. rewrite Ht in E. by injection E as <-.
Qed.

Lemma segment_opened c seg hist c' :
  sinv (sender_ c) hist -> (ack (header seg) = true -> 0 <= win (header seg) < M16) -> rst (header seg) = false ->
  opened c -> segment_received c seg = Ok c' -> opened c'.
Proof.
  intros Hs Hw Hr Ho E. unfold segment_received in E. destruct (_ && _ && _); [by injection E as <-|].
  rewrite Hr in E. apply bind_Ok in E as (r & _ & E). set (c1 := set_receiver r (set_ms 0 c)) in E.
  set (c2 := if ack (header seg) then _ else c1) in E.
  assert (sinv (sender_ c2) hist) as H2 by (subst c2; destruct (ack _); [by apply sinv_ack; auto|done]).
  set (c3 := if _ && _ then _ else c2) in E.
  assert (sender_ c3 = sender_ c2) as H3.
  { subst c3. destruct (_ && _); [|done]. unfold try_clean_shutdown. by destruct (_ || _). }
  rewrite H3 in E. apply bind_Ok in E as (s & Ef & E). apply bind_Ok in E as (b & _ & E).
  apply (fill_opens _ _ _ H2) in Ef. apply enqueue_next in E as (Hn & _).
  destruct (try_clean_shutdown_fields (if b then set_sender (send_empty_segment (sender_ (set_sender s c3))) (set_sender s c3)
    else set_sender s c3)) as (_ & _ & F & _). rewrite F in Hn.
  intros H0. rewrite Hn in H0. destruct b; cbn in H0; [|lia]. unfold send_empty_segment in H0.
  destruct (TCPSender.segments_out_ s); cbn in H0; lia.
Qed.

(** The window field of what is on the network. *)
Lemma sent_ok_window segs acks a b seg :
  sent_ok segs acks (a, b, seg) -> rst (header seg) = false /\ (ack (header seg) = true -> 0 <= win (header seg) < M16).
Proof.
  intros (_ & _ & raw & o & w & _ & [Ha Hr] & E & _). cbn in E. subst seg. rewrite stamped_rst. split; [done|].
  destruct o as [n|]; cbn; [|congruence]. intros _. apply u16_range.
Qed.

Lemma opened_act isnx capx isny capy x x' y :
  dinv isnx capx isny capy x y -> opened (conn x) -> act (sent y) x x' -> opened (conn x').
Proof.
  intros (sx & ax & sy & ay & rcx & fnx & rcy & fny & H1 & _ & _ & Hy) Ho Hact.
  pose proof (iv_snd _ _ _ _ _ H1) as Hs. cbn [link sys_sender sys_written] in Hs.
  destruct Hact as [c E|data n c He Hb E|c E|ms s c Es Hm E|a b seg c Hin Ha Hb E|len l c Hl E|k]; cbn [conn called].
  - by apply (fill_enqueue_opened (sender_ (conn x)) (written x) (conn x)).
  - unfold write in E. apply bind_Ok in E as ([m bs] & Ew & E). cbn [sender_ set_sender] in E.
    apply bind_Ok in E as (s & Ef & E). apply bind_Ok in E as (c0 & Ee & E). injection E as -> ->.
    apply enqueue_next in Ee as (Hn & _). pose proof (sinv_write _ _ _ _ _ Hs He Hb Ew) as Hs'.
    apply (fill_opens _ _ _ Hs') in Ef. intros H0. cbn in Hn. lia.
  - eapply (fill_enqueue_opened (TCPSender.end_input (sender_ (conn x))) (written x)); [by apply sinv_end|exact E].
  - intros H0. unfold tick in E. cbn [sender_ set_ms] in E. rewrite Es in E. cbn [mbind res_bind sender_ set_sender] in E.
    rewrite (proj2 (Z.ltb_ge _ _) Hm) in E. apply enqueue_next in E as (Hn & Hc & Hli).
    destruct (try_clean_shutdown_fields (set_sender s (set_ms (u64 (ms_since_last_recv_ (conn x) + ms)) (conn x)))) as (_ & F2 & F3 & _).
    rewrite F3 in Hn, Hc. rewrite F2 in Hli. cbn in Hn, Hc, Hli.
    assert (next_seq_no_ s = next_seq_no_ (sender_ (conn x))) as E0 by (unfold TCPSender.tick in Es; repeat case_match; by simplify_eq/=).
    destruct (opened_tick _ _ _ _ Hs Es) as [_ Hr]; [lia|]. rewrite Hli, Hc, Hr. apply Ho. lia.
  - pose proof (calm_sent _ _ _ Hy) as Hok. rewrite Forall_forall in Hok. destruct (sent_ok_window _ _ _ _ _ (Hok _ Hin)) as [Hr Hw].
    by eapply segment_opened.
  - unfold read_inbound in E. apply bind_Ok in E as ([s out] & _ & E). injection E as <- <-. exact Ho.
  - exact Ho.
Qed.

(** ** The transfers go on

    [s] is what the sender of [g] has become, with what it queued, and [r] its
    receiver; of the queue, [new] gets on the network, without acknowledgments. *)
Definition frozen (r : TCPReceiver) (s : TCPSender) (c : TCPConnection) : TCPConnection :=
  mkTCPConnection (cfg_ c) r s 0 [] false false false.

Definition late (s : TCPSender) (seg : TCPSegment) : Z * Z * TCPSegment :=
  (unwrap (seqno (header seg)) (isn_ s) (last_ack_no_ s), 0, seg).

Lemma dinv_late isnx capx isny capy g y s0 s r w l sx ax sy ay rcx fnx rcy fny new :
  sysinv isnx capy (post s (mkSystem s0 (receiver_ (conn y)) w (read_bytes y) sx ay)) rcx fnx ->
  sysinv isny capx (mkSystem (sender_ (conn y)) r (written y) l sy ax) rcy fny ->
  sender_plain s -> Forall (sent_ok sx ax) (sent g) -> calm y sy ay -> new ⊆ TCPSender.segments_out_ s ->
  dinv isnx capx isny capy
    (mkEndpoint (frozen r (set_segments_out [] s) (conn g)) w l (sent g ++ map (late s) new)) y.
Proof.
  intros H1 H2 Hp Hs Hy Hn.
  exists (sx ++ map (stamp s) (TCPSender.segments_out_ s)), ax, sy, ay, rcx, fnx, rcy, fny.
  split_and!; [exact H1|exact H2| |exact Hy]. split; cbn; try done.
  - by apply sent_nothing_plain.
  - apply Forall_app. split.
    + eapply Forall_impl; [exact Hs|]. intros p. apply sent_ok_more; [by apply list_subseteq_app_l|done].
    + apply Forall_forall. intros p (seg & -> & Hin)%list_elem_of_fmap. apply Hn in Hin.
      split_and!; [|done|].
      * unfold late, unwrap. cbn [fst snd]. destruct (if _ <? _ then _ else _) as [u v]. destruct (_ || _); apply u64_range.
      * exists seg, None, 0. split_and!; try done; [|destruct Hp as [Hp _]; rewrite Forall_forall in Hp; by apply Hp].
        apply elem_of_app. right. apply list_elem_of_fmap. by exists seg.
Qed.
