(* ===== verification/Resets.v ===== *)
(** * Two connections, each of which may abort the transfer

    In Duplex.v neither connection gives up.  Here a tick may find that there
    were too many retransmissions ([TCPConnection::tick] of
    libsponge/tcp_connection.cc): the connection sets both of its streams to
    the error state and queues a segment with the RST flag, which the network
    may deliver to the other connection, at any time and any number of times,
    and which aborts that one as well, unless it is still listening.  An owner
    may also destroy its connection at any moment.

    All the calls can be made on an aborted connection too, and what it then
    sends may arrive as well.  The arrival of a segment at an aborted connection
    that has not heard the SYN throws; every other call returns.

    The proof follows the two transfers with shadows: an aborted connection is,
    up to the two error flags (Aborted.v), a connection of Duplex.v that sends no
    acknowledgments any more. *)

From Stdlib Require Import ZArith Lia.
From S2P Require Import Prelude WrappingIntegers Ring ByteStream UnAssembleBuffer StreamReassembler Buffer Parser TCPHeader TCPSegment TCPReceiver TCPSender Transfer TCPState TCPConnection ConnectionStatus ConnectionLife Duplex Aborted.

(** ** The system *)

(** A connection with its owner; [present] until the owner destroys it.
    [resets] are the segments with the RST flag it has queued. *)
Record party : Type := mkParty {
  ep : endpoint;
  present : bool;
  resets : list TCPSegment
}.

Definition aborted (p : party) : bool := ByteStream.error (inbound_stream (conn (ep p))).
Definition gave_up (p : party) : Prop := resets p <> [].

(** The same owner with another connection state. *)
Definition with_conn (c : TCPConnection) (e : endpoint) : endpoint := mkEndpoint c (written e) (read_bytes e) (sent e).
Definition with_ep (e : endpoint) (p : party) : party := mkParty e (present p) (resets p).

(** After a call that may have queued resets. *)
Definition called_aborted (c : TCPConnection) (p : party) : party :=
  let queued := drop (length (segments_out (conn (ep p)))) (segments_out c) in
  mkParty (mkEndpoint c (written (ep p)) (read_bytes (ep p))
             (sent (ep p) ++ map (labelled c) (filter (fun seg => rst (header seg) = false) queued)))
    (present p) (resets p ++ filter (fun seg => rst (header seg) = true) queued).

(** A segment that is not 2^31 sequence numbers away from where an aborted
    connection expects it: the receiver, in error, starts from 0. *)
Definition in_reach (c : TCPConnection) (a b : Z) (seg : TCPSegment) : Prop :=
  a < M31 /\ bytes_written (inbound_stream c) + 2 - a <= M31 /\ (ack (header seg) = true -> last_ack_no_ (sender_ c) - b <= M31).

(** What one owner does; [q] is the other end.  The calls of Duplex.v, the tick
    that gives up, the arrival of a reset, and the calls on an aborted
    connection.  The reset that the destructor queues goes with the queue. *)
Inductive move (q p : party) : party -> Prop :=
  | move_act e :
      present p = true -> aborted p = false -> act (sent (ep q)) (ep p) e -> move q p (with_ep e p)
  | move_give_up ms s c :
      present p = true -> aborted p = false ->
      TCPSender.tick (sender_ (conn (ep p))) ms = Ok s -> MAX_RETX_ATTEMPTS < consecutive_retransmissions s ->
      tick (conn (ep p)) ms = Ok c -> move q p (called_aborted c p)
  | move_reset seg c :
      present p = true -> seg ∈ resets q -> segment_received (conn (ep p)) seg = Ok c ->
      move q p (with_ep (with_conn c (ep p)) p)
  | move_connect c :
      present p = true -> aborted p = true -> connect (conn (ep p)) = Ok c -> move q p (called_aborted c p)
  | move_write data n c :
      present p = true -> aborted p = true ->
      ended (sender_ (conn (ep p))) = false -> zlen (written (ep p)) + zlen data + 2 < M63 ->
      write (conn (ep p)) data = Ok (n, c) ->
      move q p (called_aborted c
        (with_ep (mkEndpoint (conn (ep p)) (written (ep p) ++ ztake n data) (read_bytes (ep p)) (sent (ep p))) p))
  | move_end c :
      present p = true -> aborted p = true -> end_input_stream (conn (ep p)) = Ok c -> move q p (called_aborted c p)
  | move_tick ms c :
      present p = true -> aborted p = true -> tick (conn (ep p)) ms = Ok c -> move q p (called_aborted c p)
  | move_segment a b seg c :
      present p = true -> aborted p = true -> (a, b, seg) ∈ sent (ep q) -> in_reach (conn (ep p)) a b seg ->
      segment_received (conn (ep p)) seg = Ok c -> move q p (called_aborted c p)
  | move_read len l c :
      present p = true -> aborted p = true -> 0 <= len < M64 -> read_inbound (conn (ep p)) len = Ok (l, c) ->
      move q p (with_ep (mkEndpoint c (written (ep p)) (read_bytes (ep p) ++ l) (sent (ep p))) p)
  | move_take k :
      present p = true -> aborted p = true ->
      move q p (with_ep (with_conn (set_out (drop k (segments_out (conn (ep p)))) (conn (ep p))) (ep p)) p)
  | move_destroy c :
      present p = true -> destroy (conn (ep p)) = Ok c -> move q p (mkParty (ep p) false (resets p)).

Inductive moves : party * party -> party * party -> Prop :=
  | moves_refl d : moves d d
  | moves_left d p p' q : moves d (p, q) -> move q p p' -> moves d (p', q)
  | moves_right d p q q' : moves d (p, q) -> move p q q' -> moves d (p, q').

Definition party_new (cfg : TCPConfig) (rnd : Z) : party := mkParty (endpoint_new cfg rnd) true [].

(** *** What is promised *)

(** What an aborted connection answers: every call returns, except that a
    segment makes it throw when it was aborted before it heard the SYN. *)
Definition answers_aborted (p q : party) : Prop :=
  let c := conn (ep p) in
  (exists c', connect c = Ok c') /\ (exists c', end_input_stream c = Ok c')
  /\ (forall ms, exists c', tick c ms = Ok c')
  /\ (forall data, ended (sender_ c) = false -> zlen (written (ep p)) + zlen data + 2 < M63 ->
        exists n c', write c data = Ok (n, c'))
  /\ (forall len, 0 <= len < M64 -> exists l c', read_inbound c len = Ok (l, c'))
  /\ (forall a b seg, (a, b, seg) ∈ sent (ep q) -> in_reach c a b seg ->
        if is_listen_ (receiver_ c) then segment_received c seg = Fail BadOptionalAccess
        else exists c', segment_received c seg = Ok c').

(** The arrival of a reset returns, and aborts the connection unless it is
    listening.  Every other call returns too while the connection is not
    aborted; once it is aborted it is inactive and in the state RESET. *)
Definition answers_owner (p q : party) : Prop :=
  (forall seg, seg ∈ resets q -> exists c, segment_received (conn (ep p)) seg = Ok c
     /\ (c = conn (ep p) \/ ByteStream.error (inbound_stream c) = true))
  /\ (if aborted p
      then active (conn (ep p)) = false /\ state_eqb (state (conn (ep p))) (of_state RESET) = true /\ answers_aborted p q
      else responsive (ep p) (sent (ep q)))
  /\ exists c, destroy (conn (ep p)) = Ok c.

(** ** Shadows *)

(** [x] is aborted; but for the error flags it is [g]. *)
Record shadow (g x : endpoint) : Prop := {
  sh_written : written x = written g;
  sh_read : read_bytes x = read_bytes g;
  sh_sent : sent x = sent g;
  sh_receiver : receiver_ (conn x) = failed (receiver_ (conn g));
  sh_sender : exists pre, mirrors pre (sender_ (conn x)) (sender_ (conn g)) /\ (need_send_rst_ (conn x) = false -> pre = []);
  sh_sealed : ended (sender_ (conn g)) = true -> next_seq_no_ (sender_ (conn g)) = zlen (written g) + 2;
  sh_open : 1 <= next_seq_no_ (sender_ (conn g));
  sh_active : active_ (conn x) = false;
  sh_linger : linger_after_stream_finish_ (conn x) = false
}.

Definition stands_for (g : endpoint) (p : party) : Prop := if aborted p then shadow g (ep p) else ep p = g.

Lemma shadow_reset g x : shadow g x -> state_eqb (state (conn x)) (of_state RESET) = true.
Proof.
  intros [_ _ _ Hr (pre & (e & Hs & _) & _) _ _ Ha Hl]. apply state_eqb_eq. unfold state, active. rewrite Ha, Hl.
  unfold summary, sender_summary, receiver_summary. rewrite Hr, (proj1 (failed_fields _)), Hs. done.
Qed.

Lemma shadow_aborted g p : shadow g (ep p) -> aborted p = true.
Proof. intros H. unfold aborted, inbound_stream. by rewrite (sh_receiver _ _ H). Qed.

Lemma stands_shadow g p : shadow g (ep p) -> stands_for g p.
Proof. intros H. unfold stands_for. by rewrite (shadow_aborted g p H). Qed.

Lemma stands_sent g p : stands_for g p -> sent (ep p) = sent g.
Proof. unfold stands_for. destruct (aborted p); [apply sh_sent|by intros ->]. Qed.

Lemma shadow_ended g x : shadow g x -> ended (sender_ (conn g)) = true -> ended (sender_ (conn x)) = true.
Proof. intros [_ _ _ _ (pre & (e & -> & He) & _) _ _ _ _] H. exact (He H). Qed.

Lemma shadow_delivered gx gy p q :
  stands_for gx p -> stands_for gy q -> delivered gx gy -> delivered (ep p) (ep q).
Proof.
  unfold stands_for, delivered. intros Hp Hq [Hd He].
  assert (written (ep p) = written gx /\ (ended (sender_ (conn gx)) = true -> ended (sender_ (conn (ep p))) = true)) as [-> Hen].
  { destruct (aborted p); [split; [apply Hp|by apply shadow_ended]|by subst]. }
  assert (read_bytes (ep q) = read_bytes gy /\ contents (inbound_stream (conn (ep q))) = contents (inbound_stream (conn gy))
    /\ eof (inbound_stream (conn (ep q))) = eof (inbound_stream (conn gy))) as (-> & -> & ->).
  { destruct (aborted q); [|by subst]. unfold inbound_stream. rewrite (sh_receiver _ _ Hq). split_and!; [apply Hq|done|done]. }
  split; [done|]. intros Hf. destruct (He Hf). auto.
Qed.

(** *** What is queued *)

(** The segment that was made a reset stays in the sender's queue: the next
    call queues it, without its payload, once more. *)
Theorem reset_queued_again (c : TCPConnection) (seg : TCPSegment) (q : list TCPSegment) :
  need_send_rst_ c = true -> TCPSender.segments_out_ (sender_ c) = seg :: q ->
  exists c1 c2, enqueue_segments c = Ok c1 /\ enqueue_segments c1 = Ok c2
    /\ segments_out c2 = segments_out c ++ map (fun s => set_header (set_rst true (header s)) s) [seg; moved_from seg].
Proof.
  intros Hr Hq. rewrite (enqueue_rst c seg q Hr Hq). eexists _, _. split; [reflexivity|].
  rewrite (enqueue_rst _ (moved_from seg) q) by done. split; [reflexivity|]. cbn. by rewrite <-app_assoc.
Qed.

(** The new part of the queue of a call that queued only resets, or none. *)
Lemma called_resets c p new :
  segments_out c = segments_out (conn (ep p)) ++ new -> Forall (fun seg => rst (header seg) = true) new ->
  called_aborted c p = mkParty (with_conn c (ep p)) (present p) (resets p ++ new).
Proof.
  intros E Hn. unfold called_aborted, with_conn. rewrite E, drop_app_length. cbv zeta. f_equal; [f_equal|f_equal].
  - assert (filter (fun seg => rst (header seg) = false) new = []) as ->; [|by rewrite app_nil_r].
    clear E. induction Hn as [|seg l Hs _ IH]; [done|]. rewrite filter_cons_False by congruence. done.
  - clear E. induction Hn as [|seg l Hs _ IH]; [done|]. rewrite filter_cons_True by done. by rewrite IH.
Qed.

Lemma called_plain c p new :
  segments_out c = segments_out (conn (ep p)) ++ new -> Forall plain new ->
  called_aborted c p = mkParty (mkEndpoint c (written (ep p)) (read_bytes (ep p)) (sent (ep p) ++ map (labelled c) new))
    (present p) (resets p).
Proof.
  intros E Hn. unfold called_aborted. rewrite E, drop_app_length. cbv zeta.
  assert (filter (fun seg => rst (header seg) = false) new = new /\ filter (fun seg => rst (header seg) = true) new = []) as [-> ->].
  { clear E. induction Hn as [|seg l [_ Hs] _ [IH1 IH2]]; [done|].
    by rewrite filter_cons_True, filter_cons_False, IH1, IH2 by congruence. }
  by rewrite app_nil_r.
Qed.

(** ** Calls on an aborted connection *)

(** The sender of [c] mirrors [s]; [c] is what a call on the aborted [x] has made
    of its connection so far. *)
Record going (x : endpoint) (c : TCPConnection) (s : TCPSender) : Prop := {
  go_sender : exists pre, mirrors pre (sender_ c) s /\ (need_send_rst_ c = false -> pre = []);
  go_sealed : ended s = true -> next_seq_no_ s = zlen (written x) + 2;
  go_open : 1 <= next_seq_no_ s;
  go_plain : sender_plain s;
  go_active : active_ c = false;
  go_linger : linger_after_stream_finish_ c = false;
  go_queue : segments_out c = segments_out (conn x)
}.

Lemma going_try x c s : going x c s -> going x (try_clean_shutdown c) s.
Proof. intros []. unfold try_clean_shutdown. by destruct (_ || _). Qed.

(** Changes of the connection that the sender does not see. *)
Lemma going_fields x c c' s :
  sender_ c' = sender_ c -> need_send_rst_ c' = need_send_rst_ c -> active_ c' = active_ c ->
  linger_after_stream_finish_ c' = linger_after_stream_finish_ c -> segments_out c' = segments_out c -> going x c s -> going x c' s.
Proof. intros E1 E2 E3 E4 E5 []. split; rewrite ?E1, ?E2, ?E3, ?E4, ?E5; done. Qed.

Lemma sealed_ends s w : sinv s w -> (ended s = true -> next_seq_no_ s = zlen w + 2) -> sealed s.
Proof.
  intros H Hse He. specialize (Hse He). pose proof (ByteStream.wf_used _ (si_stream _ _ H)). pose proof (si_sent _ _ H).
  pose proof (si_flight _ _ H). split.
  - destruct (si_next _ _ H) as [[? ?]|[?|(? & ? & _)]]; pose proof (zlen_nonneg w); lia.
  - rewrite (state_cases s w H), Hse. rewrite Z.ltb_irrefl. by repeat case_match.
Qed.

Section late.
Context (isnx isny : WrappingInt32) (capx capy : Z).
Context (Hcapx : 0 < capx) (Hcapx2 : 2 * capx < M63) (Hisnx : wi_ok isnx).
Context (Hcapy : 0 < capy) (Hcapy2 : 2 * capy < M63) (Hisny : wi_ok isny).

(** What becomes of an aborted connection: a shadow of it goes on, and it may
    queue more resets. *)
Definition goes_on (y x : endpoint) : Prop := exists g, dinv isnx capx isny capy g y /\ shadow g x.
Definition survives (y : endpoint) (p p' : party) : Prop :=
  goes_on y (ep p') /\ present p' = present p
  /\ exists more, resets p' = resets p ++ more /\ Forall (fun seg => rst (header seg) = true) more.

(** The two transfers that [x], with the shadow [g], takes part in, when its
    sender is [s] with what it queued and its receiver is [r]. *)
Definition transfers (g x y : endpoint) (s0 s : TCPSender) (r : TCPReceiver) : Prop :=
  exists sx ax sy ay rcx fnx rcy fny,
    sysinv isnx capy (post s (mkSystem s0 (receiver_ (conn y)) (written x) (read_bytes y) sx ay)) rcx fnx
    /\ sysinv isny capx (mkSystem (sender_ (conn y)) r (written y) (read_bytes x) sy ax) rcy fny
    /\ Forall (sent_ok sx ax) (sent g) /\ calm y sy ay /\ sent x = sent g.

Lemma late_goes_on g x y s0 s r c new pre e :
  transfers g x y s0 s r -> sender_plain s -> (ended s = true -> next_seq_no_ s = zlen (written x) + 2) -> 1 <= next_seq_no_ s ->
  (ended s = true -> e = true) -> sender_ c = disabled e pre (set_segments_out [] s) -> receiver_ c = failed r ->
  active_ c = false -> linger_after_stream_finish_ c = false -> (need_send_rst_ c = false -> pre = []) ->
  new ⊆ TCPSender.segments_out_ s ->
  goes_on y (mkEndpoint c (written x) (read_bytes x) (sent x ++ map (late s) new)).
Proof using.
  intros (sx & ax & sy & ay & rcx & fnx & rcy & fny & H1 & H2 & Hg & Hy & Hx) Hp Hse Hop He Es Er Ha Hl Hn Hsub. eexists. split.
  - by eapply (dinv_late isnx capx isny capy g y s0 s r _ _ sx ax sy ay rcx fnx rcy fny new).
  - split; cbn; try done; [by rewrite Hx|]. exists pre. split; [|done]. by exists e.
Qed.

(** All calls end in [enqueue_segments]. *)
Lemma late_flush g p y c s0 s r :
  transfers g (ep p) y s0 s r -> receiver_ c = failed r -> going (ep p) c s ->
  exists c', enqueue_segments c = Ok c' /\ survives y p (called_aborted c' p).
Proof using.
  intros Ht Hr [(pre & (e & Hs & He) & Hpre) Hse Hop Hp Ha Hl Hq].
  destruct (need_send_rst_ c) eqn:En.
  - assert (forall c' new pre', Forall (fun seg => rst (header seg) = true) new -> segments_out c' = segments_out c ++ new ->
      need_send_rst_ c' = true -> receiver_ c' = failed r -> active_ c' = false -> linger_after_stream_finish_ c' = false ->
      sender_ c' = disabled e pre' (set_segments_out [] s) -> survives y p (called_aborted c' p)) as Hend.
    { intros c' new pre' Hf Eo En' Er' Ha' Hl' Es'. rewrite (called_resets c' p new) by congruence.
      split_and!; [|done|by exists new]. unfold with_conn. rewrite <-(app_nil_r (sent (ep p))).
      apply (late_goes_on g (ep p) y s0 s r c' [] pre' e); try done; [congruence|by apply list_subseteq_nil]. }
    destruct (TCPSender.segments_out_ (sender_ c)) as [|seg q] eqn:Eq.
    + exists (set_out (segments_out_ c) (set_sender (set_segments_out [] (sender_ c)) c)). split.
      { unfold enqueue_segments, TCPSender.segments_out. by rewrite En, Eq. }
      apply (Hend _ [] []); try done; [cbn; by rewrite app_nil_r|cbn; by rewrite Hs].
    + rewrite (enqueue_rst c seg q En Eq). eexists. split; [reflexivity|].
      apply (Hend _ [set_header (set_rst true (header seg)) seg] (moved_from seg :: q)); try done; [by constructor|].
      cbn. rewrite Hs. unfold disabled, set_segments_out, set_stream_in. cbn. by rewrite app_nil_r.
  - rewrite (Hpre eq_refl) in Hs. assert (TCPSender.segments_out_ (sender_ c) = TCPSender.segments_out_ s) as Eq by (by rewrite Hs).
    assert (ackno (receiver_ c) = Ok None) as Hak by (rewrite Hr; apply failed_fields).
    rewrite (enqueue_ok c None Hak En), Eq. set (c' := set_out _ _). exists c'. split; [reflexivity|].
    assert (map (stamped None (window_size (receiver_ c))) (TCPSender.segments_out_ s) = TCPSender.segments_out_ s) as Em by apply map_id.
    rewrite (called_plain c' p (TCPSender.segments_out_ s)); [|cbn; rewrite Em; by rewrite <-Hq|apply Hp].
    split_and!; [|done|exists []; by rewrite app_nil_r]. cbn [ep].
    assert (map (labelled c') (TCPSender.segments_out_ s) = map (late s) (TCPSender.segments_out_ s)) as ->.
    { apply map_ext. intros seg. unfold labelled, late. cbn. rewrite Hr, (proj1 (proj2 (failed_fields r))), Hs. done. }
    apply (late_goes_on g (ep p) y s0 s r c' (TCPSender.segments_out_ s) [] e); try done. cbn. by rewrite Hs.
Qed.

Lemma late_fill x c s ry l sx ay rcx fnx :
  sysinv isnx capy (mkSystem s ry (written x) l sx ay) rcx fnx -> going x c s ->
  exists sc s', fill_window (sender_ c) = Ok sc /\ sysinv isnx capy (post s' (mkSystem s ry (written x) l sx ay)) rcx fnx
    /\ going x (set_sender sc c) s'.
Proof using All.
  intros H [(pre & Hm & Hpre) Hse Hop Hp Ha Hl Hq]. pose proof (iv_snd _ _ _ _ _ H) as Hs. cbn [sys_sender sys_written] in Hs.
  destruct (sysinv_fill isnx capy Hcapy Hcapy2 Hisnx _ _ _ H) as (s' & nw & E & H' & Hex & _). cbn [sys_sender] in *.
  destruct (mirrors_fill pre _ s s' Hm (sealed_ends _ _ Hs Hse) Hop E) as (sc & Ec & Hm'). exists sc, s'. split_and!; try done.
  pose proof (ex_next _ _ _ Hex). pose proof (next_seq_range _ _ (iv_snd _ _ _ _ _ H')) as Hrg. cbn in Hrg.
  split; try done; [by exists pre| |lia|by eapply fill_window_plain]. rewrite (ex_ended _ _ _ Hex). intros He. specialize (Hse He). lia.
Qed.

Lemma going_start g x y : dinv isnx capx isny capy g y -> shadow g x -> going x (conn x) (sender_ (conn g)).
Proof using.
  intros (sx & ax & sy & ay & rcx & fnx & rcy & fny & _ & _ & Hc & _) [W R Se Rc Sd Sl Op Ac Li].
  split; try done; [by rewrite W|apply Hc].
Qed.

(** The calls that fill the window and flush. *)
Lemma late_fill_flush g p y c s r sx ax sy ay rcx fnx rcy fny :
  sysinv isnx capy (mkSystem s (receiver_ (conn y)) (written (ep p)) (read_bytes y) sx ay) rcx fnx ->
  sysinv isny capx (mkSystem (sender_ (conn y)) r (written y) (read_bytes (ep p)) sy ax) rcy fny ->
  Forall (sent_ok sx ax) (sent g) -> calm y sy ay -> sent (ep p) = sent g -> receiver_ c = failed r -> going (ep p) c s ->
  exists c', (sc ← fill_window (sender_ c); enqueue_segments (set_sender sc c)) = Ok c' /\ survives y p (called_aborted c' p).
Proof using All.
  intros H1 H2 Hg Hy Hx Hr Hgo. destruct (late_fill _ _ _ _ _ _ _ _ _ H1 Hgo) as (sc & s' & -> & H1' & Hgo'). cbn [mbind res_bind].
  eapply (late_flush g p y (set_sender sc c) s s' r); try done. by exists sx, ax, sy, ay, rcx, fnx, rcy, fny.
Qed.

(** An answer, when it is sent. *)
Lemma going_reply x c s : going x c s ->
  exists b : bool, going x (set_sender (send_empty_segment (sender_ c)) c) (if b then send_empty_segment s else s).
Proof using.
  intros [(pre & Hm & Hn) Hse Hop Hp Ha Hl Hq]. destruct (mirrors_reply pre _ _ Hm) as [b Hm']. exists b.
  assert (ended (if b then send_empty_segment s else s) = ended s
    /\ next_seq_no_ (if b then send_empty_segment s else s) = next_seq_no_ s) as [Eb1 Eb2].
  { destruct b; [|done]. unfold send_empty_segment. by destruct (TCPSender.segments_out_ s). }
  split; rewrite ?Eb1, ?Eb2; try done; [by exists pre|]. destruct b; [by apply send_empty_plain|done].
Qed.

Lemma transfers_reply g x y s0 s r (b : bool) :
  transfers g x y s0 s r -> transfers g x y s0 (if b then send_empty_segment s else s) r.
Proof using All.
  intros (sx & ax & sy & ay & rcx & fnx & rcy & fny & H1 & H2 & Hg & Hy & Hx). exists sx, ax, sy, ay, rcx, fnx, rcy, fny.
  split_and!; try done. by apply (sysinv_reply_segment isnx isny capx capy).
Qed.

Lemma late_connect g p y :
  dinv isnx capx isny capy g y -> shadow g (ep p) ->
  exists c, connect (conn (ep p)) = Ok c /\ survives y p (called_aborted c p).
Proof using All.
  intros Hd Hsh. pose proof (going_start _ _ _ Hd Hsh) as Hgo. destruct Hd as (sx & ax & sy & ay & rcx & fnx & rcy & fny & H1 & H2 & Hc & Hy).
  destruct Hsh as [W R Se Rc _ _ _ _ _]. unfold link in H1, H2. rewrite <-W in H1. rewrite <-R in H2.
  by apply (late_fill_flush g p y (conn (ep p)) _ _ _ _ _ _ _ _ _ _ H1 H2 (calm_sent _ _ _ Hc) Hy).
Qed.

Lemma late_end g p y :
  dinv isnx capx isny capy g y -> shadow g (ep p) ->
  exists c, end_input_stream (conn (ep p)) = Ok c /\ survives y p (called_aborted c p).
Proof using All.
  intros Hd Hsh. pose proof (going_start _ _ _ Hd Hsh) as Hgo. destruct Hd as (sx & ax & sy & ay & rcx & fnx & rcy & fny & H1 & H2 & Hc & Hy).
  destruct Hsh as [W R Se Rc _ _ _ _ _]. unfold link in H1, H2. rewrite <-W in H1. rewrite <-R in H2.
  apply (late_fill_flush g p y (set_sender (TCPSender.end_input (sender_ (conn (ep p)))) (conn (ep p))) _ _ _ _ _ _ _ _ _ _
    H1 H2 (calm_sent _ _ _ Hc) Hy Se Rc).
  destruct Hgo as [(pre & Hm & Hn) ? ? ? ? ? ?]. split; try done. exists pre. split; [by apply mirrors_end|done].
Qed.

Lemma late_write g p y data :
  dinv isnx capx isny capy g y -> shadow g (ep p) -> ended (sender_ (conn (ep p))) = false ->
  zlen (written (ep p)) + zlen data + 2 < M63 ->
  exists n c, let p1 := with_ep (mkEndpoint (conn (ep p)) (written (ep p) ++ ztake n data) (read_bytes (ep p)) (sent (ep p))) p in
    write (conn (ep p)) data = Ok (n, c) /\ survives y p1 (called_aborted c p1).
Proof using All.
  intros Hd Hsh Hen Hb. pose proof (going_start _ _ _ Hd Hsh) as Hgo. pose proof (shadow_ended _ _ Hsh) as Heg.
  destruct Hd as (sx & ax & sy & ay & rcx & fnx & rcy & fny & H1 & H2 & Hc & Hy).
  destruct Hsh as [W R Se Rc _ _ _ _ _]. unfold link in H1, H2. rewrite <-W in H1. rewrite <-R in H2.
  assert (ended (sender_ (conn g)) = false) as Heg' by (destruct (ended (sender_ (conn g))); [by rewrite Heg in Hen|done]).
  destruct (write_contents (stream_in (sender_ (conn g))) data (si_stream _ _ (iv_snd _ _ _ _ _ H1))) as (bs & E & _).
  set (n := zlen (accepted _ _)) in *. pose proof (sysinv_write isnx capy Hcapy Hcapy2 Hisnx _ _ _ _ _ _ H1 Heg' Hb E) as H1'.
  destruct (Hgo) as [(pre & Hm & Hn) Hse Hop Hp Ha Hl Hq]. destruct (mirrors_write pre _ _ _ _ _ Hm E) as (bs' & E' & Hm').
  set (p1 := with_ep (mkEndpoint (conn (ep p)) (written (ep p) ++ ztake n data) (read_bytes (ep p)) (sent (ep p))) p).
  destruct (late_fill_flush g p1 y (set_sender (set_stream_in bs' (sender_ (conn (ep p)))) (conn (ep p))) _ _ _ _ _ _ _ _ _ _
    H1' H2 (calm_sent _ _ _ Hc) Hy Se Rc) as (c & Ec & Hs).
  { split; try done; [by exists pre|]. destruct (write_flagged false _ _ _ _ E) as [_ Hie]. intros He.
    change (input_ended_ bs = true) in He. unfold ended in Heg'. change (stream_in (sender_ (conn g))) with (stream_ (sender_ (conn g))) in Hie. congruence. }
  exists n, c. cbv zeta. split; [|exact Hs]. unfold write. rewrite E'. cbn [mbind res_bind]. apply bind_Ok in Ec as (sc & Ef & Ec).
  cbn [sender_ set_sender] in *. rewrite Ef. cbn [mbind res_bind]. by rewrite Ec.
Qed.

Lemma late_tick g p y ms :
  dinv isnx capx isny capy g y -> shadow g (ep p) ->
  exists c, tick (conn (ep p)) ms = Ok c /\ survives y p (called_aborted c p).
Proof using All.
  intros Hd Hsh. pose proof (going_start _ _ _ Hd Hsh) as Hgo. destruct Hd as (sx & ax & sy & ay & rcx & fnx & rcy & fny & H1 & H2 & Hc & Hy).
  destruct Hsh as [W R Se Rc _ _ _ _ _]. unfold link in H1, H2. rewrite <-W in H1. rewrite <-R in H2.
  destruct (sysinv_tick isnx capy Hcapy Hcapy2 Hisnx _ _ _ ms H1) as (s & E & H1'). cbn [sys_sender] in E.
  destruct (Hgo) as [(pre & Hm & Hn) Hse Hop Hp Ha Hl Hq]. destruct (mirrors_tick pre _ _ _ _ Hm E) as (sc & Ec & Hm').
  destruct (tick_fields isnx capy Hcapy Hcapy2 Hisnx _ _ _ E) as (_ & En & _ & _ & _ & Ee & _).
  unfold tick. cbn [sender_ set_ms]. rewrite Ec. cbn [mbind res_bind sender_ set_sender]. set (c0 := set_sender sc _).
  assert (going (ep p) c0 s) as Hg0.
  { split; try done; [by exists pre|by rewrite Ee, En|by rewrite En|by eapply tick_plain]. }
  assert (transfers g (ep p) y (sender_ (conn g)) s (receiver_ (conn g))) as Ht by (exists sx, ax, sy, ay, rcx, fnx, rcy, fny; split_and!; try done; apply Hc).
  destruct (MAX_RETX_ATTEMPTS <? _).
  - set (c1 := set_need_rst true (unclean_shutdown c0)).
    assert (going (ep p) c1 s) as Hg1.
    { destruct Hg0. split; try done. exists pre. split; [|done].
      assert (sender_ c1 = sc) as -> by exact (mirrors_error _ _ _ Hm'). done. }
    destruct (going_reply _ _ _ Hg1) as [b Hg2].
    eapply (late_flush g p y _ (sender_ (conn g)) (if b then send_empty_segment s else s) (receiver_ (conn g))); [|cbn; rewrite Rc; apply failed_again|exact Hg2].
    by apply transfers_reply.
  - eapply (late_flush g p y (try_clean_shutdown c0) (sender_ (conn g)) s (receiver_ (conn g)) Ht); [|by apply going_try].
    destruct (try_clean_shutdown_fields c0) as (_ & -> & _). exact Rc.
Qed.

(** What the receiver makes of a segment of the other end. *)
Lemma late_receive g y sy ax rcy fny a b seg ay :
  sysinv isny capx (link y g sy ax) rcy fny -> sent_ok sy ay (a, b, seg) -> a < M31 ->
  bytes_written (inbound_stream (conn g)) + 2 - a <= M31 ->
  if is_listen_ (receiver_ (conn g)) then TCPReceiver.segment_received (failed (receiver_ (conn g))) seg = Fail BadOptionalAccess
  else exists r rcy' fny', TCPReceiver.segment_received (failed (receiver_ (conn g))) seg = Ok (failed r)
    /\ sysinv isny capx (mkSystem (sender_ (conn y)) r (written y) (read_bytes g) sy ax) rcy' fny'.
Proof using All.
  intros H (_ & _ & raw & o & w & Hraw & _ & E & _) Ha Hbw. cbn [fst snd] in *. subst seg. rewrite stamped_receive.
  destruct (room isny capx Hcapx Hcapx2 Hisny _ _ (iv_snd _ _ _ _ _ H)) as [Hc HS]. pose proof (iv_rcv _ _ _ _ _ H) as Hr.
  cbn [link sys_receiver sys_written sys_read] in Hr. destruct (is_listen_ (receiver_ (conn g))) eqn:Hl.
  { apply failed_listen. by rewrite (ri_isn _ _ _ _ _ _ _ Hr), Hl. }
  assert (abs_ack_no (receiver_ (conn g)) - a <= M31) as Hage.
  { destruct (state_spec _ _ _ Hc HS Hisny _ _ _ _ Hr) as [_ ->]. rewrite Hl.
    change (bytes_written (inbound_stream (conn g))) with (next (reassembler_ (receiver_ (conn g)))) in Hbw. destruct (fny && _); lia. }
  destruct (sysinv_deliver isny capx Hcapx Hcapx2 Hisny _ _ _ a raw H Hraw Hage) as (r & rcy' & fny' & Er & H').
  exists r, rcy', fny'. split; [|exact H'].
  eapply (failed_segment _ _ _ _ _ _ _ _ _ Hc HS Hisny Hr Hl Er).
  exact (wire_near isny capx Hcapx Hcapx2 Hisny _ _ _ a raw H Hraw Hage Ha).
Qed.

(** The sender's half. *)
Lemma late_ack g p y sx sy ay rcx fnx a b seg c :
  sysinv isnx capy (link g y sx ay) rcx fnx -> sent_ok sy ay (a, b, seg) ->
  (ack (header seg) = true -> last_ack_no_ (sender_ (conn g)) - b <= M31) -> written (ep p) = written g ->
  going (ep p) c (sender_ (conn g)) ->
  exists s, sysinv isnx capy (mkSystem s (receiver_ (conn y)) (written (ep p)) (read_bytes y) sx ay) rcx fnx
    /\ going (ep p) (if ack (header seg)
         then set_sender (ack_received (sender_ c) (TCPHeader.ackno (header seg)) (win (header seg))) c else c) s.
Proof using All.
  intros H Hok Hage Hw Hgo. rewrite Hw. destruct (Hgo) as [(pre & Hm & Hn) Hse Hop Hp Ha Hl Hq].
  destruct (ack (header seg)) eqn:Eack; [|by exists (sender_ (conn g))].
  destruct (duplex_ack isnx isny capx capy Hcapx Hcapx2 Hisnx Hcapy Hcapy2 Hisny g y sx sy ay rcx fnx a b seg H Hok (Hage eq_refl) Hp)
    as [H' Hp']. rewrite Eack in H', Hp'. eexists. split; [exact H'|].
  assert (ended (ack_received (sender_ (conn g)) (TCPHeader.ackno (header seg)) (win (header seg))) = ended (sender_ (conn g))
    /\ next_seq_no_ (ack_received (sender_ (conn g)) (TCPHeader.ackno (header seg)) (win (header seg))) = next_seq_no_ (sender_ (conn g)))
    as [E1 E2] by (unfold ack_received; repeat case_match; done).
  split; rewrite ?E1, ?E2; try done. exists pre. split; [by apply mirrors_ack|done].
Qed.

Lemma late_segment g p y a b seg :
  dinv isnx capx isny capy g y -> shadow g (ep p) -> (a, b, seg) ∈ sent y -> in_reach (conn (ep p)) a b seg ->
  if is_listen_ (receiver_ (conn (ep p))) then segment_received (conn (ep p)) seg = Fail BadOptionalAccess
  else exists c, segment_received (conn (ep p)) seg = Ok c /\ survives y p (called_aborted c p).
Proof using All.
  intros Hd Hsh Hin (Ha & Hbw & Hage). pose proof (going_start _ _ _ Hd Hsh) as Hgo.
  destruct Hd as (sx & ax & sy & ay & rcx & fnx & rcy & fny & H1 & H2 & Hc & Hy).
  pose proof (calm_sent _ _ _ Hy) as Hok. rewrite Forall_forall in Hok. specialize (Hok _ Hin).
  destruct Hsh as [W R Se Rc (pre0 & (e0 & Hs0 & _) & _) _ _ _ _]. unfold inbound_stream in Hbw. rewrite Rc in Hbw. rewrite Hs0 in Hage.
  pose proof (late_receive g y sy ax rcy fny a b seg ay H2 Hok Ha Hbw) as Hrec. rewrite Rc.
  change (is_listen_ (failed (receiver_ (conn g)))) with (is_listen_ (receiver_ (conn g))).
  unfold segment_received. rewrite Rc, (proj1 (failed_fields _)), (bool_decide_false (TCPReceiver.kError = TCPReceiver.kListen)) by done.
  cbn [andb]. rewrite (proj1 (sent_ok_window _ _ _ _ _ Hok)). cbn [receiver_ set_ms]. rewrite Rc.
  destruct (is_listen_ (receiver_ (conn g))); [by rewrite Hrec|]. destruct Hrec as (r & rcy' & fny' & -> & H2'). cbn [mbind res_bind].
  set (c1 := set_receiver (failed r) (set_ms 0 (conn (ep p)))).
  assert (going (ep p) c1 (sender_ (conn g))) as Hg1 by (by apply (going_fields _ (conn (ep p)))).
  destruct (late_ack g p y sx sy ay rcx fnx a b seg c1 H1 Hok Hage W Hg1) as (s & H1' & Hg2).
  set (c2 := if ack (header seg) then _ else c1) in *.
  assert (receiver_ c2 = failed r) as R2 by (subst c2; by destruct (ack (header seg))). clearbody c2.
  rewrite R2, (proj1 (failed_fields r)), (bool_decide_false (TCPReceiver.kError = TCPReceiver.kFinRecv)) by done. cbn [andb].
  destruct (late_fill _ _ _ _ _ _ _ _ _ H1' Hg2) as (sc & s' & -> & H3 & Hg3). cbn [mbind res_bind].
  assert (exists rep, wants_reply (set_sender sc c2) seg = Ok rep) as [rep ->].
  { unfold wants_reply. destruct (_ <? _); [eauto|]. cbn [receiver_ set_sender].
    rewrite R2, (proj1 (failed_fields r)), bool_decide_false by done. eauto. }
  cbn [mbind res_bind]. assert (transfers g (ep p) y s s' r) as Ht.
  { exists sx, ax, sy, ay, rcx, fnx, rcy', fny'. split_and!; try done; [by rewrite R|apply Hc]. }
  set (c3 := if rep : bool then _ else _).
  assert (receiver_ c3 = failed r) as R3 by (subst c3; by destruct rep).
  assert (exists b', going (ep p) c3 (if b' : bool then send_empty_segment s' else s')) as [b' Hg4].
  { subst c3. destruct rep; [by apply going_reply|by exists false]. }
  clearbody c3. eapply (late_flush g p y _ s _ r); [exact (transfers_reply _ _ _ _ _ _ b' Ht)| |by apply going_try].
  destruct (try_clean_shutdown_fields c3) as (_ & -> & _). exact R3.
Qed.

(** A reset changes nothing any more. *)
Lemma late_rst g x seg :
  shadow g x -> rst (header seg) = true ->
  exists c, segment_received (conn x) seg = Ok c /\ ByteStream.error (inbound_stream c) = true /\ shadow g (with_conn c x).
Proof using.
  intros [W R Se Rc (pre & Hm & Hn) Sl Op Ac Li] Hr. unfold segment_received.
  rewrite Rc, (proj1 (failed_fields _)), (bool_decide_false (TCPReceiver.kError = TCPReceiver.kListen)) by done. cbn [andb]. rewrite Hr.
  eexists. split_and!; [reflexivity|done|]. split; cbn; try done; [by rewrite Rc; apply failed_again|].
  exists pre. split; [|done]. rewrite (mirrors_error _ _ _ Hm). exact Hm.
Qed.

(** Reading from an aborted connection is reading from its shadow. *)
Lemma late_read g x y len :
  dinv isnx capx isny capy g y -> shadow g x -> 0 <= len < M64 ->
  exists l c, read_inbound (conn x) len = Ok (l, c) /\ goes_on y (mkEndpoint c (written x) (read_bytes x ++ l) (sent x)).
Proof using All.
  intros H [W R Se Rc Sd Sl Op Ac Li] Hlen.
  destruct (duplex_read _ _ _ _ Hcapx Hcapx2 Hisnx Hcapy Hcapy2 Hisny g y len H Hlen) as (l & c' & E & Hd).
  unfold read_inbound in E. apply bind_Ok in E as ([s out] & E & E'). injection E' as -> <-.
  destruct (read_flagged (input_ended_ (inbound_stream (conn g))) _ _ _ _ E) as [Er Hie].
  unfold read_inbound, inbound_stream. rewrite Rc.
  change (stream_out (failed (receiver_ (conn g)))) with (flagged (input_ended_ (inbound_stream (conn g))) (inbound_stream (conn g))).
  rewrite Er. cbn [mbind res_bind]. eexists l, _. split; [reflexivity|]. eexists. split; [exact Hd|].
  split; cbn; try done; [by rewrite R|]. rewrite <-Hie. reflexivity.
Qed.

(** *** Where a connection becomes aborted *)

Lemma sysinv_settled sys rc fn :
  sysinv isnx capy sys rc fn ->
  exists s, sysinv isnx capy (mkSystem s (sys_receiver sys) (sys_written sys) (sys_read sys) (sys_segments sys) (sys_acks sys)) rc fn
    /\ (forall pre sc, mirrors pre sc (sys_sender sys) -> mirrors pre sc s)
    /\ (ended s = true -> next_seq_no_ s = zlen (sys_written sys) + 2)
    /\ next_seq_no_ s = next_seq_no_ (sys_sender sys) /\ (sender_plain (sys_sender sys) -> sender_plain s).
Proof using All.
  intros H. destruct (Z.eq_dec (next_seq_no_ (sys_sender sys)) (zlen (sys_written sys) + 2)) as [E|E].
  - exists (sys_sender sys). split_and!; try done. by destruct sys.
  - exists (reopened (sys_sender sys)). split_and!; try done; [by apply sysinv_reopened|].
    intros pre sc (e & -> & _). by exists e.
Qed.

Lemma becomes_aborted x y c s pre sx ax sy ay rcx fnx rcy fny :
  sysinv isnx capy (mkSystem s (receiver_ (conn y)) (written x) (read_bytes y) sx ay) rcx fnx ->
  sysinv isny capx (link y x sy ax) rcy fny -> sender_plain s -> Forall (sent_ok sx ax) (sent x) -> calm y sy ay ->
  receiver_ c = failed (receiver_ (conn x)) -> mirrors pre (sender_ c) s -> (need_send_rst_ c = false -> pre = []) ->
  active_ c = false -> linger_after_stream_finish_ c = false -> 1 <= next_seq_no_ s -> goes_on y (with_conn c x).
Proof using All.
  intros H1 H2 Hp Hx Hy Hr Hm Hpre Ha Hl Hop. destruct (sysinv_settled _ _ _ H1) as (s' & H1' & Hm' & Hse & Hn & Hp').
  cbn [sys_sender sys_receiver sys_written sys_read sys_segments sys_acks] in *.
  exists (mkEndpoint (frozen (receiver_ (conn x)) s' (conn x)) (written x) (read_bytes x) (sent x)). split.
  - exists sx, ax, sy, ay, rcx, fnx, rcy, fny. split_and!; [exact H1'|exact H2| |exact Hy]. split; cbn; try done. by apply Hp'.
  - split; cbn; try done; [|by rewrite Hn]. exists pre. split; [by apply Hm'|done].
Qed.

(** A reset arrives at a connection of Duplex.v. *)
Lemma reset_arrives x y seg :
  dinv isnx capx isny capy x y -> opened (conn x) -> rst (header seg) = true ->
  exists c, segment_received (conn x) seg = Ok c
    /\ (c = conn x \/ ByteStream.error (inbound_stream c) = true /\ goes_on y (with_conn c x)).
Proof using All.
  intros (sx & ax & sy & ay & rcx & fnx & rcy & fny & H1 & H2 & Hc & Hy) Hop Hr. unfold segment_received.
  destruct (_ && _ && _) eqn:Eig; [eauto|]. rewrite Hr. eexists. split; [reflexivity|]. right. split; [done|].
  eapply (becomes_aborted x y _ (sender_ (conn x)) [] sx ax sy ay rcx fnx rcy fny); try done; try apply Hc; [by exists (ended (sender_ (conn x)))|].
  - pose proof (iv_snd _ _ _ _ _ H1) as Hs. cbn in Hs. pose proof (next_seq_range _ _ Hs).
    destruct (Z.eqb_spec (next_seq_no_ (sender_ (conn x))) 0) as [E0|]; [|lia]. destruct (Hop E0) as [Hl _].
    destruct (room isny capx Hcapx Hcapx2 Hisny _ _ (iv_snd _ _ _ _ _ H2)) as [Hc1 HS].
    destruct (state_spec _ _ _ Hc1 HS Hisny _ _ _ _ (iv_rcv _ _ _ _ _ H2)) as [Hst _]. cbn [link sys_receiver] in Hst. rewrite Hl in Hst.
    rewrite Hst, (state_cases _ _ Hs), E0, Hr, orb_true_r in Eig. rewrite !bool_decide_true in Eig by done. discriminate Eig.
Qed.

(** The tick that gives up. *)
Lemma tick_gives_up x y ms s c :
  dinv isnx capx isny capy x y -> opened (conn x) ->
  TCPSender.tick (sender_ (conn x)) ms = Ok s -> MAX_RETX_ATTEMPTS < consecutive_retransmissions s ->
  tick (conn x) ms = Ok c ->
  goes_on y (with_conn c x)
  /\ exists seg, segments_out c = segments_out (conn x) ++ [seg] /\ rst (header seg) = true.
Proof using All.
  intros (sx & ax & sy & ay & rcx & fnx & rcy & fny & H1 & H2 & Hc & Hy) Hop Es Hm E.
  pose proof (iv_snd _ _ _ _ _ H1) as Hs. cbn [link sys_sender sys_written] in Hs. pose proof (next_seq_range _ _ Hs) as Hrg.
  destruct (sysinv_tick isnx capy Hcapy Hcapy2 Hisnx _ _ _ ms H1) as (s1 & Es1 & H1'). cbn [link sys_sender] in Es1.
  rewrite Es in Es1. injection Es1 as <-.
  assert (1 <= next_seq_no_ s) as Hn.
  { destruct (tick_fields isnx capy Hcapy Hcapy2 Hisnx _ _ _ Es) as (_ & -> & _).
    destruct (Z.eqb_spec (next_seq_no_ (sender_ (conn x))) 0) as [E0|]; [|lia].
    destruct (opened_tick _ _ _ _ Hs Es E0) as [_ Hcn]. destruct (Hop E0) as [_ H0].
    unfold consecutive_retransmissions in Hm. rewrite Hcn, H0 in Hm. discriminate Hm. }
  unfold tick in E. cbn [sender_ set_ms] in E. rewrite Es in E. cbn [mbind res_bind sender_ set_sender] in E.
  rewrite (proj2 (Z.ltb_lt _ _) Hm) in E. set (c1 := set_need_rst true _) in E.
  destruct (TCPSender.segments_out_ (send_empty_segment (sender_ c1))) as [|seg q] eqn:Eq.
  { unfold send_empty_segment in Eq. destruct (TCPSender.segments_out_ (sender_ c1)) eqn:Eo; [done|]. by rewrite Eo in Eq. }
  rewrite (enqueue_rst (set_sender (send_empty_segment (sender_ c1)) c1) seg q eq_refl Eq) in E. injection E as <-. split; [|by eexists].
  assert (exists q0, send_empty_segment (sender_ c1) = set_segments_out q0 (sender_ c1)) as [q0 Eq0].
  { unfold send_empty_segment. destruct (TCPSender.segments_out_ (sender_ c1)) as [|z q0] eqn:Eo; [by eexists|].
    exists (z :: q0). rewrite <-Eo. by destruct (sender_ c1). }
  eapply (becomes_aborted x y _ (set_segments_out [] s) (moved_from seg :: q) _ ax sy ay rcx fnx rcy fny H1' H2); try done.
  - apply sent_nothing_plain. by eapply tick_plain; [apply Hc|].
  - eapply Forall_impl; [apply Hc|]. intros z. apply sent_ok_more; [by apply list_subseteq_app_l|done].
  - exists (ended s). split; [|done]. transitivity (set_segments_out (moved_from seg :: q) (send_empty_segment (sender_ c1))); [reflexivity|]. rewrite Eq0.
    unfold disabled, set_segments_out, set_stream_in. cbn. by rewrite app_nil_r.
Qed.
End late.

(** ** The invariant *)

(** [p] and its shadow [g]. *)
Record follows (g : endpoint) (p : party) : Prop := {
  fo_stands : stands_for g p;
  fo_open : aborted p = false -> opened (conn g);
  fo_resets : Forall (fun seg => rst (header seg) = true) (resets p);
  fo_gave_up : gave_up p -> aborted p = true
}.

(** [isnx], [capx] belong to [p]. *)
Definition inv (isnx : WrappingInt32) (capx : Z) (isny : WrappingInt32) (capy : Z) (p q : party) : Prop :=
  exists gx gy, dinv isnx capx isny capy gx gy /\ follows gx p /\ follows gy q
    /\ (aborted p = true \/ aborted q = true -> gave_up p \/ gave_up q).

Lemma inv_sym isnx capx isny capy p q : inv isnx capx isny capy p q -> inv isny capy isnx capx q p.
Proof. intros (gx & gy & Hd & ? & ? & Ha). exists gy, gx. split_and!; try done; [by apply dinv_sym|tauto]. Qed.

(** A party that is not aborted is its shadow. *)
Lemma follows_up g p : follows g p -> aborted p = false -> ep p = g /\ resets p = [] /\ opened (conn g).
Proof.
  intros [H1 H2 _ H4] Hno. unfold stands_for in H1. rewrite Hno in H1. split_and!; [done| |auto].
  destruct (resets p) eqn:E; [done|]. unfold gave_up in H4. rewrite E in H4. rewrite H4 in Hno by done. done.
Qed.

Lemma follows_down g p : follows g p -> aborted p = true -> shadow g (ep p).
Proof. intros [H1 _ _ _] Hyes. unfold stands_for in H1. by rewrite Hyes in H1. Qed.

Section resets.
Context (isnx isny : WrappingInt32) (capx capy : Z).
Context (Hcapx : 0 < capx) (Hcapx2 : 2 * capx < M63) (Hisnx : wi_ok isnx).
Context (Hcapy : 0 < capy) (Hcapy2 : 2 * capy < M63) (Hisny : wi_ok isny).

(** A connection of Duplex.v has no error. *)
Lemma dinv_no_error x y : dinv isnx capx isny capy x y -> ByteStream.error (inbound_stream (conn x)) = false.
Proof using. intros (? & ? & ? & ? & ? & ? & ? & ? & _ & H2 & _). destruct (iv_rcv _ _ _ _ _ H2) as [_ _ He _ _]. exact He. Qed.

(** An aborted party and its shadow. *)
Lemma follows_shadow g p : shadow g (ep p) -> Forall (fun seg => rst (header seg) = true) (resets p) -> follows g p.
Proof using. intros Hsh Hr. pose proof (shadow_aborted _ _ Hsh) as Ha. split; [by apply stands_shadow|congruence|done|done]. Qed.

(** *** The moves *)

Lemma move_up_act p q e :
  inv isnx capx isny capy p q -> aborted p = false -> act (sent (ep q)) (ep p) e -> inv isnx capx isny capy (with_ep e p) q.
Proof using All.
  intros (gx & gy & Hd & Hp & Hq & Hab) Hno Ha. destruct (follows_up _ _ Hp Hno) as (<- & Hrs & Hop).
  rewrite (stands_sent _ _ (fo_stands _ _ Hq)) in Ha.
  pose proof (dinv_act _ _ _ _ Hcapx Hcapx2 Hisnx Hcapy Hcapy2 Hisny _ _ _ Hd Ha) as Hd'.
  assert (aborted (with_ep e p) = false) as Hno' by exact (dinv_no_error _ _ Hd').
  exists e, gy. rewrite Hno'. split_and!; try done.
  - split; [unfold stands_for; by rewrite Hno'|intros _; exact (opened_act _ _ _ _ _ _ _ Hd Hop Ha)|cbn; by rewrite Hrs|unfold gave_up; cbn; by rewrite Hrs].
  - intros [?|?]; [done|]. unfold gave_up. cbn. apply Hab. by right.
Qed.

(** A party that is, or becomes, aborted. *)
Lemma move_down p q p' more gx gy :
  follows gx p -> follows gy q -> (aborted p = true \/ aborted q = true -> gave_up p \/ gave_up q) ->
  goes_on isnx isny capx capy gy (ep p') ->
  resets p' = resets p ++ more -> Forall (fun seg => rst (header seg) = true) more ->
  (aborted p = true \/ gave_up q \/ more <> []) -> inv isnx capx isny capy p' q.
Proof using.
  intros Hp Hq Hab (g & Hd & Hsh) Hr Hm Hwhy. exists g, gy. split_and!; try done.
  - apply follows_shadow; [done|]. rewrite Hr. apply Forall_app. split; [apply Hp|done].
  - intros _. unfold gave_up in *. rewrite Hr. destruct Hwhy as [Hy|[?|?]]; [|by right|left; by destruct (resets p), more].
    destruct (Hab (or_introl Hy)) as [?|?]; [left; by destruct (resets p)|by right].
Qed.

Lemma move_survives p q p' :
  inv isnx capx isny capy p q -> aborted p = true ->
  (forall gx gy, dinv isnx capx isny capy gx gy -> shadow gx (ep p) -> sent (ep q) = sent gy ->
     survives isnx isny capx capy gy p p') ->
  inv isnx capx isny capy p' q.
Proof using.
  intros (gx & gy & Hd & Hp & Hq & Hab) Hyes H.
  destruct (H gx gy Hd (follows_down _ _ Hp Hyes) (stands_sent _ _ (fo_stands _ _ Hq))) as (Hg & _ & more & Hr & Hm).
  by apply (move_down p q p' more gx gy); auto.
Qed.

Lemma move_up_give_up p q ms s c :
  inv isnx capx isny capy p q -> aborted p = false ->
  TCPSender.tick (sender_ (conn (ep p))) ms = Ok s -> MAX_RETX_ATTEMPTS < consecutive_retransmissions s ->
  tick (conn (ep p)) ms = Ok c -> inv isnx capx isny capy (called_aborted c p) q.
Proof using All.
  intros (gx & gy & Hd & Hp & Hq & Hab) Hno Es Hm E. destruct (follows_up _ _ Hp Hno) as (<- & Hrs & Hop).
  destruct (tick_gives_up isnx isny capx capy Hcapx Hcapx2 Hisnx Hcapy Hcapy2 Hisny (ep p) gy ms s c Hd Hop Es Hm E) as (Hg & seg & Eq & Hr).
  rewrite (called_resets c p [seg] Eq) by (by constructor).
  apply (move_down p q (mkParty (with_conn c (ep p)) (present p) (resets p ++ [seg])) [seg] (ep p) gy Hp Hq Hab Hg); [done|by constructor|right; by right].
Qed.

Lemma move_any_reset p q seg c :
  inv isnx capx isny capy p q -> seg ∈ resets q -> segment_received (conn (ep p)) seg = Ok c ->
  inv isnx capx isny capy (with_ep (with_conn c (ep p)) p) q.
Proof using All.
  intros Hi Hin E. destruct (Hi) as (gx & gy & Hd & Hp & Hq & Hab). pose proof (proj1 (Forall_forall _ _) (fo_resets _ _ Hq) _ Hin) as Hr.
  assert (gave_up q) as Hg by (unfold gave_up; intros En; rewrite En in Hin; by apply elem_of_nil in Hin).
  assert (goes_on isnx isny capx capy gy (with_conn c (ep p)) -> inv isnx capx isny capy (with_ep (with_conn c (ep p)) p) q) as Hgo.
  { intros H. apply (move_down p q (with_ep (with_conn c (ep p)) p) [] gx gy Hp Hq Hab H); [cbn; by rewrite app_nil_r|done|right; by left]. }
  destruct (aborted p) eqn:Hab'.
  - pose proof (follows_down _ _ Hp Hab') as Hsh. destruct (late_rst _ _ seg Hsh Hr) as (c' & E' & _ & Hsh').
    rewrite E in E'. injection E' as <-. apply Hgo. by exists gx.
  - destruct (follows_up _ _ Hp Hab') as (<- & _ & Hop).
    destruct (reset_arrives isnx isny capx capy Hcapx Hcapx2 Hisnx Hcapy Hcapy2 Hisny (ep p) gy seg Hd Hop Hr) as (c' & E' & Hor).
    rewrite E in E'. injection E' as <-. destruct Hor as [->|[_ H]]; [|by apply Hgo].
    assert (with_ep (with_conn (conn (ep p)) (ep p)) p = p) as -> by (destruct p as [[] ? ?]; done). exact Hi.
Qed.

Lemma inv_move p q p' : inv isnx capx isny capy p q -> move q p p' -> inv isnx capx isny capy p' q.
Proof using All.
  intros Hi Hm. destruct Hm as [e ? Hno Ha|ms s c ? Hno Es Hmx E|seg c ? Hin E|c ? Hyes E|data n c ? Hyes He Hb E|c ? Hyes E
    |ms c ? Hyes E|a b seg c ? Hyes Hin Hre E|len l c ? Hyes Hl E|k ? Hyes|c ? E].
  - by apply move_up_act.
  - by eapply move_up_give_up.
  - by eapply move_any_reset.
  - apply (move_survives p q); [done|done|]. intros gx gy Hd Hsh _.
    destruct (late_connect _ _ _ _ Hcapx Hcapx2 Hisnx Hcapy Hcapy2 Hisny _ _ _ Hd Hsh) as (c' & E' & Hs). congruence.
  - apply (move_survives p q); [done|done|]. intros gx gy Hd Hsh _.
    destruct (late_write _ _ _ _ Hcapx Hcapx2 Hisnx Hcapy Hcapy2 Hisny _ _ _ data Hd Hsh He Hb) as (n' & c' & E' & Hs). rewrite E in E'. injection E' as <- <-. exact Hs.
  - apply (move_survives p q); [done|done|]. intros gx gy Hd Hsh _.
    destruct (late_end _ _ _ _ Hcapx Hcapx2 Hisnx Hcapy Hcapy2 Hisny _ _ _ Hd Hsh) as (c' & E' & Hs). congruence.
  - apply (move_survives p q); [done|done|]. intros gx gy Hd Hsh _.
    destruct (late_tick _ _ _ _ Hcapx Hcapx2 Hisnx Hcapy Hcapy2 Hisny _ _ _ ms Hd Hsh) as (c' & E' & Hs). congruence.
  - apply (move_survives p q); [done|done|]. intros gx gy Hd Hsh Hse. rewrite Hse in Hin.
    pose proof (late_segment _ _ _ _ Hcapx Hcapx2 Hisnx Hcapy Hcapy2 Hisny _ _ _ _ _ _ Hd Hsh Hin Hre) as Hs.
    destruct (is_listen_ _); [congruence|]. destruct Hs as (c' & E' & Hs). congruence.
  - apply (move_survives p q); [done|done|]. intros gx gy Hd Hsh _.
    destruct (late_read _ _ _ _ Hcapx Hcapx2 Hisnx Hcapy Hcapy2 Hisny _ _ _ _ Hd Hsh Hl) as (l' & c' & E' & Hs). rewrite E in E'. injection E' as <- <-.
    split_and!; [exact Hs|done|exists []; cbn; by rewrite app_nil_r].
  - apply (move_survives p q); [done|done|]. intros gx gy Hd [W R Se Rc Sd Sl Op Ac Li] _.
    split_and!; [by exists gx|done|exists []; cbn; by rewrite app_nil_r].
  - destruct Hi as (gx & gy & Hd & [] & Hq & Hab). exists gx, gy. split_and!; try done.
Qed.

(** *** What the invariant promises *)

Lemma inv_aborted p q : inv isnx capx isny capy p q -> aborted p = true -> answers_aborted p q.
Proof using All.
  intros (gx & gy & Hd & Hp & Hq & _) Hyes. pose proof (follows_down _ _ Hp Hyes) as Hsh.
  unfold answers_aborted. rewrite (stands_sent _ _ (fo_stands _ _ Hq)). split_and!.
  - destruct (late_connect _ _ _ _ Hcapx Hcapx2 Hisnx Hcapy Hcapy2 Hisny _ _ _ Hd Hsh) as (c & E & _). eauto.
  - destruct (late_end _ _ _ _ Hcapx Hcapx2 Hisnx Hcapy Hcapy2 Hisny _ _ _ Hd Hsh) as (c & E & _). eauto.
  - intros ms. destruct (late_tick _ _ _ _ Hcapx Hcapx2 Hisnx Hcapy Hcapy2 Hisny _ _ _ ms Hd Hsh) as (c & E & _). eauto.
  - intros data He Hb.
    destruct (late_write _ _ _ _ Hcapx Hcapx2 Hisnx Hcapy Hcapy2 Hisny _ _ _ data Hd Hsh He Hb) as (n & c & E & _). eauto.
  - intros len Hl. destruct (late_read _ _ _ _ Hcapx Hcapx2 Hisnx Hcapy Hcapy2 Hisny _ _ _ len Hd Hsh Hl) as (l & c & E & _). eauto.
  - intros a b seg Hin Hre.
    pose proof (late_segment _ _ _ _ Hcapx Hcapx2 Hisnx Hcapy Hcapy2 Hisny _ _ _ _ _ _ Hd Hsh Hin Hre) as Hs.
    destruct (is_listen_ _); [done|]. destruct Hs as (c & E & _). eauto.
Qed.

Lemma inv_answers p q : inv isnx capx isny capy p q -> answers_owner p q.
Proof using All.
  intros Hi. pose proof (inv_aborted p q Hi) as Hab. destruct Hi as (gx & gy & Hd & Hp & Hq & _).
  split_and!; [| |apply destroy_returns].
  - intros seg Hin. pose proof (proj1 (Forall_forall _ _) (fo_resets _ _ Hq) _ Hin) as Hr. destruct (aborted p) eqn:Ea.
    + destruct (late_rst _ _ seg (follows_down _ _ Hp Ea) Hr) as (c & E & He & _). eauto.
    + destruct (follows_up _ _ Hp Ea) as (<- & _ & Hop).
      destruct (reset_arrives isnx isny capx capy Hcapx Hcapx2 Hisnx Hcapy Hcapy2 Hisny (ep p) gy seg Hd Hop Hr) as (c & E & Hor).
      exists c. split; [done|]. destruct Hor as [?|[? _]]; auto.
  - destruct (aborted p) eqn:Ea.
    + pose proof (follows_down _ _ Hp Ea) as Hsh. split_and!; [apply Hsh|by eapply shadow_reset|by apply Hab].
    + destruct (follows_up _ _ Hp Ea) as (<- & _). rewrite (stands_sent _ _ (fo_stands _ _ Hq)).
      eapply (dinv_responsive isnx isny capx capy); eassumption.
Qed.

Lemma inv_delivered p q : inv isnx capx isny capy p q -> delivered (ep p) (ep q).
Proof using.
  intros (gx & gy & Hd & [Hp _ _ _] & [Hq _ _ _] & _). eapply shadow_delivered; [done|done|]. by eapply dinv_delivered.
Qed.
End resets.

Lemma inv_moves cfgx rndx cfgy rndy d :
  usable cfgx -> usable cfgy -> moves (party_new cfgx rndx, party_new cfgy rndy) d ->
  inv (first_isn cfgx rndx) (recv_capacity cfgx) (first_isn cfgy rndy) (recv_capacity cfgy) d.1 d.2.
Proof.
  intros Hx Hy. pose proof (first_isn_ok cfgx rndx Hx). pose proof (first_isn_ok cfgy rndy Hy).
  pose proof (dinv_steps _ _ _ _ _ Hx Hy (duplex_refl (endpoint_new cfgx rndx, endpoint_new cfgy rndy))) as Hd.
  destruct Hx as (_ & _ & ? & ? & _), Hy as (_ & _ & ? & ? & _).
  remember (party_new cfgx rndx, party_new cfgy rndy) as d0 eqn:E0.
  induction 1 as [|d p p' q _ IH Hm|d p q q' _ IH Hm]; subst; cbn [fst snd] in *.
  - exists (endpoint_new cfgx rndx), (endpoint_new cfgy rndy). split_and!; try done; [by split..|].
    intros [He|He]; discriminate He.
  - eapply inv_move; try done. by apply IH.
  - apply inv_sym. eapply inv_move; try done. apply inv_sym. by apply IH.
Qed.

(** ** Properties *)

(** C1: two connections on an unreliable network transfer both streams, or
    agree that the transfer failed.  In every state that two fresh connections
    reach by the calls of their owners, on aborted connections too, the arrival
    of any of the segments and resets the other one ever queued, in any order and
    any number of times (a segment while it is less than 2^31 sequence numbers
    from where it is expected), ticks that give up after too many
    retransmissions, and destruction: what each owner reads is a prefix of what
    the other one wrote, also when the connection is aborted; end of file means
    that the other end closed its stream and that all of it was read; every call
    returns, on an aborted connection too, with one exception: a segment that
    is not a reset throws bad_optional_access at an aborted connection that has
    not heard the SYN; an aborted connection is inactive and in state RESET; a
    connection that gives up is aborted, and one is aborted only after one of
    the two gave up. *)
Theorem reset_safe (cfgx cfgy : TCPConfig) (rndx rndy : Z) (p q : party) :
  usable cfgx -> usable cfgy -> moves (party_new cfgx rndx, party_new cfgy rndy) (p, q) ->
  delivered (ep p) (ep q) /\ delivered (ep q) (ep p) /\ answers_owner p q /\ answers_owner q p
  /\ (gave_up p -> aborted p = true) /\ (gave_up q -> aborted q = true)
  /\ (aborted p = true \/ aborted q = true -> gave_up p \/ gave_up q).
Proof.
  intros Hx Hy Hm. pose proof (inv_moves _ _ _ _ _ Hx Hy Hm) as H. cbn [fst snd] in H. pose proof (inv_sym _ _ _ _ _ _ H) as H'.
  pose proof (first_isn_ok cfgx rndx Hx). pose proof (first_isn_ok cfgy rndy Hy).
  destruct Hx as (_ & _ & ? & ? & _), Hy as (_ & _ & ? & ? & _).
  split_and!; [by eapply inv_delivered|by eapply inv_delivered|eapply inv_answers; [..|exact H]; done|eapply inv_answers; [..|exact H']; done|..];
    destruct H as (gx & gy & _ & Hp & Hq & Hab); [apply Hp|apply Hq|exact Hab].
Qed.

(** *** A run *)

Inductive turn : Type :=
  | do_call (k : call)
  | do_give_up (ms : Z)
  | do_reset (i : nat)
  | do_destroy.

(** A call on an aborted connection. *)
Definition perform_aborted (q p : party) (k : call) : option party :=
  let c := conn (ep p) in
  match k with
  | do_connect => match connect c with Ok c' => Some (called_aborted c' p) | _ => None end
  | do_write data =>
      if negb (ended (sender_ c)) && (zlen (written (ep p)) + zlen data + 2 <? M63) then
        match write c data with
        | Ok (n, c') => Some (called_aborted c' (with_ep (mkEndpoint c (written (ep p) ++ ztake n data) (read_bytes (ep p)) (sent (ep p))) p))
        | _ => None
        end
      else None
  | do_end => match end_input_stream c with Ok c' => Some (called_aborted c' p) | _ => None end
  | do_tick ms => match tick c ms with Ok c' => Some (called_aborted c' p) | _ => None end
  | do_segment i =>
      match sent (ep q) !! i with
      | Some (a, b, seg) =>
          if (a <? M31) && (bytes_written (inbound_stream c) + 2 - a <=? M31)
             && (negb (ack (header seg)) || (last_ack_no_ (sender_ c) - b <=? M31)) then
            match segment_received c seg with Ok c' => Some (called_aborted c' p) | _ => None end
          else None
      | None => None
      end
  | do_read len =>
      if (0 <=? len) && (len <? M64) then
        match read_inbound c len with
        | Ok (l, c') => Some (with_ep (mkEndpoint c' (written (ep p)) (read_bytes (ep p) ++ l) (sent (ep p))) p)
        | _ => None
        end
      else None
  | do_take k => Some (with_ep (with_conn (set_out (drop k (segments_out c)) c) (ep p)) p)
  end.

Definition take_turn (q p : party) (t : turn) : option party :=
  if negb (present p) then None else
  match t with
  | do_call k =>
      if aborted p then perform_aborted q p k
      else match perform (sent (ep q)) (ep p) k with Some e => Some (with_ep e p) | None => None end
  | do_give_up ms =>
      if aborted p then None else
      match TCPSender.tick (sender_ (conn (ep p))) ms, tick (conn (ep p)) ms with
      | Ok s, Ok c => if MAX_RETX_ATTEMPTS <? consecutive_retransmissions s then Some (called_aborted c p) else None
      | _, _ => None
      end
  | do_reset i =>
      match resets q !! i with
      | Some seg =>
          match segment_received (conn (ep p)) seg with Ok c => Some (with_ep (with_conn c (ep p)) p) | _ => None end
      | None => None
      end
  | do_destroy => match destroy (conn (ep p)) with Ok _ => Some (mkParty (ep p) false (resets p)) | _ => None end
  end.

Lemma perform_aborted_move q p k p' :
  present p = true -> aborted p = true -> perform_aborted q p k = Some p' -> move q p p'.
Proof.
  intros Hpr Hab. destruct k; cbn [perform_aborted]; intros E; repeat case_match; simplify_eq;
    rewrite ?andb_true_iff, ?Z.leb_le, ?Z.ltb_lt, ?negb_true_iff in *.
  - by apply move_connect.
  - apply move_write; tauto.
  - by apply move_end.
  - by eapply move_tick.
  - destruct_and!. eapply move_segment; [done|done|by eapply list_elem_of_lookup_2| |done]. split_and!; try done.
    intros Hack. match goal with H : negb _ || _ = true |- _ => rewrite Hack in H; by apply Z.leb_le in H end.
  - by eapply move_read.
  - by apply move_take.
Qed.

Lemma take_turn_move q p t p' : take_turn q p t = Some p' -> move q p p'.
Proof.
  unfold take_turn. destruct (present p) eqn:Hpr; [|done]. cbn [negb].
  intros E. destruct t; repeat case_match; simplify_eq; rewrite ?Z.ltb_lt in *.
  - by eapply perform_aborted_move.
  - apply move_act; try done. by eapply perform_act.
  - by eapply move_give_up.
  - eapply move_reset; try done. by eapply list_elem_of_lookup_2.
  - by eapply move_destroy.
Qed.

(** [true] is the left end. *)
Fixpoint play (d : party * party) (ts : list (bool * turn)) : option (party * party) :=
  match ts with
  | [] => Some d
  | (true, t) :: ts => match take_turn d.2 d.1 t with Some p => play (p, d.2) ts | None => None end
  | (false, t) :: ts => match take_turn d.1 d.2 t with Some q => play (d.1, q) ts | None => None end
  end.

Lemma play_moves ts : forall d0 d d', moves d0 d -> play d ts = Some d' -> moves d0 d'.
Proof.
  induction ts as [|[b t] ts IH]; intros d0 [p q] d' Hs E; cbn [play fst snd] in E; [by injection E as <-|].
  destruct b; [destruct (take_turn q p t) as [z|] eqn:Et|destruct (take_turn p q t) as [z|] eqn:Et]; try done;
    (eapply IH; [|exact E]); [eapply moves_left|eapply moves_right]; try exact Hs; by eapply take_turn_move.
Qed.

(** A handshake and two bytes from left to right whose acknowledgment is lost:
    the left end tries eight times and gives up; the acknowledgment arrives
    then, and a byte the right end has written; its reset reaches the right
    end, whose owner reads the bytes, writes one more and lets time pass; what
    it sends reaches the left end, whose owner reads both bytes. *)
Definition failing_script : list (bool * turn) :=
  [(true, do_call do_connect); (false, do_call (do_segment 0)); (true, do_call (do_segment 0)); (false, do_call (do_segment 1));
   (true, do_call (do_write [x61; x62])); (false, do_call (do_segment 2)); (false, do_call (do_write [x63]))]
  ++ replicate 8 (true, do_call (do_tick 300000))
  ++ [(true, do_give_up 300000); (true, do_call (do_segment 1)); (true, do_call (do_segment 2)); (true, do_call do_end);
      (false, do_reset 0); (false, do_call (do_read 9)); (false, do_call (do_write [x64])); (false, do_call (do_tick 300000));
      (true, do_call (do_segment 3)); (true, do_call (do_read 9)); (true, do_destroy)].

Definition failing_start : party * party := (party_new (sample_cfg 4294967295) 0, party_new (sample_cfg 100) 0).

Definition failing_final : party * party :=
  Eval vm_compute in match play failing_start failing_script with Some d => d | None => failing_start end.

Lemma failing_run : play failing_start failing_script = Some (failing_final.1, failing_final.2).
Proof. vm_compute. reflexivity. Qed.

(** Both ends know of the failure, and nothing that was read is wrong. *)
Lemma reset_safe_witness :
  let '(p, q) := failing_final in
  length (resets p) = 5%nat /\ present p = false /\ aborted p = true /\ aborted q = true
  /\ read_bytes (ep q) = [x61; x62] /\ read_bytes (ep p) = [x63; x64]
  /\ delivered (ep p) (ep q) /\ delivered (ep q) (ep p) /\ answers_owner q p.
Proof.
  pose proof (reset_safe (sample_cfg 4294967295) (sample_cfg 100) 0 0 failing_final.1 failing_final.2
    (sample_usable 4294967295 ltac:(lia)) (sample_usable 100 ltac:(lia))
    (play_moves _ _ _ _ (moves_refl _) failing_run)) as (Hxy & Hyx & _ & Ha & _).
  exact (conj eq_refl (conj eq_refl (conj eq_refl (conj eq_refl (conj eq_refl (conj eq_refl (conj Hxy (conj Hyx Ha)))))))).
Defined.
