(* ===== verification/GivingUp.v ===== *)
(** * A connection that hears nothing more

    Time passes in ticks of at most [D] milliseconds, given to the connection
    as [_tcp_loop] of libsponge/tcp_helpers/tcp_sponge_socket.cc gives them: only
    while it is active.  When nothing arrives any more (the other end was
    destroyed, or the network fails), a connection with segments outstanding in
    an open window gives up, and one that has received the end of the other
    stream while it was closing itself stops lingering.  Both happen within a
    time that only depends on the initial timeout and on [D], however the time
    is divided into ticks.

    The proof uses a potential: the time that can still pass before the ninth
    retransmission. *)

From Stdlib Require Import ZArith Lia.
From S2P Require Import Prelude WrappingIntegers Ring ByteStream UnAssembleBuffer StreamReassembler Buffer Parser TCPHeader TCPSegment TCPReceiver TCPSender Transfer TCPState TCPConnection ConnectionStatus Duplex Aborted Resets.

(** The ticks of [_tcp_loop], nothing else happening. *)
Fixpoint alone (c : TCPConnection) (ticks : list Z) : res TCPConnection :=
  match ticks with
  | [] => Ok c
  | ms :: ticks => if active c then c ← tick c ms; alone c ticks else Ok c
  end.

Definition total (ticks : list Z) : Z := fold_right Z.add 0 ticks.

(** The initial timeout of the connection's sender. *)
Definition initial_timeout (c : TCPConnection) : Z := init_retransmission_timeout_ (sender_ c).

(** ** What a tick does to the timer *)

Lemma tick_timer s hist ms s' :
  sinv s hist -> outstanding_segments_ s <> [] -> 0 < window_size_ s -> TCPSender.tick s ms = Ok s' ->
  outstanding_segments_ s' = outstanding_segments_ s /\ window_size_ s' = window_size_ s
  /\ init_retransmission_timeout_ s' = init_retransmission_timeout_ s
  /\ let e := u64 (elapsed_ms_ (timer_ s) + ms) in
     (elapsed_ms_ (timer_ s'), timeout_ms_ (timer_ s'), retransmission_count_ s')
     = if timeout_ms_ (timer_ s) <=? e
       then (0, u64 (timeout_ms_ (timer_ s) * 2), u64 (retransmission_count_ s + 1))
       else (e, timeout_ms_ (timer_ s), retransmission_count_ s).
Proof.
  intros H Ho Hw E. cbv zeta. pose proof (si_timer _ _ H) as Ht. rewrite bool_decide_true in Ht by done.
  unfold TCPSender.tick, timer_tick, expired in E. rewrite Ht in E. cbn [started_ timeout_ms_ elapsed_ms_ andb] in E.
  destruct (timeout_ms_ (timer_ s) <=? u64 (elapsed_ms_ (timer_ s) + ms)); cbn [negb] in E.
  - destruct (outstanding_segments_ s) as [|front q] eqn:Eq; [done|]. apply Z.ltb_lt in Hw. rewrite Hw in E.
    injection E as <-. by split_and!.
  - injection E as <-. by split_and!.
Qed.

Lemma enqueue_loop_queue r q : forall out q' out', enqueue_loop r false q out = Ok (q', out') -> q' = [].
Proof.
  induction q as [|seg q IH]; intros out q' out' E; cbn [enqueue_loop] in E; [by injection E as <- <-|].
  apply bind_Ok in E as (seg' & _ & E). by apply IH in E.
Qed.

(** A tick that does not give up. *)
Lemma tick_goes_on c ms s c' :
  need_send_rst_ c = false -> TCPSender.tick (sender_ c) ms = Ok s -> consecutive_retransmissions s <= MAX_RETX_ATTEMPTS ->
  tick c ms = Ok c' ->
  let c0 := set_sender s (set_ms (u64 (ms_since_last_recv_ c + ms)) c) in
  sender_ c' = set_segments_out [] s /\ receiver_ c' = receiver_ c /\ cfg_ c' = cfg_ c
  /\ ms_since_last_recv_ c' = u64 (ms_since_last_recv_ c + ms)
  /\ linger_after_stream_finish_ c' = linger_after_stream_finish_ c
  /\ active_ c' = active_ (try_clean_shutdown c0).
Proof.
  intros Hn Es Hm E c0. unfold tick in E. cbn [sender_ set_ms] in E. rewrite Es in E. cbn [mbind res_bind] in E.
  cbn [sender_ set_sender] in E. rewrite (proj2 (Z.ltb_ge _ _) Hm) in E. change (set_sender s _) with c0 in E.
  destruct (try_clean_shutdown_fields c0) as (F1 & F2 & F3 & F4 & F5 & F6 & F7).
  unfold enqueue_segments in E. apply bind_Ok in E as ([q out] & Eq & E). injection E as <-.
  rewrite F5 in Eq. change (need_send_rst_ c0) with (need_send_rst_ c) in Eq. rewrite Hn in Eq. apply enqueue_loop_queue in Eq as ->. cbn. rewrite F1, F2, F3, F6, F7. by split_and!.
Qed.

(** ** Giving up *)

(** At most this long until the ninth retransmission, with [k] of them done. *)
Definition allowance (rto D k : Z) : Z := rto * (2 ^ (MAX_RETX_ATTEMPTS + 1) - 2 ^ k) + (MAX_RETX_ATTEMPTS + 1 - k) * D.

Lemma allowance_step rto D k : 0 <= k -> allowance rto D k = rto * 2 ^ k + D + allowance rto D (k + 1).
Proof. intros Hk. unfold allowance. rewrite (Z.pow_add_r 2 k 1) by lia. change (2 ^ 1) with 2. ring. Qed.

Lemma allowance_nonneg rto D k : 0 <= rto -> 0 <= D -> 0 <= k <= MAX_RETX_ATTEMPTS + 1 -> 0 <= allowance rto D k.
Proof. intros. pose proof (Z.pow_le_mono_r 2 k (MAX_RETX_ATTEMPTS + 1) ltac:(lia) ltac:(lia)). unfold allowance. nia. Qed.

Lemma pow_allowance k : 0 <= k <= MAX_RETX_ATTEMPTS -> 1 <= 2 ^ k <= 256.
Proof.
  unfold MAX_RETX_ATTEMPTS. intros H. split; [apply (Z.pow_le_mono_r 2 0 k); lia|]. apply (Z.pow_le_mono_r 2 k 8); lia.
Qed.

(** A sender that waits for an acknowledgment: [r] bounds the time left. *)
Record waiting (s : TCPSender) (rto D r : Z) : Prop := {
  wt_outstanding : outstanding_segments_ s <> [];
  wt_window : 0 < window_size_ s;
  wt_rto : init_retransmission_timeout_ s = rto;
  wt_count : consecutive_retransmissions s <= MAX_RETX_ATTEMPTS;
  wt_timeout : 0 <= timeout_ms_ (timer_ s) <= rto * 2 ^ consecutive_retransmissions s;
  wt_elapsed : 0 <= elapsed_ms_ (timer_ s) <= timeout_ms_ (timer_ s);
  wt_left : allowance rto D (consecutive_retransmissions s) - elapsed_ms_ (timer_ s) <= r
}.

Lemma waiting_left s rto D r : 0 <= rto -> 0 <= D -> waiting s rto D r -> 0 <= r.
Proof.
  intros Hr HD [_ _ _ Hc Ht He Hl]. pose proof (u32_range (retransmission_count_ s)) as Hk.
  fold (consecutive_retransmissions s) in Hk. rewrite allowance_step in Hl by lia.
  pose proof (allowance_nonneg rto D (consecutive_retransmissions s + 1) Hr HD ltac:(lia)). lia.
Qed.

(** The timeout never exceeds what the number of retransmissions allows. *)
Lemma timeout_bound s hist :
  sinv s hist -> 0 <= timeout_ms_ (timer_ s) <= init_retransmission_timeout_ s * 2 ^ consecutive_retransmissions s.
Proof.
  intros H. destruct (si_rto _ _ H) as [Hr (n & Hn & Hc & ->)]. set (rto := init_retransmission_timeout_ s) in *.
  unfold consecutive_retransmissions. rewrite Hc. destruct (Z_lt_le_dec n M32) as [Hs|Hb].
  - rewrite (u64_small n), (u32_small n) by lia. split; [apply u64_range|]. apply Z.mod_le; [|lia].
    pose proof (Z.pow_pos_nonneg 2 n ltac:(lia) Hn). nia.
  - assert (u64 (rto * 2 ^ n) = 0) as ->.
    { unfold u64. change M64 with (2 ^ 64). replace n with (n - 64 + 64) by lia. rewrite Z.pow_add_r by lia.
      rewrite Z.mul_assoc. apply Z.mod_mul. lia. }
    pose proof (u32_range (u64 n)). pose proof (Z.pow_pos_nonneg 2 (u32 (u64 n)) ltac:(lia) ltac:(lia)). nia.
Qed.

Lemma count_next n : consecutive_retransmissions n <= MAX_RETX_ATTEMPTS ->
  u32 (u64 (retransmission_count_ n + 1)) = consecutive_retransmissions n + 1.
Proof. unfold consecutive_retransmissions, MAX_RETX_ATTEMPTS. intros. wrap_lia. Qed.

(** ** The connection *)

(** How the silence ends: given up, or the lingering is over. *)
Definition over (c : TCPConnection) : Prop :=
  active c = false
  /\ (state_eqb (state c) (of_state RESET) = true \/ TCPReceiver.state (receiver_ c) = TCPReceiver.kFinRecv).

Lemma in_flight s hist : sinv s hist -> outstanding_segments_ s <> [] -> TCPSender.state s <> TCPSender.kFinAcked.
Proof.
  intros H Ho. destruct (contiguous_le _ _ _ _ _ _ (si_queue _ _ H)) as [Hle Hnil]. unfold base in *.
  unfold TCPSender.state. rewrite (si_error _ _ H : ByteStream.error (stream_ s) = false).
  assert (bytes_in_flight_ s <> 0) as Hne by (intros E; apply Ho, Hnil; lia). apply Z.eqb_neq in Hne. rewrite Hne.
  by repeat case_match.
Qed.

Section silence.
Context (isnx isny : WrappingInt32) (capx capy : Z).
Context (Hcapx : 0 < capx) (Hcapx2 : 2 * capx < M63) (Hisnx : wi_ok isnx).
Context (Hcapy : 0 < capy) (Hcapy2 : 2 * capy < M63) (Hisny : wi_ok isny).

Lemma dinv_sinv x y : dinv isnx capx isny capy x y -> sinv (sender_ (conn x)) (written x).
Proof using. intros (? & ? & ? & ? & ? & ? & ? & ? & H & _). exact (iv_snd _ _ _ _ _ H). Qed.

(** A tick gives up, or goes on with the fields of [tick_goes_on]. *)
Lemma silent_tick x y ms :
  dinv isnx capx isny capy x y ->
  exists s c, TCPSender.tick (sender_ (conn x)) ms = Ok s /\ tick (conn x) ms = Ok c
    /\ (over c \/ consecutive_retransmissions s <= MAX_RETX_ATTEMPTS /\ dinv isnx capx isny capy (called c x) y
         /\ sender_ c = set_segments_out [] s /\ receiver_ c = receiver_ (conn x) /\ cfg_ c = cfg_ (conn x)
         /\ ms_since_last_recv_ c = u64 (ms_since_last_recv_ (conn x) + ms)
         /\ linger_after_stream_finish_ c = linger_after_stream_finish_ (conn x)
         /\ active_ c = active_ (try_clean_shutdown (set_sender s (set_ms (u64 (ms_since_last_recv_ (conn x) + ms)) (conn x))))).
Proof using All.
  intros H. destruct (duplex_tick _ _ _ _ Hcapx Hcapx2 Hisnx Hcapy Hcapy2 Hisny x y ms H) as (s & c & Es & E & Hd).
  exists s, c. split_and!; [done|done|]. destruct (Z_le_gt_dec (consecutive_retransmissions s) MAX_RETX_ATTEMPTS) as [Hm|Hm].
  - right. split_and!; [done|by apply Hd|..];
      (apply (tick_goes_on (conn x) ms s c); [destruct H as (? & ? & ? & ? & ? & ? & ? & ? & _ & _ & Hc & _); apply Hc|done..]).
  - left. destruct (tick_resets (conn x) (written x) ms s c (dinv_sinv _ _ H) Es ltac:(lia) E) as [Hr _].
    split; [apply Hr|]. left. by apply reset_state.
Qed.

(** [try_clean_shutdown] with segments outstanding. *)
Lemma stops_lingering c hist :
  sinv (sender_ c) hist -> outstanding_segments_ (sender_ c) <> [] -> active_ c = true ->
  active_ (try_clean_shutdown c) = false -> TCPReceiver.state (receiver_ c) = TCPReceiver.kFinRecv.
Proof using.
  intros Hs Ho Ha. unfold try_clean_shutdown. destruct (_ || _) eqn:E; [intros _|congruence].
  apply orb_true_iff in E as [E|E].
  - apply andb_true_iff in E as [E _]. apply andb_true_iff in E as [_ E]. by apply bool_decide_eq_true in E.
  - apply andb_true_iff in E as [_ E]. apply bool_decide_eq_true in E. by apply (in_flight _ _ Hs) in E.
Qed.

(** One tick of a connection with segments outstanding in an open window:
    [e] is what the timer shows after it. *)
Lemma outstanding_tick x y ms :
  dinv isnx capx isny capy x y -> active (conn x) = true ->
  outstanding_segments_ (sender_ (conn x)) <> [] -> 0 < window_size_ (sender_ (conn x)) ->
  let s := sender_ (conn x) in let e := u64 (elapsed_ms_ (timer_ s) + ms) in
  exists c, tick (conn x) ms = Ok c
    /\ (over c \/ active c = true /\ dinv isnx capx isny capy (called c x) y
         /\ outstanding_segments_ (sender_ c) = outstanding_segments_ s /\ window_size_ (sender_ c) = window_size_ s
         /\ initial_timeout c = initial_timeout (conn x) /\ consecutive_retransmissions (sender_ c) <= MAX_RETX_ATTEMPTS
         /\ (elapsed_ms_ (timer_ (sender_ c)), timeout_ms_ (timer_ (sender_ c)), retransmission_count_ (sender_ c))
            = if timeout_ms_ (timer_ s) <=? e
              then (0, u64 (timeout_ms_ (timer_ s) * 2), u64 (retransmission_count_ s + 1))
              else (e, timeout_ms_ (timer_ s), retransmission_count_ s)).
Proof using All.
  intros H Ha Ho Hw s e. pose proof (dinv_sinv _ _ H) as Hs. fold s in Hs, Ho, Hw.
  destruct (silent_tick x y ms H) as (s' & c & Es & E & Hor). exists c. split; [done|].
  destruct Hor as [?|(Hm & Hd & Ec & Er & Ecf & Ems & El & Eac)]; [by left|]. fold s in Es.
  destruct (tick_timer s _ ms s' Hs Ho Hw Es) as (Eo & Ew & Ei & Et). fold e in Et.
  destruct (active_ c) eqn:Eactive.
  - right. unfold initial_timeout. rewrite Ec. by split_and!.
  - left. split; [done|]. right. rewrite Er.
    set (c0 := set_sender s' (set_ms (u64 (ms_since_last_recv_ (conn x) + ms)) (conn x))) in Eac.
    destruct (sinv_tick s _ ms Hs) as (s1 & E1 & Hs1). rewrite Es in E1. injection E1 as <-.
    apply (stops_lingering c0 (written x)); [done| |done|done]. cbn. by rewrite Eo.
Qed.

Lemma waiting_tick x y D r ms :
  dinv isnx capx isny capy x y -> active (conn x) = true -> waiting (sender_ (conn x)) (initial_timeout (conn x)) D r ->
  0 <= ms <= D -> D < M63 ->
  exists c, tick (conn x) ms = Ok c /\ (over c \/ active c = true /\ dinv isnx capx isny capy (called c x) y
    /\ initial_timeout c = initial_timeout (conn x) /\ waiting (sender_ c) (initial_timeout (conn x)) D (r - ms)).
Proof using All.
  intros H Ha [W1 W2 _ W4 W5 W6 W7] Hms HD.
  destruct (outstanding_tick x y ms H Ha W1 W2) as (c & E & Hor). exists c. split; [done|].
  destruct Hor as [?|(Hac & Hd & Eo & Ew & Ei & Hm & Et)]; [by left|right]. split_and!; try done.
  set (s := sender_ (conn x)) in *. pose proof (timeout_bound _ _ (dinv_sinv _ _ Hd)) as Htb. cbn [conn called] in Htb.
  fold (initial_timeout c) in Htb. rewrite Ei in Htb.
  set (rto := initial_timeout (conn x)) in *. pose proof (pow_allowance (consecutive_retransmissions s)) as Hp.
  pose proof (u32_range (retransmission_count_ s)) as Hk. fold (consecutive_retransmissions s) in Hk.
  destruct (si_rto _ _ (dinv_sinv _ _ H)) as [Hrr _]. change (0 <= rto < M16) in Hrr. specialize (Hp ltac:(lia)).
  assert (u64 (elapsed_ms_ (timer_ s) + ms) = elapsed_ms_ (timer_ s) + ms) as Ee by (apply u64_small; nia). rewrite Ee in Et.
  destruct (Z.leb_spec (timeout_ms_ (timer_ s)) (elapsed_ms_ (timer_ s) + ms)) as [Hle|Hlt]; injection Et as E1 E2 E3.
  - assert (consecutive_retransmissions (sender_ c) = consecutive_retransmissions s + 1) as Ek.
    { unfold consecutive_retransmissions at 1. rewrite E3. by apply count_next. }
    rewrite allowance_step in W7 by lia. split; rewrite ?Eo, ?Ew, ?E1, ?E2, ?Ek; try done.
    + by rewrite <-Ek.
    + rewrite <-E2, <-Ek. exact Htb.
    + split; [lia|apply u64_range].
    + lia.
  - assert (consecutive_retransmissions (sender_ c) = consecutive_retransmissions s) as Ek
      by (unfold consecutive_retransmissions; by rewrite E3).
    split; rewrite ?Eo, ?Ew, ?E1, ?E2, ?Ek; try done; lia.
Qed.
Lemma alone_over c ticks : over c -> alone c ticks = Ok c.
Proof using. intros [Ha _]. destruct ticks; cbn; [done|]. by rewrite Ha. Qed.

Lemma alone_waiting D ticks : forall x y r,
  dinv isnx capx isny capy x y -> active (conn x) = true -> waiting (sender_ (conn x)) (initial_timeout (conn x)) D r ->
  0 <= D < M63 -> Forall (fun ms => 0 <= ms <= D) ticks -> r < total ticks -> exists c, alone (conn x) ticks = Ok c /\ over c.
Proof using All.
  induction ticks as [|ms ticks IH]; intros x y r H Ha Hw HD Ht Hr; cbn [alone total fold_right] in *.
  - destruct (si_rto _ _ (dinv_sinv _ _ H)) as [Hrr _]. apply waiting_left in Hw; [lia|apply Hrr|apply HD].
  - rewrite Ha. apply Forall_cons in Ht as [Hms Ht]. destruct (waiting_tick x y D r ms H Ha Hw Hms (proj2 HD)) as (c & E & Hor).
    rewrite E. cbn [mbind res_bind]. destruct Hor as [Ho|(Hac & Hd & Ei & Hw')].
    + exists c. split; [by apply alone_over|done].
    + apply (IH (called c x) y (r - ms)); try done; [|unfold total; lia]. cbn [conn called]. by rewrite Ei.
Qed.
(** The first tick shows where the timer stands. *)
Lemma alone_outstanding D ticks x y :
  dinv isnx capx isny capy x y -> active (conn x) = true ->
  outstanding_segments_ (sender_ (conn x)) <> [] -> 0 < window_size_ (sender_ (conn x)) ->
  0 <= D < M63 -> Forall (fun ms => 0 <= ms <= D) ticks -> 511 * initial_timeout (conn x) + 10 * D < total ticks ->
  exists c, alone (conn x) ticks = Ok c /\ over c.
Proof using All.
  intros H Ha Ho Hw HD Ht Htot. destruct (si_rto _ _ (dinv_sinv _ _ H)) as [Hrr _]. change (0 <= initial_timeout (conn x) < M16) in Hrr.
  destruct ticks as [|ms ticks]; cbn [total fold_right] in Htot; [lia|]. apply Forall_cons in Ht as [Hms Ht]. cbn [alone]. rewrite Ha.
  destruct (outstanding_tick x y ms H Ha Ho Hw) as (c & E & Hor). rewrite E. cbn [mbind res_bind].
  destruct Hor as [Hov|(Hac & Hd & Eo & Ew & Ei & Hm & Et)]; [exists c; split; [by apply alone_over|done]|].
  apply (alone_waiting D ticks (called c x) y (511 * initial_timeout (conn x) + 9 * D)); try done; [|unfold total; lia].
  cbn [conn called]. pose proof (timeout_bound _ _ (dinv_sinv _ _ Hd)) as Htb. cbn [conn called] in Htb.
  pose proof (u32_range (retransmission_count_ (sender_ c))) as Hk. fold (consecutive_retransmissions (sender_ c)) in Hk.
  assert (0 <= elapsed_ms_ (timer_ (sender_ c)) <= timeout_ms_ (timer_ (sender_ c))) as He.
  { pose proof (u64_range (elapsed_ms_ (timer_ (sender_ (conn x))) + ms)).
    destruct (Z.leb_spec (timeout_ms_ (timer_ (sender_ (conn x)))) (u64 (elapsed_ms_ (timer_ (sender_ (conn x))) + ms)));
      injection Et as E1 E2 _; rewrite E1; lia. }
  split; rewrite ?Eo, ?Ew; try done. unfold allowance. rewrite Ei. pose proof (pow_allowance _ ltac:(split; [apply Hk|exact Hm])).
  unfold MAX_RETX_ATTEMPTS in *. change (2 ^ (8 + 1)) with 512. nia.
Qed.

(** *** Lingering *)

Lemma alone_lingering ticks : forall x y,
  dinv isnx capx isny capy x y -> active (conn x) = true -> linger_after_stream_finish_ (conn x) = true ->
  TCPReceiver.state (receiver_ (conn x)) = TCPReceiver.kFinRecv -> Forall (fun ms => 0 <= ms) ticks ->
  0 <= ms_since_last_recv_ (conn x) < 10 * rt_timeout (cfg_ (conn x)) \/ ticks <> [] ->
  0 <= ms_since_last_recv_ (conn x) ->
  10 * rt_timeout (cfg_ (conn x)) <= ms_since_last_recv_ (conn x) + total ticks < M64 ->
  exists c, alone (conn x) ticks = Ok c /\ over c.
Proof using All.
  induction ticks as [|ms ticks IH]; intros x y H Ha Hl Hf Ht Hor0 H0 Hb; cbn [total fold_right alone] in *.
  - destruct Hor0 as [?|?]; [lia|done].
  - rewrite Ha. apply Forall_cons in Ht as [Hms Ht]. destruct (silent_tick x y ms H) as (s & c & Es & E & Hor). rewrite E.
    cbn [mbind res_bind]. destruct Hor as [Hov|(Hm & Hd & Ec & Er & Ecf & Ems & El & Eac)];
      [exists c; split; [by apply alone_over|done]|].
    assert (0 <= total ticks) as Htt by (clear -Ht; induction Ht; cbn; [lia|unfold total in *; lia]). unfold total in Htt.
    rewrite u64_small in Ems, Eac by lia.
    unfold try_clean_shutdown in Eac. cbn [linger_after_stream_finish_ set_sender set_ms receiver_ cfg_ ms_since_last_recv_] in Eac.
    rewrite Hl, Hf, bool_decide_true in Eac by done. cbn [andb] in Eac.
    destruct (Z.leb_spec (10 * rt_timeout (cfg_ (conn x))) (ms_since_last_recv_ (conn x) + ms)) as [Hle|Hlt].
    + exists c. assert (over c) as Hov by (split; [exact Eac|right; by rewrite Er]). split; [by apply alone_over|done].
    + cbn [negb andb orb] in Eac. apply (IH (called c x) y); cbn [conn called]; rewrite ?El, ?Er, ?Ecf, ?Ems; try done; try lia.
      * unfold active. by rewrite Eac.
      * unfold total. lia.
Qed.
End silence.

(** ** Property *)

(** Segments outstanding in an open window, for more than 511 initial timeouts
    (the sum of the nine timeouts) and ten ticks. *)
Definition unanswered (c : TCPConnection) (D : Z) (ticks : list Z) : Prop :=
  outstanding_segments_ (sender_ c) <> [] /\ 0 < window_size_ (sender_ c) /\ 511 * initial_timeout c + 10 * D < total ticks.

(** The other stream has ended and this end closed first, for ten timeouts. *)
Definition lingering (c : TCPConnection) (ticks : list Z) : Prop :=
  linger_after_stream_finish_ c = true /\ TCPReceiver.state (receiver_ c) = TCPReceiver.kFinRecv /\ ticks <> []
  /\ 0 <= time_since_last_segment_received c
  /\ 10 * rt_timeout (cfg_ c) <= time_since_last_segment_received c + total ticks < M64.

(** C4: a connection that hears nothing more does not stay: in every state that
    two connections on an unreliable network reach, if nothing arrives any more
    at one of them and time passes in ticks of at most [D] milliseconds, then
    with segments outstanding in an open window it is inactive after 511
    initial timeouts and ten ticks, and when it lingers after the end of the
    other stream it is inactive ten timeouts after the last segment, however the
    time is divided; the ticks all return, and it has given up (state RESET) or
    has received the end of the other stream. *)
Theorem silence_ends (cfgx cfgy : TCPConfig) (rndx rndy : Z) (p q : party) (D : Z) (ticks : list Z) :
  usable cfgx -> usable cfgy -> moves (party_new cfgx rndx, party_new cfgy rndy) (p, q) ->
  aborted p = false -> active (conn (ep p)) = true -> 0 <= D < M63 -> Forall (fun ms => 0 <= ms <= D) ticks ->
  unanswered (conn (ep p)) D ticks \/ lingering (conn (ep p)) ticks ->
  exists c, alone (conn (ep p)) ticks = Ok c /\ over c.
Proof.
  intros Hx Hy Hm Hno Ha HD Ht Hor. destruct (inv_moves _ _ _ _ _ Hx Hy Hm) as (gx & gy & Hd & Hp & _). cbn [fst snd] in Hp.
  destruct (follows_up _ _ Hp Hno) as [<- _]. pose proof (first_isn_ok cfgx rndx Hx). pose proof (first_isn_ok cfgy rndy Hy).
  destruct Hx as (_ & _ & ? & ? & _), Hy as (_ & _ & ? & ? & _). destruct Hor as [(Ho & Hw & Htot)|(Hl & Hf & Hne & Hz & Hb)].
  - eapply alone_outstanding; [..|exact Hd|exact Ha|exact Ho|exact Hw|exact HD|exact Ht|exact Htot]; done.
  - eapply alone_lingering; [..|exact Hd|exact Ha|exact Hl|exact Hf| |by right|exact Hz|exact Hb]; try done.
    eapply Forall_impl; [exact Ht|]. cbn. lia.
Qed.

(** The left end has sent two bytes when the right end is destroyed. *)
Definition abandoned_script : list (bool * turn) :=
  [(true, do_call do_connect); (false, do_call (do_segment 0)); (true, do_call (do_segment 0)); (false, do_call (do_segment 1));
   (true, do_call (do_write [x61; x62])); (false, do_destroy)].

Definition abandoned : party * party :=
  Eval vm_compute in match play failing_start abandoned_script with Some d => d | None => failing_start end.

Lemma abandoned_run : play failing_start abandoned_script = Some (abandoned.1, abandoned.2).
Proof. vm_compute. reflexivity. Qed.

Lemma silence_ends_witness :
  present abandoned.2 = false /\ active (conn (ep abandoned.1)) = true
  /\ exists c, alone (conn (ep abandoned.1)) (replicate 12 300000) = Ok c /\ over c.
Proof.
  split; [reflexivity|]. split; [reflexivity|].
  apply (silence_ends (sample_cfg 4294967295) (sample_cfg 100) 0 0 abandoned.1 abandoned.2 300000 (replicate 12 300000)
    (sample_usable 4294967295 ltac:(lia)) (sample_usable 100 ltac:(lia))
    (play_moves _ _ _ _ (moves_refl _) abandoned_run)); [reflexivity|reflexivity|lia|apply Forall_replicate; lia|].
  left. split; [discriminate|]. split; [reflexivity|reflexivity].
Defined.
