(* ===== verification/ReliableLink.v ===== *)
(** * Two connections over a reliable link

    Duplex.v shows what two connections never do, whatever the network loses.
    Here nothing is lost: what a connection queues is handed to the other one,
    in any order.  Then every outstanding segment is in the queue or has been
    received, every acknowledgment is in the queue or has arrived ([wire]), and
    once a queue has been delivered the receiver has everything and says so. *)

From Stdlib Require Import ZArith Lia.
From S2P Require Import Prelude WrappingIntegers Ring ByteStream UnAssembleBuffer StreamReassembler Buffer Parser TCPHeader TCPSegment TCPReceiver TCPSender Transfer TCPState TCPConnection ConnectionStatus Duplex.

(** ** What a receiver has *)

Definition got (r : TCPReceiver) (k : Z) : Prop :=
  k < next (reassembler_ r) \/ is_Some (pending (reassembler_ r) !! k).

(** The receiver has all of the segment at [p.1]. *)
Record has (r : TCPReceiver) (p : Z * TCPSegment) : Prop := {
  has_heard : is_listen_ r = false;
  has_bytes : syn (header p.2) = false -> forall k, p.1 - 1 <= k < p.1 - 1 + zlen (str (payload p.2)) -> got r k;
  has_fin : fin (header p.2) = true -> eof_index_ (reassembler_ r) <> None
}.

(** Before the SYN is acknowledged nothing else is sent. *)
Definition syn_first (s : TCPSender) : Prop :=
  last_ack_no_ s = 0 -> window_size_ s = 1 /\ next_seq_no_ s <= 1.

Lemma has_stamped r a o w seg : has r (a, stamped o w seg) <-> has r (a, seg).
Proof. split; intros [H1 H2 H3]; (split; [exact H1|..]); destruct o; auto. Qed.

Section link.
Context (isn : WrappingInt32) (cap : Z).
Context (Hcap : 0 < cap) (Hcap2 : 2 * cap < M63) (Hisn : wi_ok isn).

Lemma got_spec hist r dlv rc fn k : rinv hist isn cap r dlv rc fn -> 0 <= k -> got r k <-> k ∈ rc.
Proof using.
  intros Hr Hk. pose proof (ri_inv _ _ _ _ _ _ _ Hr) as Hi. unfold got.
  rewrite <-elem_of_dom, (inv_rcv _ _ _ _ _ _ Hi), elem_of_filter. split.
  - intros [?|[_ ?]]; [|done]. apply (inv_seen _ _ _ _ _ _ Hi). lia.
  - intros Hin. destruct (Z_lt_le_dec k (next (reassembler_ r))); [by left|by right].
Qed.

Lemma eof_spec hist r dlv rc fn : rinv hist isn cap r dlv rc fn -> eof_index_ (reassembler_ r) <> None <-> fn = true.
Proof using. intros Hr. rewrite (inv_eof _ _ _ _ _ _ (ri_inv _ _ _ _ _ _ _ Hr)). by destruct fn. Qed.

(** More received: what the receiver has, it keeps. *)
Lemma has_more hist r r' dlv dlv' (rc rc' : gset Z) fn fn' p :
  rinv hist isn cap r dlv rc fn -> rinv hist isn cap r' dlv' rc' fn' -> rc ⊆ rc' -> (fn = true -> fn' = true) ->
  (is_listen_ r = false -> is_listen_ r' = false) -> 0 <= p.1 -> (syn (header p.2) = false -> 1 <= p.1) ->
  has r p -> has r' p.
Proof using.
  intros Hr Hr' Hrc Hfn Hl Hp Hs [H1 H2 H3]. split; [by apply Hl| |].
  - intros Hsy k Hk. specialize (Hs Hsy). apply (got_spec _ _ _ _ _ _ Hr'); [lia|]. apply Hrc.
    apply (got_spec _ _ _ _ _ _ Hr); [lia|]. by apply H2.
  - intros Hf. apply (eof_spec _ _ _ _ _ Hr'), Hfn, (eof_spec _ _ _ _ _ Hr), H3, Hf.
Qed.

(** A segment with sequence numbers of its own is not a pure acknowledgment. *)
Lemma pure_ack_len seg : pure_ack seg -> seg_len seg = 0.
Proof using. intros (H1 & H2 & H3). rewrite seg_len_eq; rewrite H3; [|done]. by rewrite H1, H2. Qed.

Lemma seg_at_syn hist e a seg : seg_at isn hist e a seg -> 0 <= a /\ (syn (header seg) = false -> 1 <= a).
Proof using. intros [_ _ Hs _]. destruct (syn (header seg)); [destruct Hs; lia|]. destruct Hs. split; lia. Qed.

(** What the arrival of a segment does to the receiver: it keeps what it has,
    and has the segment unless there is no room for it. *)
Lemma deliver_has sys rc fn a seg r' :
  sysinv isn cap sys rc fn -> (a, seg) ∈ sys_segments sys -> abs_ack_no (sys_receiver sys) - a <= M31 ->
  syn_first (sys_sender sys) ->
  TCPReceiver.segment_received (sys_receiver sys) seg = Ok r' ->
  later (sys_receiver sys) r'
  /\ (forall p, 0 <= p.1 -> (syn (header p.2) = false -> 1 <= p.1) -> has (sys_receiver sys) p -> has r' p)
  /\ (seg_len seg = 0 -> r' = sys_receiver sys)
  /\ (0 < seg_len seg -> a + zlen (str (payload seg)) <= edge cap (sys_receiver sys) -> has r' (a, seg)).
Proof using All.
  intros H Hin Hage Hsf E. destruct (room _ _ Hcap Hcap2 Hisn _ _ (iv_snd _ _ _ _ _ H)) as [Hc HS].
  pose proof (iv_rcv _ _ _ _ _ H) as Hr. pose proof (iv_net _ _ _ _ _ H) as Hn. rewrite Forall_forall in Hn.
  destruct (Hn _ Hin) as [(Hat & Hle & Hfit)|Hp]; cbn [fst snd] in *.
  2: { rewrite (rinv_ack _ _ _ Hc HS Hisn _ _ _ _ _ Hr Hp) in E. injection E as <-.
       rewrite (pure_ack_len _ Hp). split_and!; [split; lia|done|done|lia]. }
  destruct (Hat) as [_ Hl _ _].
  destruct (Z_le_gt_dec (a + zlen (str (payload seg))) (edge cap (sys_receiver sys))) as [Hed|Hed].
  - destruct (deliver_in_window _ _ Hcap Hcap2 Hisn sys rc fn a seg H Hat Hle Hed Hage) as (r1 & E1 & Hlt & Hh & H').
    rewrite E in E1. injection E1 as <-. pose proof (iv_rcv _ _ _ _ _ H') as Hr'. cbn in Hr'.
    assert (heard (sys_receiver sys) seg = true) as Hhd.
    { unfold heard. destruct (is_listen_ (sys_receiver sys)) eqn:El; [|done]. cbn.
      destruct (state_spec _ _ _ Hc HS Hisn _ _ _ _ Hr) as [_ Hab]. rewrite El in Hab.
      pose proof (iv_ack _ _ _ _ _ H). pose proof (si_acked _ _ (iv_snd _ _ _ _ _ H)).
      destruct Hsf as [_ Hone]; [lia|]. destruct (seg_at_syn _ _ _ _ Hat) as [? Hs].
      destruct (syn (header seg)); [done|]. specialize (Hs eq_refl). lia. }
    split_and!; [done| |lia|].
    + intros p Hp Hps. eapply has_more; try done; [apply union_subseteq_l|by intros ->|].
      intros Hnl. apply Hh, Hhd.
    + intros _ _. split; cbn [fst snd].
      * by apply Hh.
      * intros Hsy k Hk. apply (got_spec _ _ _ _ _ _ Hr'); [destruct (seg_at_syn _ _ _ _ Hat) as [_ Hs]; specialize (Hs Hsy); lia|].
        apply elem_of_union_r. unfold new_indices. rewrite Hhd, Hsy. apply elem_of_indices. lia.
      * intros Hf. apply (eof_spec _ _ _ _ _ Hr'). rewrite Hhd, Hf. apply orb_true_r.
  - (* the probe of a closed window *)
    destruct Hfit as [|(Hnx & Hone & Hfi & Hsy)]; cbn in *; [lia|].
    set (r := sys_receiver sys) in *. pose proof (next_range _ (inv_wf _ _ _ _ _ _ (ri_inv _ _ _ _ _ _ _ Hr))) as Hrg.
    rewrite (inv_cap _ _ _ _ _ _ (ri_inv _ _ _ _ _ _ _ Hr)) in Hrg. unfold edge in Hed.
    assert (is_listen_ r = false) as Hli.
    { destruct (is_listen_ r) eqn:El; [|done]. destruct (listen_edge _ _ Hcap Hcap2 Hisn _ _ _ _ _ Hr El) as [? He]. unfold edge in He. lia. }
    destruct (str (payload seg)) as [|x [|y l]] eqn:Ep; [done| |rewrite !zlen_cons in Hone; pose proof (zlen_nonneg l); lia].
    destruct (rinv_full _ _ _ Hc HS Hisn r _ _ _ seg x Hr Hli) as (r1 & E1 & Hr' & Hli'); try done; [|lia|].
    { replace (next (reassembler_ r)) with (a - 1) by lia. pose proof (seg_at_carries _ _ Hcap Hcap2 Hisn _ _ _ _ Hat) as Hca.
      by rewrite Hsy in Hca. }
    rewrite E in E1. injection E1 as <-. split_and!; [by eapply rinv_later| |lia|unfold edge; lia].
    intros p Hp Hps. by eapply has_more.
Qed.

Lemma queue_covers hist e b q : forall a n,
  contiguous isn hist e a q b -> a <= n < b -> exists p, p ∈ queue_at a q /\ p.1 <= n < p.1 + seg_len p.2.
Proof using.
  induction q as [|seg q IH]; intros a n; cbn [contiguous queue_at]; [lia|]. intros [_ Hq] Hn.
  destruct (Z_lt_le_dec n (a + seg_len seg)).
  - exists (a, seg). split; [by left|cbn; lia].
  - destruct (IH _ n Hq ltac:(lia)) as (p & Hin & Hp). exists p. split; [by right|done].
Qed.

(** A receiver that has a segment acknowledges more than part of it. *)
Lemma has_past sys rc fn e p :
  sysinv isn cap sys rc fn -> seg_at isn (sys_written sys) e p.1 p.2 -> p.1 + seg_len p.2 <= next_seq_no_ (sys_sender sys) ->
  has (sys_receiver sys) p -> ~ p.1 <= abs_ack_no (sys_receiver sys) < p.1 + seg_len p.2.
Proof using All.
  intros H Hat Hend [Hh Hby Hf] Hp. pose proof (iv_snd _ _ _ _ _ H) as Hs. set (r := sys_receiver sys) in *.
  destruct (room _ _ Hcap Hcap2 Hisn _ _ Hs) as [Hc HS]. pose proof (iv_rcv _ _ _ _ _ H) as Hr. fold r in Hr.
  destruct (state_spec _ _ _ Hc HS Hisn _ _ _ _ Hr) as [_ Hab]. rewrite Hh in Hab.
  destruct (written_range _ _ _ Hc HS Hisn _ _ _ _ Hr) as [_ Hn]. pose proof (next_seq_range _ _ Hs) as Hnr.
  destruct (fn && _) eqn:Ee.
  { apply andb_true_iff in Ee as [_ Ee%Z.eqb_eq]. lia. }
  pose proof (si_bound _ _ Hs) as Hbd. pose proof (next_least _ _ _ _ _ _ (ri_inv _ _ _ _ _ _ _ Hr)) as Hnl.
  destruct Hat as [_ _ Hsy Hfi]. destruct (syn (header p.2)) eqn:Esy.
  - destruct Hsy as (E0 & Epl & Efi). rewrite seg_len_eq, Epl, Esy, Efi in Hp by (rewrite Epl; done).
    change (zlen (@nil byte)) with 0 in Hp. lia.
  - destruct Hsy as (Hpos & Hle & _). rewrite seg_len_eq, Esy in Hp by lia.
    destruct (Z_lt_le_dec (next (reassembler_ r)) (p.1 - 1 + zlen (str (payload p.2)))) as [Hlt|Hge].
    + apply Hnl. apply (got_spec _ _ _ _ _ _ Hr); [lia|]. apply Hby; [done|lia].
    + destruct (fin (header p.2)) eqn:Ef; [|lia]. destruct (Hfi eq_refl) as [_ Hz].
      assert (fn = true) as -> by (apply (eof_spec _ _ _ _ _ Hr); by apply Hf). cbn [andb] in Ee.
      apply Z.eqb_neq in Ee. lia.
Qed.

(** A receiver that has every outstanding segment acknowledges all of them. *)
Lemma all_has sys rc fn :
  sysinv isn cap sys rc fn -> let s := sys_sender sys in
  (forall p, p ∈ queue_at (base s) (outstanding_segments_ s) -> has (sys_receiver sys) p) ->
  abs_ack_no (sys_receiver sys) = next_seq_no_ s.
Proof using All.
  intros H s Hall. pose proof (iv_snd _ _ _ _ _ H) as Hs. fold s in Hs.
  pose proof (abs_ack_sent _ _ Hcap Hcap2 Hisn _ _ _ H) as Hle. fold s in Hle.
  destruct (Z.eq_dec (abs_ack_no (sys_receiver sys)) (next_seq_no_ s)) as [|Hne]; [done|exfalso].
  pose proof (iv_ack _ _ _ _ _ H) as Hla. fold s in Hla. pose proof (si_base _ _ Hs) as Hb.
  pose proof (si_queue _ _ Hs) as Hq. pose proof (iv_isn _ _ _ _ _ H) as Hi. fold s in Hi. rewrite Hi in Hq.
  destruct (queue_covers _ _ _ _ _ (abs_ack_no (sys_receiver sys)) Hq ltac:(lia)) as (p & Hin & Hp).
  destruct (queue_at_spec _ _ Hcap Hcap2 Hisn _ _ _ _ _ _ _ Hq Hin) as (Hat & _ & Hend).
  exact (has_past _ _ _ _ _ H Hat Hend (Hall p Hin) Hp).
Qed.

(** The position of an outstanding segment is the number it is sent with. *)
Lemma queue_stamp s hist p :
  sinv s hist -> isn_ s = isn -> p ∈ queue_at (base s) (outstanding_segments_ s) ->
  stamp s p.2 = p /\ seg_at isn hist (ended s) p.1 p.2 /\ p.1 + seg_len p.2 <= next_seq_no_ s.
Proof using All.
  intros Hs Hi Hin. pose proof (si_queue _ _ Hs) as Hq. rewrite Hi in Hq.
  destruct (queue_at_spec _ _ Hcap Hcap2 Hisn _ _ _ _ _ _ _ Hq Hin) as (Hat & Hlo & Hhi). split_and!; [|done|done].
  pose proof (si_front _ _ Hs) as Hf. pose proof (si_acked _ _ Hs). pose proof (si_flight _ _ Hs). pose proof (next_seq_range _ _ Hs).
  pose proof (si_bound _ _ Hs). destruct (Hat) as [_ Hl _ _].
  destruct (outstanding_segments_ s) as [|x q]; [by apply elem_of_nil in Hin|]. destruct Hq as [[_ Hlx _ _] _].
  unfold MAX_PAYLOAD_SIZE in *. destruct p as [a seg]; cbn [fst snd] in *.
  apply (stamp_at _ _ Hcap Hcap2 Hisn s hist (ended s)); try done; unfold base in *; lia.
Qed.
End link.

(** ** What the calls queue *)

(** What a call appends to the queue: [ext], with the receiver's fields. *)
Definition queued (c c' : TCPConnection) (ext : list TCPSegment) : Prop :=
  exists o, ackno (receiver_ c') = Ok o
    /\ segments_out_ c' = segments_out_ c ++ map (stamped o (window_size (receiver_ c'))) ext.

(** The flush at the end of a call. *)
Lemma flushed c0 c o :
  enqueue_segments c0 = Ok c -> need_send_rst_ c0 = false -> ackno (receiver_ c0) = Ok o ->
  segments_out_ c = segments_out_ c0 ++ map (stamped o (window_size (receiver_ c0))) (TCPSender.segments_out_ (sender_ c0))
  /\ sender_ c = set_segments_out [] (sender_ c0) /\ receiver_ c = receiver_ c0 /\ cfg_ c = cfg_ c0
  /\ active_ c = active_ c0 /\ linger_after_stream_finish_ c = linger_after_stream_finish_ c0 /\ ms_since_last_recv_ c = ms_since_last_recv_ c0.
Proof. intros E Hr Ha. rewrite (enqueue_ok c0 o Ha Hr) in E. by injection E as <-. Qed.

Lemma linger_cfg c (b : bool) : cfg_ (if b then try_clean_shutdown (set_linger false c) else c) = cfg_ c.
Proof. destruct b; [|done]. by destruct (try_clean_shutdown_fields (set_linger false c)) as (-> & _). Qed.

(** The sender after the acknowledgment of [seg]. *)
Definition acked (s : TCPSender) (seg : TCPSegment) : TCPSender :=
  if ack (header seg) then ack_received s (TCPHeader.ackno (header seg)) (win (header seg)) else s.

(** Only a pure acknowledgment is queued beside the sender's segments, and only
    in answer to a segment with sequence numbers, or before the end. *)
Definition answers (r : TCPReceiver) (seg : TCPSegment) (new ext : list TCPSegment) : Prop :=
  (ext = new /\ (0 < seg_len seg -> new <> []))
  \/ (new = [] /\ (exists e, ext = [e] /\ pure_ack e) /\ (0 < seg_len seg \/ TCPReceiver.state r = TCPReceiver.kSynRecv)).

Section calls.
Context (isnx isny : WrappingInt32) (capx capy : Z).
Context (Hcapx : 0 < capx) (Hcapx2 : 2 * capx < M63) (Hisnx : wi_ok isnx).
Context (Hcapy : 0 < capy) (Hcapy2 : 2 * capy < M63) (Hisny : wi_ok isny).

Lemma dinv_sender x y : dinv isnx capx isny capy x y -> sinv (sender_ (conn x)) (written x) /\ isn_ (sender_ (conn x)) = isnx
  /\ TCPSender.segments_out_ (sender_ (conn x)) = [] /\ need_send_rst_ (conn x) = false.
Proof using. intros (? & ? & ? & ? & ? & ? & ? & ? & [Hs Hi Ho _ _ _ _ _ _ _ _ _] & _ & [_ Hr _ _] & _). done. Qed.

(** [wants_reply] answers yes to a segment with sequence numbers, and to others
    only before the end. *)
Lemma wants_reply_cases c seg rep :
  wants_reply c seg = Ok rep ->
  (0 < seg_len seg -> rep = true) /\ (rep = true -> 0 < seg_len seg \/ TCPReceiver.state (receiver_ c) = TCPReceiver.kSynRecv).
Proof using.
  unfold wants_reply. fold (seg_len seg). destruct (Z.ltb_spec 0 (seg_len seg)); [intros [= <-]; tauto|].
  case_bool_decide; [intros _; split; [lia|by right]|]. intros [= <-]. split; [lia|done].
Qed.

(** The steps of [segment_received] on a segment that is neither ignored nor a
    reset. *)
Lemma received_steps c seg c' :
  ignored c seg = false -> rst (header seg) = false -> segment_received c seg = Ok c' ->
  exists r c3 s2 rep, TCPReceiver.segment_received (receiver_ c) seg = Ok r
    /\ sender_ c3 = acked (sender_ c) seg /\ receiver_ c3 = r /\ segments_out_ c3 = segments_out_ c
    /\ need_send_rst_ c3 = need_send_rst_ c /\ cfg_ c3 = cfg_ c
    /\ fill_window (acked (sender_ c) seg) = Ok s2 /\ wants_reply (set_sender s2 c3) seg = Ok rep
    /\ enqueue_segments (try_clean_shutdown (if rep then set_sender (send_empty_segment s2) (set_sender s2 c3) else set_sender s2 c3)) = Ok c'.
Proof using.
  intros Hst Hrs E. unfold segment_received in E. fold (ignored c seg) in E. rewrite Hst in E.
  rewrite Hrs in E. cbn [receiver_ set_ms] in E.
  apply bind_Ok in E as (r & Er & E). cbn [sender_ set_receiver set_ms] in E.
  match type of E with context [if ack (header seg) then set_sender ?s ?c1 else ?c1] =>
    set (c2 := if ack (header seg) then set_sender s c1 else c1) in E end.
  assert (sender_ c2 = acked (sender_ c) seg /\ receiver_ c2 = r /\ segments_out_ c2 = segments_out_ c
    /\ need_send_rst_ c2 = need_send_rst_ c /\ cfg_ c2 = cfg_ c) as (S2 & R2 & O2 & N2 & G2).
  { subst c2. unfold acked. by destruct (ack (header seg)). }
  clearbody c2. match type of E with context [if ?b then try_clean_shutdown (set_linger false c2) else c2] =>
    pose proof (linger_cfg c2 b) as G3; destruct (linger_fields c2 b) as (S3 & R3 & O3 & N3);
    set (c3 := if b then try_clean_shutdown (set_linger false c2) else c2) in * end. clearbody c3.
  rewrite S3, S2 in E. apply bind_Ok in E as (s2 & E2 & E). apply bind_Ok in E as (rep & Erep & E).
  exists r, c3, s2, rep. split_and!; try done; congruence.
Qed.

Lemma effect x y a b seg c :
  dinv isnx capx isny capy x y -> (a, b, seg) ∈ sent y -> last_ack_no_ (sender_ (conn x)) - b <= M31 ->
  abs_ack_no (receiver_ (conn x)) - a <= M31 ->
  ignored (conn x) seg = false -> segment_received (conn x) seg = Ok c ->
  TCPReceiver.segment_received (receiver_ (conn x)) seg = Ok (receiver_ c) /\ cfg_ c = cfg_ (conn x)
  /\ exists s2 new ext, extends (acked (sender_ (conn x)) seg) s2 new
     /\ (next_seq_no_ (acked (sender_ (conn x)) seg) = 0 \/ filled s2) /\ sender_ c = set_segments_out [] s2
     /\ queued (conn x) c ext /\ answers (receiver_ c) seg new ext.
Proof using All.
  intros H Hin Hage Hage' Hig E.
  destruct (H) as (sx & ax & sy & ay & rcx & fnx & rcy & fny & H1 & H2 & [Ho Hr Hp Hs] & Hy).
  pose proof (calm_sent _ _ _ Hy) as Hok. rewrite Forall_forall in Hok. specialize (Hok _ Hin).
  destruct (duplex_ack isnx isny capx capy Hcapx Hcapx2 Hisnx Hcapy Hcapy2 Hisny x y sx sy ay rcx fnx a b seg H1 Hok Hage Hp) as [H1' _].
  fold (acked (sender_ (conn x)) seg) in H1'. pose proof (iv_snd _ _ _ _ _ H1') as Hs1. cbn [sys_sender sys_written] in Hs1.
  pose proof (iv_out _ _ _ _ _ H1') as Ho1. cbn [sys_sender] in Ho1.
  destruct Hok as (_ & _ & raw & o & w & Hraw & [_ Hrst] & Eseg & _). cbn [fst snd] in *.
  destruct (sysinv_deliver isny capx Hcapx Hcapx2 Hisny _ _ _ a raw H2 Hraw Hage') as (r & rcy' & fny' & Er & H2').
  destruct (room isny capx Hcapx Hcapx2 Hisny _ _ (iv_snd _ _ _ _ _ H2')) as [Hc HS].
  destruct (rinv_advert _ _ _ Hc HS Hisny _ _ _ _ (iv_rcv _ _ _ _ _ H2')) as [Ha _]. cbn [sys_receiver Transfer.set_receiver] in Ha.
  destruct (received_steps (conn x) seg c) as (r' & c3 & s2 & rep & Er' & S3 & R3 & O3 & N3 & G3 & E2 & Erep & Ee); [done|subst seg; by rewrite stamped_rst|done|].
  assert (r' = r) as ->.
  { cbn [link sys_receiver] in Er. subst seg. rewrite stamped_receive, Er in Er'. by injection Er'. }
  destruct (fill_window_spec _ _ Hs1) as (s2' & new & E2' & _ & Hex & Hfill). rewrite E2 in E2'. injection E2' as <-.
  apply wants_reply_cases in Erep as [W1 W2]. cbn [receiver_ set_sender] in W2.
  set (c4 := if rep then _ else _) in Ee. destruct (try_clean_shutdown_fields c4) as (F1 & F2 & F3 & F4 & F5 & _).
  assert (sender_ c4 = (if rep then send_empty_segment s2 else s2) /\ receiver_ c4 = r /\ segments_out_ c4 = segments_out_ (conn x)
    /\ need_send_rst_ c4 = false /\ cfg_ c4 = cfg_ (conn x)) as (S4 & R4 & O4 & N4 & G4) by (subst c4; destruct rep; split_and!; cbn; congruence).
  clearbody c4. rewrite <-R4, <-F2 in Ha. destruct (flushed _ _ _ Ee (eq_trans F5 N4) Ha) as (Q5 & S5 & R5 & G5 & _).
  rewrite F4, F3, O4, S4 in Q5. rewrite F3, S4 in S5. rewrite F1, G4 in G5. assert (receiver_ c = r) as Rc by (by rewrite R5, F2).
  rewrite Rc. split_and!; [done|done|]. pose proof (ex_out _ _ _ Hex) as Hout. rewrite Ho1 in Hout. cbn [app] in Hout.
  exists s2, new, (TCPSender.segments_out_ (if rep then send_empty_segment s2 else s2)).
  split_and!; [done|done|rewrite S5; by destruct rep; [unfold send_empty_segment; destruct (TCPSender.segments_out_ s2)|]| |].
  - eexists. rewrite R5. split; [exact Ha|exact Q5].
  - unfold answers. destruct rep; [|left; split; [done|intros Hl; by specialize (W1 Hl)]].
    unfold send_empty_segment. rewrite Hout. destruct new as [|e new]; [right|left; by rewrite Hout].
    split_and!; [done|by eexists|]. rewrite R3 in W2. auto.
Qed.

(** An end that has sent its SYN ignores nothing. *)
Lemma heeded x y seg :
  dinv isnx capx isny capy x y -> 1 <= next_seq_no_ (sender_ (conn x)) -> ignored (conn x) seg = false.
Proof using.
  intros H Hnx. unfold ignored. rewrite (state_cases _ _ (proj1 (dinv_sender _ _ H))).
  destruct (Z.eqb_spec (next_seq_no_ (sender_ (conn x))) 0); [lia|].
  rewrite (bool_decide_false (_ = TCPSender.kClosed)) by (by repeat case_match). by rewrite andb_false_r.
Qed.

Lemma segment_effect x y a b seg c :
  dinv isnx capx isny capy x y -> (a, b, seg) ∈ sent y -> last_ack_no_ (sender_ (conn x)) - b <= M31 ->
  abs_ack_no (receiver_ (conn x)) - a <= M31 ->
  1 <= next_seq_no_ (sender_ (conn x)) -> segment_received (conn x) seg = Ok c ->
  TCPReceiver.segment_received (receiver_ (conn x)) seg = Ok (receiver_ c) /\ cfg_ c = cfg_ (conn x)
  /\ exists s2 new ext, extends (acked (sender_ (conn x)) seg) s2 new /\ filled s2 /\ sender_ c = set_segments_out [] s2
     /\ queued (conn x) c ext /\ answers (receiver_ c) seg new ext.
Proof using All.
  intros H Hin Hage Hage' Hnx E.
  destruct (effect x y a b seg c H Hin Hage Hage' (heeded x y seg H Hnx) E) as (Er & Ec & s2 & new & ext & Hex & Hfill & Hrest).
  split_and!; [done|done|]. exists s2, new, ext. split; [done|]. split; [|done].
  destruct Hfill as [Hn0|Hfill]; [exfalso; revert Hn0; unfold acked, ack_received; repeat case_match; cbn; lia|done].
Qed.

(** What an acknowledgment does to the sender. *)
Record heeds (s s1 : TCPSender) : Prop := {
  he_ack : last_ack_no_ s <= last_ack_no_ s1;
  he_next : next_seq_no_ s1 = next_seq_no_ s;
  he_queue : queue_at (base s1) (outstanding_segments_ s1) ⊆ queue_at (base s) (outstanding_segments_ s);
  he_same : last_ack_no_ s1 = last_ack_no_ s -> retransmission_count_ s1 = retransmission_count_ s;
  he_reset : last_ack_no_ s < last_ack_no_ s1 -> retransmission_count_ s1 = 0;
  he_syn : syn_first s -> syn_first s1
}.

Lemma heeds_refl s : heeds s s.
Proof using. split; try done; lia. Qed.

Lemma acked_effect x y a b seg :
  dinv isnx capx isny capy x y -> (a, b, seg) ∈ sent y -> last_ack_no_ (sender_ (conn x)) - b <= M31 ->
  heeds (sender_ (conn x)) (acked (sender_ (conn x)) seg)
  /\ (ack (header seg) = true -> b <= last_ack_no_ (acked (sender_ (conn x)) seg)).
Proof using All.
  intros (sx & ax & sy & ay & rcx & fnx & rcy & fny & H1 & H2 & _ & Hy) Hin Hage.
  pose proof (calm_sent _ _ _ Hy) as Hok. rewrite Forall_forall in Hok.
  destruct (Hok _ Hin) as (_ & _ & raw & o & w & _ & [Hra _] & Eseg & Hac). cbn [fst snd] in *. subst seg. unfold acked.
  destruct o as [n|]; cbn [stamped]; [|rewrite Hra; split; [apply heeds_refl|done]]. cbn. specialize (Hac n eq_refl).
  set (s := sender_ (conn x)) in *. set (w' := u16 (Z.min w 65535)) in *.
  pose proof (iv_snd _ _ _ _ _ H1) as Hs. cbn [link sys_sender sys_written] in Hs. fold s in Hs.
  destruct (sysinv_ack isnx capy Hcapy Hcapy2 Hisnx _ _ _ _ _ _ H1 Hac Hage) as [_ Hmax]. cbn [link sys_sender] in Hmax. fold s in Hmax.
  pose proof (abs_ack_sent isnx capy Hcapy Hcapy2 Hisnx _ _ _ H1) as Hsent. cbn [link sys_sender sys_receiver] in Hsent. fold s in Hsent.
  pose proof (iv_acks _ _ _ _ _ H1) as Hall. rewrite Forall_forall in Hall. destruct (Hall _ Hac) as (En & Hw & Hb & _).
  cbn [link sys_receiver] in Hb. split; [|intros _; lia].
  pose proof (si_acked _ _ Hs) as Hak. pose proof (next_seq_range _ _ Hs). pose proof (si_bound _ _ Hs).
  pose proof (iv_isn _ _ _ _ _ H1) as Hi. cbn [link sys_sender] in Hi. fold s in Hi.
  assert (unwrap n (isn_ s) (last_ack_no_ s) = b) as Hun by (rewrite En, Hi; apply unwrap_wrap_near; lia).
  destruct (Z_le_gt_dec b (last_ack_no_ s)) as [Hold|Hnew].
  - rewrite ack_received_old by (rewrite Hun; lia). rewrite Hun.
    destruct (b =? last_ack_no_ s); [|apply heeds_refl]. split; cbn; try done; try lia. intros _ ?. cbn in *. lia.
  - destruct (ack_received_new _ _ n w' Hs Hw) as (dr & Hs' & Hsp & Hdr & Hb' & Hla & _ & Hct & _ & _ & Hst & Hnx & _);
      [rewrite Hun; lia|]. rewrite Hun in Hla. split; try done; try lia.
    + rewrite Hsp, (queue_at_app _ _ Hcapx Hcapx2 Hisny _ _ _ _ _ _ _ Hdr). by apply list_subseteq_app_r.
    + intros _ ?. lia.
Qed.
End calls.

(** ** The wire *)

(** [F] are the segments of [u] on their way to [v].  What [u] has outstanding
    is among them or with [v] already; so is its last acknowledgment. *)
Record wire (u v : endpoint) (F : list TCPSegment) : Prop := {
  wi_data : forall p, p ∈ queue_at (base (sender_ (conn u))) (outstanding_segments_ (sender_ (conn u))) ->
    has (receiver_ (conn v)) p
    \/ exists b o w, (p.1, b, stamped o w p.2) ∈ sent u /\ stamped o w p.2 ∈ F;
  wi_ack : last_ack_no_ (sender_ (conn v)) = abs_ack_no (receiver_ (conn u))
    \/ exists a seg, (a, abs_ack_no (receiver_ (conn u)), seg) ∈ sent u /\ seg ∈ F /\ ack (header seg) = true
}.

Lemma wire_subset u v F F' : F ⊆ F' -> wire u v F -> wire u v F'.
Proof.
  intros Hs [Hd Ha]. split.
  - intros p Hp. destruct (Hd p Hp) as [|(b & o & w & ? & ?)]; [by left|right]. exists b, o, w. split; [done|by apply Hs].
  - destruct Ha as [|(a & seg & ? & ? & ?)]; [by left|right]. exists a, seg. split_and!; [done|by apply Hs|done].
Qed.

(** There is room for the segments [F] of [u] at [v]. *)
Definition roomy (capv : Z) (u v : endpoint) (F : list TCPSegment) : Prop :=
  forall a b seg, (a, b, seg) ∈ sent u -> seg ∈ F -> 0 < seg_len seg ->
    a + zlen (str (payload seg)) <= edge capv (receiver_ (conn v)).

(** What calls do to an endpoint, beside what they send. *)
Record moved (x x' : endpoint) : Prop := {
  mv_cfg : cfg_ (conn x') = cfg_ (conn x);
  mv_ack : last_ack_no_ (sender_ (conn x)) <= last_ack_no_ (sender_ (conn x'));
  mv_next : next_seq_no_ (sender_ (conn x)) <= next_seq_no_ (sender_ (conn x'));
  mv_same : last_ack_no_ (sender_ (conn x')) = last_ack_no_ (sender_ (conn x)) ->
    retransmission_count_ (sender_ (conn x')) = retransmission_count_ (sender_ (conn x));
  mv_reset : last_ack_no_ (sender_ (conn x)) < last_ack_no_ (sender_ (conn x')) ->
    retransmission_count_ (sender_ (conn x')) = 0;
  mv_syn : syn_first (sender_ (conn x)) -> syn_first (sender_ (conn x'));
  mv_recv : abs_ack_no (receiver_ (conn x)) <= abs_ack_no (receiver_ (conn x'))
}.

Lemma moved_refl x : moved x x.
Proof. split; try done; lia. Qed.

Lemma moved_trans x y z : moved x y -> moved y z -> moved x z.
Proof.
  intros [A3 A5 A6 A7 A8 A9 A10] [B3 B5 B6 B7 B8 B9 B10]. split; try congruence; try lia; try tauto.
Qed.

Section wires.
Context (isnx isny : WrappingInt32) (capx capy : Z).
Context (Hcapx : 0 < capx) (Hcapx2 : 2 * capx < M63) (Hisnx : wi_ok isnx).
Context (Hcapy : 0 < capy) (Hcapy2 : 2 * capy < M63) (Hisny : wi_ok isny).

(** What a call of [x] sends. *)
Lemma called_sent x c ext o :
  segments_out_ c = segments_out_ (conn x) ++ map (stamped o (window_size (receiver_ c))) ext ->
  sent (called c x) = sent x ++ map (labelled c) (map (stamped o (window_size (receiver_ c))) ext).
Proof using. intros Eq. cbn. unfold segments_out. by rewrite Eq, drop_app_length. Qed.

(** A segment of the queue is sent under its position. *)
Lemma labelled_queue x y c o w p :
  dinv isnx capx isny capy (called c x) y -> p ∈ queue_at (base (sender_ c)) (outstanding_segments_ (sender_ c)) ->
  labelled c (stamped o w p.2) = (p.1, abs_ack_no (receiver_ c), stamped o w p.2).
Proof using All.
  intros H Hp. destruct (dinv_sender _ _ _ _ _ _ H) as (Hs & Hi & _ & _). cbn [conn called written] in Hs, Hi.
  destruct (queue_stamp isnx capy Hcapy Hcapy2 Hisnx _ _ _ Hs Hi Hp) as [Est _]. unfold stamp in Est.
  unfold labelled. f_equal. f_equal. rewrite <-Est at 2. by destruct o.
Qed.

(** What a call of [x] sends carries the acknowledgment of the moment. *)
Lemma called_ack x y c ext :
  dinv isnx capx isny capy (called c x) y -> queued (conn x) c ext -> ext <> [] -> is_listen_ (receiver_ c) = false ->
  exists a g, (a, abs_ack_no (receiver_ c), g) ∈ drop (length (sent x)) (sent (called c x))
    /\ g ∈ drop (length (segments_out (conn x))) (segments_out c) /\ ack (header g) = true.
Proof using All.
  intros H (o & Eo & Eq) Hne El. rewrite (called_sent _ _ _ _ Eq), drop_app_length. unfold segments_out. rewrite Eq, drop_app_length.
  destruct H as (sx & ax & sy & ay & rcx & fnx & rcy & fny & _ & H2 & _ & _).
  destruct (room isny capx Hcapx Hcapx2 Hisny _ _ (iv_snd _ _ _ _ _ H2)) as [Hc HS].
  destruct (rinv_advert _ _ _ Hc HS Hisny _ _ _ _ (iv_rcv _ _ _ _ _ H2)) as [Hao _]. cbn [link sys_receiver conn called] in Hao.
  rewrite El, Eo in Hao. injection Hao as ->. destruct ext as [|e ext]; [done|]. eexists _, _. split_and!; [by left|by left|done].
Qed.

(** A call of [x] puts what it sends on the wire. *)
Lemma wire_call x y F c ext :
  dinv isnx capx isny capy (called c x) y -> wire x y F -> queued (conn x) c ext ->
  (forall p, p ∈ queue_at (base (sender_ c)) (outstanding_segments_ (sender_ c)) ->
     p ∈ queue_at (base (sender_ (conn x))) (outstanding_segments_ (sender_ (conn x))) \/ p.2 ∈ ext) ->
  (abs_ack_no (receiver_ c) = abs_ack_no (receiver_ (conn x)) \/ ext <> []) ->
  wire (called c x) y (F ++ drop (length (segments_out (conn x))) (segments_out c)).
Proof using All.
  intros H [Hd Ha] Hq Hnew Hack. pose proof Hq as (o & _ & Eq). split; cbn [conn called].
  - intros p Hp. rewrite (called_sent _ _ _ _ Eq). unfold segments_out. rewrite Eq, drop_app_length. destruct (Hnew p Hp) as [Hold|He].
    + destruct (Hd p Hold) as [|(b & o' & w' & Hin & HF)]; [by left|right]. exists b, o', w'. split; (apply elem_of_app; by left).
    + right. exists (abs_ack_no (receiver_ c)), o, (window_size (receiver_ c)). rewrite <-(labelled_queue x y c o _ p H Hp).
      split; (apply elem_of_app; right; repeat apply list_elem_of_fmap_2; exact He).
  - destruct (decide (abs_ack_no (receiver_ c) = abs_ack_no (receiver_ (conn x)))) as [E|Hne].
    + rewrite E. destruct Ha as [|(a & seg & Hin & HF & ?)]; [by left|right]. exists a, seg. cbn.
      split_and!; [..|done]; (apply elem_of_app; by left).
    + assert (ext <> []) as Hext by (by destruct Hack). destruct (is_listen_ (receiver_ c)) eqn:El.
      * left. destruct H as (sx & ax & sy & ay & rcx & fnx & rcy & fny & _ & H2 & _ & _).
        destruct (room isny capx Hcapx Hcapx2 Hisny _ _ (iv_snd _ _ _ _ _ H2)) as [Hc HS].
        destruct (state_spec _ _ _ Hc HS Hisny _ _ _ _ (iv_rcv _ _ _ _ _ H2)) as [_ Hab]. pose proof (iv_ack _ _ _ _ _ H2) as Hle.
        pose proof (si_acked _ _ (iv_snd _ _ _ _ _ H2)) as Hak. cbn [link sys_sender sys_receiver conn called] in Hab, Hle, Hak.
        rewrite El in Hab. lia.
      * right. destruct (called_ack x y c ext H Hq Hext El) as (a & g & H1 & H2 & H3). exists a, g.
        split_and!; [|apply elem_of_app; by right|done]. rewrite <-(take_drop (length (sent x)) (sent (called c x))). apply elem_of_app. by right.
Qed.

(** Nothing that was ever sent is too old. *)
Lemma young x y a b seg :
  dinv isnx capx isny capy x y -> zlen (written x) + 2 <= M31 -> zlen (written y) + 2 <= M31 ->
  (a, b, seg) ∈ sent y ->
  abs_ack_no (receiver_ (conn x)) - a <= M31 /\ last_ack_no_ (sender_ (conn x)) - b <= M31.
Proof using All.
  intros H Hx Hy Hin. destruct (dinv_bounds isnx isny capx capy Hcapx Hcapx2 Hisnx Hcapy Hcapy2 Hisny _ _ H) as [Hl _].
  destruct (dinv_bounds isny isnx capy capx Hcapy Hcapy2 Hisny Hcapx Hcapx2 Hisnx _ _ (dinv_sym _ _ _ _ _ _ H)) as [_ Ha].
  destruct H as (sx & ax & sy & ay & rcx & fnx & rcy & fny & _ & _ & _ & [_ _ _ Hs]).
  rewrite Forall_forall in Hs. destruct (Hs _ Hin) as (? & ? & _). cbn in *. lia.
Qed.

Lemma queue_at_segs q p : forall n, p ∈ queue_at n q -> p.2 ∈ q.
Proof using.
  induction q as [|e q IH]; intros n; cbn [queue_at]; [by intros ?%elem_of_nil|].
  intros [->|Hp]%elem_of_cons; [by left|right; by eapply IH].
Qed.

Lemma seg_len_pos seg : seg_len seg = 0 \/ 0 < seg_len seg.
Proof using.
  pose proof (u64_range (zlen (str (payload seg)) + (if syn (header seg) then 1 else 0) + (if fin (header seg) then 1 else 0))).
  unfold seg_len, length_in_sequence_space. lia.
Qed.

(** What the arrival of [f] does to the receiver of [x]. *)
Lemma arrival x y f r a b :
  dinv isnx capx isny capy x y -> zlen (written x) + 2 <= M31 -> zlen (written y) + 2 <= M31 ->
  (a, b, f) ∈ sent y -> syn_first (sender_ (conn y)) -> roomy capx y x [f] ->
  TCPReceiver.segment_received (receiver_ (conn x)) f = Ok r ->
  later (receiver_ (conn x)) r
  /\ (forall p, 0 <= p.1 -> (syn (header p.2) = false -> 1 <= p.1) -> has (receiver_ (conn x)) p -> has r p)
  /\ (seg_len f = 0 -> r = receiver_ (conn x)) /\ (0 < seg_len f -> has r (a, f)).
Proof using All.
  intros H Hx Hy Hin Hsf Hroom Er. destruct (young x y a b f H Hx Hy Hin) as [Ha _].
  specialize (Hroom a b f Hin (list_elem_of_here _ _)).
  destruct H as (sx & ax & sy & ay & rcx & fnx & rcy & fny & _ & H2 & _ & Cy). pose proof (calm_sent _ _ _ Cy) as Hok.
  rewrite Forall_forall in Hok. destruct (Hok _ Hin) as (_ & _ & raw & o & w & Hraw & _ & Ef & _). cbn [fst snd] in *.
  rewrite Ef, stamped_receive in Er. assert (seg_len f = seg_len raw /\ payload f = payload raw) as [El Ep] by (subst f; by destruct o).
  rewrite El, Ep in *. destruct (deliver_has isny capx Hcapx Hcapx2 Hisny _ _ _ a raw _ H2 Hraw Ha Hsf Er) as (D1 & D2 & D3 & D4).
  cbn [link sys_receiver] in *. split_and!; [done|done|done|]. intros Hl. rewrite Ef. apply has_stamped. by apply D4, Hroom.
Qed.

(** The wire to [x] after [f] has arrived. *)
Lemma wire_arrival x y f F c :
  dinv isnx capx isny capy x y -> zlen (written x) + 2 <= M31 -> zlen (written y) + 2 <= M31 ->
  dinv isnx capx isny capy (called c x) y -> syn_first (sender_ (conn y)) -> (exists a b, (a, b, f) ∈ sent y) ->
  roomy capx y x (f :: F) -> wire y x (f :: F) -> TCPReceiver.segment_received (receiver_ (conn x)) f = Ok (receiver_ c) ->
  last_ack_no_ (sender_ c) = last_ack_no_ (acked (sender_ (conn x)) f) ->
  wire y (called c x) F.
Proof using All.
  intros H Hx Hy H' Hsf (a & b & Hin) Hroom [Hd Hak] Er Ea.
  assert (roomy capx y x [f]) as Hroom1.
  { intros a' b' seg Hi ->%list_elem_of_singleton. by eapply Hroom; [|left]. }
  destruct (arrival x y f _ a b H Hx Hy Hin Hsf Hroom1 Er) as (_ & Hkeep & _ & _).
  destruct (dinv_sender _ _ _ _ _ _ (dinv_sym _ _ _ _ _ _ H)) as (Hsy & Hiy & _). split; cbn [conn called].
  - intros p Hp. destruct (queue_stamp isny capx Hcapx Hcapx2 Hisny _ _ _ Hsy Hiy Hp) as (_ & Hat & _).
    destruct (seg_at_syn _ _ _ _ _ Hat) as [Hp0 Hp1]. destruct Hat as [_ Hl _ _].
    destruct (Hd p Hp) as [Hh|(b' & o & w & Hin' & HF)]; [left; by apply Hkeep|].
    apply elem_of_cons in HF as [Ef|HF]; [left|right; by exists b', o, w].
    rewrite Ef in Hin'. destruct (arrival x y f _ _ _ H Hx Hy Hin' Hsf Hroom1 Er) as (_ & _ & _ & Hhas).
    rewrite <-Ef in Hhas. destruct p as [pa ps]; cbn [fst snd] in *. apply (has_stamped _ _ o w), Hhas. destruct o; apply Hl.
  - destruct (young x y a b f H Hx Hy Hin) as [_ Hb].
    destruct (acked_effect isnx isny capx capy Hcapx Hcapx2 Hisnx Hcapy Hcapy2 Hisny x y a b f H Hin Hb) as [Hhe _].
    pose proof (he_ack _ _ Hhe) as Hle. rewrite <-Ea in Hle.
    assert (last_ack_no_ (sender_ c) <= abs_ack_no (receiver_ (conn y))) as Hub.
    { destruct H' as (sx & ax & sy & ay & rcx & fnx & rcy & fny & H1 & _). exact (iv_ack _ _ _ _ _ H1). }
    destruct Hak as [Heq|(a' & seg & Hin' & HF & Hack)]; [left; lia|].
    apply elem_of_cons in HF as [->|HF]; [left|right; by exists a', seg]. destruct (young x y _ _ f H Hx Hy Hin') as [_ Hb'].
    destruct (acked_effect isnx isny capx capy Hcapx Hcapx2 Hisnx Hcapy Hcapy2 Hisny x y _ _ f H Hin' Hb') as [_ Hm].
    specialize (Hm Hack). lia.
Qed.

Lemma acked_sinv x y a b seg :
  dinv isnx capx isny capy x y -> (a, b, seg) ∈ sent y -> last_ack_no_ (sender_ (conn x)) - b <= M31 ->
  sinv (acked (sender_ (conn x)) seg) (written x).
Proof using All.
  intros (sx & ax & sy & ay & rcx & fnx & rcy & fny & H1 & _ & [_ _ Hp _] & Cy) Hin Hage. pose proof (calm_sent _ _ _ Cy) as Hok.
  rewrite Forall_forall in Hok. destruct (duplex_ack isnx isny capx capy Hcapx Hcapx2 Hisnx Hcapy Hcapy2 Hisny x y sx sy ay rcx fnx a b seg H1
    (Hok _ Hin) Hage Hp) as [H1' _]. exact (iv_snd _ _ _ _ _ H1').
Qed.

(** What [fill_window] adds to the outstanding segments. *)
Lemma extends_queue s1 s2 hist new p :
  sinv s1 hist -> extends s1 s2 new -> p ∈ queue_at (base s2) (outstanding_segments_ s2) ->
  p ∈ queue_at (base s1) (outstanding_segments_ s1) \/ p.2 ∈ new.
Proof using Hcapx Hcapx2 Hisny.
  intros Hs Hex. rewrite (ex_base _ _ _ Hex), (ex_outstanding _ _ _ Hex).
  rewrite (queue_at_app _ _ Hcapx Hcapx2 Hisny _ _ _ _ _ _ _ (si_queue _ _ Hs)).
  intros [Hp|Hp]%elem_of_app; [by left|right; by eapply queue_at_segs].
Qed.

(** The sender's side of a call that filled the window. *)
Lemma moved_call x c s1 s2 new :
  heeds (sender_ (conn x)) s1 -> extends s1 s2 new -> sender_ c = set_segments_out [] s2 -> cfg_ c = cfg_ (conn x) ->
  abs_ack_no (receiver_ (conn x)) <= abs_ack_no (receiver_ c) -> moved x (called c x).
Proof using.
  intros [A1 A2 A4 A5 A6 A7] [B1 B2 B3 B4 B5 B6 B7 B8 B9 B10] Es Ec Hr.
  split; cbn [conn called]; rewrite ?Es; cbn; try done; try lia.
  unfold syn_first in *. cbn. rewrite B4, B5. intros Hf0 Hz. destruct (A7 Hf0 Hz). lia.
Qed.

Lemma queued_drop c c' ext :
  queued c c' ext -> segments_out c' = segments_out c ++ drop (length (segments_out c)) (segments_out c').
Proof using. intros (o & _ & Eq). unfold segments_out. by rewrite Eq, drop_app_length. Qed.

(** A segment of [y] arrives at [x]; [G] are the segments of [x] on their way. *)
Lemma wire_received x y f F G :
  dinv isnx capx isny capy x y -> zlen (written x) + 2 <= M31 -> zlen (written y) + 2 <= M31 ->
  (exists a b, (a, b, f) ∈ sent y) -> 1 <= next_seq_no_ (sender_ (conn x)) -> syn_first (sender_ (conn y)) ->
  roomy capx y x (f :: F) -> wire y x (f :: F) -> wire x y G ->
  exists c, segment_received (conn x) f = Ok c /\ dinv isnx capx isny capy (called c x) y /\ moved x (called c x)
    /\ filled (sender_ c) /\ roomy capx y (called c x) F /\ wire y (called c x) F
    /\ segments_out c = segments_out (conn x) ++ drop (length (segments_out (conn x))) (segments_out c)
    /\ wire (called c x) y (G ++ drop (length (segments_out (conn x))) (segments_out c)).
Proof using All.
  intros H Hx Hy (a & b & Hin) Hnx Hsf Hroom Hyx Hxy. destruct (young x y a b f H Hx Hy Hin) as [Hage Hage'].
  destruct (duplex_segment isnx isny capx capy Hcapx Hcapx2 Hisnx Hcapy Hcapy2 Hisny x y a b f H Hin Hage Hage') as (c & E & H').
  destruct (segment_effect isnx isny capx capy Hcapx Hcapx2 Hisnx Hcapy Hcapy2 Hisny x y a b f c H Hin Hage' Hage Hnx E)
    as (Er & Ecfg & s2 & new & ext & Hex & Hfill & Es & Hq & Hans).
  destruct (acked_effect isnx isny capx capy Hcapx Hcapx2 Hisnx Hcapy Hcapy2 Hisny x y a b f H Hin Hage') as [Hhe _].
  destruct (arrival x y f (receiver_ c) a b H Hx Hy Hin Hsf) as (Hlater & _ & Hpure & _); [|done|].
  { intros a' b' seg Hi ->%list_elem_of_singleton. by eapply Hroom; [|left]. }
  exists c. split_and!; [done|done|eapply moved_call; try done; apply (la_ack _ _ Hlater)|by rewrite Es| | |exact (queued_drop _ _ _ Hq)|].
  - intros a' b' seg Hin' HF Hl. cbn [conn called]. pose proof (la_consumed _ _ Hlater).
    specialize (Hroom a' b' seg Hin' (list_elem_of_further _ _ _ HF) Hl). unfold edge in *. lia.
  - eapply wire_arrival; try done; [by exists a, b|]. rewrite Es. apply (ex_ack _ _ _ Hex).
  - apply (wire_call x y G c ext); try done.
    + intros p Hp. rewrite Es in Hp. destruct (extends_queue _ _ _ _ _ (acked_sinv x y a b f H Hin Hage') Hex Hp) as [Ho|Hn].
      * left. by apply (he_queue _ _ Hhe).
      * right. destruct Hans as [[-> _]|(-> & _)]; [done|by apply elem_of_nil in Hn].
    + destruct (seg_len_pos f) as [Hz|Hl]; [left; by rewrite (Hpure Hz)|right].
      destruct Hans as [[-> Hne]|(_ & (e & -> & _) & _)]; [by apply Hne|done].
Qed.

(** The same when what is on its way is what is queued. *)
Lemma wire_segment x y f F :
  dinv isnx capx isny capy x y -> zlen (written x) + 2 <= M31 -> zlen (written y) + 2 <= M31 ->
  (exists a b, (a, b, f) ∈ sent y) -> 1 <= next_seq_no_ (sender_ (conn x)) -> syn_first (sender_ (conn y)) ->
  roomy capx y x (f :: F) -> wire y x (f :: F) -> wire x y (segments_out (conn x)) ->
  exists c, segment_received (conn x) f = Ok c /\ dinv isnx capx isny capy (called c x) y /\ moved x (called c x)
    /\ filled (sender_ c) /\ roomy capx y (called c x) F /\ wire y (called c x) F /\ wire (called c x) y (segments_out c).
Proof using All.
  intros H Hx Hy Hin Hnx Hsf Hroom Hyx Hxy.
  destruct (wire_received x y f F _ H Hx Hy Hin Hnx Hsf Hroom Hyx Hxy) as (c & E & H' & Hm & Hf & Hr & Hw & Eq & Hw').
  exists c. rewrite <-Eq in Hw'. by split_and!.
Qed.

(** *** Other calls *)

Lemma wire_same y x x' F :
  receiver_ (conn x') = receiver_ (conn x) -> last_ack_no_ (sender_ (conn x')) = last_ack_no_ (sender_ (conn x)) ->
  wire y x F -> wire y x' F.
Proof using. intros Er Ea [Hd Ha]. split; [by rewrite Er|by rewrite Ea]. Qed.

(** A call that fills the window from the sender [sender_ c0] and flushes. *)
Lemma fill_effect c0 hist s c o :
  sinv (sender_ c0) hist -> TCPSender.segments_out_ (sender_ c0) = [] -> need_send_rst_ c0 = false ->
  ackno (receiver_ c0) = Ok o -> fill_window (sender_ c0) = Ok s -> enqueue_segments (set_sender s c0) = Ok c ->
  exists new, extends (sender_ c0) s new /\ (next_seq_no_ (sender_ c0) = 0 \/ filled s)
    /\ sender_ c = set_segments_out [] s /\ receiver_ c = receiver_ c0 /\ cfg_ c = cfg_ c0 /\ queued c0 c new.
Proof using.
  intros Hs Ho Hr Ha Ef Ee. destruct (fill_window_spec _ _ Hs) as (s' & new & E & _ & Hex & Hfill).
  rewrite Ef in E. injection E as <-. destruct (flushed _ _ o Ee Hr Ha) as (Q & S & R & G & _). cbn in Q, S, R, G.
  exists new. split_and!; try done. exists o. rewrite R. split; [done|]. rewrite Q. f_equal. f_equal.
  by rewrite (ex_out _ _ _ Hex), Ho.
Qed.

(** Such a call keeps both wires. *)
Lemma wire_filled x x0 y F G c s1 s new :
  dinv isnx capx isny capy (called c x0) y -> conn x0 = conn x -> sent x0 = sent x ->
  sinv s1 (written x0) -> outstanding_segments_ s1 = outstanding_segments_ (sender_ (conn x)) -> base s1 = base (sender_ (conn x)) ->
  last_ack_no_ s1 = last_ack_no_ (sender_ (conn x)) ->
  extends s1 s new -> sender_ c = set_segments_out [] s -> receiver_ c = receiver_ (conn x) -> queued (conn x) c new ->
  wire x y G -> wire y x F ->
  wire (called c x0) y (G ++ drop (length (segments_out (conn x))) (segments_out c)) /\ wire y (called c x0) F.
Proof using All.
  intros H Ec Et Hs1 Eo Eb Ea Hex Es Er Hq Hxy Hyx. split.
  - rewrite <-Ec. rewrite <-Ec in Hq, Eo, Eb, Er. apply (wire_call x0 y G c new); try done.
    + destruct Hxy as [Hd Hak]. split; rewrite Ec, Et; [exact Hd|exact Hak].
    + intros p Hp. rewrite Es in Hp. destruct (extends_queue _ _ _ _ _ Hs1 Hex Hp) as [?|?]; [left; by rewrite <-Eo, <-Eb|by right].
    + left. by rewrite Er.
  - eapply wire_same; [..|exact Hyx]; cbn; [done|]. rewrite Es. cbn. by rewrite (ex_ack _ _ _ Hex).
Qed.

Lemma wire_fill x x0 y F c s1 s new :
  dinv isnx capx isny capy (called c x0) y -> conn x0 = conn x -> sent x0 = sent x ->
  sinv s1 (written x0) -> outstanding_segments_ s1 = outstanding_segments_ (sender_ (conn x)) -> base s1 = base (sender_ (conn x)) ->
  last_ack_no_ s1 = last_ack_no_ (sender_ (conn x)) ->
  extends s1 s new -> sender_ c = set_segments_out [] s -> receiver_ c = receiver_ (conn x) -> queued (conn x) c new ->
  wire x y (segments_out (conn x)) -> wire y x F ->
  wire (called c x0) y (segments_out c) /\ wire y (called c x0) F.
Proof using All. intros. erewrite (queued_drop (conn x) c) by done. by eapply wire_filled. Qed.

Lemma dinv_ackno x y : dinv isnx capx isny capy x y -> exists o, ackno (receiver_ (conn x)) = Ok o.
Proof using All.
  intros (sx & ax & sy & ay & rcx & fnx & rcy & fny & _ & H2 & _).
  destruct (room isny capx Hcapx Hcapx2 Hisny _ _ (iv_snd _ _ _ _ _ H2)) as [Hc HS].
  destruct (rinv_advert _ _ _ Hc HS Hisny _ _ _ _ (iv_rcv _ _ _ _ _ H2)) as [Ha _]. by eexists.
Qed.

(** Writing and closing, by an end that has sent its SYN. *)
Lemma wire_write x y F data :
  dinv isnx capx isny capy x y -> ended (sender_ (conn x)) = false -> zlen (written x) + zlen data + 2 < M63 ->
  1 <= next_seq_no_ (sender_ (conn x)) -> wire x y (segments_out (conn x)) -> wire y x F ->
  exists c, let n := zlen (accepted (stream_in (sender_ (conn x))) data) in
    let x' := called c (mkEndpoint (conn x) (written x ++ ztake n data) (read_bytes x) (sent x)) in
    write (conn x) data = Ok (n, c) /\ dinv isnx capx isny capy x' y
    /\ moved x x' /\ filled (sender_ c) /\ receiver_ c = receiver_ (conn x)
    /\ last_ack_no_ (sender_ c) = last_ack_no_ (sender_ (conn x)) /\ wire x' y (segments_out c) /\ wire y x' F.
Proof using All.
  intros H He Hb Hnx Hxy Hyx.
  destruct (duplex_write isnx isny capx capy Hcapx Hcapx2 Hisnx Hcapy Hcapy2 Hisny x y data H He Hb) as (c & E & H'). exists c. cbv zeta in *.
  split; [done|]. split; [done|]. destruct (dinv_sender _ _ _ _ _ _ H) as (Hs & _ & Ho & Hr). destruct (dinv_ackno x y H) as [o Ha].
  unfold write in E. apply bind_Ok in E as ([k bs] & Ew & E). apply bind_Ok in E as (s & Ef & E).
  apply bind_Ok in E as (c1 & Ee & E). injection E as -> ->. set (n := zlen (accepted _ _)) in *.
  pose proof (sinv_write _ _ _ _ _ Hs He Hb Ew) as Hs1. cbn [sender_ set_sender] in Ef.
  destruct (fill_effect (set_sender (set_stream_in bs (sender_ (conn x))) (conn x)) _ s c o Hs1 Ho Hr Ha Ef Ee)
    as (new & Hex & Hfill & Es & Er & Ec & Hq). cbn [sender_ receiver_ cfg_ set_sender] in *.
  assert (moved x (called c (mkEndpoint (conn x) (written x ++ ztake n data) (read_bytes x) (sent x)))) as Hm.
  { destruct (moved_call x c (set_stream_in bs (sender_ (conn x))) s new) as [M1 M2 M3 M4 M5 M6 M7]; try done; [by split; cbn; try lia|by rewrite Er]. }
  destruct (wire_fill x (mkEndpoint (conn x) (written x ++ ztake n data) (read_bytes x) (sent x)) y F c (set_stream_in bs (sender_ (conn x))) s new)
    as [W1 W2]; try done.
  destruct Hfill as [Hz|Hfill]; [cbn in Hz; lia|].
  split_and!; [exact Hm|by rewrite Es|exact Er|rewrite Es; cbn; exact (ex_ack _ _ _ Hex)|exact W1|exact W2].
Qed.

Lemma wire_end x y F :
  dinv isnx capx isny capy x y -> 1 <= next_seq_no_ (sender_ (conn x)) -> wire x y (segments_out (conn x)) -> wire y x F ->
  exists c, end_input_stream (conn x) = Ok c /\ dinv isnx capx isny capy (called c x) y
    /\ moved x (called c x) /\ filled (sender_ c) /\ receiver_ c = receiver_ (conn x) /\ ended (sender_ c) = true
    /\ last_ack_no_ (sender_ c) = last_ack_no_ (sender_ (conn x)) /\ wire (called c x) y (segments_out c) /\ wire y (called c x) F.
Proof using All.
  intros H Hnx Hxy Hyx.
  destruct (duplex_end isnx isny capx capy Hcapx Hcapx2 Hisnx Hcapy Hcapy2 Hisny x y H) as (c & E & H'). exists c.
  split; [done|]. split; [done|]. destruct (dinv_sender _ _ _ _ _ _ H) as (Hs & _ & Ho & Hr). destruct (dinv_ackno x y H) as [o Ha].
  unfold end_input_stream in E. apply bind_Ok in E as (s & Ef & Ee). pose proof (sinv_end _ _ Hs) as Hs1.
  cbn [sender_ set_sender] in Ef. destruct (fill_effect (set_sender (end_input (sender_ (conn x))) (conn x)) _ s c o Hs1 Ho Hr Ha Ef Ee)
    as (new & Hex & Hfill & Es & Er & Ec & Hq). cbn [sender_ receiver_ cfg_ set_sender] in *.
  destruct (wire_fill x x y F c (end_input (sender_ (conn x))) s new) as [W1 W2]; try done.
  destruct Hfill as [Hz|Hfill]; [cbn in Hz; lia|].
  split_and!; [|by rewrite Es|exact Er| |rewrite Es; cbn; exact (ex_ack _ _ _ Hex)|exact W1|exact W2].
  - apply (moved_call x c (end_input (sender_ (conn x))) s new); try done; [by split; cbn; try lia|by rewrite Er].
  - rewrite Es. exact (ex_ended _ _ _ Hex).
Qed.

(** A tick, when nothing has been sent twice since the last acknowledgment. *)
Lemma wire_tick x y F :
  dinv isnx capx isny capy x y -> retransmission_count_ (sender_ (conn x)) = 0 ->
  wire x y (segments_out (conn x)) -> wire y x F ->
  exists s c, tick (conn x) 1000 = Ok c /\ TCPSender.tick (sender_ (conn x)) 1000 = Ok s
    /\ dinv isnx capx isny capy (called c x) y /\ wire (called c x) y (segments_out c) /\ wire y (called c x) F
    /\ sender_ c = set_segments_out [] s /\ receiver_ c = receiver_ (conn x)
    /\ segments_out c = segments_out (conn x) ++ drop (length (segments_out (conn x))) (segments_out c)
    /\ (outstanding_segments_ (sender_ (conn x)) = [] -> segments_out c = segments_out (conn x))
    /\ (retransmission_count_ s = 0 \/ retransmission_count_ s = 1 /\ outstanding_segments_ (sender_ (conn x)) <> [])
    /\ let c0 := set_sender s (set_ms (u64 (ms_since_last_recv_ (conn x) + 1000)) (conn x)) in
       cfg_ c = cfg_ (conn x) /\ ms_since_last_recv_ c = u64 (ms_since_last_recv_ (conn x) + 1000)
       /\ linger_after_stream_finish_ c = linger_after_stream_finish_ (conn x) /\ active_ c = active_ (try_clean_shutdown c0).
Proof using All.
  intros H Hz Hxy Hyx. destruct (duplex_tick isnx isny capx capy Hcapx Hcapx2 Hisnx Hcapy Hcapy2 Hisny x y 1000 H) as (s & c & Es & E & Hd).
  destruct (dinv_sender _ _ _ _ _ _ H) as (Hs & _ & Ho & Hr). destruct (dinv_ackno x y H) as [o Ha].
  assert (retransmission_count_ s = 0 \/ retransmission_count_ s = 1 /\ outstanding_segments_ (sender_ (conn x)) <> []) as Hct.
  { destruct (expired (timer_tick 1000 (timer_ (sender_ (conn x))))) eqn:Ex.
    - destruct (tick_expired _ _ 1000 Hs Ex) as (fr & q & s' & Eq & Et & _ & _ & _ & _ & Ec). rewrite Es in Et. injection Et as <-.
      rewrite Hz in Ec. destruct (0 <? _); injection Ec as _ Ec; [right|by left]. rewrite Ec, Eq. done.
    - destruct (tick_waiting (sender_ (conn x)) 1000 Ex) as (t & Et & _). rewrite Es in Et. injection Et as ->. by left. }
  assert (consecutive_retransmissions s <= MAX_RETX_ATTEMPTS) as Hle.
  { unfold consecutive_retransmissions, MAX_RETX_ATTEMPTS. destruct Hct as [->|[-> _]]; done. }
  specialize (Hd Hle). unfold tick in E. cbn [sender_ set_ms] in E. rewrite Es in E. cbn [mbind res_bind] in E. cbn [sender_ set_sender] in E.
  destruct (Z.ltb_spec MAX_RETX_ATTEMPTS (consecutive_retransmissions s)) as [?|_]; [lia|].
  set (c0 := set_sender s _) in E. destruct (try_clean_shutdown_fields c0) as (F1 & F2 & F3 & F4 & F5 & F6 & F7).
  destruct (flushed _ _ o E) as (Q & S & R & G & A & L & M); [by rewrite F5|by rewrite F2|].
  rewrite F2, F3, F4 in Q. rewrite F3 in S. rewrite F2 in R. rewrite F1 in G. rewrite F7 in L. rewrite F6 in M. cbn in Q, S, R, G, L, M.
  assert (queued (conn x) c (TCPSender.segments_out_ s)) as Hq by (exists o; rewrite R; by split).
  destruct (tick_fields isnx capy Hcapy Hcapy2 Hisnx _ _ _ Es) as (_ & En & Ea & _ & Eb & _ & Eo & Ese).
  exists s, c. split_and!; try done; try by eapply queued_drop.
  - unfold tick. cbn [sender_ set_ms]. rewrite Es. cbn [mbind res_bind]. cbn [sender_ set_sender].
    destruct (Z.ltb_spec MAX_RETX_ATTEMPTS (consecutive_retransmissions s)); [lia|done].
  - rewrite (queued_drop _ _ _ Hq). eapply (wire_call x y (segments_out (conn x)) c); try done; [|left; by rewrite R].
    intros p Hp. left. rewrite S in Hp. cbn in Hp. rewrite Eo in Hp. unfold base in *. cbn in Hp. rewrite Eb in Hp. done.
  - eapply wire_same; [..|exact Hyx]; cbn; [done|]. rewrite S. done.
  - intros Hnil. unfold segments_out. rewrite Q, Ese, Ho, Hnil. destruct (expired _); cbn; by rewrite app_nil_r.
Qed.

(** Reading leaves both wires as they are. *)
Lemma wire_reads x y F G len l out :
  dinv isnx capx isny capy x y -> 0 <= len -> ByteStream.read (inbound_stream (conn x)) len = Ok (l, out) ->
  let x' := mkEndpoint (set_receiver (set_stream_out (receiver_ (conn x)) out) (conn x)) (written x) (read_bytes x ++ l) (sent x) in
  wire x y F -> wire y x G ->
  wire x' y F /\ wire y x' G /\ abs_ack_no (receiver_ (conn x')) = abs_ack_no (receiver_ (conn x))
  /\ contents (inbound_stream (conn x')) = zdrop len (contents (inbound_stream (conn x))).
Proof using All.
  intros H Hlen E x' Hxy Hyx. assert (ByteStream.wf (inbound_stream (conn x))) as Hwf.
  { destruct H as (? & ? & ? & ? & ? & ? & ? & ? & _ & H2 & _). exact (wf_output _ (inv_wf _ _ _ _ _ _ (ri_inv _ _ _ _ _ _ _ (iv_rcv _ _ _ _ _ H2)))). }
  destruct (read_contents (inbound_stream (conn x)) len Hwf Hlen) as (out' & E' & _ & _ & Hct & _ & Hbw & Hie & Hee).
  rewrite E in E'. injection E' as _ <-.
  assert (next (reassembler_ (receiver_ (conn x'))) = next (reassembler_ (receiver_ (conn x)))) as Hn by exact Hbw.
  assert (abs_ack_no (receiver_ (conn x')) = abs_ack_no (receiver_ (conn x))) as Hab.
  { unfold abs_ack_no, TCPReceiver.state, ByteStream.error, ByteStream.input_ended, ByteStream.bytes_written. cbn.
    unfold inbound_stream in *. rewrite Hbw, Hie, Hee. done. }
  split_and!; [| |exact Hab|exact Hct].
  - destruct Hxy as [Hd Ha]. split; [exact Hd|]. rewrite Hab. exact Ha.
  - destruct Hyx as [Hd Ha]. split; [|exact Ha]. intros p Hp. destruct (Hd p Hp) as [[H1 H2 H3]|?]; [left|by right].
    split; [exact H1| |exact H3]. intros Hs k Hk. specialize (H2 Hs k Hk). unfold got, pending in *. rewrite Hn. exact H2.
Qed.

Lemma wire_read x y F G l out :
  dinv isnx capx isny capy x y -> ByteStream.read (inbound_stream (conn x)) (ByteStream.buffer_size (inbound_stream (conn x))) = Ok (l, out) ->
  let x' := mkEndpoint (set_receiver (set_stream_out (receiver_ (conn x)) out) (conn x)) (written x) (read_bytes x ++ l) (sent x) in
  wire x y F -> wire y x G ->
  wire x' y F /\ wire y x' G /\ abs_ack_no (receiver_ (conn x')) = abs_ack_no (receiver_ (conn x)) /\ contents (inbound_stream (conn x')) = [].
Proof using All.
  intros H E x' Hxy Hyx. assert (ByteStream.wf (inbound_stream (conn x))) as Hwf.
  { destruct H as (? & ? & ? & ? & ? & ? & ? & ? & _ & H2 & _). exact (wf_output _ (inv_wf _ _ _ _ _ _ (ri_inv _ _ _ _ _ _ _ (iv_rcv _ _ _ _ _ H2)))). }
  pose proof (ByteStream.wf_used _ Hwf) as Hu.
  destruct (wire_reads x y F G _ l out H (proj1 Hu) E Hxy Hyx) as (W1 & W2 & W3 & W4). split_and!; try done.
  change (contents out = []). change (contents out = zdrop (ByteStream.buffer_size (inbound_stream (conn x))) (contents (inbound_stream (conn x)))) in W4.
  rewrite W4. unfold zdrop, buffer_size. apply drop_ge. rewrite <-(length_contents _ Hwf). unfold zlen. lia.
Qed.

(** Once the wire from [x] is empty, [y] has acknowledged all of [x]'s segments,
    and has its acknowledgment. *)
Lemma wire_empty x y :
  dinv isnx capx isny capy x y -> wire x y [] ->
  abs_ack_no (receiver_ (conn y)) = next_seq_no_ (sender_ (conn x)) /\ last_ack_no_ (sender_ (conn y)) = abs_ack_no (receiver_ (conn x)).
Proof using All.
  intros (sx & ax & sy & ay & rcx & fnx & rcy & fny & H1 & _) [Hd Ha]. split.
  - apply (all_has isnx capy Hcapy Hcapy2 Hisnx _ _ _ H1). intros p Hp.
    destruct (Hd p Hp) as [?|(b & o & w & _ & HF)]; [done|by apply elem_of_nil in HF].
  - destruct Ha as [?|(a & seg & _ & HF & _)]; [done|by apply elem_of_nil in HF].
Qed.

(** There is room where the reader has taken everything, and for a stream
    without bytes. *)
Lemma wire_roomy x y F :
  dinv isnx capx isny capy x y -> contents (inbound_stream (conn y)) = [] \/ written x = [] -> roomy capy x y F.
Proof using All.
  intros (sx & ax & sy & ay & rcx & fnx & rcy & fny & H1 & _ & [_ _ _ Cs] & _) Hor a b seg Hin _ Hl.
  rewrite Forall_forall in Cs. destruct (Cs _ Hin) as (_ & _ & raw & o & w & Hraw & _ & Ef & _). cbn [fst snd] in *.
  assert (seg_len seg = seg_len raw /\ payload seg = payload raw) as [El Ep] by (subst seg; by destruct o). rewrite El in Hl. rewrite Ep.
  pose proof (iv_net _ _ _ _ _ H1) as Hn. rewrite Forall_forall in Hn. destruct (Hn _ Hraw) as [(Hat & _ & Hfit)|Hp].
  2: { apply pure_ack_len in Hp. cbn in Hp. lia. }
  cbn [link sys_receiver sys_written sys_sender fst snd] in *. destruct Hfit as [|(Hnx & Hone & _ & Hsy)]; [done|]. cbn [fst snd] in *.
  destruct Hor as [Hct|Hw].
  - pose proof (ri_inv _ _ _ _ _ _ _ (iv_rcv _ _ _ _ _ H1)) as Hi. cbn [link sys_receiver] in Hi. pose proof (inv_wf _ _ _ _ _ _ Hi) as Hwf.
    pose proof (wf_written _ Hwf) as Hu. pose proof (length_contents _ (wf_output _ Hwf)) as Hlc.
    change (contents (output_ (reassembler_ (receiver_ (conn y)))) = []) in Hct. rewrite Hct in Hlc. change (zlen (@nil byte)) with 0 in Hlc.
    unfold edge. lia.
  - destruct Hat as [_ _ Hs _]. rewrite Hsy, Hw in Hs. change (zlen (@nil byte)) with 0 in Hs. lia.
Qed.

(** *** Connections with nothing more to send or to receive *)

(** Everything [x] has sent is acknowledged, with its end, and it has received
    all of [y]'s stream and its end. *)
Definition finished (x y : endpoint) : Prop :=
  last_ack_no_ (sender_ (conn x)) = zlen (written x) + 2 /\ abs_ack_no (receiver_ (conn x)) = zlen (written y) + 2.

Lemma finished_receiver x y :
  dinv isnx capx isny capy x y -> finished x y -> TCPReceiver.state (receiver_ (conn x)) = TCPReceiver.kFinRecv.
Proof using All.
  intros (sx & ax & sy & ay & rcx & fnx & rcy & fny & _ & H2 & _) [_ Hf].
  destruct (room isny capx Hcapx Hcapx2 Hisny _ _ (iv_snd _ _ _ _ _ H2)) as [Hc HS]. pose proof (iv_rcv _ _ _ _ _ H2) as Hr.
  destruct (state_spec _ _ _ Hc HS Hisny _ _ _ _ Hr) as [Hst Hab]. destruct (written_range _ _ _ Hc HS Hisny _ _ _ _ Hr) as [_ Hn].
  cbn [link sys_receiver sys_written] in *. rewrite Hst. rewrite Hab in Hf. pose proof (zlen_nonneg (written y)).
  destruct (is_listen_ _); [lia|]. destruct (fny && _); [done|lia].
Qed.

Lemma finished_sender x y :
  dinv isnx capx isny capy x y -> finished x y ->
  TCPSender.state (sender_ (conn x)) = TCPSender.kFinAcked /\ outstanding_segments_ (sender_ (conn x)) = []
  /\ next_seq_no_ (sender_ (conn x)) = zlen (written x) + 2.
Proof using All.
  intros H [Hf _]. destruct (dinv_sender _ _ _ _ _ _ H) as (Hs & _ & _ & _).
  pose proof (si_acked _ _ Hs). pose proof (next_seq_range _ _ Hs). pose proof (zlen_nonneg (written x)).
  assert (outstanding_segments_ (sender_ (conn x)) = []) as Ho by (apply (base_front _ _ Hs); lia).
  pose proof (si_queue _ _ Hs) as Hq. rewrite Ho in Hq. cbn in Hq. split_and!; [|done|lia]. rewrite (state_cases _ _ Hs).
  destruct (Z.eqb_spec (next_seq_no_ (sender_ (conn x))) 0); [lia|]. destruct (Z.eqb_spec (base (sender_ (conn x))) 0); [lia|].
  destruct (Z.ltb_spec (next_seq_no_ (sender_ (conn x))) (zlen (written x) + 2)); [lia|]. unfold base in Hq.
  by destruct (Z.eqb_spec (bytes_in_flight_ (sender_ (conn x))) 0); [|lia].
Qed.

(** It answers with pure acknowledgments, and pure acknowledgments not at all. *)
Lemma finished_segment x y f c :
  dinv isnx capx isny capy x y -> zlen (written x) + 2 <= M31 -> zlen (written y) + 2 <= M31 ->
  (exists a b, (a, b, f) ∈ sent y) -> dinv isnx capx isny capy (called c x) y -> moved x (called c x) ->
  segment_received (conn x) f = Ok c -> finished x y ->
  exists q, segments_out c = segments_out (conn x) ++ q /\ Forall pure_ack q /\ (pure_ack f -> q = []) /\ finished (called c x) y.
Proof using All.
  intros H Hx Hy (a & b & Hin) H' Hm E Hf. destruct (young x y a b f H Hx Hy Hin) as [Hage Hage'].
  destruct (finished_sender x y H Hf) as (_ & _ & Hn). pose proof (zlen_nonneg (written x)).
  destruct (segment_effect isnx isny capx capy Hcapx Hcapx2 Hisnx Hcapy Hcapy2 Hisny x y a b f c H Hin Hage' Hage ltac:(lia) E)
    as (_ & _ & s2 & new & ext & Hex & _ & Es & (o & _ & Eq) & Hans).
  assert (finished (called c x) y) as Hf'.
  { destruct Hf as [Hf1 Hf2]. pose proof (mv_ack _ _ Hm) as Ha. pose proof (mv_recv _ _ Hm) as Hr. cbn [conn called] in Ha, Hr.
    destruct (dinv_bounds isny isnx capy capx Hcapy Hcapy2 Hisny Hcapx Hcapx2 Hisnx _ _ (dinv_sym _ _ _ _ _ _ H')) as [_ Hb].
    cbn [conn called] in Hb. split; cbn [conn called written]; [|lia].
    destruct (dinv_sender _ _ _ _ _ _ H') as (Hs & _ & _ & _). cbn [conn called written] in Hs.
    pose proof (si_acked _ _ Hs). pose proof (next_seq_range _ _ Hs). lia. }
  destruct (finished_sender _ _ H' Hf') as (_ & Ho & _). cbn [conn called] in Ho. rewrite Es in Ho. cbn in Ho.
  rewrite (ex_outstanding _ _ _ Hex) in Ho. apply app_nil in Ho as [_ ->].
  eexists. split; [exact Eq|]. destruct Hans as [[-> _]|(_ & (e & -> & He) & Hl)]; [done|]. split_and!; [|intros Hp|done].
  - constructor; [|done]. destruct o; exact He.
  - apply pure_ack_len in Hp. destruct Hl as [Hl|Hl]; [lia|].
    pose proof (finished_receiver _ _ H' Hf') as Hst. cbn [conn called] in Hst. congruence.
Qed.
End wires.

(** ** Ends that have filled their window *)

(** A sender that has filled the window, with nothing outstanding, has nothing
    to send. *)
Lemma idle s hist :
  sinv s hist -> filled s -> 1 <= next_seq_no_ s -> last_ack_no_ s = next_seq_no_ s ->
  ByteStream.used_size_ (stream_ s) = 0 /\ (ended s = true -> next_seq_no_ s = zlen hist + 2).
Proof.
  intros Hs Hf Hn Hl. pose proof (si_window _ _ Hs) as Hw. pose proof (next_seq_range _ _ Hs) as Hnr.
  destruct Hf as [Hf|[Hu Hst]].
  - destruct (free_window_spec _ _ Hs) as [Hfs _]. rewrite Hfs, Hl, Z.eqb_refl, andb_true_r in Hf.
    destruct (Z.eqb_spec (window_size_ s) 0); lia.
  - split; [done|]. intros He. specialize (Hst He). rewrite (state_cases _ _ Hs) in Hst.
    assert (outstanding_segments_ s = []) as Ho by (by apply (base_front _ _ Hs)). pose proof (si_queue _ _ Hs) as Hq.
    rewrite Ho in Hq. cbn in Hq. destruct (Z.eqb_spec (next_seq_no_ s) 0); [lia|]. destruct (Z.eqb_spec (base s) 0); [lia|].
    destruct (Z.ltb_spec (next_seq_no_ s) (zlen hist + 2)); [done|lia].
Qed.

(** An end that has sent its SYN and whatever its window allows. *)
Record up (x : endpoint) : Prop := {
  up_next : 1 <= next_seq_no_ (sender_ (conn x));
  up_syn : syn_first (sender_ (conn x));
  up_filled : filled (sender_ (conn x))
}.

Lemma up_tick isn cap x c ms s :
  0 < cap -> 2 * cap < M63 -> wi_ok isn -> TCPSender.tick (sender_ (conn x)) ms = Ok s -> sender_ c = set_segments_out [] s ->
  up x -> up (called c x).
Proof.
  intros Hcap Hcap2 Hisn Es S [U1 U2 U3]. destruct (tick_fields isn cap Hcap Hcap2 Hisn _ _ _ Es) as (_ & En & Ea & Ew & Eb & _).
  pose proof (sender_tick_stream _ _ _ Es) as Hst.
  split; cbn [conn called]; rewrite S; cbn; [lia|unfold syn_first in *; cbn; rewrite En, Ea, Ew; done|].
  unfold filled, free_window_size, ended, TCPSender.state in *. cbn. rewrite En, Ea, Ew, Hst.
  assert (bytes_in_flight_ s = bytes_in_flight_ (sender_ (conn x))) as -> by (unfold base in Eb; lia). exact U3.
Qed.

(** What the owner of [x] sees stays the same. *)
Record kept (x x' : endpoint) : Prop := {
  kp_written : written x' = written x;
  kp_read : read_bytes x' = read_bytes x;
  kp_ended : ended (sender_ (conn x')) = ended (sender_ (conn x))
}.

(** The first segment is the SYN, and the window is full with it. *)
Lemma first_fill s hist s' :
  sinv s hist -> next_seq_no_ s = 0 -> window_size_ s = 1 -> fill_window s = Ok s' ->
  next_seq_no_ s' = 1 /\ last_ack_no_ s' = last_ack_no_ s /\ window_size_ s' = 1 /\ filled s'.
Proof.
  intros Hs Hn Hw. pose proof (si_acked _ _ Hs). unfold fill_window. rewrite (state_cases _ _ Hs), Hn, bool_decide_true by done.
  intros [= <-]. unfold send_segment, filled, free_window_size. cbn. rewrite Hn, Hw. split_and!; try done. left.
  assert (last_ack_no_ s = 0) as -> by lia. done.
Qed.
