(* ===== verification/DuplexCompletes.v ===== *)
(** * The transfer of two connections can always be completed

    Duplex.v shows what two connections never do, whatever the network does.
    Here is what they can still do: from every state they reach, whatever was
    lost before, if the network from now on delivers what it was given, both
    streams arrive whole, with their ends, and everything is acknowledged.
    There is no deadlock in the handshake, in the closed window or in the
    closing, and no timer has to run out for it: the network still has every
    segment that was ever sent.

    The invariant [sound] says so: what a connection has outstanding, and its
    last acknowledgment, are with the other end or among the segments on the
    network ([wire] of ReliableLink.v).  One round (both owners read, the
    network delivers everything in one direction and then in the other) then
    acknowledges all that was in flight. *)

From Stdlib Require Import ZArith Lia.
From S2P Require Import Prelude WrappingIntegers Ring ByteStream UnAssembleBuffer StreamReassembler Buffer Parser TCPHeader TCPSegment TCPReceiver TCPSender Transfer TCPState TCPConnection ConnectionStatus Duplex Resets GivingUp ReliableLink.

(** ** Events *)

(** The calls of Duplex.v that a transfer needs once both streams are ended: a
    tick that does not give up, the arrival of a segment and a read. *)
Inductive event (net : list (Z * Z * TCPSegment)) (e : endpoint) : endpoint -> Prop :=
  | event_tick ms s c :
      TCPSender.tick (sender_ (conn e)) ms = Ok s -> consecutive_retransmissions s <= MAX_RETX_ATTEMPTS ->
      tick (conn e) ms = Ok c -> event net e (called c e)
  | event_segment a b seg c :
      (a, b, seg) ∈ net -> abs_ack_no (receiver_ (conn e)) - a <= M31 -> last_ack_no_ (sender_ (conn e)) - b <= M31 ->
      segment_received (conn e) seg = Ok c -> event net e (called c e)
  | event_read len l c :
      0 <= len < M64 -> read_inbound (conn e) len = Ok (l, c) ->
      event net e (mkEndpoint c (written e) (read_bytes e ++ l) (sent e)).

Lemma event_act net x x' : event net x x' -> act net x x'.
Proof. destruct 1; [by eapply act_tick|by eapply act_segment|by eapply act_read]. Qed.

(** ** What is on the network *)

Definition sents (x : endpoint) : list TCPSegment := map snd (sent x).

Lemma sents_called c x :
  sents (called c x) = sents x ++ drop (length (segments_out (conn x))) (segments_out c).
Proof. unfold sents. cbn. rewrite map_app, map_map. cbn. by rewrite map_id. Qed.

Lemma sents_sent y : Forall (fun seg => exists a b, (a, b, seg) ∈ sent y) (sents y).
Proof. apply Forall_forall. intros seg ([[a b] s] & -> & Hin)%list_elem_of_fmap. by exists a, b. Qed.

(** A connection that has not given up, with a 16-bit initial timeout. *)
Record patient (c : TCPConnection) : Prop := {
  pa_count : consecutive_retransmissions (sender_ c) <= MAX_RETX_ATTEMPTS;
  pa_rto : 0 <= rt_timeout (cfg_ c) < M16
}.

Lemma moved_patient x x' : moved x x' -> patient (conn x) -> patient (conn x').
Proof.
  intros [Ec Ha _ Hs Hr _ _] [P1 P2]. split; [|by rewrite Ec]. unfold consecutive_retransmissions in *.
  destruct (Z.eq_dec (last_ack_no_ (sender_ (conn x'))) (last_ack_no_ (sender_ (conn x)))) as [E|E].
  - by rewrite Hs.
  - rewrite Hr by lia. done.
Qed.

(** Both ends of a connection on the network. *)
Record sound (isnx : WrappingInt32) (capx : Z) (isny : WrappingInt32) (capy : Z) (x y : endpoint) : Prop := {
  so_inv : dinv isnx capx isny capy x y;
  so_xy : wire x y (sents x);
  so_yx : wire y x (sents y);
  so_syn_x : syn_first (sender_ (conn x));
  so_syn_y : syn_first (sender_ (conn y));
  so_patient_x : patient (conn x);
  so_patient_y : patient (conn y)
}.

Lemma sound_sym isnx capx isny capy x y : sound isnx capx isny capy x y -> sound isny capy isnx capx y x.
Proof. intros [? ? ? ? ? ? ?]. split; try done. by apply dinv_sym. Qed.

(** A wire looks at the sender, the receiver and what was sent. *)
Lemma wire_view u u' v v' F :
  sender_ (conn u') = sender_ (conn u) -> receiver_ (conn u') = receiver_ (conn u) -> sent u' = sent u ->
  sender_ (conn v') = sender_ (conn v) -> receiver_ (conn v') = receiver_ (conn v) -> wire u v F -> wire u' v' F.
Proof. intros E1 E2 E3 E4 E5 [Hd Ha]. split; rewrite ?E1, ?E2, ?E3, ?E4, ?E5; done. Qed.

Section sound.
Context (isnx isny : WrappingInt32) (capx capy : Z).
Context (Hcapx : 0 < capx) (Hcapx2 : 2 * capx < M63) (Hisnx : wi_ok isnx).
Context (Hcapy : 0 < capy) (Hcapy2 : 2 * capy < M63) (Hisny : wi_ok isny).

(** A call that fills the window from [s1] and flushes. *)
Lemma sound_fill x x0 y c s1 s :
  sound isnx capx isny capy x y -> dinv isnx capx isny capy (called c x0) y -> conn x0 = conn x -> sent x0 = sent x ->
  sinv s1 (written x0) -> TCPSender.segments_out_ s1 = [] -> outstanding_segments_ s1 = outstanding_segments_ (sender_ (conn x)) ->
  base s1 = base (sender_ (conn x)) -> last_ack_no_ s1 = last_ack_no_ (sender_ (conn x)) ->
  next_seq_no_ s1 = next_seq_no_ (sender_ (conn x)) -> window_size_ s1 = window_size_ (sender_ (conn x)) ->
  retransmission_count_ s1 = retransmission_count_ (sender_ (conn x)) ->
  fill_window s1 = Ok s -> enqueue_segments (set_sender s (set_sender s1 (conn x))) = Ok c ->
  sound isnx capx isny capy (called c x0) y /\ up (called c x0) /\ ended (sender_ c) = ended s1
  /\ consecutive_retransmissions (sender_ c) = consecutive_retransmissions (sender_ (conn x)).
Proof using All.
  intros [H Wx Wy Sx Sy Px Py] H' Ec Et Hs1 Ho1 Eo Eb Ea En Ew Ect Ef Ee. destruct (dinv_sender _ _ _ _ _ _ H) as (Hs & _ & _ & Hr).
  destruct (dinv_ackno isnx isny capx capy Hcapx Hcapx2 Hisnx Hcapy Hcapy2 Hisny x y H) as [o Ha].
  destruct (fill_effect (set_sender s1 (conn x)) _ s c o Hs1 Ho1 Hr Ha Ef Ee) as (new & Hex & Hfill & Es & Er & Ecfg & Hq).
  cbn [receiver_ sender_ set_sender] in *.
  destruct (wire_filled isnx isny capx capy Hcapx Hcapx2 Hisnx Hcapy Hcapy2 Hisny x x0 y (sents y) (sents x) c s1 s new) as [W1 W2]; try done.
  assert (syn_first s1) as S1 by (unfold syn_first; rewrite Ea, Ew, En; exact Sx).
  assert (syn_first s) as S2.
  { intros Hz. rewrite (ex_ack _ _ _ Hex) in Hz. destruct (S1 Hz) as [Hw Hn]. rewrite (ex_window _ _ _ Hex).
    pose proof (ex_limit _ _ _ Hex). lia. }
  assert (up (called c x0)) as Hup.
  { destruct (Z.eq_dec (next_seq_no_ s1) 0) as [Hz|Hnz].
    - destruct (S1 ltac:(pose proof (si_acked _ _ Hs1); lia)) as [Hw _].
      destruct (first_fill _ _ _ Hs1 Hz Hw Ef) as (Fn & _ & _ & Ff). split; cbn [conn called]; rewrite Es; [cbn; lia|done|exact Ff].
    - destruct Hfill as [?|Hfill]; [done|]. pose proof (ex_next _ _ _ Hex). pose proof (next_seq_range _ _ Hs1).
      split; cbn [conn called]; rewrite Es; [cbn; lia|done|exact Hfill]. }
  assert (consecutive_retransmissions (sender_ c) = consecutive_retransmissions (sender_ (conn x))) as Hct.
  { rewrite Es. unfold consecutive_retransmissions. cbn. by rewrite (ex_count _ _ _ Hex), Ect. }
  split_and!; try done; [|rewrite Es; exact (ex_ended _ _ _ Hex)].
  split; try done; [|apply Hup|].
  - rewrite sents_called. unfold sents at 1. rewrite Et, Ec. exact W1.
  - destruct Px as [P1 P2]. split; cbn [conn called]; [by rewrite Hct|rewrite Ecfg; exact P2].
Qed.

(** The receiver keeps what it has. *)
Lemma lands x y a b f r :
  dinv isnx capx isny capy x y -> (a, b, f) ∈ sent y -> abs_ack_no (receiver_ (conn x)) - a <= M31 ->
  syn_first (sender_ (conn y)) -> TCPReceiver.segment_received (receiver_ (conn x)) f = Ok r ->
  later (receiver_ (conn x)) r
  /\ (forall p, 0 <= p.1 -> (syn (header p.2) = false -> 1 <= p.1) -> has (receiver_ (conn x)) p -> has r p)
  /\ (seg_len f = 0 -> r = receiver_ (conn x)).
Proof using All.
  intros (sx & ax & sy & ay & rcx & fnx & rcy & fny & _ & H2 & _ & Cy) Hin Ha Hsf Er. pose proof (calm_sent _ _ _ Cy) as Hok.
  rewrite Forall_forall in Hok. destruct (Hok _ Hin) as (_ & _ & raw & o & w & Hraw & _ & Ef & _). cbn [fst snd] in *.
  rewrite Ef, stamped_receive in Er. assert (seg_len f = seg_len raw) as El by (subst f; by destruct o).
  rewrite El. destruct (deliver_has isny capx Hcapx Hcapx2 Hisny _ _ _ a raw _ H2 Hraw Ha Hsf Er) as (D1 & D2 & D3 & _). done.
Qed.

(** The owner ends the stream. *)
Lemma sound_end x y :
  sound isnx capx isny capy x y ->
  exists c, end_input_stream (conn x) = Ok c /\ sound isnx capx isny capy (called c x) y /\ up (called c x)
    /\ ended (sender_ c) = true /\ consecutive_retransmissions (sender_ c) = consecutive_retransmissions (sender_ (conn x)).
Proof using All.
  intros Hso. pose proof (so_inv _ _ _ _ _ _ Hso) as H.
  destruct (duplex_end isnx isny capx capy Hcapx Hcapx2 Hisnx Hcapy Hcapy2 Hisny x y H) as (c & E & H'). exists c.
  destruct (dinv_sender _ _ _ _ _ _ H) as (Hs & _ & Ho & _). pose proof E as E'.
  unfold end_input_stream in E'. apply bind_Ok in E' as (s & Ef & Ee).
  destruct (sound_fill x x y c (TCPSender.end_input (sender_ (conn x))) s) as (S1 & S2 & S3 & S4); try done.
  by apply sinv_end.
Qed.
Lemma sound_connect x y c : sound isnx capx isny capy x y -> connect (conn x) = Ok c -> sound isnx capx isny capy (called c x) y.
Proof using All.
  intros Hso E. pose proof (so_inv _ _ _ _ _ _ Hso) as H.
  destruct (duplex_connect isnx isny capx capy Hcapx Hcapx2 Hisnx Hcapy Hcapy2 Hisny x y H) as (c' & E' & H').
  rewrite E in E'. injection E' as <-. destruct (dinv_sender _ _ _ _ _ _ H) as (Hs & _ & Ho & _).
  unfold connect in E. apply bind_Ok in E as (s & Ef & Ee).
  destruct (sound_fill x x y c (sender_ (conn x)) s) as (S1 & _); try done.
Qed.

Lemma sound_write x y data n c :
  sound isnx capx isny capy x y -> ended (sender_ (conn x)) = false -> zlen (written x) + zlen data + 2 < M63 ->
  write (conn x) data = Ok (n, c) ->
  sound isnx capx isny capy (called c (mkEndpoint (conn x) (written x ++ ztake n data) (read_bytes x) (sent x))) y.
Proof using All.
  intros Hso He Hb E. pose proof (so_inv _ _ _ _ _ _ Hso) as H.
  destruct (duplex_write isnx isny capx capy Hcapx Hcapx2 Hisnx Hcapy Hcapy2 Hisny x y data H He Hb) as (c' & E' & H').
  rewrite E in E'. injection E' as -> <-. destruct (dinv_sender _ _ _ _ _ _ H) as (Hs & _ & Ho & _).
  unfold write in E. apply bind_Ok in E as ([k bs] & Ew & E). apply bind_Ok in E as (s & Ef & E).
  apply bind_Ok in E as (c1 & Ee & E). injection E as -> ->. pose proof (sinv_write _ _ _ _ _ Hs He Hb Ew) as Hs1.
  eapply (sound_fill x (mkEndpoint (conn x) _ _ _) y c (set_stream_in bs (sender_ (conn x))) s); done.
Qed.

(** A tick that does not give up sends again what is outstanding already. *)
Lemma sound_tick x y ms s c :
  sound isnx capx isny capy x y -> TCPSender.tick (sender_ (conn x)) ms = Ok s ->
  consecutive_retransmissions s <= MAX_RETX_ATTEMPTS -> tick (conn x) ms = Ok c -> sound isnx capx isny capy (called c x) y.
Proof using All.
  intros [H Wx Wy Sx Sy Px Py] Es Hm E.
  destruct (duplex_tick isnx isny capx capy Hcapx Hcapx2 Hisnx Hcapy Hcapy2 Hisny x y ms H) as (s' & c' & Es' & E' & H').
  rewrite Es in Es'. injection Es' as <-. rewrite E in E'. injection E' as <-. specialize (H' Hm).
  destruct (dinv_sender _ _ _ _ _ _ H) as (Hs & _ & Ho & Hr).
  destruct (dinv_ackno isnx isny capx capy Hcapx Hcapx2 Hisnx Hcapy Hcapy2 Hisny x y H) as [o Ha].
  destruct (tick_fields isnx capy Hcapy Hcapy2 Hisnx _ _ _ Es) as (Ei & En & Ea & Ew & Eb & Ee & Eo & Eq).
  unfold tick in E. cbn [sender_ set_ms] in E. rewrite Es in E. cbn [mbind res_bind] in E. cbn [sender_ set_sender] in E.
  rewrite (proj2 (Z.ltb_ge _ _) Hm) in E. set (c0 := set_sender s _) in E.
  destruct (try_clean_shutdown_fields c0) as (F1 & F2 & F3 & F4 & F5 & _).
  destruct (flushed _ _ o E (eq_trans F5 Hr)) as (Q & S & R & G & _); [by rewrite F2|]. rewrite F1 in G. rewrite F2, F3, F4 in Q. rewrite F3 in S. rewrite F2 in R.
  cbn in Q, S, R. assert (queued (conn x) c (TCPSender.segments_out_ s)) as Hq.
  { exists o. rewrite R. split; [done|exact Q]. }
  split; try done.
  - rewrite sents_called. apply (wire_call isnx isny capx capy Hcapx Hcapx2 Hisnx Hcapy Hcapy2 Hisny x y (sents x) c _ H' Wx Hq).
    + intros p Hp. left. rewrite S in Hp. cbn in Hp. rewrite Eo in Hp. unfold base in *. cbn in Hp. by rewrite Eb in Hp.
    + left. by rewrite R.
  - eapply wire_same; [..|exact Wy]; cbn [conn called]; [done|]. by rewrite S.
  - cbn [conn called]. rewrite S. unfold syn_first in *. cbn. by rewrite Ea, Ew, En.
  - split; cbn [conn called]; [by rewrite S|rewrite G; apply (pa_rto _ Px)].
Qed.

Lemma sound_read x y len l c :
  sound isnx capx isny capy x y -> 0 <= len < M64 -> read_inbound (conn x) len = Ok (l, c) ->
  sound isnx capx isny capy (mkEndpoint c (written x) (read_bytes x ++ l) (sent x)) y.
Proof using All.
  intros [H Wx Wy Sx Sy Px Py] Hl E.
  destruct (duplex_read isnx isny capx capy Hcapx Hcapx2 Hisnx Hcapy Hcapy2 Hisny x y len H Hl) as (l' & c' & E' & H').
  rewrite E in E'. injection E' as <- <-. unfold read_inbound in E. apply bind_Ok in E as ([s out] & E & E'). injection E' as -> <-.
  destruct (wire_reads isnx isny capx capy Hcapx Hcapx2 Hisnx Hcapy Hcapy2 Hisny x y (sents x) (sents y) len l out H (proj1 Hl) E Wx Wy) as (W1 & W2 & _).
  split; try done. by destruct Px.
Qed.

(** The arrival of a segment that stays on the network. *)
Lemma sound_segment x y a b f c :
  sound isnx capx isny capy x y -> (a, b, f) ∈ sent y -> abs_ack_no (receiver_ (conn x)) - a <= M31 ->
  last_ack_no_ (sender_ (conn x)) - b <= M31 -> segment_received (conn x) f = Ok c -> sound isnx capx isny capy (called c x) y.
Proof using All.
  intros [H Wx Wy Sx Sy Px Py] Hin Hage Hage' E.
  destruct (duplex_segment isnx isny capx capy Hcapx Hcapx2 Hisnx Hcapy Hcapy2 Hisny x y a b f H Hin Hage Hage') as (c' & E' & H').
  rewrite E in E'. injection E' as <-. destruct (ignored (conn x) f) eqn:Hig.
  { unfold segment_received in E. fold (ignored (conn x) f) in E. rewrite Hig in E. injection E as <-.
    assert (called (conn x) x = x) as ->; [|by split]. destruct x. unfold called. cbn. by rewrite drop_all, app_nil_r. }
  destruct (effect isnx isny capx capy Hcapx Hcapx2 Hisnx Hcapy Hcapy2 Hisny x y a b f c H Hin Hage' Hage Hig E)
    as (Er & Ecfg & s2 & new & ext & Hex & _ & Es & Hq & Hans).
  destruct (acked_effect isnx isny capx capy Hcapx Hcapx2 Hisnx Hcapy Hcapy2 Hisny x y a b f H Hin Hage') as [Hhe _].
  destruct (lands x y a b f (receiver_ c) H Hin Hage Sy Er) as (Hlater & Hkeep & Hpure).
  pose proof (moved_call x c _ _ _ Hhe Hex Es Ecfg (la_ack _ _ Hlater)) as Hm. split; try done.
  - rewrite sents_called. apply (wire_call isnx isny capx capy Hcapx Hcapx2 Hisnx Hcapy Hcapy2 Hisny x y (sents x) c ext H' Wx Hq).
    + intros p Hp. rewrite Es in Hp.
      destruct (extends_queue isny capx Hcapx Hcapx2 Hisny _ _ _ _ _ (acked_sinv isnx isny capx capy Hcapx Hcapx2 Hisnx Hcapy Hcapy2 Hisny x y a b f H Hin Hage') Hex Hp) as [Ho|Hn].
      * left. by apply (he_queue _ _ Hhe).
      * right. destruct Hans as [[-> _]|(-> & _)]; [done|by apply elem_of_nil in Hn].
    + destruct (seg_len_pos f) as [Hz|Hl]; [left; by rewrite (Hpure Hz)|right].
      destruct Hans as [[-> Hne]|(_ & (e & -> & _) & _)]; [by apply Hne|done].
  - destruct Wy as [Hd Hak]. destruct (dinv_sender _ _ _ _ _ _ (dinv_sym _ _ _ _ _ _ H)) as (Hsy & Hiy & _). split; cbn [conn called].
    + intros p Hp. destruct (Hd p Hp) as [Hh|?]; [left|by right].
      destruct (queue_stamp isny capx Hcapx Hcapx2 Hisny _ _ _ Hsy Hiy Hp) as (_ & Hat & _).
      destruct (seg_at_syn _ _ _ _ _ Hat) as [Hp0 Hp1]. by apply Hkeep.
    + destruct Hak as [Heq|?]; [left|by right]. pose proof (mv_ack _ _ Hm) as Hle. cbn [conn called] in Hle.
      assert (last_ack_no_ (sender_ c) <= abs_ack_no (receiver_ (conn y))) as Hub; [|lia].
      destruct H' as (sx & ax & sy & ay & rcx & fnx & rcy & fny & H1 & _). exact (iv_ack _ _ _ _ _ H1).
  - by apply (mv_syn _ _ Hm).
  - by apply (moved_patient _ _ Hm).
Qed.
End sound.

Lemma sound_act isnx isny capx capy x x' y :
  0 < capx -> 2 * capx < M63 -> wi_ok isnx -> 0 < capy -> 2 * capy < M63 -> wi_ok isny ->
  sound isnx capx isny capy x y -> act (sent y) x x' -> sound isnx capx isny capy x' y.
Proof.
  intros ? ? ? ? ? ? H. destruct 1 as [c E|data n c He Hb E|c E|ms s c Es Hm E|a b seg c Hin Ha Hb E|len l c Hl E|k].
  - eapply sound_connect; [..|exact H|exact E]; done.
  - eapply sound_write; [..|exact H|exact He|exact Hb|exact E]; done.
  - destruct (sound_end isnx isny capx capy) with (x := x) (y := y) as (c' & E' & H' & _); try done. rewrite E in E'. by injection E' as <-.
  - eapply sound_tick; [..|exact H|exact Es|exact Hm|exact E]; done.
  - eapply sound_segment; [..|exact H|exact Hin|exact Ha|exact Hb|exact E]; done.
  - eapply sound_read; [..|exact H|exact Hl|exact E]; done.
  - pose proof (so_inv _ _ _ _ _ _ H) as Hd. destruct H as [_ Wx Wy Sx Sy [P1 P2] Py]. split; try done.
    + by eapply (dinv_act isnx isny capx capy); [..|exact Hd|apply act_take].
    + by eapply wire_view; [..|exact Wx].
    + by eapply wire_view; [..|exact Wy].
Qed.

Lemma sound_steps cfgx rndx cfgy rndy d :
  usable cfgx -> usable cfgy -> duplex_steps (endpoint_new cfgx rndx, endpoint_new cfgy rndy) d ->
  sound (first_isn cfgx rndx) (recv_capacity cfgx) (first_isn cfgy rndy) (recv_capacity cfgy) d.1 d.2.
Proof.
  intros Hx Hy. pose proof (dinv_steps _ _ _ _ _ Hx Hy (duplex_refl (endpoint_new cfgx rndx, endpoint_new cfgy rndy))) as Hd.
  pose proof (first_isn_ok cfgx rndx Hx). pose proof (first_isn_ok cfgy rndy Hy).
  destruct (Hx) as (? & _ & ? & ? & _), (Hy) as (? & _ & ? & ? & _).
  remember (endpoint_new cfgx rndx, endpoint_new cfgy rndy) as d0 eqn:E0.
  induction 1 as [|d1 d2 d3 _ IH Hst]; subst; cbn [fst snd] in *.
  - split; [done|..].
    1, 2: split; [intros p Hp; cbn in Hp; by apply elem_of_nil in Hp|left; reflexivity].
    1, 2: intros _; split; [done|cbn; lia].
    1, 2: by split.
  - specialize (IH eq_refl Hd). destruct Hst as [x x' y Ha|x y y' Ha]; cbn [fst snd] in *.
    + by eapply sound_act.
    + apply sound_sym. eapply sound_act; try done. by apply sound_sym.
Qed.

(** ** Steps *)

Lemma steps_one d d' : duplex_step d d' -> duplex_steps d d'.
Proof. intros H. eapply duplex_more; [apply duplex_refl|done]. Qed.

Lemma duplex_trans d1 d2 d3 : duplex_steps d1 d2 -> duplex_steps d2 d3 -> duplex_steps d1 d3.
Proof. intros H1 H2. revert H1. induction H2 as [d|a b c _ IH Hst]; [done|]. intros H1. eapply duplex_more; [by apply IH|exact Hst]. Qed.

Lemma duplex_swap x y x' y' : duplex_steps (x, y) (x', y') -> duplex_steps (y, x) (y', x').
Proof.
  remember (x, y) as d eqn:Ed. remember (x', y') as d' eqn:Ed'. intros H. revert x y x' y' Ed Ed'.
  induction H as [d|d1 d2 d3 _ IH Hst]; intros x y x' y' -> Ed'.
  - injection Ed' as -> ->. apply duplex_refl.
  - destruct Hst as [u u' v Ha|u v v' Ha]; injection Ed' as <- <-; (eapply duplex_more; [by apply IH|by constructor]).
Qed.

(** ** Rounds *)

(** Both ends have ended their streams and sent what their windows allow. *)
Record ready (isnx : WrappingInt32) (capx : Z) (isny : WrappingInt32) (capy : Z) (wx wy : list byte) (x y : endpoint) : Prop := {
  rd_inv : dinv isnx capx isny capy x y;
  rd_xy : wire x y (sents x);
  rd_yx : wire y x (sents y);
  rd_up_x : up x;
  rd_up_y : up y;
  rd_patient_x : patient (conn x);
  rd_patient_y : patient (conn y);
  rd_end_x : ended (sender_ (conn x)) = true;
  rd_end_y : ended (sender_ (conn y)) = true;
  rd_written_x : written x = wx;
  rd_written_y : written y = wy
}.

Lemma ready_sym isnx capx isny capy wx wy x y : ready isnx capx isny capy wx wy x y -> ready isny capy isnx capx wy wx y x.
Proof. intros [? ? ? ? ? ? ? ? ? ? ?]. split; try done. by apply dinv_sym. Qed.

Section rounds.
Context (isnx isny : WrappingInt32) (capx capy : Z).
Context (Hcapx : 0 < capx) (Hcapx2 : 2 * capx < M63) (Hisnx : wi_ok isnx).
Context (Hcapy : 0 < capy) (Hcapy2 : 2 * capy < M63) (Hisny : wi_ok isny).

(** Segments of [y] arrive at [x], one after the other. *)
Lemma deliver_all y : forall segs x,
  dinv isnx capx isny capy x y -> zlen (written x) + 2 <= M31 -> zlen (written y) + 2 <= M31 ->
  Forall (fun seg => exists a b, (a, b, seg) ∈ sent y) segs -> up x -> syn_first (sender_ (conn y)) ->
  roomy capx y x segs -> wire y x segs -> wire x y (sents x) ->
  exists x', duplex_steps (x, y) (x', y) /\ dinv isnx capx isny capy x' y /\ kept x x' /\ moved x x' /\ up x'
    /\ wire y x' [] /\ wire x' y (sents x').
Proof using All.
  induction segs as [|f segs IH]; intros x H Hx Hy Hs Hu Hsf Hroom Hyx Hxy.
  { exists x. split_and!; try done; [apply duplex_refl|apply moved_refl]. }
  apply Forall_cons in Hs as [Hf Hs]. destruct Hu as [U1 U2 U3].
  destruct (wire_received isnx isny capx capy Hcapx Hcapx2 Hisnx Hcapy Hcapy2 Hisny x y f segs (sents x) H Hx Hy Hf U1 Hsf Hroom Hyx Hxy)
    as (c & E & H' & Hm & Hfill & Hroom' & Hyx' & _ & Hxy'). rewrite <-sents_called in Hxy'.
  assert (up (called c x)) as Hu'.
  { split; [|by apply (mv_syn _ _ Hm)|done]. pose proof (mv_next _ _ Hm). lia. }
  destruct (IH (called c x) H' Hx Hy Hs Hu' Hsf Hroom' Hyx' Hxy') as (x' & Hst & Hd & [K1 K2 K3] & Hm' & Hu2 & W1 & W2).
  exists x'. split_and!; try done; [| |by eapply moved_trans].
  - eapply duplex_trans; [|exact Hst]. apply steps_one. constructor. destruct Hf as (a & b & Hin).
    destruct (young isnx isny capx capy Hcapx Hcapx2 Hisnx Hcapy Hcapy2 Hisny x y a b f H Hx Hy Hin). by eapply act_segment.
  - split; [done|done|]. rewrite K3. exact (segment_received_ended _ _ _ E).
Qed.

(** The owner of [x] reads everything. *)
Lemma reads_all x y :
  dinv isnx capx isny capy x y ->
  exists l out, ByteStream.read (inbound_stream (conn x)) (ByteStream.buffer_size (inbound_stream (conn x))) = Ok (l, out)
    /\ contents out = []
    /\ let x' := mkEndpoint (set_receiver (set_stream_out (receiver_ (conn x)) out) (conn x)) (written x) (read_bytes x ++ l) (sent x) in
       (forall net, event net x x') /\ dinv isnx capx isny capy x' y.
Proof using All.
  intros H. set (n := ByteStream.buffer_size (inbound_stream (conn x))). assert (ByteStream.wf (inbound_stream (conn x))) as Hwf.
  { destruct H as (? & ? & ? & ? & ? & ? & ? & ? & _ & H2 & _). exact (wf_output _ (inv_wf _ _ _ _ _ _ (ri_inv _ _ _ _ _ _ _ (iv_rcv _ _ _ _ _ H2)))). }
  assert (0 <= n < M64) as Hn.
  { pose proof (ByteStream.wf_used _ Hwf). pose proof (ByteStream.wf_cap _ Hwf). subst n. unfold buffer_size. lia. }
  destruct (duplex_read isnx isny capx capy Hcapx Hcapx2 Hisnx Hcapy Hcapy2 Hisny x y n H Hn) as (l & c & E & H').
  pose proof E as E'. unfold read_inbound in E'. apply bind_Ok in E' as ([l' out] & Er & Ec). injection Ec as -> <-. exists l, out.
  destruct (read_contents (inbound_stream (conn x)) n Hwf (proj1 Hn)) as (out' & Er' & _ & _ & Hct & _).
  rewrite Er in Er'. injection Er' as _ <-. cbv zeta. split_and!; [done| |intros net; by apply event_read with n|exact H'].
  rewrite Hct. unfold zdrop. apply drop_ge. subst n. unfold buffer_size. rewrite <-(length_contents _ Hwf). unfold zlen. lia.
Qed.

Lemma read_everything wx wy x y :
  ready isnx capx isny capy wx wy x y ->
  exists x', duplex_steps (x, y) (x', y) /\ ready isnx capx isny capy wx wy x' y /\ sender_ (conn x') = sender_ (conn x)
    /\ contents (inbound_stream (conn x')) = [].
Proof using All.
  intros [H Wx Wy Ux Uy Px Py Ex Ey Rx Ry]. destruct (reads_all x y H) as (l & out & Er & Hc & Ha & H').
  destruct (wire_read isnx isny capx capy Hcapx Hcapx2 Hisnx Hcapy Hcapy2 Hisny x y (sents x) (sents y) l out H Er Wx Wy) as (W1 & W2 & _).
  eexists. split_and!; [|split; [exact H'|exact W1|exact W2|by destruct Ux|done|by destruct Px|done..]|done|exact Hc].
  apply steps_one. constructor. apply event_act, Ha.
Qed.

Lemma wire_more x y F : wire x y [] -> wire x y F.
Proof using.
  intros [Hd Ha]. split.
  - intros p Hp. destruct (Hd p Hp) as [?|(? & ? & ? & _ & Hn)]; [by left|by apply elem_of_nil in Hn].
  - destruct Ha as [?|(? & ? & _ & Hn & _)]; [by left|by apply elem_of_nil in Hn].
Qed.

(** Everything that [y] sent arrives at [x], where there is room. *)
Lemma delivery wx wy x y :
  zlen wx + 2 <= M31 -> zlen wy + 2 <= M31 -> ready isnx capx isny capy wx wy x y -> contents (inbound_stream (conn x)) = [] ->
  exists x', duplex_steps (x, y) (x', y) /\ ready isnx capx isny capy wx wy x' y /\ moved x x'
    /\ abs_ack_no (receiver_ (conn x')) = next_seq_no_ (sender_ (conn y))
    /\ last_ack_no_ (sender_ (conn x')) = abs_ack_no (receiver_ (conn y)).
Proof using All.
  intros Hx Hy [H Wx Wy Ux Uy Px Py Ex Ey Rx Ry] Hc. subst wx wy.
  pose proof (dinv_sym _ _ _ _ _ _ H) as Hs.
  pose proof (wire_roomy isny isnx capy capx Hcapy Hcapy2 Hisny Hcapx Hcapx2 Hisnx y x (sents y) Hs (or_introl Hc)) as Hroom.
  destruct (deliver_all y (sents y) x H Hx Hy (sents_sent y) Ux (up_syn _ Uy) Hroom Wy Wx) as (x' & Hst & H' & [K1 K2 K3] & Hm & Hu & Wn & Wo).
  destruct (wire_empty isny isnx capy capx Hcapy Hcapy2 Hisny Hcapx Hcapx2 Hisnx y x' (dinv_sym _ _ _ _ _ _ H') Wn) as [A1 A2].
  exists x'. split_and!; try done. split; try done; [by apply wire_more|by apply (moved_patient _ _ Hm)|by rewrite K3].
Qed.
End rounds.

(** *** Both directions *)

Section completion.
Context (isnx isny : WrappingInt32) (capx capy : Z).
Context (Hcapx : 0 < capx) (Hcapx2 : 2 * capx < M63) (Hisnx : wi_ok isnx).
Context (Hcapy : 0 < capy) (Hcapy2 : 2 * capy < M63) (Hisny : wi_ok isny).
Context (wx wy : list byte) (Hx : zlen wx + 2 <= M31) (Hy : zlen wy + 2 <= M31).

(** A round: both owners read, what [x] sent arrives at [y], what [y] sent at [x]. *)
Lemma one_round x y :
  ready isnx capx isny capy wx wy x y ->
  exists x' y', duplex_steps (x, y) (x', y') /\ ready isnx capx isny capy wx wy x' y'
    /\ last_ack_no_ (sender_ (conn x')) = next_seq_no_ (sender_ (conn x))
    /\ last_ack_no_ (sender_ (conn y)) <= last_ack_no_ (sender_ (conn y')).
Proof using All.
  intros H. destruct (read_everything isnx isny capx capy Hcapx Hcapx2 Hisnx Hcapy Hcapy2 Hisny wx wy x y H) as (x1 & S1 & H1 & E1 & C1).
  destruct (read_everything isny isnx capy capx Hcapy Hcapy2 Hisny Hcapx Hcapx2 Hisnx wy wx y x1 (ready_sym _ _ _ _ _ _ _ _ H1)) as (y1 & S2 & H2 & E2 & C2).
  destruct (delivery isny isnx capy capx Hcapy Hcapy2 Hisny Hcapx Hcapx2 Hisnx wy wx y1 x1 Hy Hx H2 C2) as (y2 & S3 & H3 & M3 & A3 & _).
  destruct (delivery isnx isny capx capy Hcapx Hcapx2 Hisnx Hcapy Hcapy2 Hisny wx wy x1 y2 Hx Hy (ready_sym _ _ _ _ _ _ _ _ H3) C1) as (x2 & S4 & H4 & _ & _ & A4).
  exists x2, y2. split_and!; [|done|by rewrite A4, A3, E1|rewrite <-E2; apply (mv_ack _ _ M3)].
  eapply duplex_trans; [exact S1|]. eapply duplex_trans; [by apply duplex_swap|]. eapply duplex_trans; [by apply duplex_swap|done].
Qed.

(** Rounds until everything of [x] is acknowledged. *)
Lemma finish_left n : forall x y,
  ready isnx capx isny capy wx wy x y -> zlen wx + 2 - last_ack_no_ (sender_ (conn x)) <= Z.of_nat n ->
  exists x' y', duplex_steps (x, y) (x', y') /\ ready isnx capx isny capy wx wy x' y'
    /\ last_ack_no_ (sender_ (conn x')) = zlen wx + 2 /\ last_ack_no_ (sender_ (conn y)) <= last_ack_no_ (sender_ (conn y')).
Proof using All.
  induction n as [|n IH]; intros x y H Hn; destruct (dinv_sender _ _ _ _ _ _ (rd_inv _ _ _ _ _ _ _ _ H)) as (Hs & _);
    rewrite (rd_written_x _ _ _ _ _ _ _ _ H) in Hs; pose proof (si_acked _ _ Hs) as Ha; pose proof (next_seq_range _ _ Hs) as Hr.
  { exists x, y. split_and!; [apply duplex_refl|done|lia|lia]. }
  destruct (rd_up_x _ _ _ _ _ _ _ _ H) as [U1 _ U3]. destruct (Z.eq_dec (last_ack_no_ (sender_ (conn x))) (next_seq_no_ (sender_ (conn x)))) as [E|E].
  - destruct (idle _ _ Hs U3 U1 E) as [_ Hi]. specialize (Hi (rd_end_x _ _ _ _ _ _ _ _ H)).
    exists x, y. split_and!; [apply duplex_refl|done|lia|lia].
  - destruct (one_round x y H) as (x1 & y1 & S1 & H1 & A1 & B1).
    destruct (IH x1 y1 H1) as (x2 & y2 & S2 & H2 & A2 & B2); [lia|].
    exists x2, y2. split_and!; [by eapply duplex_trans|done|done|lia].
Qed.
End completion.

(** *** Closing *)

Section closing.
Context (isnx isny : WrappingInt32) (capx capy : Z).
Context (Hcapx : 0 < capx) (Hcapx2 : 2 * capx < M63) (Hisnx : wi_ok isnx).
Context (Hcapy : 0 < capy) (Hcapy2 : 2 * capy < M63) (Hisny : wi_ok isny).

(** Nothing is outstanding: no timer runs, and a tick sends nothing. *)
Lemma quiet_tick s hist ms :
  sinv s hist -> outstanding_segments_ s = [] ->
  exists s', TCPSender.tick s ms = Ok s' /\ retransmission_count_ s' = retransmission_count_ s /\ last_ack_no_ s' = last_ack_no_ s
    /\ bytes_in_flight_ s' = bytes_in_flight_ s.
Proof using.
  intros H Ho. pose proof (si_timer _ _ H) as Ht. rewrite Ho, bool_decide_false in Ht by (intros E; by apply E).
  unfold TCPSender.tick, timer_tick, expired. rewrite Ht. cbn [andb negb started_]. rewrite Ht. cbn. by eexists.
Qed.

(** Some interval takes a 64-bit clock anywhere. *)
Lemma u64_reach a b : 0 <= a < M64 -> u64 (b + u64 (a - b)) = a.
Proof using. intros Ha. unfold u64. rewrite Zplus_mod_idemp_r. rewrite Z.mod_small; lia. Qed.

(** Once both streams are through, a tick of ten timeouts closes the connection. *)
Lemma closes x y :
  dinv isnx capx isny capy x y -> patient (conn x) -> finished x y ->
  exists x', (forall net, event net x x') /\ dinv isnx capx isny capy x' y /\ finished x' y
    /\ written x' = written x /\ read_bytes x' = read_bytes x /\ receiver_ (conn x') = receiver_ (conn x)
    /\ state_eqb (TCPConnection.state (conn x')) (of_state CLOSED) = true /\ TCPConnection.bytes_in_flight (conn x') = 0.
Proof using All.
  intros H [P1 P2] Hf. set (ms := u64 (10 * rt_timeout (cfg_ (conn x)) - ms_since_last_recv_ (conn x))).
  destruct (dinv_sender _ _ _ _ _ _ H) as (Hs & _ & _ & Hn).
  destruct (finished_sender isnx isny capx capy Hcapx Hcapx2 Hisnx Hcapy Hcapy2 Hisny x y H Hf) as (_ & Ho & _).
  destruct (quiet_tick _ _ ms Hs Ho) as (s & Es & Ec & Ea & _).
  destruct (duplex_tick isnx isny capx capy Hcapx Hcapx2 Hisnx Hcapy Hcapy2 Hisny x y ms H) as (s' & c & Es' & E & Hd).
  rewrite Es in Es'. injection Es' as <-. assert (consecutive_retransmissions s <= MAX_RETX_ATTEMPTS) as Hm.
  { unfold consecutive_retransmissions in *. by rewrite Ec. }
  specialize (Hd Hm). destruct (tick_goes_on _ _ _ _ Hn Es Hm E) as (S & R & _ & _ & _ & A).
  assert (finished (called c x) y) as Hf'.
  { destruct Hf as [F1 F2]. split; cbn [conn called written]; [rewrite S; cbn; by rewrite Ea|by rewrite R]. }
  pose proof (finished_receiver isnx isny capx capy Hcapx Hcapx2 Hisnx Hcapy Hcapy2 Hisny x y H Hf) as Hr.
  destruct (finished_sender isnx isny capx capy Hcapx Hcapx2 Hisnx Hcapy Hcapy2 Hisny _ _ Hd Hf') as (Hfa & Ho' & Hnx). cbn [conn called] in Hfa, Ho', Hnx.
  assert (active_ c = false) as Hac.
  { rewrite A. unfold try_clean_shutdown. cbn [receiver_ sender_ set_sender set_ms linger_after_stream_finish_ cfg_ ms_since_last_recv_].
    rewrite Hr. rewrite S in Hfa. change (TCPSender.state s = TCPSender.kFinAcked) in Hfa. rewrite Hfa, !bool_decide_true by done.
    assert (u64 (ms_since_last_recv_ (conn x) + ms) = 10 * rt_timeout (cfg_ (conn x))) as ->.
    { apply u64_reach. lia. }
    rewrite Z.leb_refl. by destruct (linger_after_stream_finish_ (conn x)). }
  exists (called c x). split_and!; try done.
  - intros net. by eapply event_tick.
  - unfold TCPConnection.state, active. apply state_eqb_eq. unfold summary, sender_summary, receiver_summary. cbn [conn called].
    by rewrite Hfa, R, Hr, Hac.
  - destruct (dinv_sender _ _ _ _ _ _ Hd) as (Hs' & _). cbn [conn called written] in Hs'.
    pose proof (si_queue _ _ Hs') as Hq. rewrite Ho' in Hq. cbn [contiguous] in Hq. unfold base in Hq.
    unfold TCPConnection.bytes_in_flight, TCPSender.bytes_in_flight. cbn [conn called]. lia.
Qed.

(** The end of the stream is seen once everything was read. *)
Lemma seen x y :
  dinv isnx capx isny capy x y -> finished x y -> contents (inbound_stream (conn x)) = [] -> eof (inbound_stream (conn x)) = true.
Proof using All.
  intros H Hf Hc. pose proof (finished_receiver isnx isny capx capy Hcapx Hcapx2 Hisnx Hcapy Hcapy2 Hisny x y H Hf) as Hr.
  assert (ByteStream.wf (inbound_stream (conn x))) as Hwf.
  { destruct H as (? & ? & ? & ? & ? & ? & ? & ? & _ & H2 & _). exact (wf_output _ (inv_wf _ _ _ _ _ _ (ri_inv _ _ _ _ _ _ _ (iv_rcv _ _ _ _ _ H2)))). }
  pose proof (length_contents _ Hwf) as Hl. rewrite Hc in Hl. change (zlen (@nil byte)) with 0 in Hl.
  unfold TCPReceiver.state in Hr. change (TCPReceiver.stream_out (receiver_ (conn x))) with (inbound_stream (conn x)) in Hr.
  unfold eof. change (input_ended_ (inbound_stream (conn x))) with (ByteStream.input_ended (inbound_stream (conn x))). rewrite <-Hl.
  repeat case_match; done.
Qed.
End closing.

(** *** The whole way *)

(** All that [x] wrote, and its end, were read at [y], and [x] is closed with
    nothing in flight. *)
Record completed (x y : endpoint) : Prop := {
  co_read : read_bytes y = written x;
  co_eof : eof (inbound_stream (conn y)) = true;
  co_closed : state_eqb (TCPConnection.state (conn x)) (of_state CLOSED) = true;
  co_flight : TCPConnection.bytes_in_flight (conn x) = 0
}.

Section whole.
Context (isnx isny : WrappingInt32) (capx capy : Z).
Context (Hcapx : 0 < capx) (Hcapx2 : 2 * capx < M63) (Hisnx : wi_ok isnx).
Context (Hcapy : 0 < capy) (Hcapy2 : 2 * capy < M63) (Hisny : wi_ok isny).
Context (wx wy : list byte) (Hx : zlen wx + 2 <= M31) (Hy : zlen wy + 2 <= M31).

(** What is acknowledged to the end has arrived to the end. *)
Lemma finished_both x y :
  dinv isnx capx isny capy x y -> last_ack_no_ (sender_ (conn x)) = zlen (written x) + 2 ->
  last_ack_no_ (sender_ (conn y)) = zlen (written y) + 2 -> finished x y /\ finished y x.
Proof using Hcapx Hcapx2 Hisnx Hcapy Hcapy2 Hisny.
  intros H A1 A2. pose proof (dinv_bounds isnx isny capx capy Hcapx Hcapx2 Hisnx Hcapy Hcapy2 Hisny x y H) as [_ D1].
  pose proof (dinv_bounds isny isnx capy capx Hcapy Hcapy2 Hisny Hcapx Hcapx2 Hisnx y x (dinv_sym _ _ _ _ _ _ H)) as [_ D2].
  destruct H as (sx & ax & sy & ay & rcx & fnx & rcy & fny & I1 & I2 & _).
  pose proof (iv_ack _ _ _ _ _ I1) as J1. pose proof (iv_ack _ _ _ _ _ I2) as J2. cbn [link sys_sender sys_receiver] in J1, J2.
  split; split; lia.
Qed.

(** Both streams are acknowledged to their ends and read. *)
Lemma both_finished x y :
  ready isnx capx isny capy wx wy x y ->
  exists x' y', duplex_steps (x, y) (x', y') /\ ready isnx capx isny capy wx wy x' y' /\ finished x' y' /\ finished y' x'
    /\ contents (inbound_stream (conn x')) = [] /\ contents (inbound_stream (conn y')) = [].
Proof using All.
  intros H. destruct (finish_left isnx isny capx capy Hcapx Hcapx2 Hisnx Hcapy Hcapy2 Hisny wx wy Hx Hy
    (Z.to_nat (zlen wx + 2 - last_ack_no_ (sender_ (conn x)))) x y H ltac:(lia)) as (x1 & y1 & S1 & H1 & A1 & _).
  destruct (finish_left isny isnx capy capx Hcapy Hcapy2 Hisny Hcapx Hcapx2 Hisnx wy wx Hy Hx
    (Z.to_nat (zlen wy + 2 - last_ack_no_ (sender_ (conn y1)))) y1 x1 (ready_sym _ _ _ _ _ _ _ _ H1) ltac:(lia)) as (y2 & x2 & S2 & H2 & A2 & B2).
  destruct (read_everything isnx isny capx capy Hcapx Hcapx2 Hisnx Hcapy Hcapy2 Hisny wx wy x2 y2 (ready_sym _ _ _ _ _ _ _ _ H2)) as (x3 & S3 & H3 & E3 & C3).
  destruct (read_everything isny isnx capy capx Hcapy Hcapy2 Hisny Hcapx Hcapx2 Hisnx wy wx y2 x3 (ready_sym _ _ _ _ _ _ _ _ H3)) as (y3 & S4 & H4 & E4 & C4).
  apply ready_sym in H4. exists x3, y3. destruct (dinv_sender _ _ _ _ _ _ (rd_inv _ _ _ _ _ _ _ _ H4)) as (Hs & _).
  pose proof (si_acked _ _ Hs). pose proof (next_seq_range _ _ Hs). destruct (H4) as [Hd _ _ _ _ _ _ _ _ Wx Wy].
  destruct (finished_both x3 y3 Hd) as [F1 F2]; [rewrite Wx, E3 in *; lia|rewrite Wy, E4; lia|]. split_and!; try done.
  eapply duplex_trans; [exact S1|]. eapply duplex_trans; [by apply duplex_swap|]. eapply duplex_trans; [exact S3|by apply duplex_swap].
Qed.

End whole.

(** Then both connections close. *)
Lemma close_both isnx isny capx capy x y :
  0 < capx -> 2 * capx < M63 -> wi_ok isnx -> 0 < capy -> 2 * capy < M63 -> wi_ok isny ->
  dinv isnx capx isny capy x y -> patient (conn x) -> patient (conn y) -> finished x y -> finished y x ->
  contents (inbound_stream (conn x)) = [] -> contents (inbound_stream (conn y)) = [] ->
  exists x' y', (forall net, event net x x') /\ (forall net, event net y y') /\ written x' = written x /\ written y' = written y
    /\ completed x' y' /\ completed y' x'.
Proof.
  intros Hcapx Hcapx2 Hisnx Hcapy Hcapy2 Hisny H Px Py Fx Fy Cx Cy. pose proof (dinv_sym _ _ _ _ _ _ H) as Hs.
  pose proof (seen isnx isny capx capy Hcapx Hcapx2 Hisnx Hcapy Hcapy2 Hisny x y H Fx Cx) as Ex.
  pose proof (seen isny isnx capy capx Hcapy Hcapy2 Hisny Hcapx Hcapx2 Hisnx y x Hs Fy Cy) as Ey.
  destruct (proj2 (dinv_delivered _ _ _ _ _ _ H) Ey) as [Ry _]. destruct (proj2 (dinv_delivered _ _ _ _ _ _ Hs) Ex) as [Rx _].
  destruct (closes isnx isny capx capy Hcapx Hcapx2 Hisnx Hcapy Hcapy2 Hisny x y H Px Fx) as (x' & S1 & H1 & F1 & W1 & R1 & I1 & L1 & B1).
  assert (finished y x') as Fy' by (unfold finished; by rewrite W1).
  destruct (closes isny isnx capy capx Hcapy Hcapy2 Hisny Hcapx Hcapx2 Hisnx y x' (dinv_sym _ _ _ _ _ _ H1) Py Fy')
    as (y' & S2 & _ & _ & W2 & R2 & I2 & L2 & B2).
  unfold inbound_stream in *. exists x', y'. split_and!; [done|done|congruence|congruence|split; unfold inbound_stream; congruence..].
Qed.

(** Both owners end their streams. *)
Lemma both_ready cfgx rndx cfgy rndy x y :
  usable cfgx -> usable cfgy -> duplex_steps (endpoint_new cfgx rndx, endpoint_new cfgy rndy) (x, y) ->
  exists x' y', duplex_steps (x, y) (x', y')
    /\ ready (first_isn cfgx rndx) (recv_capacity cfgx) (first_isn cfgy rndy) (recv_capacity cfgy) (written x) (written y) x' y'.
Proof.
  intros Hx Hy Hst. pose proof (sound_steps _ _ _ _ _ Hx Hy Hst) as H. cbn [fst snd] in H.
  pose proof (first_isn_ok cfgx rndx Hx). pose proof (first_isn_ok cfgy rndy Hy).
  destruct Hx as (_ & _ & ? & ? & _), Hy as (_ & _ & ? & ? & _).
  destruct (sound_end (first_isn cfgx rndx) (first_isn cfgy rndy) (recv_capacity cfgx) (recv_capacity cfgy)) with (x := x) (y := y)
    as (cx & Ex & K1 & U1 & D1 & _); try done. apply sound_sym in K1.
  destruct (sound_end (first_isn cfgy rndy) (first_isn cfgx rndx) (recv_capacity cfgy) (recv_capacity cfgx)) with (x := y) (y := called cx x)
    as (cy & Ey & K2 & U2 & D2 & _); try done. apply sound_sym in K2. destruct K2. exists (called cx x), (called cy y). split; [|by split].
  eapply duplex_more; [apply steps_one|]; constructor; by apply act_end.
Qed.

(** ** Property *)

(** C3: the transfer can always be completed: from every state that two fresh
    connections reach by the calls of their owners and the arrival of any of
    the segments the other one sent, whatever was lost, repeated or reordered
    before and wherever the handshake, the window or the closing stands (no
    stream longer than half the sequence space), there are further calls and
    arrivals, without another byte written, after which each owner has read all
    that the other one wrote and its end, nothing is in flight, and both
    connections are in the state CLOSED: there is no deadlock. *)
Theorem duplex_completes (cfgx cfgy : TCPConfig) (rndx rndy : Z) (x y : endpoint) :
  usable cfgx -> usable cfgy -> duplex_steps (endpoint_new cfgx rndx, endpoint_new cfgy rndy) (x, y) ->
  zlen (written x) + 2 <= M31 -> zlen (written y) + 2 <= M31 ->
  exists x' y', duplex_steps (x, y) (x', y') /\ written x' = written x /\ written y' = written y
    /\ completed x' y' /\ completed y' x'.
Proof.
  intros Hx Hy Hst Lx Ly. destruct (both_ready _ _ _ _ _ _ Hx Hy Hst) as (x1 & y1 & S1 & K1).
  pose proof (first_isn_ok cfgx rndx Hx). pose proof (first_isn_ok cfgy rndy Hy).
  destruct Hx as (_ & _ & ? & ? & _), Hy as (_ & _ & ? & ? & _).
  destruct (both_finished (first_isn cfgx rndx) (first_isn cfgy rndy) (recv_capacity cfgx) (recv_capacity cfgy))
    with (wx := written x) (wy := written y) (x := x1) (y := y1) as (x2 & y2 & S2 & K2 & F1 & F2 & C1 & C2); try done.
  pose proof (rd_written_x _ _ _ _ _ _ _ _ K2) as Wx. pose proof (rd_written_y _ _ _ _ _ _ _ _ K2) as Wy.
  destruct (close_both (first_isn cfgx rndx) (first_isn cfgy rndy) (recv_capacity cfgx) (recv_capacity cfgy) x2 y2)
    as (x3 & y3 & A1 & A2 & W1 & W2 & D1 & D2); try done; [apply K2..|].
  exists x3, y3. split_and!; [|congruence|congruence|done|done]. eapply duplex_trans; [exact S1|]. eapply duplex_trans; [exact S2|].
  eapply duplex_more; [apply steps_one|]; constructor; by apply event_act.
Qed.

(** Both ends open at once, and the bytes written wait for the handshake. *)
Definition stalled_script : list (bool * call) :=
  [(true, do_connect); (false, do_connect); (true, do_write [x61; x62]); (false, do_tick 1000); (false, do_write [x63])].

Definition stalled : endpoint * endpoint :=
  Eval vm_compute in match run sample_duplex stalled_script with Some d => d | None => sample_duplex end.

Lemma stalled_run : run sample_duplex stalled_script = Some (stalled.1, stalled.2).
Proof. vm_compute. reflexivity. Qed.

Lemma duplex_completes_witness :
  state_eqb (TCPConnection.state (conn stalled.1)) (of_state SYN_SENT) = true
  /\ exists x' y', duplex_steps (stalled.1, stalled.2) (x', y') /\ read_bytes y' = [x61; x62] /\ read_bytes x' = [x63]
    /\ state_eqb (TCPConnection.state (conn x')) (of_state CLOSED) = true /\ state_eqb (TCPConnection.state (conn y')) (of_state CLOSED) = true.
Proof.
  split; [reflexivity|].
  destruct (duplex_completes (sample_cfg 4294967295) (sample_cfg 100) 0 0 stalled.1 stalled.2
    (sample_usable 4294967295 ltac:(lia)) (sample_usable 100 ltac:(lia)) (run_steps _ _ _ _ (duplex_refl _) stalled_run))
    as (x' & y' & Hst & Wx & Wy & [R1 _ L1 _] & [R2 _ L2 _]); [discriminate|discriminate|].
  exists x', y'. split; [exact Hst|]. split; [exact (eq_trans R1 Wx)|]. split; [exact (eq_trans R2 Wy)|]. split; [exact L1|exact L2].
Defined.
