(* ===== verification/Recovery.v ===== *)
(** * Recovery from the loss of everything in flight

    DuplexCompletes.v completes the transfer with segments that were sent at any
    time.  Here everything sent up to some moment is lost for good: data,
    acknowledgments, SYNs and FINs.  The timers of libsponge/tcp_sender.cc then
    run out, the oldest outstanding segment is sent again, and from these
    retransmissions and what they provoke alone the transfer is completed, as
    long as both ends may still retransmit once.

    The step of the proof is one retransmission: it arrives, the answer
    acknowledges it, and the retransmission count is back to zero. *)

From Stdlib Require Import ZArith Lia.
From S2P Require Import Prelude WrappingIntegers Ring ByteStream UnAssembleBuffer StreamReassembler Buffer Parser TCPHeader TCPSegment TCPReceiver TCPSender Transfer TCPState TCPConnection ConnectionStatus Duplex Resets GivingUp ReliableLink DuplexCompletes.

(** ** Steps that do without the past *)

(** Only what was sent after the first [nx] segments of the left end and the
    first [ny] of the right end still arrives, time passes and the owners read. *)
Inductive fresh_step (nx ny : nat) : endpoint * endpoint -> endpoint * endpoint -> Prop :=
  | fresh_left x x' y : event (drop ny (sent y)) x x' -> fresh_step nx ny (x, y) (x', y)
  | fresh_right x y y' : event (drop nx (sent x)) y y' -> fresh_step nx ny (x, y) (x, y').

Inductive fresh_steps (nx ny : nat) : endpoint * endpoint -> endpoint * endpoint -> Prop :=
  | fresh_refl d : fresh_steps nx ny d d
  | fresh_more d1 d2 d3 : fresh_steps nx ny d1 d2 -> fresh_step nx ny d2 d3 -> fresh_steps nx ny d1 d3.

Lemma fresh_trans nx ny d1 d2 d3 : fresh_steps nx ny d1 d2 -> fresh_steps nx ny d2 d3 -> fresh_steps nx ny d1 d3.
Proof. intros H1 H2. revert H1. induction H2 as [d|a b c _ IH Hst]; [done|]. intros H1. eapply fresh_more; [by apply IH|exact Hst]. Qed.

Lemma fresh_swap nx ny x y x' y' : fresh_steps nx ny (x, y) (x', y') -> fresh_steps ny nx (y, x) (y', x').
Proof.
  remember (x, y) as d eqn:Ed. remember (x', y') as d' eqn:Ed'. intros H. revert x y x' y' Ed Ed'.
  induction H as [d|d1 d2 d3 _ IH Hst]; intros x y x' y' -> Ed'.
  - injection Ed' as -> ->. apply fresh_refl.
  - destruct Hst as [u u' v Ha|u v v' Ha]; injection Ed' as <- <-; (eapply fresh_more; [by apply IH|by constructor]).
Qed.

Lemma fresh_one nx ny x x' y : event (drop ny (sent y)) x x' -> fresh_steps nx ny (x, y) (x', y).
Proof. intros H. eapply fresh_more; [apply fresh_refl|by constructor]. Qed.

(** They are steps on the network. *)
Lemma event_more net net' x x' : net ⊆ net' -> event net x x' -> event net' x x'.
Proof.
  intros Hs. destruct 1; [by eapply event_tick| |by eapply event_read]. eapply event_segment; [by apply Hs|done..].
Qed.

Lemma drop_subset {A} n (l : list A) : drop n l ⊆ l.
Proof. intros p Hp. rewrite <-(take_drop n l). apply elem_of_app. by right. Qed.

Lemma fresh_duplex nx ny d d' : fresh_steps nx ny d d' -> duplex_steps d d'.
Proof.
  induction 1 as [d|d1 d2 d3 _ IH Hst]; [apply duplex_refl|]. eapply duplex_more; [exact IH|].
  destruct Hst as [x x' y Ha|x y y' Ha]; constructor; apply event_act; (eapply event_more; [apply drop_subset|exact Ha]).
Qed.

(** ** One retransmission *)

(** One more retransmission is possible. *)
Definition spare (c : TCPConnection) : Prop := consecutive_retransmissions (sender_ c) < MAX_RETX_ATTEMPTS.

Lemma moved_spare x x' : moved x x' -> spare (conn x) -> spare (conn x').
Proof.
  intros [_ Ha _ Hs Hr _ _] P. unfold spare, consecutive_retransmissions in *.
  destruct (Z.eq_dec (last_ack_no_ (sender_ (conn x'))) (last_ack_no_ (sender_ (conn x)))) as [E|E].
  - by rewrite Hs.
  - rewrite Hr by lia. done.
Qed.

Section recovery.
Context (isnx isny : WrappingInt32) (capx capy : Z).
Context (Hcapx : 0 < capx) (Hcapx2 : 2 * capx < M63) (Hisnx : wi_ok isnx).
Context (Hcapy : 0 < capy) (Hcapy2 : 2 * capy < M63) (Hisny : wi_ok isny).

(** Some tick makes the timer run out. *)
Lemma runs_out s hist :
  sinv s hist -> outstanding_segments_ s <> [] -> exists ms, expired (timer_tick ms (timer_ s)) = true.
Proof using.
  intros H Ho. pose proof (si_timer _ _ H) as Ht. rewrite bool_decide_true in Ht by done.
  destruct (si_rto _ _ H) as [_ (n & _ & _ & Hto)]. exists (u64 (timeout_ms_ (timer_ s) - elapsed_ms_ (timer_ s))).
  assert (0 <= timeout_ms_ (timer_ s) < M64) as Hr by (rewrite Hto; apply u64_range).
  unfold expired, timer_tick. rewrite Ht. cbn. apply Z.leb_le.
  rewrite u64_reach by done. lia.
Qed.

(** The oldest outstanding segment is sent again. *)
Lemma resend x y :
  dinv isnx capx isny capy x y -> up x -> spare (conn x) -> last_ack_no_ (sender_ (conn x)) < next_seq_no_ (sender_ (conn x)) ->
  exists x' p b o w, event [] x x' /\ dinv isnx capx isny capy x' y /\ up x' /\ kept x x'
    /\ receiver_ (conn x') = receiver_ (conn x) /\ cfg_ (conn x') = cfg_ (conn x)
    /\ last_ack_no_ (sender_ (conn x')) = last_ack_no_ (sender_ (conn x))
    /\ p ∈ queue_at (base (sender_ (conn x'))) (outstanding_segments_ (sender_ (conn x')))
    /\ (p.1, b, stamped o w p.2) ∈ drop (length (sent x)) (sent x')
    /\ p.1 <= last_ack_no_ (sender_ (conn x')) < p.1 + seg_len p.2.
Proof using All.
  intros H Hu Hsp Hlt. destruct (dinv_sender _ _ _ _ _ _ H) as (Hs & _ & Ho & Hr).
  assert (outstanding_segments_ (sender_ (conn x)) <> []) as Hne.
  { intros E. apply (base_front _ _ Hs) in E. lia. }
  destruct (runs_out _ _ Hs Hne) as [ms Hexp].
  destruct (tick_expired _ _ ms Hs Hexp) as (fr & q & s & Eq & Es & _ & Eout & Eoq & _ & Ect).
  destruct (duplex_tick isnx isny capx capy Hcapx Hcapx2 Hisnx Hcapy Hcapy2 Hisny x y ms H) as (s' & c & Es' & E & Hd).
  rewrite Es in Es'. injection Es' as <-. assert (consecutive_retransmissions s <= MAX_RETX_ATTEMPTS) as Hm.
  { unfold spare in Hsp. pose proof (count_next (sender_ (conn x)) ltac:(lia)) as Hc. unfold consecutive_retransmissions in *.
    destruct (0 <? _); injection Ect as _ ->; [rewrite Hc|]; lia. }
  specialize (Hd Hm). destruct (tick_fields isnx capy Hcapy Hcapy2 Hisnx _ _ _ Es) as (_ & En & Ea & _ & Eb & Ee & _).
  destruct (dinv_ackno isnx isny capx capy Hcapx Hcapx2 Hisnx Hcapy Hcapy2 Hisny x y H) as [o Ha].
  destruct (tick_goes_on _ _ _ _ Hr Es Hm E) as (S & R & G & _). exists (called c x), (base (sender_ c), fr), (abs_ack_no (receiver_ c)), o, (window_size (receiver_ c)).
  assert ((base (sender_ c), fr) ∈ queue_at (base (sender_ c)) (outstanding_segments_ (sender_ c))) as Hp.
  { rewrite S. cbn. rewrite Eoq, Eq. by left. }
  split_and!; try done.
  - by eapply event_tick.
  - by eapply (up_tick isnx capy).
  - split; try done. cbn [conn called]. rewrite S. exact Ee.
  - cbn [conn called]. rewrite S. exact Ea.
  - pose proof (labelled_queue isnx isny capx capy Hcapx Hcapx2 Hisnx Hcapy Hcapy2 Hisny x y c o (window_size (receiver_ c)) _ Hd Hp) as Hl.
    cbn [fst snd] in *. rewrite <-Hl. unfold tick in E. cbn [sender_ set_ms] in E. rewrite Es in E. cbn [mbind res_bind] in E. cbn [sender_ set_sender] in E.
    rewrite (proj2 (Z.ltb_ge _ _) Hm) in E. set (c0 := set_sender s _) in E.
    destruct (try_clean_shutdown_fields c0) as (_ & F2 & F3 & F4 & F5 & _).
    destruct (flushed _ _ o E (eq_trans F5 Hr)) as (Q & _ & _); [by rewrite F2|]. rewrite F2, F3, F4 in Q. cbn in Q.
    rewrite Eout, Ho in Q. rewrite <-R in Q. rewrite (called_sent x c [fr] o Q), drop_app_length. by left.
  - cbn [conn called fst snd]. rewrite S. cbn. rewrite Ea. pose proof (si_base _ _ Hs). unfold base in *. cbn. lia.
  - cbn [conn called fst snd]. rewrite S. cbn. rewrite Ea. pose proof (si_front _ _ Hs) as Hf. rewrite Eq in Hf. unfold base in *. cbn. lia.
Qed.

(** A segment of [y] arrives at [x]. *)
Lemma arrives net x y a b f :
  dinv isnx capx isny capy x y -> zlen (written x) + 2 <= M31 -> zlen (written y) + 2 <= M31 -> up x -> syn_first (sender_ (conn y)) ->
  net ⊆ sent y -> (a, b, f) ∈ net ->
  exists c, event net x (called c x) /\ dinv isnx capx isny capy (called c x) y /\ moved x (called c x) /\ up (called c x) /\ kept x (called c x)
    /\ TCPReceiver.segment_received (receiver_ (conn x)) f = Ok (receiver_ c)
    /\ (ack (header f) = true -> b <= last_ack_no_ (sender_ c))
    /\ (0 < seg_len f -> exists ext, queued (conn x) c ext /\ ext <> []).
Proof using All.
  intros H Hx Hy [U1 U2 U3] Hsf Hnet Hin'. pose proof (Hnet _ Hin') as Hin.
  destruct (young isnx isny capx capy Hcapx Hcapx2 Hisnx Hcapy Hcapy2 Hisny x y a b f H Hx Hy Hin) as [Hage Hage'].
  destruct (duplex_segment isnx isny capx capy Hcapx Hcapx2 Hisnx Hcapy Hcapy2 Hisny x y a b f H Hin Hage Hage') as (c & E & H').
  destruct (segment_effect isnx isny capx capy Hcapx Hcapx2 Hisnx Hcapy Hcapy2 Hisny x y a b f c H Hin Hage' Hage U1 E)
    as (Er & Ecfg & s2 & new & ext & Hex & Hfill & Es & Hq & Hans).
  destruct (acked_effect isnx isny capx capy Hcapx Hcapx2 Hisnx Hcapy Hcapy2 Hisny x y a b f H Hin Hage') as [Hhe Hack].
  destruct (lands isnx isny capx capy Hcapx Hcapx2 Hisnx Hcapy Hcapy2 Hisny x y a b f _ H Hin Hage Hsf Er) as (Hlater & _).
  pose proof (moved_call x c _ _ _ Hhe Hex Es Ecfg (la_ack _ _ Hlater)) as Hm. exists c. split_and!; try done.
  - by eapply event_segment.
  - split; [|by apply (mv_syn _ _ Hm)|cbn [conn called]; by rewrite Es]. pose proof (mv_next _ _ Hm). lia.
  - split; try done. exact (segment_received_ended _ _ _ E).
  - rewrite Es. cbn. rewrite (ex_ack _ _ _ Hex). exact Hack.
  - intros Hl. exists ext. split; [done|]. destruct Hans as [[-> Hne]|(_ & (e & -> & _) & _)]; [by apply Hne|done].
Qed.

(** A retransmission arrives: [x] acknowledges it, in what it sends now. *)
Lemma heard_again net x y p b o w :
  dinv isnx capx isny capy x y -> zlen (written x) + 2 <= M31 -> zlen (written y) + 2 <= M31 -> up x -> syn_first (sender_ (conn y)) ->
  contents (inbound_stream (conn x)) = [] -> net ⊆ sent y -> (p.1, b, stamped o w p.2) ∈ net ->
  p ∈ queue_at (base (sender_ (conn y))) (outstanding_segments_ (sender_ (conn y))) ->
  p.1 <= last_ack_no_ (sender_ (conn y)) < p.1 + seg_len p.2 ->
  exists x' a g, event net x x' /\ dinv isnx capx isny capy x' y /\ moved x x' /\ up x' /\ kept x x'
    /\ last_ack_no_ (sender_ (conn y)) < abs_ack_no (receiver_ (conn x'))
    /\ (a, abs_ack_no (receiver_ (conn x')), g) ∈ drop (length (sent x)) (sent x') /\ ack (header g) = true.
Proof using All.
  intros H Hx Hy Hu Hsf Hct Hnet Hin Hp Hpos. pose proof (dinv_sym _ _ _ _ _ _ H) as Hs.
  destruct (arrives net x y _ b _ H Hx Hy Hu Hsf Hnet Hin) as (c & Ha & H' & Hm & Hu' & Hk & Er & _ & Hans).
  assert (seg_len (stamped o w p.2) = seg_len p.2) as El by (by destruct o).
  destruct (Hans ltac:(lia)) as (ext & Hq & Hne).
  pose proof (wire_roomy isny isnx capy capx Hcapy Hcapy2 Hisny Hcapx Hcapx2 Hisnx y x [stamped o w p.2] Hs (or_introl Hct)) as Hroom.
  destruct (arrival isnx isny capx capy Hcapx Hcapx2 Hisnx Hcapy Hcapy2 Hisny x y _ _ _ _ H Hx Hy (Hnet _ Hin) Hsf Hroom Er) as (_ & _ & _ & Hst).
  assert (has (receiver_ c) p) as Hh by (rewrite (surjective_pairing p); apply (has_stamped _ _ o w), Hst; lia).
  destruct (called_ack isnx isny capx capy Hcapx Hcapx2 Hisnx Hcapy Hcapy2 Hisny x y c ext H' Hq Hne (has_heard _ _ Hh)) as (a & g & Hg & _ & Hack).
  exists (called c x), a, g. split_and!; try done. cbn [conn called].
  destruct H' as (sx & ax & sy & ay & rcx & fnx & rcy & fny & _ & H2 & _). pose proof (iv_ack _ _ _ _ _ H2) as Hle.
  destruct (queue_stamp isny capx Hcapx Hcapx2 Hisny _ _ p (iv_snd _ _ _ _ _ H2) (iv_isn _ _ _ _ _ H2) Hp) as (_ & Hat & Hend).
  pose proof (has_past isny capx Hcapx Hcapx2 Hisny _ _ _ _ p H2 Hat Hend Hh) as Hpast. cbn [link sys_sender sys_receiver conn called] in *. lia.
Qed.
End recovery.

(** ** The whole transfer *)

(** What is sent is only ever added to. *)
Lemma event_sent net x x' : event net x x' -> sent x `prefix_of` sent x'.
Proof. destruct 1; cbn; try (by eexists); done. Qed.

Lemma drop_more {A} n m (l : list A) : (n <= m)%nat -> drop m l ⊆ drop n l.
Proof. intros Hle. replace m with (n + (m - n))%nat by lia. rewrite <-drop_drop. apply drop_subset. Qed.

(** Both ends have ended their streams, and may retransmit. *)
Record steady (isnx : WrappingInt32) (capx : Z) (isny : WrappingInt32) (capy : Z) (wx wy : list byte) (nx ny : nat) (x y : endpoint) : Prop := {
  sd_inv : dinv isnx capx isny capy x y;
  sd_up_x : up x;
  sd_up_y : up y;
  sd_patient_x : patient (conn x) /\ spare (conn x);
  sd_patient_y : patient (conn y) /\ spare (conn y);
  sd_end_x : ended (sender_ (conn x)) = true;
  sd_end_y : ended (sender_ (conn y)) = true;
  sd_written : written x = wx /\ written y = wy;
  sd_sent : (nx <= length (sent x))%nat /\ (ny <= length (sent y))%nat
}.

Lemma steady_sym isnx capx isny capy wx wy nx ny x y :
  steady isnx capx isny capy wx wy nx ny x y -> steady isny capy isnx capx wy wx ny nx y x.
Proof. intros [? ? ? ? ? ? ? [? ?] [? ?]]. split; try done. by apply dinv_sym. Qed.

(** The owner of [x] reads everything. *)
Lemma steady_read isnx isny capx capy wx wy nx ny x y :
  0 < capx -> 2 * capx < M63 -> wi_ok isnx -> 0 < capy -> 2 * capy < M63 -> wi_ok isny ->
  steady isnx capx isny capy wx wy nx ny x y ->
  exists x', fresh_steps nx ny (x, y) (x', y) /\ steady isnx capx isny capy wx wy nx ny x' y /\ sender_ (conn x') = sender_ (conn x)
    /\ contents (inbound_stream (conn x')) = [].
Proof.
  intros Hcapx Hcapx2 Hisnx Hcapy Hcapy2 Hisny [H [Ux1 Ux2 Ux3] Uy [[Px1 Px2] Sx] Py Ex Ey Hw Hs].
  destruct (reads_all isnx isny capx capy Hcapx Hcapx2 Hisnx Hcapy Hcapy2 Hisny x y H) as (l & out & _ & Hc & Ha & H').
  eexists. split_and!; [apply fresh_one, Ha|by split|done|exact Hc].
Qed.

Section rounds.
Context (isnx isny : WrappingInt32) (capx capy : Z).
Context (Hcapx : 0 < capx) (Hcapx2 : 2 * capx < M63) (Hisnx : wi_ok isnx).
Context (Hcapy : 0 < capy) (Hcapy2 : 2 * capy < M63) (Hisny : wi_ok isny).
Context (wx wy : list byte) (Hx : zlen wx + 2 <= M31) (Hy : zlen wy + 2 <= M31) (nx ny : nat).

(** One retransmission of [x], with what it provokes. *)
Lemma retransmission x y :
  steady isnx capx isny capy wx wy nx ny x y -> last_ack_no_ (sender_ (conn x)) < next_seq_no_ (sender_ (conn x)) ->
  exists x' y', fresh_steps nx ny (x, y) (x', y') /\ steady isnx capx isny capy wx wy nx ny x' y'
    /\ last_ack_no_ (sender_ (conn x)) < last_ack_no_ (sender_ (conn x'))
    /\ last_ack_no_ (sender_ (conn y)) <= last_ack_no_ (sender_ (conn y')).
Proof using All.
  intros H Hlt.
  destruct (steady_read isny isnx capy capx wy wx ny nx y x Hcapy Hcapy2 Hisny Hcapx Hcapx2 Hisnx (steady_sym _ _ _ _ _ _ _ _ _ _ H)) as (y1 & S1 & H1 & E1 & C1).
  apply steady_sym in H1. destruct H1 as [Hd Ux Uy [Px Sx] [Py Sy] Ex Ey [<- <-] [Nx Ny]].
  destruct (resend isnx isny capx capy Hcapx Hcapx2 Hisnx Hcapy Hcapy2 Hisny x y1 Hd Ux Sx Hlt)
    as (x1 & p & b & o & w & A1 & Hd1 & Ux1 & [K1 K2 K3] & R1 & G1 & L1 & Hp & Hin & Hpos).
  pose proof (prefix_length _ _ (event_sent _ _ _ A1)) as P1. rewrite <-K1 in Hx |- *.
  destruct (heard_again isny isnx capy capx Hcapy Hcapy2 Hisny Hcapx Hcapx2 Hisnx (drop nx (sent x1)) y1 x1 p b o w)
    as (y2 & a & g & A2 & Hd2 & M2 & Uy2 & [Q1 Q2 Q3] & Hgt & Hg & Hack); try done; [by apply dinv_sym|apply Ux1|apply drop_subset|by eapply drop_more; [exact Nx|]|].
  pose proof (prefix_length _ _ (event_sent _ _ _ A2)) as P2. apply dinv_sym in Hd2. rewrite <-Q1 in Hy |- *.
  destruct (arrives isnx isny capx capy Hcapx Hcapx2 Hisnx Hcapy Hcapy2 Hisny (drop ny (sent y2)) x1 y2 a (abs_ack_no (receiver_ (conn y2))) g Hd2 Hx Hy Ux1 (up_syn _ Uy2))
    as (c & A3 & Hd3 & M3 & Ux3 & [V1 V2 V3] & _ & Hb & _); [apply drop_subset|by eapply drop_more; [exact Ny|]|].
  pose proof (prefix_length _ _ (event_sent _ _ _ A3)) as P3. specialize (Hb Hack).
  pose proof (mv_reset _ _ M3) as Hz. cbn [conn called] in Hz. specialize (Hz ltac:(lia)).
  assert (consecutive_retransmissions (sender_ (conn (called c x1))) = 0) as Hz' by (unfold consecutive_retransmissions; cbn [conn called]; by rewrite Hz).
  exists (called c x1), y2. split_and!.
  - eapply fresh_trans; [apply fresh_swap, S1|]. eapply fresh_more; [eapply fresh_more; [apply fresh_one|]|].
    + eapply event_more; [|exact A1]. apply list_subseteq_nil.
    + apply fresh_right, A2.
    + apply fresh_left, A3.
  - split; try done; try lia.
    + unfold spare. rewrite Hz'. split; [|done]. split; [rewrite Hz'; done|]. rewrite (mv_cfg _ _ M3), G1. apply (pa_rto _ Px).
    + split; [by apply (moved_patient _ _ M2)|by apply (moved_spare _ _ M2)].
    + by rewrite V3, K3.
    + by rewrite Q3.
  - cbn [conn called]. lia.
  - rewrite <-E1. apply (mv_ack _ _ M2).
Qed.

(** Retransmissions until everything of [x] is acknowledged. *)
Lemma recover_left n : forall x y,
  steady isnx capx isny capy wx wy nx ny x y -> zlen wx + 2 - last_ack_no_ (sender_ (conn x)) <= Z.of_nat n ->
  exists x' y', fresh_steps nx ny (x, y) (x', y') /\ steady isnx capx isny capy wx wy nx ny x' y'
    /\ last_ack_no_ (sender_ (conn x')) = zlen wx + 2 /\ last_ack_no_ (sender_ (conn y)) <= last_ack_no_ (sender_ (conn y')).
Proof using All.
  induction n as [|n IH]; intros x y H Hn; destruct (dinv_sender _ _ _ _ _ _ (sd_inv _ _ _ _ _ _ _ _ _ _ H)) as (Hs & _);
    rewrite (proj1 (sd_written _ _ _ _ _ _ _ _ _ _ H)) in Hs; pose proof (si_acked _ _ Hs) as Ha; pose proof (next_seq_range _ _ Hs) as Hr.
  { exists x, y. split_and!; [apply fresh_refl|done|lia|lia]. }
  destruct (sd_up_x _ _ _ _ _ _ _ _ _ _ H) as [U1 _ U3]. destruct (Z.eq_dec (last_ack_no_ (sender_ (conn x))) (next_seq_no_ (sender_ (conn x)))) as [E|E].
  - destruct (idle _ _ Hs U3 U1 E) as [_ Hi]. specialize (Hi (sd_end_x _ _ _ _ _ _ _ _ _ _ H)).
    exists x, y. split_and!; [apply fresh_refl|done|lia|lia].
  - destruct (retransmission x y H) as (x1 & y1 & S1 & H1 & A1 & B1); [lia|].
    destruct (IH x1 y1 H1) as (x2 & y2 & S2 & H2 & A2 & B2); [lia|].
    exists x2, y2. split_and!; [by eapply fresh_trans|done|done|lia].
Qed.
End rounds.

(** Both streams are acknowledged to their ends and read. *)
Lemma recover_both isnx isny capx capy wx wy nx ny x y :
  0 < capx -> 2 * capx < M63 -> wi_ok isnx -> 0 < capy -> 2 * capy < M63 -> wi_ok isny -> zlen wx + 2 <= M31 -> zlen wy + 2 <= M31 ->
  steady isnx capx isny capy wx wy nx ny x y ->
  exists x' y', fresh_steps nx ny (x, y) (x', y') /\ steady isnx capx isny capy wx wy nx ny x' y' /\ finished x' y' /\ finished y' x'
    /\ contents (inbound_stream (conn x')) = [] /\ contents (inbound_stream (conn y')) = [].
Proof.
  intros Hcapx Hcapx2 Hisnx Hcapy Hcapy2 Hisny Hx Hy H.
  destruct (recover_left isnx isny capx capy Hcapx Hcapx2 Hisnx Hcapy Hcapy2 Hisny wx wy Hx Hy nx ny
    (Z.to_nat (zlen wx + 2 - last_ack_no_ (sender_ (conn x)))) x y H ltac:(lia)) as (x1 & y1 & S1 & H1 & A1 & _).
  destruct (recover_left isny isnx capy capx Hcapy Hcapy2 Hisny Hcapx Hcapx2 Hisnx wy wx Hy Hx ny nx
    (Z.to_nat (zlen wy + 2 - last_ack_no_ (sender_ (conn y1)))) y1 x1 (steady_sym _ _ _ _ _ _ _ _ _ _ H1) ltac:(lia)) as (y2 & x2 & S2 & H2 & A2 & B2).
  destruct (steady_read isnx isny capx capy wx wy nx ny x2 y2) as (x3 & S3 & H3 & E3 & C3); try done; [by apply steady_sym|].
  destruct (steady_read isny isnx capy capx wy wx ny nx y2 x3) as (y3 & S4 & H4 & E4 & C4); try done; [by apply steady_sym|].
  apply steady_sym in H4. exists x3, y3. destruct (dinv_sender _ _ _ _ _ _ (sd_inv _ _ _ _ _ _ _ _ _ _ H4)) as (Hs & _).
  pose proof (si_acked _ _ Hs). pose proof (next_seq_range _ _ Hs). destruct (H4) as [Hd _ _ _ _ _ _ [Wx Wy] _].
  destruct (finished_both isnx isny capx capy Hcapx Hcapx2 Hisnx Hcapy Hcapy2 Hisny x3 y3 Hd) as [F1 F2]; [rewrite Wx, E3 in *; lia|rewrite Wy, E4; lia|].
  split_and!; try done.
  eapply fresh_trans; [exact S1|]. eapply fresh_trans; [by apply fresh_swap|]. eapply fresh_trans; [exact S3|by apply fresh_swap].
Qed.

(** Both owners end their streams. *)
Lemma both_steady cfgx rndx cfgy rndy x y :
  usable cfgx -> usable cfgy -> duplex_steps (endpoint_new cfgx rndx, endpoint_new cfgy rndy) (x, y) ->
  spare (conn x) -> spare (conn y) ->
  exists cx cy, end_input_stream (conn x) = Ok cx /\ end_input_stream (conn y) = Ok cy
    /\ steady (first_isn cfgx rndx) (recv_capacity cfgx) (first_isn cfgy rndy) (recv_capacity cfgy) (written x) (written y)
         (length (sent (called cx x))) (length (sent (called cy y))) (called cx x) (called cy y).
Proof.
  intros Hx Hy Hst Px Py. pose proof (sound_steps _ _ _ _ _ Hx Hy Hst) as H. cbn [fst snd] in H.
  pose proof (first_isn_ok cfgx rndx Hx). pose proof (first_isn_ok cfgy rndy Hy).
  destruct Hx as (_ & _ & ? & ? & _), Hy as (_ & _ & ? & ? & _).
  destruct (sound_end (first_isn cfgx rndx) (first_isn cfgy rndy) (recv_capacity cfgx) (recv_capacity cfgy)) with (x := x) (y := y)
    as (cx & Ex & K1 & U1 & D1 & N1); try done. apply sound_sym in K1.
  destruct (sound_end (first_isn cfgy rndy) (first_isn cfgx rndx) (recv_capacity cfgy) (recv_capacity cfgx)) with (x := y) (y := called cx x)
    as (cy & Ey & K2 & U2 & D2 & N2); try done. apply sound_sym in K2. destruct K2. exists cx, cy. split_and!; [done|done|].
  split; try done.
  - split; [done|]. unfold spare. cbn [conn called]. by rewrite N1.
  - split; [done|]. unfold spare. cbn [conn called]. by rewrite N2.
Qed.

(** ** Property *)

(** C2: total loss is recovered from: in every state that two fresh connections
    reach by the calls of their owners and the arrival of any of the segments
    the other one sent, let both owners call [end_input_stream], which returns
    (and which sends the SYN where that was not sent yet), and let everything
    sent so far, by this call too, be lost for good on both sides.  If neither
    end has used up its retransmissions, then there are ticks that do not give
    up, reads and arrivals of segments sent from then on, and no other calls,
    that complete the transfer: each owner reads all that the other one wrote
    and its end, nothing is in flight and both connections are in the state
    CLOSED (no stream being longer than half the sequence space), wherever the
    handshake, the window or the closing stands. *)
Theorem duplex_recovers (cfgx cfgy : TCPConfig) (rndx rndy : Z) (x y : endpoint) :
  usable cfgx -> usable cfgy -> duplex_steps (endpoint_new cfgx rndx, endpoint_new cfgy rndy) (x, y) ->
  zlen (written x) + 2 <= M31 -> zlen (written y) + 2 <= M31 -> spare (conn x) -> spare (conn y) ->
  exists cx cy, end_input_stream (conn x) = Ok cx /\ end_input_stream (conn y) = Ok cy
  /\ exists x' y',
       fresh_steps (length (sent (called cx x))) (length (sent (called cy y))) (called cx x, called cy y) (x', y')
       /\ written x' = written x /\ written y' = written y /\ completed x' y' /\ completed y' x'.
Proof.
  intros Hx Hy Hst Lx Ly Px Py. destruct (both_steady _ _ _ _ _ _ Hx Hy Hst Px Py) as (cx & cy & Ex & Ey & K1).
  pose proof (first_isn_ok cfgx rndx Hx). pose proof (first_isn_ok cfgy rndy Hy).
  destruct Hx as (_ & _ & ? & ? & _), Hy as (_ & _ & ? & ? & _).
  destruct (recover_both (first_isn cfgx rndx) (first_isn cfgy rndy) (recv_capacity cfgx) (recv_capacity cfgy)
    (written x) (written y) (length (sent (called cx x))) (length (sent (called cy y))) (called cx x) (called cy y)) as (x2 & y2 & S2 & K2 & F1 & F2 & C1 & C2); try done.
  destruct (sd_written _ _ _ _ _ _ _ _ _ _ K2) as [Wx Wy].
  destruct (close_both (first_isn cfgx rndx) (first_isn cfgy rndy) (recv_capacity cfgx) (recv_capacity cfgy) x2 y2)
    as (x3 & y3 & A1 & A2 & W1 & W2 & D1 & D2); try done; [apply K2..|].
  exists cx, cy. split_and!; [done|done|]. exists x3, y3. split_and!; [|congruence|congruence|done|done]. eapply fresh_trans; [exact S2|].
  eapply fresh_more; [apply fresh_one|]; [|constructor]; done.
Qed.

(** The acknowledgment of the right SYN, two bytes and the FIN behind them are
    lost; the right end has a byte to send and no window for it yet. *)
Definition lost_script : list (bool * call) :=
  [(true, do_connect); (false, do_segment 0); (true, do_segment 0); (true, do_write [x61; x62]); (false, do_write [x63]); (true, do_end)].

Definition lost : endpoint * endpoint :=
  Eval vm_compute in match run sample_duplex lost_script with Some d => d | None => sample_duplex end.

Lemma lost_run : run sample_duplex lost_script = Some (lost.1, lost.2).
Proof. vm_compute. reflexivity. Qed.

Lemma duplex_recovers_witness :
  read_bytes lost.2 = [] /\ TCPConnection.bytes_in_flight (conn lost.1) = 3 /\ TCPConnection.bytes_in_flight (conn lost.2) = 1
  /\ exists cx cy, end_input_stream (conn lost.1) = Ok cx /\ end_input_stream (conn lost.2) = Ok cy
  /\ exists x' y', fresh_steps (length (sent (called cx lost.1))) (length (sent (called cy lost.2))) (called cx lost.1, called cy lost.2) (x', y')
    /\ read_bytes y' = [x61; x62] /\ read_bytes x' = [x63]
    /\ state_eqb (TCPConnection.state (conn x')) (of_state CLOSED) = true /\ state_eqb (TCPConnection.state (conn y')) (of_state CLOSED) = true.
Proof.
  split; [reflexivity|]. split; [reflexivity|]. split; [reflexivity|].
  destruct (duplex_recovers (sample_cfg 4294967295) (sample_cfg 100) 0 0 lost.1 lost.2
    (sample_usable 4294967295 ltac:(lia)) (sample_usable 100 ltac:(lia)) (run_steps _ _ _ _ (duplex_refl _) lost_run))
    as (cx & cy & Ex & Ey & x' & y' & Hst & Wx & Wy & [R1 _ L1 _] & [R2 _ L2 _]); [discriminate|discriminate|reflexivity|reflexivity|].
  exists cx, cy. split; [exact Ex|]. split; [exact Ey|].
  exists x', y'. split; [exact Hst|]. split; [exact (eq_trans R1 Wx)|]. split; [exact (eq_trans R2 Wy)|]. split; [exact L1|exact L2].
Defined.
