(* ===== verification/Printing.v ===== *)
(** * Text (the printing functions of libsponge)

    [to_string], [summary], [str] and [name] of the headers, segments and
    states, and [hexdump] of util.cc, over a model of the output streams they
    write to: the put position of a [stringstream], the number base, the field
    width and the fill character. *)

From Stdlib Require Import ZArith Lia.
From Stdlib Require Strings.String.
From S2P Require Import Prelude WrappingIntegers Buffer TCPHeader TCPSegment IPv4Header Ethernet ARPMessage TCPState Address WireSafety.

(** ** Output streams *)

Definition bytes (s : string) : list byte := String.list_byte_of_string s.
Definition newline : byte := x0a.
Definition space : byte := x20.

Definition hex_digit (d : Z) : byte := z2b (if d <? 10 then 48 + d else 87 + d).

Fixpoint hex_loop (fuel : nat) (n : Z) (acc : list byte) : list byte :=
  match fuel with
  | O => acc
  | S fuel =>
    let acc := hex_digit (n mod 16) :: acc in
    if n / 16 =? 0 then acc else hex_loop fuel (n / 16) acc
  end.

(** Sixteen digits are enough for 64 bits. *)
Definition to_hex (n : Z) : list byte := hex_loop 16 n [].

Record ostream : Type := mkOstream {
  text : list byte;
  putp : Z;
  base16 : bool;
  alpha : bool;
  fill : byte;
  field : Z
}.

(** [std::stringstream ss{}], and the one constructed with a text: the put
    position is at its start. *)
Definition stringstream (s : list byte) : ostream := mkOstream s 0 false false space 0.

(** [ss.str(s)] *)
Definition set_str (s : list byte) (os : ostream) : ostream :=
  mkOstream s 0 (base16 os) (alpha os) (fill os) (field os).

Definition hex (os : ostream) : ostream := mkOstream (text os) (putp os) true (alpha os) (fill os) (field os).
Definition boolalpha (os : ostream) : ostream := mkOstream (text os) (putp os) (base16 os) true (fill os) (field os).
Definition setfill (c : byte) (os : ostream) : ostream := mkOstream (text os) (putp os) (base16 os) (alpha os) c (field os).
Definition setw (n : Z) (os : ostream) : ostream := mkOstream (text os) (putp os) (base16 os) (alpha os) (fill os) n.

(** Formatted output of a string: padded on the left to the field width, which
    it resets, and written over what is at the put position. *)
Definition put (s : list byte) (os : ostream) : ostream :=
  let s := zreplicate (field os - zlen s) (fill os) ++ s in
  mkOstream (ztake (putp os) (text os) ++ s ++ zdrop (putp os + zlen s) (text os)) (putp os + zlen s)
    (base16 os) (alpha os) (fill os) 0.

(** [operator<<] on a literal, a character, an unsigned number and a [bool]. *)
Definition lit (s : string) : ostream -> ostream := put (bytes s).
Definition chr (c : byte) : ostream -> ostream := put [c].
Definition num (n : Z) (os : ostream) : ostream := put (if base16 os then to_hex n else to_string n) os.
Definition flag (b : bool) (os : ostream) : ostream :=
  if alpha os then put (if b then bytes "true" else bytes "false") os else num (Z.b2z b) os.

(** [os << f1 << f2 ...] *)
Definition chain (fs : list (ostream -> ostream)) (os : ostream) : ostream := fold_left (fun os f => f os) fs os.

(** ** The headers *)

Definition tcp_header_to_string (h : TCPHeader) : list byte :=
  text (chain [hex; boolalpha; lit "TCP source port: "; num (sport h); chr newline;
    lit "TCP dest port: "; num (dport h); chr newline;
    lit "TCP seqno: "; num (raw_value (seqno h)); chr newline;
    lit "TCP ackno: "; num (raw_value (ackno h)); chr newline;
    lit "TCP doff: "; num (doff h); chr newline;
    lit "Flags: urg: "; flag (urg h); lit " ack: "; flag (ack h); lit " psh: "; flag (psh h);
    lit " rst: "; flag (rst h); lit " syn: "; flag (syn h); lit " fin: "; flag (fin h); chr newline;
    lit "TCP winsize: "; num (win h); chr newline;
    lit "TCP cksum: "; num (TCPHeader.cksum h); chr newline;
    lit "TCP uptr: "; num (uptr h); chr newline] (stringstream [])).

Definition tcp_header_summary (h : TCPHeader) : list byte :=
  text (chain [lit "Header(flags="; put (if syn h then bytes "S" else []); put (if ack h then bytes "A" else []);
    put (if rst h then bytes "R" else []); put (if fin h then bytes "F" else []);
    lit ",seqno="; num (raw_value (seqno h)); lit ",ack="; num (raw_value (ackno h)); lit ",win="; num (win h); lit ")"]
    (stringstream [])).

Definition ipv4_header_to_string (h : IPv4Header) : list byte :=
  text (chain [hex; boolalpha; lit "IP version: "; num (ver h); chr newline;
    lit "IP hdr len: "; num (hlen h); chr newline;
    lit "IP tos: "; num (tos h); chr newline;
    lit "IP dgram len: "; num (len h); chr newline;
    lit "IP id: "; num (id h); chr newline;
    lit "Flags: df: "; flag (df h); lit " mf: "; flag (mf h); chr newline;
    lit "Offset: "; num (offset h); chr newline;
    lit "TTL: "; num (ttl h); chr newline;
    lit "Protocol: "; num (proto h); chr newline;
    lit "Checksum: "; num (IPv4Header.cksum h); chr newline;
    lit "Src addr: "; num (IPv4Header.src h); chr newline;
    lit "Dst addr: "; num (IPv4Header.dst h); chr newline] (stringstream [])).

Section libc.
Context `{Libc}.

(** [inet_ntoa({htobe32(ip)})] is [inet_ntoa ip]. *)
Definition ipv4_header_summary (h : IPv4Header) : list byte :=
  text (chain [hex; boolalpha; lit "IPv"; num (ver h); lit ", "; lit "len="; num (len h); lit ", ";
    lit "protocol="; num (proto h); lit ", ";
    put (if 10 <=? ttl h then [] else bytes "ttl=" ++ to_string (ttl h) ++ bytes ", ");
    lit "src="; put (inet_ntoa (IPv4Header.src h)); lit ", "; lit "dst="; put (inet_ntoa (IPv4Header.dst h))]
    (stringstream [])).

(** The loop over the six bytes: [last] is the comparison with
    [address.end() - 1]. *)
Fixpoint ethernet_loop (address : EthernetAddress) (ss : ostream) : ostream :=
  match address with
  | [] => ss
  | b :: rest =>
    let ss := chain [setw 2; setfill (z2b 48); hex; num (b2z b)] ss in
    ethernet_loop rest (match rest with [] => ss | _ => lit ":" ss end)
  end.

Definition ethernet_to_string (address : EthernetAddress) : list byte := text (ethernet_loop address (stringstream [])).

Definition ethernet_header_to_string (h : EthernetHeader) : list byte :=
  let ss := chain [lit "dst="; put (ethernet_to_string (Ethernet.dst h)); lit ", src=";
    put (ethernet_to_string (Ethernet.src h)); lit ", type="] (stringstream []) in
  text (if Ethernet.type h =? TYPE_IPv4 then lit "IPv4" ss
        else if Ethernet.type h =? TYPE_ARP then lit "ARP" ss
        else chain [lit "[unknown type "; hex; num (Ethernet.type h); lit "!]"] ss).

Definition arp_to_string (m : ARPMessage) : list byte :=
  let opcode_str := bytes "(unknown type)" in
  let opcode_str := if opcode m =? OPCODE_REQUEST then bytes "REQUEST" else opcode_str in
  let opcode_str := if opcode m =? OPCODE_REPLY then bytes "REPLY" else opcode_str in
  text (chain [lit "opcode="; put opcode_str; lit ", sender="; put (ethernet_to_string (sender_ethernet_address m));
    lit "/"; put (inet_ntoa (sender_ip_address m)); lit ", target=";
    put (ethernet_to_string (target_ethernet_address m)); lit "/"; put (inet_ntoa (target_ip_address m))]
    (stringstream [])).
End libc.

(** ** Segments and states *)

(** [%d] of a 32-bit value and [%zd] of a 64-bit one: the bits are read as a
    signed number. *)
Definition signed (width n : Z) : Z := if n <? 2 ^ (width - 1) then n else n - 2 ^ width.
Definition percent_d (width n : Z) : list byte :=
  let n := signed width n in if n <? 0 then bytes "-" ++ to_string (- n) else to_string n.

(** [snprintf] into [char buffer[128]]: at most 127 bytes and a NUL. *)
Definition segment_text (seg : TCPSegment) : list byte :=
  let payload_size := size (payload seg) in
  bytes "Segment(S=" ++ percent_d 32 (Z.b2z (syn (header seg))) ++ bytes ", A=" ++ percent_d 32 (Z.b2z (ack (header seg)))
  ++ bytes ", F=" ++ percent_d 32 (Z.b2z (fin (header seg))) ++ bytes ", R=" ++ percent_d 32 (Z.b2z (rst (header seg)))
  ++ bytes ", seq_no=" ++ percent_d 32 (raw_value (seqno (header seg)))
  ++ bytes ", ack_no=" ++ percent_d 32 (raw_value (ackno (header seg)))
  ++ bytes ") size " ++ percent_d 64 payload_size ++ bytes ": "
  ++ c_str (ztake (Z.min payload_size 10) (Buffer.str (payload seg))) ++ bytes "...".

Definition segment_str (seg : TCPSegment) : list byte := c_str (ztake 127 (segment_text seg)).

(** [std::to_string] of a [bool] is that of an [int]. *)
Definition name (st : TCPState) : list byte :=
  bytes "sender=`" ++ bytes (_sender st) ++ bytes "`, receiver=`" ++ bytes (_receiver st) ++ bytes "`, active="
  ++ to_string (Z.b2z (_active st)) ++ bytes ", linger_after_streams_finish="
  ++ to_string (Z.b2z (_linger_after_streams_finish st)).

(** ** Dumps *)

(** [isprint] in the C locale. *)
Definition isprint (b : byte) : bool := (32 <=? b2z b) && (b2z b <=? 126).
Definition pchar (b : byte) : byte := if isprint b then b else z2b 46.

(** The loop of [hexdump]; [printed] is an [int]. *)
Fixpoint dump_loop (indent_string data : list byte) (printed : Z) (pchars cout : ostream) : Z * ostream * ostream :=
  match data with
  | [] => (printed, pchars, cout)
  | b :: data =>
    let '(pchars, cout) :=
      if Z.land printed 15 =? 0 then
        let '(pchars, cout) :=
          if negb (printed =? 0) then (set_str [space] pchars, chain [lit "    "; put (text pchars); chr newline] cout)
          else (pchars, cout) in
        (pchars, chain [put indent_string; setw 8; num printed; lit ":    "] cout)
      else if Z.land printed 1 =? 0 then (pchars, chr space cout) else (pchars, cout) in
    let cout := chain [setw 2; num (b2z b)] cout in
    let pchars := chr (pchar b) pchars in
    dump_loop indent_string data (printed + 1) pchars cout
  end.

(** [cout.flags(flags)] restores the number base but not the fill character. *)
Definition hexdump (data : list byte) (indent : Z) (cout : ostream) : ostream :=
  let flags := (base16 cout, alpha cout) in
  let indent_string := zreplicate indent space in
  let '(printed, pchars, cout) :=
    dump_loop indent_string data 0 (stringstream [space]) (chain [hex; setfill (z2b 48)] cout) in
  let print_rem := (16 - Z.land printed 15) mod 16 in
  let cout := chain [put (zreplicate (2 * print_rem + print_rem / 2 + 4) space); put (text pchars);
    chr newline; chr newline] cout in
  mkOstream (text cout) (putp cout) flags.1 flags.2 (fill cout) (field cout).

(** ** Lemmas *)

(** A stream whose put position is at its end. *)
Definition at_end (t : list byte) (b a : bool) (f : byte) : ostream := mkOstream t (zlen t) b a f 0.

Lemma put_wide t b a f n s :
  put s (mkOstream t (zlen t) b a f n) = at_end (t ++ zreplicate (n - zlen s) f ++ s) b a f.
Proof.
  unfold put, at_end. cbn [field fill putp text base16 alpha]. set (p := zreplicate _ _ ++ s).
  pose proof (zlen_nonneg p) as Hp. unfold zlen, ztake, zdrop in *.
  rewrite take_ge, drop_ge, app_nil_r by lia. f_equal. rewrite length_app. lia.
Qed.

Lemma put_at_end t b a f s : put s (at_end t b a f) = at_end (t ++ s) b a f.
Proof.
  unfold at_end at 1. rewrite put_wide. unfold zreplicate. rewrite Z2Nat.nonpos by (pose proof (zlen_nonneg s); lia). done.
Qed.

Lemma lit_at_end t b a f s : lit s (at_end t b a f) = at_end (t ++ bytes s) b a f.
Proof. apply put_at_end. Qed.
Lemma chr_at_end t b a f c : chr c (at_end t b a f) = at_end (t ++ [c]) b a f.
Proof. apply put_at_end. Qed.
Lemma num_hex t a f n : num n (at_end t true a f) = at_end (t ++ to_hex n) true a f.
Proof. apply put_at_end. Qed.
Lemma num_dec t a f n : num n (at_end t false a f) = at_end (t ++ to_string n) false a f.
Proof. apply put_at_end. Qed.
Lemma flag_alpha t b f x : flag x (at_end t b true f) = at_end (t ++ (if x then bytes "true" else bytes "false")) b true f.
Proof. apply put_at_end. Qed.
Lemma hex_at_end t b a f : hex (at_end t b a f) = at_end t true a f.
Proof. done. Qed.
Lemma boolalpha_at_end t b a f : boolalpha (at_end t b a f) = at_end t b true f.
Proof. done. Qed.
Lemma setfill_at_end t b a f c : setfill c (at_end t b a f) = at_end t b a c.
Proof. done. Qed.
Lemma setw_num_hex t a f w n :
  num n (setw w (at_end t true a f)) = at_end (t ++ zreplicate (w - zlen (to_hex n)) f ++ to_hex n) true a f.
Proof. unfold num, setw, at_end at 1. cbn [base16]. apply put_wide. Qed.
Lemma stringstream_empty : stringstream [] = at_end [] false false space.
Proof. done. Qed.

Create Rewrite HintDb ostream.
#[export] Hint Rewrite put_at_end lit_at_end chr_at_end num_hex num_dec flag_alpha hex_at_end boolalpha_at_end
  setfill_at_end setw_num_hex stringstream_empty : ostream.

(** Evaluates a chain of output operations. *)
Ltac run_stream := unfold chain; cbn [fold_left]; autorewrite with ostream; cbn [text at_end]; rewrite <-?app_assoc; cbn [app].

(** *** Numbers *)

Definition is_hex (b : byte) : bool := isdigit b || ((97 <=? b2z b) && (b2z b <=? 102)).
Definition hex_value (b : byte) : Z := if isdigit b then b2z b - 48 else b2z b - 87.

Lemma b2z_hex_digit d : 0 <= d < 16 -> b2z (hex_digit d) = if d <? 10 then 48 + d else 87 + d.
Proof. intros Hd. unfold hex_digit. rewrite b2z_z2b, u8_small; [done|]. destruct (Z.ltb_spec d 10); lia. Qed.

Lemma hex_digit_spec d : 0 <= d < 16 -> is_hex (hex_digit d) = true /\ hex_value (hex_digit d) = d.
Proof.
  intros Hd. unfold is_hex, hex_value, isdigit. rewrite (b2z_hex_digit d Hd). destruct (Z.ltb_spec d 10).
  - rewrite !(proj2 (Z.leb_le _ _)) by lia. cbn. split; [done|lia].
  - rewrite (proj2 (Z.leb_gt (87 + d) 57)) by lia. rewrite !(proj2 (Z.leb_le _ _)) by lia. cbn. split; [done|lia].
Qed.

(** Reads hexadecimal digits up to the first other byte. *)
Fixpoint read_hex (l : list byte) (acc : Z) : Z * list byte :=
  match l with
  | b :: l' => if is_hex b then read_hex l' (16 * acc + hex_value b) else (acc, l)
  | [] => (acc, [])
  end.

Lemma read_hex_loop fuel : forall n acc,
  0 <= n < 16 ^ Z.of_nat fuel -> read_hex (hex_loop fuel n acc) 0 = read_hex acc n.
Proof.
  induction fuel as [|fuel IH]; intros n acc Hn; cbn [hex_loop]; [by replace n with 0 by (cbn in Hn; lia)|].
  rewrite Nat2Z.inj_succ, Z.pow_succ_r in Hn by lia.
  pose proof (Z.mod_pos_bound n 16 ltac:(lia)). pose proof (Z.div_mod n 16 ltac:(lia)).
  assert (forall m, 16 * m + n mod 16 = n -> read_hex (hex_digit (n mod 16) :: acc) m = read_hex acc n) as Hd.
  { intros m Hm. cbn [read_hex]. destruct (hex_digit_spec (n mod 16)) as [-> ->]; [done|]. f_equal. lia. }
  destruct (Z.eqb_spec (n / 16) 0) as [E|E]; [apply Hd; lia|].
  rewrite IH by (split; [apply Z.div_pos|apply Z.div_lt_upper_bound]; lia). apply Hd. lia.
Qed.

(** Digits in front of something that follows them. *)
Lemma hex_loop_app fuel : forall n acc, hex_loop fuel n acc = hex_loop fuel n [] ++ acc.
Proof.
  induction fuel as [|fuel IH]; intros n acc; cbn [hex_loop]; [done|].
  destruct (n / 16 =? 0); [done|]. rewrite IH, (IH _ [_]). by rewrite <-app_assoc.
Qed.

Lemma read_to_hex n c rest :
  0 <= n < M64 -> is_hex c = false -> read_hex (to_hex n ++ c :: rest) 0 = (n, c :: rest).
Proof.
  intros Hn Hc. unfold to_hex. rewrite <-hex_loop_app, read_hex_loop; [cbn [read_hex]; by rewrite Hc|].
  change (16 ^ Z.of_nat 16) with M64. lia.
Qed.

(** A number up to its line end can be read back. *)
Lemma line_inj m n x y :
  0 <= m < M64 -> 0 <= n < M64 -> to_hex m ++ newline :: x = to_hex n ++ newline :: y -> m = n /\ x = y.
Proof.
  intros Hm Hn E. pose proof (read_to_hex m newline x Hm ltac:(done)) as Rm.
  rewrite E, read_to_hex in Rm by done. by injection Rm as -> ->.
Qed.

Lemma flag_inj (a b : bool) x y :
  (if a then bytes "true" else bytes "false") ++ x = (if b then bytes "true" else bytes "false") ++ y -> a = b /\ x = y.
Proof. destruct a, b; cbn; intros E; try done; by injection E. Qed.

Lemma char_inj (c : byte) x y : c :: x = c :: y -> x = y.
Proof. by injection 1. Qed.

(** Reads a printed header field by field. *)
Ltac read_fields :=
  repeat match goal with
  | H : bytes ?s ++ _ = bytes ?s ++ _ |- _ => apply app_inv_head in H
  | H : newline :: _ = newline :: _ |- _ => apply char_inj in H
  | H : to_hex _ ++ newline :: _ = to_hex _ ++ newline :: _ |- _ => apply line_inj in H as [? H]; [|lia..]
  | H : (if _ then _ else _) ++ _ = (if _ then _ else _) ++ _ |- _ => apply flag_inj in H as [? H]
  end.

(** ** The headers can be read back *)

(** The text of a parsed header determines it: nothing is left out. *)
Theorem tcp_header_text (h h' : TCPHeader) :
  TCPHeader.header_ok h -> TCPHeader.header_ok h' -> tcp_header_to_string h = tcp_header_to_string h' -> h = h'.
Proof.
  intros [? ? Hs Ha ? ? ? ?] [? ? Hs' Ha' ? ? ? ?]. unfold wi_ok in *. unfold tcp_header_to_string. run_stream. intros E.
  read_fields. clear E. destruct h as [? ? [] []], h' as [? ? [] []]; cbn in *; by subst.
Qed.

Theorem ipv4_header_text (h h' : IPv4Header) :
  ipv4_fields h -> ipv4_fields h' -> ipv4_header_to_string h = ipv4_header_to_string h' -> h = h'.
Proof.
  intros [] []. unfold ipv4_header_to_string. run_stream. intros E. read_fields. clear E. destruct h, h'; cbn in *; by subst.
Qed.

(** *** Ethernet addresses *)

Definition hex2 (b : byte) : list byte := [hex_digit (b2z b / 16); hex_digit (b2z b mod 16)].

Lemma two_digits b : zreplicate (2 - zlen (to_hex (b2z b))) (z2b 48) ++ to_hex (b2z b) = hex2 b.
Proof. by destruct b. Qed.

Fixpoint colons (a : EthernetAddress) : list byte :=
  match a with
  | [] => []
  | b :: rest => hex2 b ++ match rest with [] => [] | _ => bytes ":" ++ colons rest end
  end.

Lemma ethernet_loop_spec a : forall t b f, text (ethernet_loop a (at_end t b false f)) = t ++ colons a.
Proof.
  induction a as [|x a IH]; intros t b f; cbn [ethernet_loop colons]; [by rewrite app_nil_r|].
  unfold chain. cbn [fold_left].
  assert (num (b2z x) (hex (setfill (z2b 48) (setw 2 (at_end t b false f)))) = at_end (t ++ hex2 x) true false (z2b 48)) as ->.
  { unfold num, hex, setfill, setw, at_end at 1. cbn [base16 text putp alpha fill field]. by rewrite put_wide, two_digits. }
  destruct a as [|y a]; [cbn [ethernet_loop text at_end]; by rewrite app_nil_r|]. rewrite lit_at_end, IH. by rewrite <-!app_assoc.
Qed.

Lemma hex2_inj a b x y : hex2 a ++ x = hex2 b ++ y -> a = b /\ x = y.
Proof.
  intros E. injection E as E1 E2 E. split; [|done]. pose proof (b2z_range a). pose proof (b2z_range b).
  assert (forall b : byte, 0 <= b2z b / 16 < 16) as Hd.
  { intros c. pose proof (b2z_range c). split; [apply Z.div_pos; lia|apply Z.div_lt_upper_bound; lia]. }
  pose proof (fun b => Z.mod_pos_bound (b2z b) 16 ltac:(lia)) as Hm.
  apply (f_equal hex_value) in E1, E2.
  rewrite !(fun d H => proj2 (hex_digit_spec d H)) in E1, E2 by done.
  rewrite <-(z2b_b2z a), <-(z2b_b2z b). f_equal.
  rewrite (Z.div_mod (b2z a) 16), (Z.div_mod (b2z b) 16) by lia. congruence.
Qed.

Theorem ethernet_text (a a' : EthernetAddress) :
  length a = length a' -> ethernet_to_string a = ethernet_to_string a' -> a = a'.
Proof.
  unfold ethernet_to_string. rewrite stringstream_empty, !ethernet_loop_spec. cbn [app].
  revert a'. induction a as [|x a IH]; intros [|y a'] Hl E; try done. injection Hl as Hl. cbn [colons] in E.
  apply hex2_inj in E as [-> E]. f_equal. apply IH; [done|].
  destruct a, a'; try done. by apply app_inv_head in E.
Qed.

(** Twelve digits and five colons. *)
Theorem ethernet_text_length (a : EthernetAddress) : length a = 6%nat -> length (ethernet_to_string a) = 17%nat.
Proof.
  intros Ha. unfold ethernet_to_string. rewrite stringstream_empty, ethernet_loop_spec.
  do 6 (destruct a as [|? a]; [done|]). by destruct a.
Qed.

(** *** Segments and states *)

Lemma dec_length fuel : forall k n acc,
  0 <= n < 10 ^ k -> 1 <= k -> zlen (dec_loop fuel n acc) <= k + zlen acc.
Proof.
  induction fuel as [|fuel IH]; intros k n acc Hn Hk; cbn [dec_loop]; [lia|].
  destruct (Z.eqb_spec (n / 10) 0) as [E|E]; [rewrite zlen_cons; lia|].
  assert (2 <= k) as Hk2.
  { destruct (Z.eq_dec k 1) as [->|]; [|lia]. exfalso. apply E. apply Z.div_small. lia. }
  etransitivity; [apply (IH (k - 1))|rewrite zlen_cons; lia]; [|lia].
  split; [apply Z.div_pos; lia|]. apply Z.div_lt_upper_bound; [lia|].
  replace (10 * 10 ^ (k - 1)) with (10 ^ k); [lia|]. rewrite <-Z.pow_succ_r by lia. f_equal. lia.
Qed.

Lemma to_string_length k n : 0 <= n < 10 ^ k -> 1 <= k -> zlen (to_string n) <= k.
Proof. intros Hn Hk. pose proof (dec_length 20 k n [] Hn Hk). change (zlen (@nil byte)) with 0 in *. unfold to_string. lia. Qed.

(** A signed number of [k] digits. *)
Lemma percent_d_length w k n :
  1 <= w -> 1 <= k -> 2 ^ w <= 10 ^ k -> 0 <= n < 2 ^ w -> zlen (percent_d w n) <= k + 1.
Proof.
  intros Hw Hk Hp Hn. unfold percent_d, signed.
  assert (2 ^ w = 2 * 2 ^ (w - 1)) as E by (rewrite <-Z.pow_succ_r by lia; f_equal; lia).
  destruct (Z.ltb_spec n (2 ^ (w - 1))) as [Hlt|Hge].
  - rewrite (proj2 (Z.ltb_ge n 0)) by lia. pose proof (to_string_length k n). lia.
  - rewrite (proj2 (Z.ltb_lt (n - 2 ^ w) 0)) by lia. rewrite zlen_app. change (zlen (bytes "-")) with 1.
    pose proof (to_string_length k (- (n - 2 ^ w))). lia.
Qed.

(** No byte of a text is NUL. *)
Definition printable (s : list byte) : Prop := Forall (fun b => b2z b <> 0) s.

Lemma printable_to_string n : 0 <= n -> printable (to_string n).
Proof. intros Hn. by apply dec_nonzero. Qed.

Lemma printable_percent_d w n : 0 <= n -> printable (percent_d w n).
Proof.
  intros Hn. unfold percent_d. destruct (Z.ltb_spec (signed w n) 0) as [Hs|Hs].
  - apply Forall_app. split; [by repeat constructor|]. apply printable_to_string. lia.
  - by apply printable_to_string.
Qed.

Lemma printable_c_str s : printable (c_str s).
Proof.
  induction s as [|b s IH]; cbn [c_str]; [constructor|]. destruct (Z.eqb_spec (b2z b) 0); [constructor|]. by constructor.
Qed.

Lemma c_str_length s : zlen (c_str s) <= zlen s.
Proof. induction s as [|b s IH]; cbn [c_str]; [done|]. destruct (_ =? 0); rewrite ?zlen_cons; [|lia]. change (zlen (@nil byte)) with 0. pose proof (zlen_nonneg s). lia. Qed.

(** The 128-byte buffer is always large enough: the text is never cut. *)
Theorem segment_text_fits (seg : TCPSegment) :
  TCPHeader.header_ok (header seg) -> 0 <= size (payload seg) < M64 ->
  segment_str seg = segment_text seg /\ zlen (segment_text seg) < 128.
Proof.
  intros Hh Hsz. pose proof (TCPHeader.ok_seqno _ Hh) as Hs. pose proof (TCPHeader.ok_ackno _ Hh) as Ha. unfold wi_ok in *.
  assert (forall b : bool, zlen (percent_d 32 (Z.b2z b)) = 1) as Hb by (by intros []).
  assert (zlen (segment_text seg) < 128) as Hl.
  { pose proof (percent_d_length 32 10 _ ltac:(lia) ltac:(lia) ltac:(lia) Hs) as H1.
    pose proof (percent_d_length 32 10 _ ltac:(lia) ltac:(lia) ltac:(lia) Ha) as H2.
    pose proof (percent_d_length 64 20 _ ltac:(lia) ltac:(lia) ltac:(lia) Hsz) as H3.
    pose proof (c_str_length (ztake (Z.min (size (payload seg)) 10) (Buffer.str (payload seg)))) as H4.
    rewrite zlen_ztake in H4 by lia.
    unfold segment_text. rewrite !zlen_app, !Hb. repeat match goal with |- context [zlen (bytes ?s)] =>
      let k := eval vm_compute in (zlen (bytes s)) in change (zlen (bytes s)) with k end.
    lia. }
  split; [|done]. unfold segment_str.
  assert (ztake 127 (segment_text seg) = segment_text seg) as -> by (unfold ztake, zlen in *; apply take_ge; lia).
  apply c_str_id. pose proof printable_c_str as Hc. pose proof printable_percent_d as Hd.
  assert (forall b, 0 <= Z.b2z b) as Hbz by (by intros []).
  unfold segment_text. repeat (apply Forall_app; split); first [apply Hc|apply Hd; (lia || apply Hbz)|by repeat constructor].
Qed.

(** Sequence numbers from 2^31 on are shown as negative numbers. *)
Theorem segment_text_negative (n : Z) : M31 <= n < M32 -> percent_d 32 n = bytes "-" ++ to_string (M32 - n).
Proof.
  intros Hn. unfold percent_d, signed. rewrite (proj2 (Z.ltb_ge n _)) by (change (2 ^ (32 - 1)) with M31; lia).
  change (2 ^ 32) with M32. rewrite (proj2 (Z.ltb_lt _ 0)) by lia.
  replace (- (n - M32)) with (M32 - n) by lia. reflexivity.
Qed.

(** The official states have different names. *)
Theorem state_names (a b : State) : name (of_state a) = name (of_state b) -> a = b.
Proof. destruct a, b; first [reflexivity|vm_compute; discriminate 1]. Qed.

(** *** Dumps *)

(** The layout: sixteen bytes a row, the digits of two bytes together. *)
Fixpoint pairs (l : list byte) : list byte :=
  match l with
  | a :: b :: l => hex2 a ++ hex2 b ++ match l with [] => [] | _ => space :: pairs l end
  | [a] => hex2 a
  | [] => []
  end.

Definition hex8 (n : Z) : list byte := zreplicate (8 - zlen (to_hex n)) (z2b 48) ++ to_hex n.

Definition row (indent : list byte) (off : Z) (l : list byte) : list byte := indent ++ hex8 off ++ bytes ":    " ++ pairs l.

(** The characters of a row begin in the same column, however short it is. *)
Definition columns (l : list byte) : list byte := zreplicate (39 - zlen (pairs l)) space ++ bytes "    " ++ map pchar l.

Fixpoint rows (k : nat) (indent : list byte) (off : Z) (l : list byte) : list byte :=
  match k with
  | O => []
  | S k =>
    if zlen l <=? 16 then row indent off l ++ columns l ++ [newline; newline]
    else row indent off (ztake 16 l) ++ columns (ztake 16 l) ++ [newline] ++ rows k indent (off + 16) (zdrop 16 l)
  end.

(** Within a row: [j] bytes of it are printed already. *)
Fixpoint pairs_from (j : Z) (l : list byte) : list byte :=
  match l with
  | [] => []
  | b :: l => (if (j =? 0) || negb (j mod 2 =? 0) then [] else [space]) ++ hex2 b ++ pairs_from (j + 1) l
  end.

Lemma pairs_from_even l : forall j, 0 <= j -> j mod 2 = 0 ->
  pairs_from j l = match l with [] => [] | _ => (if j =? 0 then [] else [space]) ++ pairs l end.
Proof.
  induction l as [l IH] using (induction_ltof1 _ (@length byte)). unfold ltof in IH.
  intros j Hj0 Hj. destruct l as [|a [|b l]]; cbn [pairs_from pairs]; [done| |].
  - rewrite Hj. cbn [Z.eqb negb]. by destruct (j =? 0).
  - assert ((j + 1) mod 2 = 1 /\ (j + 1 + 1) mod 2 = 0) as [E1 E2] by (Z.to_euclidean_division_equations; lia).
    rewrite Hj, E1. cbn [Z.eqb negb]. rewrite orb_true_r, orb_false_r. cbn [app].
    rewrite (IH l) with (j := j + 1 + 1); [|cbn; lia|lia|done].
    rewrite (proj2 (Z.eqb_neq (j + 1 + 1) 0)) by lia. destruct l; by rewrite <-?app_assoc.
Qed.

Lemma pairs_from_0 l : pairs_from 0 l = pairs l.
Proof. rewrite pairs_from_even by done. by destruct l. Qed.

Lemma land15 n : Z.land n 15 = n mod 16.
Proof. exact (Z.land_ones n 4 ltac:(lia)). Qed.
Lemma land1 n : Z.land n 1 = n mod 2.
Proof. exact (Z.land_ones n 1 ltac:(lia)). Qed.

(** The rest of a row. *)
Lemma dump_row_rest indent a rest l : forall printed s t j,
  0 < j -> printed mod 16 = j -> j + zlen l <= 16 -> 0 <= printed ->
  dump_loop indent (l ++ rest) printed (at_end s false false space) (at_end t true a (z2b 48))
  = dump_loop indent rest (printed + zlen l) (at_end (s ++ map pchar l) false false space)
      (at_end (t ++ pairs_from j l) true a (z2b 48)).
Proof.
  induction l as [|b l IH]; intros printed s t j Hj Hp Hl Hp0.
  { cbn [app map pairs_from]. change (zlen (@nil byte)) with 0. by rewrite Z.add_0_r, !app_nil_r. }
  rewrite zlen_cons in *. pose proof (zlen_nonneg l). cbn [app dump_loop map pairs_from].
  rewrite land15, land1, Hp, (proj2 (Z.eqb_neq j 0)) by lia.
  assert (printed mod 2 = j mod 2) as -> by (Z.to_euclidean_division_equations; lia). cbn [orb].
  set (sp := if negb (j mod 2 =? 0) then [] else [space]).
  assert ((if j mod 2 =? 0 then (at_end s false false space, chr space (at_end t true a (z2b 48)))
           else (at_end s false false space, at_end t true a (z2b 48)))
          = (at_end s false false space, at_end (t ++ sp) true a (z2b 48))) as ->.
  { subst sp. destruct (_ =? 0); cbn [negb]; [by rewrite chr_at_end|by rewrite app_nil_r]. }
  unfold chain. cbn [fold_left]. rewrite chr_at_end, setw_num_hex, two_digits.
  destruct (Z.eq_dec j 15) as [->|Hne].
  - assert (zlen l = 0) as Hz by lia. apply zlen_0_inv in Hz as ->. cbn [app map pairs_from].
    change (zlen (@nil byte)) with 0. rewrite Z.add_0_r, ?app_nil_r, <-?app_assoc. done.
  - rewrite (IH (printed + 1) _ _ (j + 1)); [|lia| |lia|lia].
    + f_equal; [lia| |]; rewrite <-?app_assoc; done.
    + rewrite Z.add_mod, Hp by lia. change (1 mod 16) with 1. apply Z.mod_small. lia.
Qed.

(** What is left of the row before, if there is one. *)
Definition row_end (printed : Z) (s : list byte) : list byte :=
  if printed =? 0 then [] else bytes "    " ++ s ++ [newline].

Definition pchars_at (printed : Z) (s : list byte) : ostream :=
  if printed =? 0 then stringstream [space] else at_end s false false space.

Lemma dump_row indent a rest l printed s t :
  l <> [] -> zlen l <= 16 -> printed mod 16 = 0 -> 0 <= printed ->
  dump_loop indent (l ++ rest) printed (pchars_at printed s) (at_end t true a (z2b 48))
  = dump_loop indent rest (printed + zlen l) (at_end (map pchar l) false false space)
      (at_end (t ++ row_end printed s ++ row indent printed l) true a (z2b 48)).
Proof.
  intros Hne Hl Hp Hp0. destruct l as [|b l]; [done|]. rewrite zlen_cons in *. pose proof (zlen_nonneg l).
  cbn [app dump_loop map]. rewrite land15, Hp. cbn [Z.eqb].
  set (c := (chr (pchar b))). unfold chain. cbn [fold_left].
  assert (forall x, c (set_str [space] (at_end x false false space)) = at_end [pchar b] false false space) as Hc by done.
  assert (c (stringstream [space]) = at_end [pchar b] false false space) as Hc' by done. clearbody c.
  unfold row, row_end, pchars_at. destruct (Z.eqb_spec printed 0) as [E|E]; cbn [negb]; cbn [text at_end];
    autorewrite with ostream; rewrite ?Hc, ?Hc', two_digits;
    (rewrite (dump_row_rest indent a rest l (printed + 1) _ _ 1);
      [|lia|rewrite Z.add_mod, Hp by lia; done|lia|lia]);
    rewrite <-(pairs_from_0 (b :: l)); cbn [pairs_from Z.eqb orb]; rewrite <-!app_assoc; unfold hex8; cbn [app];
    (f_equal; [lia|]); by rewrite <-?app_assoc.
Qed.

Lemma zlen_pairs l : l <> [] -> zlen (pairs l) = 2 * zlen l + (zlen l - 1) / 2.
Proof.
  induction l as [l IH] using (induction_ltof1 _ (@length byte)). unfold ltof in IH. intros Hne.
  destruct l as [|x [|y [|z l]]]; [done|done|done|].
  change (pairs (x :: y :: z :: l)) with (hex2 x ++ hex2 y ++ space :: pairs (z :: l)).
  rewrite !zlen_app, zlen_cons, IH by (try done; cbn; lia).
  rewrite !zlen_cons. change (zlen (hex2 x)) with 2. change (zlen (hex2 y)) with 2.
  pose proof (zlen_nonneg l). Z.to_euclidean_division_equations. lia.
Qed.

(** The end of [hexdump]. *)
Definition dump_end (st : Z * ostream * ostream) : ostream :=
  let '(printed, pchars, cout) := st in
  let print_rem := (16 - Z.land printed 15) mod 16 in
  chain [put (zreplicate (2 * print_rem + print_rem / 2 + 4) space); put (text pchars); chr newline; chr newline] cout.

Lemma columns_last l printed :
  l <> [] -> zlen l <= 16 -> printed mod 16 = 0 ->
  let print_rem := (16 - Z.land (printed + zlen l) 15) mod 16 in
  zreplicate (2 * print_rem + print_rem / 2 + 4) space ++ map pchar l = columns l.
Proof.
  intros Hne Hl Hp. cbv zeta. rewrite land15. pose proof (zlen_nonneg l).
  assert (zlen l <> 0) by (intros E; by apply Hne, zlen_0_inv).
  assert ((16 - (printed + zlen l) mod 16) mod 16 = 16 - zlen l) as -> by (Z.to_euclidean_division_equations; lia).
  unfold columns. rewrite zlen_pairs by done. rewrite app_assoc. f_equal.
  change (bytes "    ") with (zreplicate 4 space). unfold zreplicate. rewrite <-replicate_add. f_equal.
  Z.to_euclidean_division_equations. lia.
Qed.

Lemma dump_rows indent a k : forall l printed s t,
  l <> [] -> zlen l <= 16 * Z.of_nat k -> printed mod 16 = 0 -> 0 <= printed ->
  dump_end (dump_loop indent l printed (pchars_at printed s) (at_end t true a (z2b 48)))
  = at_end (t ++ row_end printed s ++ rows k indent printed l) true a (z2b 48).
Proof.
  induction k as [|k IH]; intros l printed s t Hne Hl Hp Hp0.
  { destruct l; [done|]. rewrite zlen_cons in Hl. pose proof (zlen_nonneg l). lia. }
  cbn [rows]. destruct (Z.leb_spec (zlen l) 16) as [Hs|Hs].
  - rewrite <-(app_nil_r l) at 1. rewrite dump_row by done. cbn [dump_loop dump_end].
    unfold chain. cbn [fold_left]. rewrite !put_at_end, !chr_at_end. cbn [text at_end].
    rewrite <-(columns_last l printed) by done. cbv zeta. rewrite <-?app_assoc. done.
  - assert (ztake 16 l <> []) as Hne1 by (intros E; apply (f_equal zlen) in E; rewrite zlen_ztake in E by lia; change (zlen (@nil byte)) with 0 in E; lia).
    assert (zlen (ztake 16 l) = 16) as E16 by (rewrite zlen_ztake by lia; lia).
    rewrite <-(ztake_zdrop 16 l) at 1. rewrite dump_row by (done || lia). rewrite E16.
    assert (pchars_at (printed + 16) (map pchar (ztake 16 l)) = at_end (map pchar (ztake 16 l)) false false space) as <-.
    { unfold pchars_at. by rewrite (proj2 (Z.eqb_neq _ _)) by lia. }
    rewrite IH; [|intros E; apply (f_equal zlen) in E; rewrite zlen_zdrop in E by lia; change (zlen (@nil byte)) with 0 in E; lia
      |rewrite zlen_zdrop by lia; lia|rewrite Z.add_mod, Hp by lia; done|lia].
    unfold row_end at 2. rewrite (proj2 (Z.eqb_neq (printed + 16) 0)) by lia.
    unfold columns. rewrite zlen_pairs, E16 by done. change (39 - (2 * 16 + (16 - 1) / 2)) with 0.
    cbn [zreplicate Z.to_nat replicate app]. by rewrite <-!app_assoc.
Qed.

(** [hexdump] prints rows of sixteen bytes with aligned columns, and restores
    the number base but leaves the fill character changed.  The space that the
    code puts in front of the characters is overwritten by the first of them:
    it shows only in an empty dump. *)
Theorem hexdump_rows (data : list byte) (indent : Z) (t : list byte) (b a : bool) (f : byte) :
  hexdump data indent (at_end t b a f)
  = at_end (t ++ match data with
                 | [] => bytes "     " ++ [newline; newline]
                 | _ => rows (length data) (zreplicate indent space) 0 data
                 end) b a (z2b 48).
Proof.
  unfold hexdump. cbv zeta. change (chain [hex; setfill (z2b 48)] (at_end t b a f)) with (at_end t true a (z2b 48)).
  destruct data as [|x data].
  - cbn [dump_loop]. unfold chain. cbn [fold_left]. rewrite !put_at_end, !chr_at_end. cbn. by rewrite <-!app_assoc.
  - pose proof (dump_rows (zreplicate indent space) a (length (x :: data)) (x :: data) 0 [] t) as H.
    change (pchars_at 0 []) with (stringstream [space]) in H. unfold row_end in H. cbn [Z.eqb app] in H.
    unfold dump_end in H. destruct (dump_loop _ _ _ _ _) as [[pr pc] co].
    rewrite H; [done|done|unfold zlen; cbn; lia|done|lia].
Qed.
