(* ===== verification/ErrorText.v ===== *)
(** * The texts of errors (tagged_error and unix_error of libsponge/util/util.hh,
    gai_error_category of libsponge/util/address.cc)

    Kernel.v and Address.v model that a call throws; here is what the exception
    says: the name of what was attempted, and the text of the error.  [strerror]
    and [gai_strerror] are the C library's. *)

From Stdlib Require Import ZArith Lia.
From S2P Require Import Prelude Buffer Address Kernel Printing.

(** [std::system_category] and [gai_error_category] *)
Inductive error_category : Type := system_category | gai_error_category.

Class ErrorTexts := { strerror : Z -> list byte; gai_strerror : Z -> list byte }.

Definition category_name (c : error_category) : list byte :=
  match c with system_category => bytes "system" | gai_error_category => bytes "gai_error_category" end.

(** [std::system_error] of an error code, with the text [what()] gives it;
    [what()] of the base class is the category's message for the code. *)
Record tagged_error : Type := mkTaggedError { category : error_category; code : Z; _attempt_and_error : list byte }.

Section texts.
Context `{ErrorTexts}.

Definition message (c : error_category) (return_value : Z) : list byte :=
  match c with system_category => strerror return_value | gai_error_category => gai_strerror return_value end.

Definition tagged_error_new (c : error_category) (attempt : list byte) (error_code : Z) : tagged_error :=
  mkTaggedError c error_code (attempt ++ bytes ": " ++ message c error_code).

(** A C string: it ends at the first NUL. *)
Definition what (e : tagged_error) : list byte := c_str (_attempt_and_error e).

(** [errno] is the default of the second argument. *)
Definition unix_error (attempt : list byte) (error : Z) : tagged_error := tagged_error_new system_category attempt error.

(** [SystemCall] with what it throws; [attempt] is a C string or a [std::string]. *)
Definition SystemCall_throwing (attempt : list byte) (r : sysret) (errno_mask : Z) : tagged_error + Z :=
  if (0 <=? i32 (rv r)) || (err r =? errno_mask) then inr (i32 (rv r)) else inl (unix_error attempt (err r)).

(** [Address::Address] and [ip_port] *)
Definition resolve_throwing `{Libc} (node service : list byte) (hints : addrinfo) : tagged_error + res Address :=
  let '(gai_ret, resolved_address) := getaddrinfo (c_str node) (c_str service) hints in
  if negb (gai_ret =? 0) then
    inl (tagged_error_new gai_error_category
           (bytes "getaddrinfo(" ++ node ++ bytes ", " ++ service ++ bytes ")") gai_ret)
  else inr (match resolved_address with [] => Fail RuntimeError | addr :: _ => of_sockaddr addr end).

Definition ip_port_throwing `{Libc} (a : Address) : tagged_error + res (list byte * Z) :=
  let '(gni_ret, (ip, port)) := getnameinfo (ztake (_size a) (_address a)) NI_NUMERIC in
  if negb (gni_ret =? 0) then inl (tagged_error_new gai_error_category (bytes "getnameinfo") gni_ret)
  else inr (p ← stoi port; Ok (ip, u16 p)).

(** The attempt each wrapper passes; reading the clock cannot fail. *)
Definition attempt {R} (c : syscall R) : list byte :=
  bytes match c with
  | Close _ => "close"
  | Read _ _ => "read"
  | Writev _ _ => "writev"
  | Fcntl _ _ _ => "fcntl"
  | Poll _ _ => "poll"
  | Shutdown _ _ => "shutdown"
  | Socketpair _ _ => "socketpair"
  | Socket _ _ => "socket"
  | Getsockopt _ _ _ => "getsockopt"
  | Setsockopt _ _ _ _ => "setsockopt"
  | Getsockname _ => "getsockname"
  | Getpeername _ => "getpeername"
  | Bind _ _ => "bind"
  | Connect _ _ => "connect"
  | Listen _ _ => "listen"
  | Accept _ => "accept"
  | Recvfrom _ _ _ => "recvfrom"
  | Sendmsg _ _ _ => "sendmsg"
  | Open _ _ => "open"
  | Ioctl _ _ _ _ => "ioctl"
  | Clock => ""
  end.

(** ** Properties *)

(** The exceptions of Kernel.v and Address.v are these, without their text. *)
Lemma SystemCall_forgets name r mask :
  SystemCall r mask = match SystemCall_throwing name r mask with inl _ => Fail TaggedError | inr v => Ok v end.
Proof. unfold SystemCall, SystemCall_throwing. by destruct (_ || _). Qed.

Lemma resolve_forgets `{Libc} node service hints :
  resolve node service hints = match resolve_throwing node service hints with inl _ => Fail TaggedError | inr r => r end.
Proof. unfold resolve, resolve_throwing. destruct (getaddrinfo _ _ _) as [ret l]. by destruct (negb _). Qed.

Lemma ip_port_forgets `{Libc} a :
  ip_port a = match ip_port_throwing a with inl _ => Fail TaggedError | inr r => r end.
Proof. unfold ip_port, ip_port_throwing. destruct (getnameinfo _ _) as [ret [ip p]]. by destruct (negb _). Qed.

(** The part before the first colon. *)
Fixpoint before_colon (l : list byte) : list byte :=
  match l with [] => [] | b :: l => if bool_decide (b = x3a) then [] else b :: before_colon l end.

Lemma before_colon_app name l : forallb (fun b => negb (bool_decide (b = x3a))) name = true -> before_colon (name ++ bytes ": " ++ l) = name.
Proof.
  induction name as [|b name IH]; [done|]. cbn [forallb app before_colon]. intros [Hb Hn]%andb_true_iff.
  apply negb_true_iff in Hb. rewrite Hb. by rewrite IH.
Qed.

Lemma c_str_app name l : forallb (fun b => negb (b2z b =? 0)) name = true -> c_str (name ++ l) = name ++ c_str l.
Proof.
  induction name as [|b name IH]; [done|]. cbn [forallb app c_str]. intros [Hb Hn]%andb_true_iff.
  apply negb_true_iff in Hb. rewrite Hb. by rewrite IH.
Qed.

Lemma attempt_text R (c : syscall R) : forallb (fun b => negb (b2z b =? 0)) (attempt c ++ bytes ": ") = true.
Proof. destruct c; vm_compute; reflexivity. Qed.

Lemma attempt_plain R (c : syscall R) : forallb (fun b => negb (bool_decide (b = x3a))) (attempt c) = true.
Proof. destruct c; vm_compute; reflexivity. Qed.

(** A system call that fails throws an exception that holds its [errno] and
    whose text names the call. *)
Lemma failure_names_call {K} `{KernelLaws K} R (c : syscall R) k :
  let r := status c (answer c k).1 in
  match SystemCall_throwing (attempt c) r 0 with
  | inr v => v = rv r /\ 0 <= v
  | inl e => rv r < 0 /\ code e = err r /\ code e <> 0 /\ category e = system_category
             /\ what e = attempt c ++ bytes ": " ++ c_str (strerror (err r)) /\ before_colon (what e) = attempt c
  end.
Proof.
  intros r. pose proof (SystemCall_spec (K := K) R c k) as Hs. pose proof (errno_set R c k) as He. cbv zeta in Hs. fold r in Hs, He.
  rewrite (SystemCall_forgets (attempt c)) in Hs. unfold SystemCall_throwing in *.
  destruct ((0 <=? i32 (rv r)) || (err r =? 0)); destruct (Z.leb_spec 0 (rv r)); try done.
  - injection Hs as Hi. by rewrite Hi.
  - specialize (He ltac:(lia)).
    assert (what (unix_error (attempt c) (err r)) = attempt c ++ bytes ": " ++ c_str (strerror (err r))) as Hw.
    { unfold what, unix_error, tagged_error_new. cbn [_attempt_and_error message]. by rewrite app_assoc, c_str_app, <-app_assoc by apply attempt_text. }
    rewrite Hw. split_and!; try done; [cbn; lia|]. apply before_colon_app, attempt_plain.
Qed.
End texts.
