(* ===== verification/Usage.v ===== *)
(** * Usage texts (show_usage of the programs in src/apps)

    What the programs print on [-h], or when their arguments are wrong: the
    text with the program's name and, behind it, a message. *)

From Stdlib Require Import ZArith Lia.
From S2P Require Import Prelude WrappingIntegers TCPSender TCPConnection Address Printing.

Definition nl : ostream -> ostream := chr newline.
Definition printed (fs : list (ostream -> ostream)) : list byte := text (chain fs (stringstream [])).

(** The defaults that the texts and the programs use. *)
Definition TUN_DFLT : list byte := bytes "tun144".
Definition TUN_ADDRESS_DFLT : list byte := bytes "169.254.144.9".
Definition TAP_DFLT : list byte := bytes "tap10".
Definition TAP_ADDRESS_DFLT : list byte := bytes "169.254.10.9".
Definition GATEWAY_DFLT : list byte := bytes "169.254.10.1".

(** apps/tcp_ipv4.cc; no message is a null pointer. *)
Definition ipv4_show_usage (argv0 : list byte) (msg : option (list byte)) : list byte :=
  printed [lit "Usage: "; put argv0; lit " [options] <host> <port>"; nl; nl;
    lit "   Option                                                          Default"; nl;
    lit "   --                                                              --"; nl; nl;
    lit "   -l              Server (listen) mode.                           (client mode)"; nl;
    lit "                   In server mode, <host>:<port> is the address to bind."; nl; nl;
    lit "   -a <addr>       Set source address (client mode only)           "; put TUN_ADDRESS_DFLT; nl;
    lit "   -s <port>       Set source port (client mode only)              (random)"; nl; nl;
    lit "   -w <winsz>      Use a window of <winsz> bytes                   "; num MAX_PAYLOAD_SIZE; nl; nl;
    lit "   -t <tmout>      Set rt_timeout to tmout                         "; num TIMEOUT_DFLT; nl; nl;
    lit "   -d <tundev>     Connect to tun <tundev>                         "; put TUN_DFLT; nl; nl;
    lit "   -Lu <loss>      Set uplink loss to <rate> (float in 0..1)       (no loss)"; nl;
    lit "   -Ld <loss>      Set downlink loss to <rate> (float in 0..1)     (no loss)"; nl; nl;
    lit "   -h              Show this message."; nl; nl;
    put (default [] msg); nl].

(** apps/tcp_udp.cc *)
Definition udp_show_usage (argv0 : list byte) (msg : option (list byte)) : list byte :=
  printed [lit "Usage: "; put argv0; lit " [options] <host> <port>"; nl; nl;
    lit "   Option                                                          Default"; nl;
    lit "   --                                                              --"; nl; nl;
    lit "   -l              Server (listen) mode.                           (client mode)"; nl;
    lit "                   In server mode, <host>:<port> is the address to bind."; nl; nl;
    lit "   -w <winsz>      Use a window of <winsz> bytes                   "; num MAX_PAYLOAD_SIZE; nl; nl;
    lit "   -t <tmout>      Set rt_timeout to tmout                         "; num TIMEOUT_DFLT; nl; nl;
    lit "   -Lu <loss>      Set uplink loss to <rate> (float in 0..1)       (no loss)"; nl;
    lit "   -Ld <loss>      Set downlink loss to <rate> (float in 0..1)     (no loss)"; nl; nl;
    lit "   -h              Show this message and quit."; nl; nl;
    put (default [] msg); nl].

(** apps/tcp_ip_ethernet.cc *)
Definition ethernet_show_usage (argv0 : list byte) (msg : option (list byte)) : list byte :=
  printed [lit "Usage: "; put argv0; lit " [options] <host> <port>"; nl; nl;
    lit "   Option                                                          Default"; nl;
    lit "   --                                                              --"; nl; nl;
    lit "   -a <addr>       Set IP source address (client mode only)        "; put TAP_ADDRESS_DFLT; nl;
    lit "   -s <port>       Set TCP source port (client mode only)          (random)"; nl; nl;
    lit "   -n <addr>       Set IP next-hop address                         "; put GATEWAY_DFLT; nl;
    lit "   -w <winsz>      Use a window of <winsz> bytes                   "; num MAX_PAYLOAD_SIZE; nl; nl;
    lit "   -t <tmout>      Set rt_timeout to tmout                         "; num TIMEOUT_DFLT; nl; nl;
    lit "   -d <tapdev>     Connect to tap <tapdev>                         "; put TAP_DFLT; nl; nl;
    lit "   -h              Show this message."; nl; nl;
    put (default [] msg); nl].

(** apps/tcp_native.cc *)
Definition native_show_usage (argv0 : list byte) : list byte :=
  printed [lit "Usage: "; put argv0; lit " [-l] <host> <port>"; nl; nl;
    lit "  -l specifies listen mode; <host>:<port> is the listening address."; nl].

(** apps/udp_tcpdump.cc *)
Definition dump_show_usage (arg0 : list byte) (errmsg : option (list byte)) : list byte :=
  printed [lit "Usage: "; put arg0; lit " [-i <intf>] [-F <file>] [-h|--help] <expression>"; nl; nl;
    lit "  -i <intf>    only capture packets from <intf> (default: all)"; nl; nl;
    lit "  -F <file>    reads in a filter expression from <file>"; nl;
    lit "               <expression> is ignored if -F is supplied."; nl; nl;
    lit "  -h, --help   show this message"; nl; nl;
    lit "  <expression> a filter expression in pcap-filter(7) syntax"; nl;
    put (match errmsg with Some m => newline :: m | None => [] end); nl].

(** apps/webget.cc, in [main] *)
Definition webget_usage (argv0 : list byte) : list byte :=
  printed [lit "Usage: "; put argv0; lit " HOST PATH"; nl;
    chr x09; lit "Example: "; put argv0; lit " stanford.edu /class/cs144"; nl].

(** ** Which options a text lists *)

(** The name, the lines about the options, the message. *)
Definition body_of (usage : list byte -> option (list byte) -> list byte) : list byte :=
  let t := drop 7 (usage [] None) in take (length t - 1) t.

Definition layout (usage : list byte -> option (list byte) -> list byte) : Prop := forall argv0 msg,
  usage argv0 msg = bytes "Usage: " ++ argv0 ++ body_of usage ++ default [] msg ++ [newline].

Ltac lay_out usage := intros argv0 msg; unfold usage, printed, nl; run_stream; reflexivity.

Lemma ipv4_layout : layout ipv4_show_usage.
Proof. lay_out ipv4_show_usage. Qed.
Lemma udp_layout : layout udp_show_usage.
Proof. lay_out udp_show_usage. Qed.
Lemma ethernet_layout : layout ethernet_show_usage.
Proof. lay_out ethernet_show_usage. Qed.

Fixpoint occurs (p t : list byte) : bool :=
  bool_decide (p `prefix_of` t) || match t with [] => false | _ :: t => occurs p t end.

Lemma occurs_prefix p t : p `prefix_of` t -> occurs p t = true.
Proof. intros H. by destruct t; cbn [occurs]; rewrite bool_decide_eq_true_2. Qed.

Lemma occurs_app p l t r : occurs p t = true -> occurs p (l ++ t ++ r) = true.
Proof.
  intros H. induction l as [|b l IH]; cbn [app occurs]; [|by rewrite IH, orb_true_r].
  induction t as [|b t IH]; cbn [occurs] in H; apply orb_true_iff in H as [H|H]; try done.
  1,2: apply bool_decide_eq_true in H; apply occurs_prefix; exact (prefix_app_r _ _ _ H).
  cbn [app occurs]. by rewrite IH, orb_true_r.
Qed.

(** A line of the text starts with the option. *)
Definition lists (usage : list byte -> option (list byte) -> list byte) (flag : list byte) : Prop := forall argv0 msg,
  occurs (newline :: bytes "   " ++ flag ++ [space]) (usage argv0 msg) = true.

Lemma lists_body usage flag :
  layout usage -> occurs (newline :: bytes "   " ++ flag ++ [space]) (body_of usage) = true -> lists usage flag.
Proof. intros Hl Ho argv0 msg. rewrite Hl, (app_assoc (bytes "Usage: ")). by apply occurs_app. Qed.
