(* ===== verification/CommandLine.v ===== *)
(** * Command lines (get_config of apps/tcp_ipv4.cc, tcp_udp.cc and
    tcp_ip_ethernet.cc)

    The three programs read their options in the same way: a loop over [argv]
    that leaves the last two arguments, and a chain of comparisons that names
    the options of the program.  The loop is proved against the class
    [OptionTable], which each chain implements; the abstract syntax of the
    options is [opt].  Floating-point loss rates are a parameter. *)

From Stdlib Require Import ZArith Lia.
From S2P Require Import Prelude WrappingIntegers TCPSender TCPConnection Address Printing Usage.

(** ** C strings and arguments *)

Definition EXIT_SUCCESS : Z := 0.
Definition EXIT_FAILURE : Z := 1.

(** [exit(code)] behind the text that was printed, or the function's result. *)
Inductive outcome (A : Type) : Type :=
  | Exit (code : Z) (text : list byte)
  | Return (a : A).
Arguments Exit {A} code text.
Arguments Return {A} a.

(** [main] has returned, or left through [exit], behind the text it showed; or
    it has come as far as [a]. *)
Inductive progress (A : Type) : Type :=
  | Left (code : Z) (shown : list byte)
  | Went (a : A).
Arguments Left {A} code shown.
Arguments Went {A} a.

(** What [catch (const exception &e)] catches. *)
Definition thrown (f : fault) : bool :=
  match f with AssertionFailure | MemoryFault | DivisionByZero | OutOfFuel => false | _ => true end.

(** The body of [main] with its handler, which shows a text and returns. *)
Definition tried {A} (text : fault -> list byte) (m : res (progress A)) : res (progress A) :=
  match m with
  | Fail f => if thrown f then Ok (Left EXIT_FAILURE (text f)) else Fail f
  | Ok a => Ok a
  end.

(** [cerr << "Exception: " << e.what() << endl]; [what] is a parameter. *)
Definition exception_text (what : fault -> list byte) (f : fault) : list byte :=
  bytes "Exception: " ++ what f ++ [newline].

(** [argv[i]], and [strncmp(s, t, n) == 0]: the terminating NUL of [s] counts
    when [n] is larger than its length. *)
Definition arg (argv : list (list byte)) (i : Z) : res (list byte) :=
  match (if 0 <=? i then argv !! Z.to_nat i else None) with Some s => Ok s | None => Fail MemoryFault end.

Definition strncmp (s : string) (t : list byte) (n : Z) : bool :=
  bool_decide (ztake n (bytes s ++ [x00]) = ztake n (t ++ [x00])).

(** [strtol(s, nullptr, 0)]: white space, a sign, and digits whose base the
    prefix tells; the value saturates. *)
Definition digit_of (b : byte) : Z :=
  let v := b2z b in
  if (48 <=? v) && (v <=? 57) then v - 48 else
  if (97 <=? v) && (v <=? 122) then v - 87 else
  if (65 <=? v) && (v <=? 90) then v - 55 else 36.

Fixpoint number (base : Z) (s : list byte) (acc : Z) : Z :=
  match s with
  | b :: s => if digit_of b <? base then number base s (base * acc + digit_of b) else acc
  | [] => acc
  end.

Definition strtol (s : list byte) : Z :=
  let s := skip_while isspace s in
  let '(sign, s) :=
    match s with
    | b :: s' => if b2z b =? 45 then (-1, s') else if b2z b =? 43 then (1, s') else (1, s)
    | [] => (1, s)
    end in
  let v :=
    match s with
    | z :: x :: d :: _ =>
      if (b2z z =? 48) && ((b2z x =? 120) || (b2z x =? 88)) && (digit_of d <? 16) then number 16 (drop 2 s) 0
      else if b2z z =? 48 then number 8 s 0 else number 10 s 0
    | z :: _ => if b2z z =? 48 then number 8 s 0 else number 10 s 0
    | [] => 0
    end in
  Z.max (- M63) (Z.min (M63 - 1) (sign * v)).

(** ** The options *)

(** The variables of the three functions. *)
Record settings : Type := mkSettings {
  c_fsm : TCPConfig;
  up_loss : Z;
  dn_loss : Z;
  listen : bool;
  dev : option (list byte);
  source_address : list byte;
  source_port : list byte;
  next_hop_address : list byte
}.

Definition set_capacity (n : Z) (st : settings) : settings :=
  mkSettings (mkTCPConfig (rt_timeout (c_fsm st)) (u64 n) (send_capacity (c_fsm st)) (fixed_isn (c_fsm st)))
    (up_loss st) (dn_loss st) (listen st) (dev st) (source_address st) (source_port st) (next_hop_address st).
Definition set_timeout (n : Z) (st : settings) : settings :=
  mkSettings (mkTCPConfig (u16 n) (recv_capacity (c_fsm st)) (send_capacity (c_fsm st)) (fixed_isn (c_fsm st)))
    (up_loss st) (dn_loss st) (listen st) (dev st) (source_address st) (source_port st) (next_hop_address st).
Definition set_up (n : Z) (st : settings) : settings :=
  mkSettings (c_fsm st) n (dn_loss st) (listen st) (dev st) (source_address st) (source_port st) (next_hop_address st).
Definition set_dn (n : Z) (st : settings) : settings :=
  mkSettings (c_fsm st) (up_loss st) n (listen st) (dev st) (source_address st) (source_port st) (next_hop_address st).
Definition set_listen (st : settings) : settings :=
  mkSettings (c_fsm st) (up_loss st) (dn_loss st) true (dev st) (source_address st) (source_port st) (next_hop_address st).
Definition set_dev (d : list byte) (st : settings) : settings :=
  mkSettings (c_fsm st) (up_loss st) (dn_loss st) (listen st) (Some d) (source_address st) (source_port st) (next_hop_address st).
Definition set_address (a : list byte) (st : settings) : settings :=
  mkSettings (c_fsm st) (up_loss st) (dn_loss st) (listen st) (dev st) a (source_port st) (next_hop_address st).
Definition set_port (p : list byte) (st : settings) : settings :=
  mkSettings (c_fsm st) (up_loss st) (dn_loss st) (listen st) (dev st) (source_address st) p (next_hop_address st).
Definition set_next_hop (a : list byte) (st : settings) : settings :=
  mkSettings (c_fsm st) (up_loss st) (dn_loss st) (listen st) (dev st) (source_address st) (source_port st) a.

Definition default_tcp : TCPConfig := mkTCPConfig TIMEOUT_DFLT DEFAULT_CAPACITY DEFAULT_CAPACITY None.

Section options.
(** [static_cast<uint16_t>(65535.0f * strtof(s, nullptr))] *)
Context (loss_rate : list byte -> Z).

(** The three functions [show_usage] and [check_argc] differ in the text. *)
Definition usage_text : Type := list byte -> option (list byte) -> list byte.

(** [show_usage(argv[0], msg); exit(code);] *)
Definition quit {A} (usage : usage_text) (argv : list (list byte)) (code : Z) (msg : option (list byte)) : res (outcome A) :=
  argv0 ← arg argv 0; Ok (Exit code (usage argv0 msg)).

(** [check_argc], and the use of the argument behind the option. *)
Definition with_arg (usage : usage_text) (err : string) (argv : list (list byte)) (curr : Z)
    (f : list byte -> settings -> settings) (st : settings) : res (outcome (Z * settings)) :=
  if zlen argv <=? curr + 3 then quit usage argv 1 (Some (bytes err)) else
  v ← arg argv (curr + 1); Ok (Return (curr + 2, f v st)).

Definition unrecognized {A} (usage : usage_text) (argv : list (list byte)) (a : list byte) : res (outcome A) :=
  quit usage argv 1 (Some (bytes "ERROR: unrecognized option " ++ a)).

(** tcp_ipv4: one round of the loop; the messages for [-d] and [-Ld] name
    another option. *)
Definition ipv4_option (argv : list (list byte)) (curr : Z) (st : settings) : res (outcome (Z * settings)) :=
  a ← arg argv curr;
  if strncmp "-l" a 3 then Ok (Return (curr + 1, set_listen st))
  else if strncmp "-a" a 3 then
    with_arg ipv4_show_usage "ERROR: -a requires one argument." argv curr set_address st
  else if strncmp "-s" a 3 then
    with_arg ipv4_show_usage "ERROR: -s requires one argument." argv curr set_port st
  else if strncmp "-w" a 3 then
    with_arg ipv4_show_usage "ERROR: -w requires one argument." argv curr (fun v => set_capacity (strtol v)) st
  else if strncmp "-t" a 3 then
    with_arg ipv4_show_usage "ERROR: -t requires one argument." argv curr (fun v => set_timeout (strtol v)) st
  else if strncmp "-d" a 3 then
    with_arg ipv4_show_usage "ERROR: -t requires one argument." argv curr set_dev st
  else if strncmp "-Lu" a 3 then
    with_arg ipv4_show_usage "ERROR: -Lu requires one argument." argv curr (fun v => set_up (loss_rate v)) st
  else if strncmp "-Ld" a 3 then
    with_arg ipv4_show_usage "ERROR: -Lu requires one argument." argv curr (fun v => set_dn (loss_rate v)) st
  else if strncmp "-h" a 3 then quit ipv4_show_usage argv 0 None
  else unrecognized ipv4_show_usage argv a.

(** tcp_udp *)
Definition udp_option (argv : list (list byte)) (curr : Z) (st : settings) : res (outcome (Z * settings)) :=
  a ← arg argv curr;
  if strncmp "-l" a 3 then Ok (Return (curr + 1, set_listen st))
  else if strncmp "-w" a 3 then
    with_arg udp_show_usage "ERROR: -w requires one argument." argv curr (fun v => set_capacity (strtol v)) st
  else if strncmp "-t" a 3 then
    with_arg udp_show_usage "ERROR: -t requires one argument." argv curr (fun v => set_timeout (strtol v)) st
  else if strncmp "-Lu" a 3 then
    with_arg udp_show_usage "ERROR: -Lu requires one argument." argv curr (fun v => set_up (loss_rate v)) st
  else if strncmp "-Ld" a 3 then
    with_arg udp_show_usage "ERROR: -Lu requires one argument." argv curr (fun v => set_dn (loss_rate v)) st
  else if strncmp "-h" a 3 then quit udp_show_usage argv 0 None
  else unrecognized udp_show_usage argv a.

(** tcp_ip_ethernet *)
Definition ethernet_option (argv : list (list byte)) (curr : Z) (st : settings) : res (outcome (Z * settings)) :=
  a ← arg argv curr;
  if strncmp "-a" a 3 then
    with_arg ethernet_show_usage "ERROR: -a requires one argument." argv curr set_address st
  else if strncmp "-s" a 3 then
    with_arg ethernet_show_usage "ERROR: -s requires one argument." argv curr set_port st
  else if strncmp "-n" a 3 then
    with_arg ethernet_show_usage "ERROR: -n requires one argument." argv curr set_next_hop st
  else if strncmp "-w" a 3 then
    with_arg ethernet_show_usage "ERROR: -w requires one argument." argv curr (fun v => set_capacity (strtol v)) st
  else if strncmp "-t" a 3 then
    with_arg ethernet_show_usage "ERROR: -t requires one argument." argv curr (fun v => set_timeout (strtol v)) st
  else if strncmp "-d" a 3 then
    with_arg ethernet_show_usage "ERROR: -t requires one argument." argv curr set_dev st
  else if strncmp "-h" a 3 then quit ethernet_show_usage argv 0 None
  else unrecognized ethernet_show_usage argv a.

(** [while (argc - curr > 2)]: every round moves [curr], so [argc] rounds are
    enough. *)
Fixpoint option_loop (option : list (list byte) -> Z -> settings -> res (outcome (Z * settings))) (fuel : nat)
    (argv : list (list byte)) (curr : Z) (st : settings) : res (outcome (Z * settings)) :=
  match fuel with
  | O => Fail OutOfFuel
  | S fuel =>
    if zlen argv - curr <=? 2 then Ok (Return (curr, st)) else
    r ← option argv curr st;
    match r with
    | Exit code text => Ok (Exit code text)
    | Return (curr, st) => option_loop option fuel argv curr st
    end
  end.
End options.

(** ** The configurations *)

Section configurations.
Context `{Libc}.
Context (loss_rate : list byte -> Z).

Record FdAdapterConfig : Type := mkFdAdapterConfig {
  source : Address;
  destination : Address;
  loss_rate_dn : Z;
  loss_rate_up : Z
}.

(** [Address source{"0", 0}] *)
Definition unspecified : res Address := of_ip_port (bytes "0") 0.

Definition defaults (address port next_hop : list byte) : settings :=
  mkSettings default_tcp 0 0 false None address port next_hop.

(** [to_string(uint16_t(random_device()()))] *)
Definition random_port (random : Z) : list byte := to_string (u16 random).

(** tcp_ipv4: [get_config]; its result has the name of the TUN device. *)
Definition ipv4_get_config (random : Z) (argv : list (list byte))
    : res (outcome (TCPConfig * FdAdapterConfig * bool * option (list byte))) :=
  src ← unspecified; dst ← unspecified;
  r ← option_loop (ipv4_option loss_rate) (length argv) argv 1
    (defaults TUN_ADDRESS_DFLT (random_port random) []);
  match r with
  | Exit code text => Ok (Exit code text)
  | Return (curr, st) =>
    if listen st then
      service ← arg argv (curr + 1);
      src ← of_hostname (bytes "0") service;
      p ← port_of src;
      if p =? 0 then quit ipv4_show_usage argv 1 (Some (bytes "ERROR: listen port cannot be zero in server mode."))
      else Ok (Return (c_fsm st, mkFdAdapterConfig src dst (dn_loss st) (up_loss st), true, dev st))
    else
      host ← arg argv curr;
      service ← arg argv (curr + 1);
      dst ← of_hostname host service;
      src ← of_hostname (source_address st) (source_port st);
      Ok (Return (c_fsm st, mkFdAdapterConfig src dst (dn_loss st) (up_loss st), false, dev st))
  end.

(** tcp_udp: the positional arguments are the last two. *)
Definition udp_get_config (argv : list (list byte)) : res (outcome (TCPConfig * FdAdapterConfig * bool)) :=
  src ← unspecified; dst ← unspecified;
  r ← option_loop (udp_option loss_rate) (length argv) argv 1 (defaults [] [] []);
  match r with
  | Exit code text => Ok (Exit code text)
  | Return (_, st) =>
    if listen st then
      service ← arg argv (zlen argv - 1);
      src ← of_hostname (bytes "0") service;
      Ok (Return (c_fsm st, mkFdAdapterConfig src dst (dn_loss st) (up_loss st), true))
    else
      host ← arg argv (zlen argv - 2);
      service ← arg argv (zlen argv - 1);
      dst ← of_hostname host service;
      Ok (Return (c_fsm st, mkFdAdapterConfig src dst (dn_loss st) (up_loss st), false))
  end.

(** tcp_ip_ethernet: with the next hop and the name of the TAP device. *)
Definition ethernet_get_config (random : Z) (argv : list (list byte))
    : res (outcome (TCPConfig * FdAdapterConfig * Address * list byte)) :=
  src ← unspecified; dst ← unspecified;
  r ← option_loop ethernet_option (length argv) argv 1
    (defaults TAP_ADDRESS_DFLT (random_port random) GATEWAY_DFLT);
  match r with
  | Exit code text => Ok (Exit code text)
  | Return (curr, st) =>
    host ← arg argv curr;
    service ← arg argv (curr + 1);
    dst ← of_hostname host service;
    src ← of_hostname (source_address st) (source_port st);
    hop ← of_hostname (next_hop_address st) (bytes "0");
    Ok (Return (c_fsm st, mkFdAdapterConfig src dst (dn_loss st) (up_loss st), hop, default TAP_DFLT (dev st)))
  end.
End configurations.

(** ** Abstract syntax *)

(** The options of the three programs; [o_up] and [o_dn] carry what follows
    [-Lu] and [-Ld] in the same argument. *)
Inductive opt : Type :=
  | o_listen
  | o_address (v : list byte)
  | o_port (v : list byte)
  | o_next_hop (v : list byte)
  | o_window (v : list byte)
  | o_timeout (v : list byte)
  | o_dev (v : list byte)
  | o_up (suffix v : list byte)
  | o_dn (suffix v : list byte).

Definition render (o : opt) : list (list byte) :=
  match o with
  | o_listen => [bytes "-l"]
  | o_address v => [bytes "-a"; v]
  | o_port v => [bytes "-s"; v]
  | o_next_hop v => [bytes "-n"; v]
  | o_window v => [bytes "-w"; v]
  | o_timeout v => [bytes "-t"; v]
  | o_dev v => [bytes "-d"; v]
  | o_up suffix v => [bytes "-Lu" ++ suffix; v]
  | o_dn suffix v => [bytes "-Ld" ++ suffix; v]
  end.

Definition apply_opt (loss_rate : list byte -> Z) (st : settings) (o : opt) : settings :=
  match o with
  | o_listen => set_listen st
  | o_address v => set_address v st
  | o_port v => set_port v st
  | o_next_hop v => set_next_hop v st
  | o_window v => set_capacity (strtol v) st
  | o_timeout v => set_timeout (strtol v) st
  | o_dev v => set_dev v st
  | o_up _ v => set_up (loss_rate v) st
  | o_dn _ v => set_dn (loss_rate v) st
  end.

(** What the loop needs of a program's chain of comparisons: it accepts the
    options in [accepted] where they fit in front of the last two arguments,
    and nothing else; no argument holds a NUL. *)
Class OptionTable (loss_rate : list byte -> Z)
    (option : list (list byte) -> Z -> settings -> res (outcome (Z * settings))) (accepted : opt -> bool) : Prop := {
  table_sound pre rest st :
    Forall printable rest -> 2 < zlen rest ->
    exists r, option (pre ++ rest) (zlen pre) st = Ok r
      /\ match r with
         | Exit code _ => code = 0 \/ code = 1
         | Return (curr, st') => exists o rest', accepted o = true /\ rest = render o ++ rest' /\ 2 <= zlen rest'
             /\ curr = zlen pre + zlen (render o) /\ st' = apply_opt loss_rate st o
         end;
  table_complete pre o rest st :
    accepted o = true -> Forall printable (render o) -> 2 <= zlen rest ->
    option (pre ++ render o ++ rest) (zlen pre) st
    = Ok (Return (zlen pre + zlen (render o), apply_opt loss_rate st o))
}.

(** ** Lemmas *)

Lemma arg_ok argv i : 0 <= i < zlen argv -> exists s, arg argv i = Ok s.
Proof.
  intros Hi. unfold arg. rewrite (proj2 (Z.leb_le 0 i)) by lia.
  destruct (lookup_lt_is_Some_2 argv (Z.to_nat i)) as [s ->]; [unfold zlen in Hi; lia|]. eauto.
Qed.

Lemma arg_at pre s rest : arg (pre ++ s :: rest) (zlen pre) = Ok s.
Proof.
  unfold arg. rewrite (proj2 (Z.leb_le 0 _)) by apply zlen_nonneg. unfold zlen. rewrite Nat2Z.id.
  by rewrite list_lookup_middle.
Qed.

Lemma arg_next pre a s rest : arg (pre ++ a :: s :: rest) (zlen pre + 1) = Ok s.
Proof.
  pose proof (arg_at (pre ++ [a]) s rest) as E. rewrite <-app_assoc, zlen_app in E. exact E.
Qed.

Lemma quit_ok A usage argv0 args code msg : quit (A := A) usage (argv0 :: args) code msg = Ok (Exit code (usage argv0 msg)).
Proof. done. Qed.

Lemma with_arg_spec usage err pre a v rest f st :
  let argv0 := default a (head pre) in
  with_arg usage err (pre ++ a :: v :: rest) (zlen pre) f st
  = Ok (if 2 <=? zlen rest then Return (zlen pre + 2, f v st) else Exit 1 (usage argv0 (Some (bytes err)))).
Proof.
  intros argv0. unfold with_arg. rewrite arg_next, zlen_app, !zlen_cons. cbn [mbind res_bind].
  destruct (Z.leb_spec 2 (zlen rest)), (Z.leb_spec (zlen pre + (1 + (1 + zlen rest))) (zlen pre + 3)); try lia; [done|].
  by destruct pre.
Qed.

Lemma quit_sound (P : Z -> settings -> Prop) usage pre a rest code msg :
  code = 0 \/ code = 1 ->
  exists r, quit usage (pre ++ a :: rest) code msg = Ok r
    /\ match r with Exit code _ => code = 0 \/ code = 1 | Return (curr, st') => P curr st' end.
Proof. by destruct pre; cbn [app]; rewrite quit_ok; eexists. Qed.

(** A two-letter option is compared with its terminating NUL, a three-letter
    one without it. *)
Lemma strncmp_exact s c1 c2 a :
  bytes s = [c1; c2] -> b2z c1 <> 0 -> b2z c2 <> 0 -> printable a -> strncmp s a 3 = bool_decide (a = bytes s).
Proof.
  intros E H1 H2 Ha. unfold strncmp. rewrite E. apply bool_decide_ext.
  destruct a as [|x [|y [|z a]]]; cbn; split; intros H; try done; try (injection H as -> ->; done).
  apply Forall_cons in Ha as [_ [_ [Hz _]%Forall_cons]%Forall_cons]. by injection H as _ _ <-.
Qed.

Lemma strncmp_prefix s c1 c2 c3 a :
  bytes s = [c1; c2; c3] -> b2z c1 <> 0 -> b2z c2 <> 0 -> b2z c3 <> 0 ->
  strncmp s a 3 = true <-> exists suffix, a = bytes s ++ suffix.
Proof.
  intros E H1 H2 H3. unfold strncmp. rewrite E, bool_decide_eq_true.
  destruct a as [|x [|y [|z a]]]; cbn; split; try done; try (intros (? & ?); done).
  - intros H. injection H as _ _ ->. by destruct H3.
  - intros H. injection H as -> -> ->. by exists a.
  - intros (? & H). by injection H as -> -> -> _.
Qed.

(** Decides the comparisons of a chain one after the other. *)
Ltac compare_options Ha :=
  repeat match goal with
  | |- context [if strncmp ?s ?a 3 then _ else _] =>
      let n := eval vm_compute in (length (bytes s)) in
      lazymatch n with
      | 2%nat => rewrite (strncmp_exact s _ _ a eq_refl ltac:(vm_compute; done) ltac:(vm_compute; done) Ha); case_bool_decide
      | _ => let E := fresh "E" in destruct (strncmp s a 3) eqn:E;
             [apply (strncmp_prefix s _ _ _ a eq_refl ltac:(vm_compute; done) ltac:(vm_compute; done) ltac:(vm_compute; done)) in E as [? E]|]
      end
  end.

(** One accepted option with an argument. *)
Lemma with_arg_sound lr (accepted : opt -> bool) usage err pre a v rest f st (o : opt) :
  accepted o = true -> a :: v :: rest = render o ++ rest -> f v st = apply_opt lr st o -> zlen (render o) = 2 ->
  exists r, with_arg usage err (pre ++ a :: v :: rest) (zlen pre) f st = Ok r
    /\ match r with
       | Exit code _ => code = 0 \/ code = 1
       | Return (curr, st') => exists o' rest', accepted o' = true /\ a :: v :: rest = render o' ++ rest' /\ 2 <= zlen rest'
           /\ curr = zlen pre + zlen (render o') /\ st' = apply_opt lr st o'
       end.
Proof.
  intros Ha Er Ef Hl. rewrite with_arg_spec. destruct (Z.leb_spec 2 (zlen rest)); eexists; (split; [done|]); [|by right].
  exists o, rest. rewrite Hl. by split_and!.
Qed.

Definition ipv4_accepts (o : opt) : bool := match o with o_next_hop _ => false | _ => true end.
Definition udp_accepts (o : opt) : bool :=
  match o with o_listen | o_window _ | o_timeout _ | o_up _ _ | o_dn _ _ => true | _ => false end.
Definition ethernet_accepts (o : opt) : bool :=
  match o with o_listen | o_up _ _ | o_dn _ _ => false | _ => true end.

(** The options of a chain are those of [opt]. *)
Ltac table_sound_case pre v rest lr :=
  first
    [ solve [apply (with_arg_sound lr _ _ _ _ _ _ _ _ _ (o_address v)); done]
    | solve [apply (with_arg_sound lr _ _ _ _ _ _ _ _ _ (o_port v)); done]
    | solve [apply (with_arg_sound lr _ _ _ _ _ _ _ _ _ (o_next_hop v)); done]
    | solve [apply (with_arg_sound lr _ _ _ _ _ _ _ _ _ (o_window v)); done]
    | solve [apply (with_arg_sound lr _ _ _ _ _ _ _ _ _ (o_timeout v)); done]
    | solve [apply (with_arg_sound lr _ _ _ _ _ _ _ _ _ (o_dev v)); done]
    | solve [eapply (with_arg_sound lr _ _ _ _ _ _ _ _ _ (o_up _ v)); done]
    | solve [eapply (with_arg_sound lr _ _ _ _ _ _ _ _ _ (o_dn _ v)); done]
    | solve [eexists; split; [reflexivity|]; exists o_listen, (v :: rest); rewrite !zlen_cons in *;
             split_and!; [done|done|lia|done|done]]
    | solve [apply quit_sound; auto] ].

Ltac prove_table_sound option lr :=
  let pre := fresh "pre" in let a := fresh "a" in let v := fresh "v" in let rest := fresh "rest" in
  intros pre rest st Hp Hl; destruct rest as [|a [|v rest]]; [done|change (zlen [a]) with 1 in Hl; lia|];
  unfold option; rewrite arg_at; cbn [mbind res_bind]; apply Forall_cons in Hp as [Ha _];
  compare_options Ha; subst; table_sound_case pre v rest lr.

Ltac prove_table_complete option :=
  intros pre o rest st Hacc _ Hl; unfold option; destruct o; try discriminate Hacc; cbn [render app];
  rewrite arg_at; cbn [mbind res_bind];
  repeat match goal with |- context [strncmp ?s ?a 3] =>
    let b := eval vm_compute in (strncmp s a 3) in change (strncmp s a 3) with b end;
  cbv iota; rewrite ?with_arg_spec, ?(proj2 (Z.leb_le 2 (zlen rest)) Hl); done.

#[export] Instance ipv4_table lr : OptionTable lr (ipv4_option lr) ipv4_accepts.
Proof. split; [prove_table_sound ipv4_option lr|prove_table_complete ipv4_option]. Qed.

#[export] Instance udp_table lr : OptionTable lr (udp_option lr) udp_accepts.
Proof. split; [prove_table_sound udp_option lr|prove_table_complete udp_option]. Qed.

#[export] Instance ethernet_table lr : OptionTable lr ethernet_option ethernet_accepts.
Proof. split; [prove_table_sound ethernet_option lr|prove_table_complete ethernet_option]. Qed.

Lemma printable_all l : forallb (forallb (fun b => negb (b2z b =? 0))) l = true -> Forall printable l.
Proof.
  intros E. apply Forall_forall. intros s Hs. apply Forall_forall. intros b Hb E0.
  rewrite forallb_forall in E. apply list_elem_of_In in Hs. specialize (E s Hs). rewrite forallb_forall in E.
  apply list_elem_of_In in Hb. specialize (E b Hb). by rewrite E0 in E.
Qed.

Lemma render_pos o : 1 <= zlen (render o) <= 2.
Proof. by destruct o. Qed.

Lemma render_length opts : (length opts <= length (concat (map render opts)))%nat.
Proof.
  induction opts as [|o opts IH]; cbn [map concat length]; [lia|]. rewrite length_app. pose proof (render_pos o).
  unfold zlen in *. lia.
Qed.

(** ** The loop *)

Section loop.
Context (lr : list byte -> Z) (option : list (list byte) -> Z -> settings -> res (outcome (Z * settings))).
Context (accepted : opt -> bool) `{!OptionTable lr option accepted}.

Lemma loop_sound : forall fuel pre rest st,
  Forall printable rest -> 2 <= zlen rest -> zlen rest - 2 < Z.of_nat fuel ->
  exists r, option_loop option fuel (pre ++ rest) (zlen pre) st = Ok r
    /\ match r with
       | Exit code _ => code = 0 \/ code = 1
       | Return (curr, st') => exists opts host port, rest = concat (map render opts) ++ [host; port] /\ forallb accepted opts = true
           /\ curr = zlen pre + zlen (concat (map render opts)) /\ st' = fold_left (apply_opt lr) opts st
       end.
Proof using All.
  induction fuel as [|fuel IH]; intros pre rest st Hp H2 Hf; [lia|]. cbn [option_loop]. rewrite zlen_app.
  destruct (Z.leb_spec (zlen pre + zlen rest - zlen pre) 2) as [Hle|Hgt].
  - eexists. split; [done|]. destruct rest as [|host [|port [|x rest]]]; rewrite ?zlen_cons in *;
      change (zlen (@nil (list byte))) with 0 in *; try lia; [|pose proof (zlen_nonneg rest); lia].
    exists [], host, port. split_and!; [done|done| |done]. change (zlen (concat (map render []))) with 0. lia.
  - destruct (table_sound pre rest st Hp) as (r & -> & Hr); [lia|]. cbn [mbind res_bind].
    destruct r as [code text|[c s]]; [eexists; by split|].
    destruct Hr as (o & rest' & Ho & -> & Hl & -> & ->). pose proof (render_pos o).
    rewrite zlen_app in Hf, Hgt. rewrite app_assoc, <-zlen_app.
    apply Forall_app in Hp as [_ Hp].
    destruct (IH (pre ++ render o) rest' (apply_opt lr st o) Hp) as (r & -> & Hr'); [lia|lia|].
    eexists. split; [done|]. destruct r as [code text|[curr st']]; [done|]. destruct Hr' as (opts & host & port & -> & Hf' & -> & ->).
    exists (o :: opts), host, port. cbn [map concat forallb fold_left]. rewrite Ho, !zlen_app. split_and!; [by rewrite <-app_assoc|done|lia|done].
Qed.

Lemma loop_complete : forall opts fuel pre st host port,
  forallb accepted opts = true -> Forall printable (concat (map render opts)) -> (length opts < fuel)%nat ->
  option_loop option fuel (pre ++ concat (map render opts) ++ [host; port]) (zlen pre) st
  = Ok (Return (zlen pre + zlen (concat (map render opts)), fold_left (apply_opt lr) opts st)).
Proof using All.
  induction opts as [|o opts IH]; intros fuel pre st host port Ha Hp Hf; (destruct fuel as [|fuel]; [cbn in Hf; lia|]);
    cbn [option_loop].
  - cbn [map concat fold_left app]. rewrite zlen_app. change (zlen [host; port]) with 2.
    rewrite (proj2 (Z.leb_le _ _)) by lia. change (zlen (@nil (list byte))) with 0. by rewrite Z.add_0_r.
  - cbn [map concat fold_left] in *. apply andb_true_iff in Ha as [Ho Ha]. apply Forall_app in Hp as [Hpo Hp].
    rewrite <-app_assoc. set (rest := concat (map render opts) ++ [host; port]).
    assert (2 <= zlen rest) as H2.
    { subst rest. rewrite zlen_app. change (zlen [host; port]) with 2. pose proof (zlen_nonneg (concat (map render opts))). lia. }
    pose proof (render_pos o). rewrite (proj2 (Z.leb_gt _ _)) by (rewrite !zlen_app; lia).
    rewrite (table_complete pre o rest st Ho Hpo H2). cbn [mbind res_bind]. subst rest.
    rewrite app_assoc, <-zlen_app, IH by (done || (cbn in Hf; lia)). by rewrite !zlen_app, Z.add_assoc.
Qed.
End loop.

(** ** Properties *)

(** C25: the command lines are read exactly: for each of the three programs and
    every command line with at least two arguments, the loop of [get_config]
    ends without a read outside of [argv]; it returns, instead of leaving the
    program with code 0 or 1, exactly on a sequence of the program's options followed by two
    arguments, leaves those two, and has applied the options from left to
    right. *)
Theorem command_line_exact (lr : list byte -> Z) (prog : list byte) (args : list (list byte)) (st : settings)
    (option : list (list byte) -> Z -> settings -> res (outcome (Z * settings))) (accepted : opt -> bool) :
  (option = ipv4_option lr /\ accepted = ipv4_accepts) \/ (option = udp_option lr /\ accepted = udp_accepts)
    \/ (option = ethernet_option /\ accepted = ethernet_accepts) ->
  Forall printable args -> 2 <= zlen args ->
  let argv := prog :: args in
  (exists r, option_loop option (length argv) argv 1 st = Ok r /\ forall code text, r = Exit code text -> code = 0 \/ code = 1)
  /\ forall curr st',
       option_loop option (length argv) argv 1 st = Ok (Return (curr, st'))
       <-> exists opts host port, args = concat (map render opts) ++ [host; port] /\ forallb accepted opts = true
             /\ curr = zlen argv - 2 /\ st' = fold_left (apply_opt lr) opts st.
Proof.
  intros Hopt Hp H2 argv.
  assert (OptionTable lr option accepted) as Ht by (destruct Hopt as [[-> ->]|[[-> ->]|[-> ->]]]; apply _).
  destruct (loop_sound lr option accepted (length argv) [prog] args st Hp H2) as (r & E & Hr).
  { unfold argv, zlen. cbn [length]. lia. }
  change ([prog] ++ args) with argv in *. change (zlen [prog]) with 1 in *. rewrite E. split; [exists r; split; [done|]; by intros ? ? ->|]. intros curr st'. split.
  - intros [= ->]. destruct Hr as (opts & host & port & Ea & Hf & Ec & Es).
    exists opts, host, port. split_and!; try done. unfold argv. rewrite Ec, zlen_cons, Ea, zlen_app.
    change (zlen [host; port]) with 2. lia.
  - intros (opts & host & port & Ea & Hf & -> & ->). rewrite <-E. subst argv. rewrite Ea in *.
    pose proof (loop_complete lr option accepted opts (length (prog :: concat (map render opts) ++ [host; port])) [prog] st host port Hf) as Hc.
    change ([prog] ++ concat (map render opts) ++ [host; port]) with (prog :: concat (map render opts) ++ [host; port]) in Hc.
    change (zlen [prog]) with 1 in Hc. rewrite Hc.
    + do 3 f_equal. rewrite zlen_cons, zlen_app. change (zlen [host; port]) with 2. lia.
    + by apply Forall_app in Hp as [? _].
    + cbn [length]. rewrite length_app. pose proof (render_length opts). cbn [length]. lia.
Qed.

Definition sample_args : list (list byte) := [bytes "-l"; bytes "-w"; bytes "0x10"; bytes "-l"; bytes "9090"].

Lemma command_line_exact_witness :
  option_loop (udp_option (fun _ => 0)) 6 (bytes "tcp_udp" :: sample_args) 1 (defaults [] [] [])
  = Ok (Return (4, set_capacity 16 (set_listen (defaults [] [] [])))).
Proof.
  apply (command_line_exact (fun _ => 0) (bytes "tcp_udp") sample_args (defaults [] [] []) (udp_option (fun _ => 0)) udp_accepts).
  - right. left. by split.
  - by apply printable_all.
  - vm_compute. done.
  - exists [o_listen; o_window (bytes "0x10")], (bytes "-l"), (bytes "9090"). by split_and!.
Defined.

(** *** What the usage texts say *)

(** The window is 64000 bytes unless [-w] is given; the texts say
    [MAX_PAYLOAD_SIZE]. *)
Theorem default_window (address port next_hop : list byte) :
  recv_capacity (c_fsm (defaults address port next_hop)) = 64000 /\ MAX_PAYLOAD_SIZE = 1000.
Proof. done. Qed.

(** A negative window becomes a huge one, and a timeout is cut to 16 bits. *)
Theorem numbers_wrap (st : settings) :
  recv_capacity (c_fsm (set_capacity (strtol (bytes "-1")) st)) = M64 - 1
  /\ rt_timeout (c_fsm (set_timeout (strtol (bytes "65536")) st)) = 0.
Proof. done. Qed.

Lemma arg_last argv host port : arg (argv ++ [host; port]) (zlen (argv ++ [host; port]) - 1) = Ok port.
Proof.
  rewrite zlen_app. change (zlen [host; port]) with 2. replace (zlen argv + 2 - 1) with (zlen argv + 1) by lia. apply arg_next.
Qed.

(** In server mode the host on the command line is ignored; the texts say that
    it is bound. *)
Theorem listen_ignores_host `{Libc} (lr : list byte -> Z) (prog : list byte) (opts : list opt) (host host' port : list byte) :
  forallb udp_accepts opts = true -> Forall printable (concat (map render opts)) ->
  listen (fold_left (apply_opt lr) opts (defaults [] [] [])) = true ->
  udp_get_config lr (prog :: concat (map render opts) ++ [host; port])
  = udp_get_config lr (prog :: concat (map render opts) ++ [host'; port]).
Proof.
  intros Ha Hp Hl. unfold udp_get_config.
  assert (forall h, option_loop (udp_option lr) (length (prog :: concat (map render opts) ++ [h; port]))
      (prog :: concat (map render opts) ++ [h; port]) 1 (defaults [] [] [])
    = Ok (Return (1 + zlen (concat (map render opts)), fold_left (apply_opt lr) opts (defaults [] [] [])))) as E.
  { intros h. apply (loop_complete lr (udp_option lr) udp_accepts opts _ [prog]); [done|done|].
    cbn [length]. rewrite length_app. pose proof (render_length opts). cbn [length]. lia. }
  rewrite !E. cbn [mbind res_bind]. rewrite Hl.
  change (prog :: concat (map render opts) ++ [host; port]) with ((prog :: concat (map render opts)) ++ [host; port]).
  change (prog :: concat (map render opts) ++ [host'; port]) with ((prog :: concat (map render opts)) ++ [host'; port]).
  by rewrite !arg_last.
Qed.

(** The name of an option, without what may follow [-Lu] and [-Ld]. *)
Definition flag (o : opt) : list byte :=
  match o with
  | o_listen => bytes "-l" | o_address _ => bytes "-a" | o_port _ => bytes "-s" | o_next_hop _ => bytes "-n"
  | o_window _ => bytes "-w" | o_timeout _ => bytes "-t" | o_dev _ => bytes "-d" | o_up _ _ => bytes "-Lu" | o_dn _ _ => bytes "-Ld"
  end.

(** Each text has a line for exactly the options that its program accepts. *)
Theorem usage_lists_options (usage : usage_text) (accepted : opt -> bool) (o : opt) :
  (usage = ipv4_show_usage /\ accepted = ipv4_accepts) \/ (usage = udp_show_usage /\ accepted = udp_accepts)
    \/ (usage = ethernet_show_usage /\ accepted = ethernet_accepts) ->
  occurs (newline :: bytes "   " ++ flag o ++ [space]) (body_of usage) = accepted o
  /\ (accepted o = true -> lists usage (flag o)).
Proof.
  intros Hu.
  assert (layout usage) as Hl.
  { destruct Hu as [[-> _]|[[-> _]|[-> _]]]; auto using ipv4_layout, udp_layout, ethernet_layout. }
  assert (occurs (newline :: bytes "   " ++ flag o ++ [space]) (body_of usage) = accepted o) as Ho.
  { clear Hl. destruct Hu as [[-> ->]|[[-> ->]|[-> ->]]]; destruct o; vm_compute; reflexivity. }
  split; [exact Ho|]. intros Ha. apply lists_body; [exact Hl|by rewrite Ho].
Qed.

(** Without its value the device option reports another option. *)
Theorem missing_value_names_wrong_option (lr : list byte -> Z) (prog host port : list byte) (st : settings) :
  ipv4_option lr [prog; bytes "-d"; host; port] 1 st
  = Ok (Exit 1 (ipv4_show_usage prog (Some (bytes "ERROR: -t requires one argument."))))
  /\ udp_option lr [prog; bytes "-Ld"; host; port] 1 st
     = Ok (Exit 1 (udp_show_usage prog (Some (bytes "ERROR: -Lu requires one argument.")))).
Proof. split; reflexivity. Qed.
