(* ===== verification/PacketDump.v ===== *)
(** * The packet printers (apps/udp_tcpdump.cc, apps/tun.cc)

    The program captures packets with libpcap, finds the UDP payload behind the
    link and IP headers, and prints it as a TCP segment and as a dump.  What
    libpcap returns is the list of events the loop of [main] runs on; a captured
    packet is an array of [caplen] bytes, and a read outside of it is a fault.
    [inet_ntop] and the answers of libpcap are parameters.  The program tun
    prints what it reads from a TUN device in the same way. *)

From Stdlib Require Import ZArith Lia.
From S2P Require Import Prelude WrappingIntegers Buffer Parser Checksum TCPHeader TCPSegment IPv4Header IPv4Datagram WireSafety Address Printing Usage CommandLine.

(** ** The command line *)

(** [parse_arguments]: [argc - curr] decreases, so [argc] rounds are enough.
    [dev] is a null pointer at first. *)
Fixpoint parse_loop (fuel : nat) (argv : list (list byte)) (curr : Z) (dev : option (list byte))
    : res (outcome (Z * option (list byte))) :=
  match fuel with
  | O => Fail OutOfFuel
  | S fuel =>
    if zlen argv <=? curr then Ok (Return (curr, dev)) else
    a ← arg argv curr;
    if strncmp "-i" a 3 then
      if zlen argv <=? curr + 1 then quit dump_show_usage argv 1 (Some (bytes "ERROR: -i requires an argument")) else
      d ← arg argv (curr + 1);
      parse_loop fuel argv (curr + 2) (Some d)
    else if strncmp "-h" a 3 || strncmp "--help" a 7 then quit dump_show_usage argv 0 None
    else Ok (Return (curr, dev))
  end.

Definition parse_arguments (argv : list (list byte)) : res (outcome (Z * option (list byte))) :=
  parse_loop (S (length argv)) argv 1 None.

(** ** The IP headers *)

Definition load (data : list byte) (i : Z) : res Z :=
  match (if 0 <=? i then data !! Z.to_nat i else None) with Some b => Ok (b2z b) | None => Fail MemoryFault end.

Definition slice (data : list byte) (off n : Z) : res (list byte) :=
  if (0 <=? off) && (off + n <=? zlen data) then Ok (ztake n (zdrop off data)) else Fail MemoryFault.

Definition dec (os : ostream) : ostream := mkOstream (text os) (putp os) false (alpha os) (fill os) (field os).

Section dump.
Context (inet_ntop : bool -> list byte -> option (list byte)).

(** The first argument tells IPv6. *)
Definition inet4_addr (data : list byte) (off : Z) : res (list byte) :=
  s ← slice data off 4; Ok (default (bytes "unknown") (inet_ntop false s)).
Definition inet6_addr (data : list byte) (off : Z) : res (list byte) :=
  s ← slice data off 16; Ok (default (bytes "unknown") (inet_ntop true s)).

(** The loop over the extension headers of IPv6; the offset of the UDP header,
    or nothing for [-1]. *)
Fixpoint skip_headers (fuel : nat) (data : list byte) (nxt data_offset : Z) (cerr : ostream) : res (option Z * ostream) :=
  match fuel with
  | O => Fail OutOfFuel
  | S fuel =>
    if nxt =? 17 then Ok (Some data_offset, cerr) else
    if negb (nxt =? 0) && negb (nxt =? 43) && negb (nxt =? 60)
    then Ok (None, lit "Not UDP or fragmented; " cerr) else
    nxt ← load data data_offset;
    l ← load data (data_offset + 1);
    let data_offset := data_offset + 8 * (1 + l) in
    if zlen data <? data_offset + 2 then Ok (None, cerr) else skip_headers fuel data nxt data_offset cerr
  end.

(** The offset of the UDP payload with the two addresses. *)
Definition process_ipv4_ipv6 (data : list byte) (cerr : ostream) : res (option (Z * list byte * list byte) * ostream) :=
  if zlen data <? 1 then Ok (None, cerr) else
  d0 ← load data 0;
  let pt := Z.land d0 240 in
  if pt =? 64 then
    let data_offset := Z.land d0 15 * 4 in
    if zlen data <? data_offset then Ok (None, cerr) else
    d9 ← load data 9;
    if negb (d9 =? 17) then Ok (None, lit "Not UDP; " cerr) else
    src ← inet4_addr data 12;
    dst ← inet4_addr data 16;
    Ok (Some (data_offset + 8, src, dst), cerr)
  else if pt =? 96 then
    if zlen data <? 42 then Ok (None, cerr) else
    nxt ← load data 6;
    '(o, cerr) ← skip_headers (S (length data)) data nxt 40 cerr;
    match o with
    | None => Ok (None, cerr)
    | Some data_offset =>
      src ← inet6_addr data 8;
      dst ← inet6_addr data 24;
      Ok (Some (data_offset + 8, src, dst), cerr)
    end
  else Ok (None, cerr).

(** ** The capture loop *)

(** The types [main] accepts; it exits on every other one before the loop. *)
Inductive datalink : Type := DLT_RAW | DLT_NULL | DLT_EN10MB | DLT_LINUX_SLL | DLT_LINUX_SLL2.

Record io : Type := mkIo { cout : ostream; cerr : ostream }.

Definition out (fs : list (ostream -> ostream)) (st : io) : io := mkIo (chain fs (cout st)) (cerr st).
Definition err (fs : list (ostream -> ostream)) (st : io) : io := mkIo (cout st) (chain fs (cerr st)).

Definition malformed : io -> io := err [lit "[INFO] Skipping malformed packet."; chr newline].
Definition non_ip : io -> io := err [lit "[INFO] Skipping non-IP packet."; chr newline].

(** A link header of [hdr_off] bytes with a 16-bit protocol at [i]. *)
Definition ethertype_at (data : list byte) (hdr_off i : Z) (st : io) : res (option Z * io) :=
  if zlen data <? hdr_off then Ok (None, malformed st) else
  a ← load data i; b ← load data (i + 1);
  let pt := Z.lor (Z.shiftl a 8) b in
  if negb (pt =? 2048) && negb (pt =? 34525) then Ok (None, non_ip st) else Ok (Some hdr_off, st).

(** The size of the link header; nothing for a packet that is skipped. *)
Definition link_header (dl_type : datalink) (data : list byte) (st : io) : res (option Z * io) :=
  match dl_type with
  | DLT_NULL =>
      if zlen data <? 4 then Ok (None, malformed st) else
      pt ← load data 3;
      if negb (pt =? 2) && negb (pt =? 24) && negb (pt =? 28) && negb (pt =? 30)
      then Ok (None, non_ip st) else Ok (Some 4, st)
  | DLT_EN10MB => ethertype_at data 14 12 st
  | DLT_LINUX_SLL => ethertype_at data 16 14 st
  | DLT_LINUX_SLL2 => ethertype_at data 20 0 st
  | DLT_RAW => Ok (Some 0, st)
  end.

(** The text for a segment; [r] is what parsing returned. *)
Definition print_segment (src dst : list byte) (r : ParseResult) (seg : TCPSegment) (payload_len : Z) (st : io) : io :=
  let tcp_hdr := TCPSegment.header seg in
  let seqlen := u32 (length_in_sequence_space seg) in
  let st := out [put src; chr (z2b 58); num (sport tcp_hdr); lit " > "; put dst; chr (z2b 58); num (dport tcp_hdr);
    chr newline; lit "    Flags [";
    put (if urg tcp_hdr then bytes "U" else []); put (if psh tcp_hdr then bytes "P" else []);
    put (if rst tcp_hdr then bytes "R" else []); put (if syn tcp_hdr then bytes "S" else []);
    put (if fin tcp_hdr then bytes "F" else []); put (if ack tcp_hdr then bytes "." else []);
    lit "] cksum 0x"; hex; setw 4; num (TCPHeader.cksum tcp_hdr); dec;
    lit (if bool_decide (r = NoError) then " (correct)" else " (incorrect!)");
    lit " seq "; num (raw_value (seqno tcp_hdr))] st in
  let st := if 0 <? seqlen then out [chr (z2b 58); num (raw_value (wi_add (seqno tcp_hdr) seqlen))] st else st in
  out [lit " ack "; num (raw_value (ackno tcp_hdr)); lit " win "; num (win tcp_hdr);
    lit " length "; num payload_len; chr newline] st.

(** One packet.  [string(payload)] throws when the length has wrapped. *)
Definition handle_packet (dl_type : datalink) (data : list byte) (st : io) : res io :=
  '(h, st) ← link_header dl_type data st;
  match h with
  | None => Ok st
  | Some hdr_off =>
    '(o, cerr') ← process_ipv4_ipv6 (zdrop hdr_off data) (cerr st);
    let st := mkIo (cout st) cerr' in
    match o with
    | None => Ok (err [lit "Error parsing IPv4/IPv6 packet. Skipping."; chr newline] st)
    | Some (start_off, src, dst) =>
      let payload_off := hdr_off + start_off in
      let payload_len := u64 (zlen data - payload_off) in
      if M63 - 1 <? payload_len then Fail LengthError else
      payload ← slice data payload_off payload_len;
      '(r, seg) ← TCPSegment.parse tcp_segment_default (of_string payload) 0;
      let st :=
        if Nat.ltb (ParseResult_index BadChecksum) (ParseResult_index r)
        then out [lit "(did not recognize TCP header) src: "; put src; lit " dst: "; put dst; chr newline] st
        else print_segment src dst r seg payload_len st in
      Ok (mkIo (hexdump payload 8 (cout st)) (cerr st))
    end
  end.

(** What [pcap_next_ex] returns: 0, 1 with a packet, -1 and -2. *)
Inductive event : Type :=
  | timeout
  | packet (data : list byte)
  | failure
  | no_more.

(** The loop of [main] and what follows it; without a final event the program
    is still running.  The handle is closed behind the loop, and the text for an
    error is then read from the closed handle. *)
Fixpoint capture (dl_type : datalink) (events : list event) (st : io) : res (option Z * io) :=
  match events with
  | [] => Ok (None, st)
  | timeout :: events => capture dl_type events st
  | packet data :: events => st ← handle_packet dl_type data st; capture dl_type events st
  | failure :: _ => Fail MemoryFault
  | no_more :: _ => Ok (Some EXIT_SUCCESS, st)
  end.

(** What libpcap answers: [errbuf] or a handle, with its link type (nothing
    for the types [main] does not know) and the description of that type, which
    may be a null pointer; the error text when the filter is wrong, or when it
    cannot be set; the packets. *)
Record pcap : Type := mkPcap {
  open_live : list byte + option datalink * option (list byte);
  compile : list byte -> option (list byte);
  setfilter : list byte -> option (list byte);
  next_ex : list event
}.

(** [f_stream << argv[i] << ' '] for the arguments that are left *)
Definition filter_expression (args : list (list byte)) : list byte :=
  printed (concat (map (fun a => [put a; chr space]) args)).

(** Inserting a null pointer into a stream is not allowed. *)
Definition not_null (s : option (list byte)) : res (list byte) :=
  match s with Some s => Ok s | None => Fail MemoryFault end.

Definition dump_main (argv : list (list byte)) (p : option (list byte) -> pcap) (st : io) : res (option Z * io) :=
  o ← parse_arguments argv;
  match o with
  | Exit code text => Ok (Some code, out [put text] st)
  | Return (exp_start, dev) =>
    let st := out match dev with
                  | Some d => [lit "Capturing on interface "; put d]
                  | None => [lit "Capturing on all interfaces"]
                  end st in
    let p := p dev in
    match open_live p with
    | inl errbuf => Ok (Some 1, out [nl; lit "Error initiating capture: "; put errbuf; nl] st)
    | inr (None, description) =>
      d ← not_null description;
      Ok (Some 1, out [nl; lit "Error: unsupported datalink type "; put d; nl] st)
    | inr (Some dl_type, description) =>
      d ← not_null description;
      let st := out [lit " (type: "; put d; lit ")"; nl] st in
      let e := filter_expression (zdrop exp_start argv) in
      let st := out [lit "Using filter expression: "; put e; nl] st in
      match compile p e, setfilter p e with
      | Some geterr, _ => Ok (Some EXIT_FAILURE, out [lit "Error compiling filter expression: "; put geterr; nl] st)
      | None, Some geterr => Ok (Some EXIT_FAILURE, out [lit "Error configuring packet filter: "; put geterr; nl] st)
      | None, None => capture dl_type (next_ex p) (out [setfill (z2b 48)] st)
      end
    end
  end.

(** ** Lemmas *)

Lemma load_ok data i : 0 <= i < zlen data -> exists v, load data i = Ok v /\ 0 <= v < M8.
Proof using.
  intros Hi. unfold load. rewrite (proj2 (Z.leb_le 0 i)) by lia.
  destruct (lookup_lt_is_Some_2 data (Z.to_nat i)) as [b ->]; [unfold zlen in Hi; lia|]. exists (b2z b). split; [done|apply b2z_range].
Qed.

Lemma slice_ok data off n : 0 <= off -> off + n <= zlen data -> slice data off n = Ok (ztake n (zdrop off data)).
Proof using. intros H1 H2. unfold slice. by rewrite !(proj2 (Z.leb_le _ _)) by lia. Qed.

(** The extension headers end: every one is at least 8 bytes. *)
Lemma skip_headers_ok data : forall fuel nxt off ce,
  0 <= off -> off + 2 <= zlen data -> zlen data - off < 8 * Z.of_nat fuel ->
  exists o ce', skip_headers fuel data nxt off ce = Ok (o, ce')
    /\ forall p, o = Some p -> off <= p /\ p + 2 <= zlen data.
Proof using.
  induction fuel as [|fuel IH]; intros nxt off ce H0 H2 Hf; [lia|]. cbn [skip_headers].
  destruct (nxt =? 17). { eexists _, _. split; [done|]. intros p [= <-]. lia. }
  destruct (_ && _). { eexists _, _. by split. }
  destruct (load_ok data off) as (v & -> & _); [lia|]. destruct (load_ok data (off + 1)) as (l & -> & Hl); [lia|].
  cbn [mbind res_bind]. destruct (Z.ltb_spec (zlen data) (off + 8 * (1 + l) + 2)). { eexists _, _. by split. }
  destruct (IH v (off + 8 * (1 + l)) ce) as (o & ce' & -> & Ho); [lia|lia|lia|].
  eexists _, _. split; [done|]. intros p Hp. destruct (Ho p Hp). lia.
Qed.

(** The version and the length fields of the first byte. *)
Definition short_ipv4 (data : list byte) : Prop :=
  exists d0, load data 0 = Ok d0 /\ Z.land d0 240 = 64 /\ Z.land d0 15 < 5.

(** No read is out of range, unless an IPv4 header claims less than 20 bytes;
    the UDP header may be cut. *)
Lemma process_ok data ce :
  ~ short_ipv4 data ->
  exists o ce', process_ipv4_ipv6 data ce = Ok (o, ce')
    /\ forall off s d, o = Some (off, s, d) -> 28 <= off <= zlen data + 8.
Proof using.
  intros Hs. unfold process_ipv4_ipv6. destruct (Z.ltb_spec (zlen data) 1). { eexists _, _. by split. }
  destruct (load_ok data 0) as (d0 & E0 & _); [lia|]. rewrite E0. cbn [mbind res_bind].
  destruct (Z.eqb_spec (Z.land d0 240) 64) as [E|_].
  - assert (5 <= Z.land d0 15). { destruct (Z.lt_ge_cases (Z.land d0 15) 5); [|done]. exfalso. apply Hs. by exists d0. }
    destruct (Z.ltb_spec (zlen data) (Z.land d0 15 * 4)). { eexists _, _. by split. }
    destruct (load_ok data 9) as (d9 & -> & _); [lia|]. cbn [mbind res_bind].
    destruct (negb _). { eexists _, _. by split. }
    unfold inet4_addr. rewrite !slice_ok by lia. cbn [mbind res_bind].
    eexists _, _. split; [done|]. intros off s d [= <- _ _]. lia.
  - destruct (Z.land d0 240 =? 96); [|eexists _, _; by split].
    destruct (Z.ltb_spec (zlen data) 42). { eexists _, _. by split. }
    destruct (load_ok data 6) as (nxt & -> & _); [lia|]. cbn [mbind res_bind].
    destruct (skip_headers_ok data (S (length data)) nxt 40 ce) as (o & ce' & -> & Ho); [lia|lia|unfold zlen; lia|].
    cbn [mbind res_bind]. destruct o as [p|]; [|eexists _, _; by split].
    unfold inet6_addr. rewrite !slice_ok by lia. cbn [mbind res_bind].
    eexists _, _. split; [done|]. intros off s d [= <- _ _]. destruct (Ho p eq_refl). lia.
Qed.

Lemma link_header_ok dl data st :
  exists o st', link_header dl data st = Ok (o, st') /\ forall h, o = Some h -> 0 <= h <= zlen data.
Proof using.
  assert (forall h i, 0 <= i -> i + 1 < h -> exists o st', ethertype_at data h i st = Ok (o, st')
    /\ forall h', o = Some h' -> 0 <= h' <= zlen data) as He.
  { intros h i Hi Hh. unfold ethertype_at. destruct (Z.ltb_spec (zlen data) h). { eexists _, _. by split. }
    destruct (load_ok data i) as (a & -> & _); [lia|]. destruct (load_ok data (i + 1)) as (b & -> & _); [lia|].
    cbn [mbind res_bind]. destruct (_ && _); eexists _, _; (split; [done|]); [done|]. intros h' [= <-]. lia. }
  destruct dl; cbn [link_header]; try (apply He; lia).
  - eexists _, _. split; [done|]. intros h [= <-]. pose proof (zlen_nonneg data). lia.
  - destruct (Z.ltb_spec (zlen data) 4). { eexists _, _. by split. }
    destruct (load_ok data 3) as (a & -> & _); [lia|]. cbn [mbind res_bind].
    destruct (_ && _); eexists _, _; (split; [done|]); [done|]. intros h' [= <-]. lia.
Qed.
End dump.

(** ** The TUN printer (apps/tun.cc) *)

(** One round of the loop: a packet that was read. *)
Definition tun_packet (buffer : list byte) (cout : ostream) : res ostream :=
  let cout := chain [chr newline; chr newline; lit "***"; chr newline; lit "*** Got packet:"; chr newline; lit "***"; chr newline] cout in
  let cout := hexdump buffer 0 cout in
  let cout := lit "attempting to parse as ipv4 datagram... " cout in
  '(r, ip_dgram) ← IPv4Datagram.parse ipv4_datagram_default (of_string buffer);
  if negb (bool_decide (r = NoError)) then Ok (chain [lit "failed."; chr newline] cout) else
  let h := IPv4Datagram.header ip_dgram in
  let cout := chain [lit "success! totlen="; num (len h); lit ", IPv4 header contents:"; chr newline;
    put (ipv4_header_to_string h)] cout in
  if negb (proto h =? PROTO_TCP) then Ok (chain [chr newline; lit "Not TCP, skipping."; chr newline] cout) else
  let cout := chain [chr newline; lit "Attempting to parse as a TCP segment... "] cout in
  buf ← to_buffer (IPv4Datagram.payload ip_dgram);
  '(r, tcp_seg) ← TCPSegment.parse tcp_segment_default buf (pseudo_cksum h);
  if negb (bool_decide (r = NoError)) then Ok (chain [lit "failed."; chr newline] cout) else
  Ok (chain [lit "success! payload len="; num (size (TCPSegment.payload tcp_seg)); lit ", TCP header contents:"; chr newline;
    put (tcp_header_to_string (TCPSegment.header tcp_seg)); chr newline] cout).

(** ** Properties *)

Lemma parse_loop_total argv : forall fuel curr dev,
  1 <= curr <= zlen argv -> zlen argv - curr < Z.of_nat fuel ->
  exists o, parse_loop fuel argv curr dev = Ok o
    /\ (forall c d, o = Return (c, d) -> 1 <= c <= zlen argv) /\ (forall code t, o = Exit code t -> code = 0 \/ code = 1).
Proof.
  intros fuel. induction fuel as [|fuel IH]; intros curr dev Hc Hf; [lia|]. cbn [parse_loop].
  assert (Hq : forall code msg, code = 0 \/ code = 1 -> exists o, quit dump_show_usage argv code msg = Ok o
    /\ (forall c d, o = Return (c, d : option (list byte)) -> 1 <= c <= zlen argv)
    /\ (forall code t, o = Exit code t -> code = 0 \/ code = 1)).
  { intros code msg Hcode. unfold quit. destruct (arg_ok argv 0) as [a0 ->]; [lia|]. cbn [mbind res_bind].
    eexists. split_and!; [done|done|]. by intros ? ? [= <- _]. }
  destruct (Z.leb_spec (zlen argv) curr). { eexists. split_and!; [done| |done]. intros c d [= <- _]. lia. }
  destruct (arg_ok argv curr) as [a ->]; [lia|]. cbn [mbind res_bind]. destruct (strncmp "-i" a 3).
  - destruct (Z.leb_spec (zlen argv) (curr + 1)); [auto|].
    destruct (arg_ok argv (curr + 1)) as [d ->]; [lia|]. cbn [mbind res_bind]. apply IH; lia.
  - destruct (_ || _); [auto|]. eexists. split_and!; [done| |done]. intros c d [= <- _]. lia.
Qed.

(** Every argument that is read exists, the loop ends, and the filter
    expression starts behind the options. *)
Lemma parse_arguments_total argv : 1 <= zlen argv ->
  exists o, parse_arguments argv = Ok o
    /\ (forall curr dev, o = Return (curr, dev) -> 1 <= curr <= zlen argv) /\ (forall code t, o = Exit code t -> code = 0 \/ code = 1).
Proof. intros Hargc. apply parse_loop_total; unfold zlen in *; lia. Qed.

Section safety.
Context (inet_ntop : bool -> list byte -> option (list byte)).

(** A packet whose IPv4 header, if it has one, claims 20 bytes or more; a
    packet that ends before its UDP payload. *)
Definition plain (dl : datalink) (data : list byte) : Prop :=
  zlen data < M31 /\ forall h st st', link_header dl data st = Ok (Some h, st') -> ~ short_ipv4 (zdrop h data).
Definition cut (dl : datalink) (data : list byte) : Prop :=
  exists h st st' off s d ce ce', link_header dl data st = Ok (Some h, st')
    /\ process_ipv4_ipv6 inet_ntop (zdrop h data) ce = Ok (Some (off, s, d), ce') /\ zlen data < h + off.

Lemma handle_packet_safe dl data st : plain dl data ->
  (exists st', handle_packet inet_ntop dl data st = Ok st')
  \/ (handle_packet inet_ntop dl data st = Fail LengthError /\ cut dl data).
Proof using.
  intros [Hlen Hs]. unfold handle_packet. destruct (link_header_ok dl data st) as (o & st' & E & Ho). specialize (fun h => Hs h st st').
  rewrite E in *. cbn [mbind res_bind].
  destruct o as [h|]; [|by eauto]. specialize (Hs h eq_refl). specialize (Ho h eq_refl).
  destruct (process_ok inet_ntop (zdrop h data) (cerr st') Hs) as (o & ce & Ep & Hp). rewrite Ep. cbn [mbind res_bind].
  destruct o as [[[off s] d]|]; [|by eauto]. specialize (Hp off s d eq_refl). rewrite zlen_zdrop in Hp by lia.
  destruct (Z.le_gt_cases (h + off) (zlen data)) as [Hc|Hc].
  - left. rewrite u64_small, (proj2 (Z.ltb_ge _ _)), slice_ok by lia. cbn [mbind res_bind].
    destruct (tcp_parse_total tcp_segment_default (of_string (ztake (zlen data - (h + off)) (zdrop (h + off) data))) 0)
      as (r & seg & -> & _); [|by split|by split|].
    { apply of_string_wf. rewrite zlen_ztake, zlen_zdrop by lia. lia. }
    cbn [mbind res_bind]. eauto.
  - right. assert (u64 (zlen data - (h + off)) = zlen data - (h + off) + M64) as Eu.
    { unfold u64. symmetry. apply (Z.mod_unique _ _ (-1)); lia. }
    rewrite Eu, (proj2 (Z.ltb_lt _ _)) by lia. split; [done|]. by exists h, st, st', off, s, d, (cerr st'), ce.
Qed.

Lemma capture_safe dl : forall events st,
  failure ∉ events -> (forall data, packet data ∈ events -> plain dl data) ->
  (exists code st', capture inet_ntop dl events st = Ok (code, st') /\ (code = None \/ code = Some EXIT_SUCCESS))
  \/ (capture inet_ntop dl events st = Fail LengthError /\ exists data, packet data ∈ events /\ cut dl data).
Proof using.
  induction events as [|e events IH]; intros st Hf Hp; cbn [capture]; [left; eauto|].
  apply not_elem_of_cons in Hf as [He Hf].
  assert (Hp' : forall data, packet data ∈ events -> plain dl data) by (intros data Hd; apply Hp; by right).
  assert (IH' : forall st, (exists code st', capture inet_ntop dl events st = Ok (code, st') /\ (code = None \/ code = Some EXIT_SUCCESS))
    \/ (capture inet_ntop dl events st = Fail LengthError /\ exists data, packet data ∈ e :: events /\ cut dl data)).
  { intros st0. destruct (IH st0 Hf Hp') as [?|(? & data & Hd & ?)]; [by left|right]. split; [done|]. exists data. split; [by right|done]. }
  destruct e as [|data| |]; [done| |done|left; eauto].
  destruct (handle_packet_safe dl data st) as [[st' ->]|[-> Hc]]; [apply Hp; left|apply IH'|].
  right. split; [done|]. exists data. split; [left|done].
Qed.
End safety.

Lemma tun_packet_safe data cout : zlen data < M31 -> exists cout', tun_packet data cout = Ok cout'.
Proof.
  intros Hlen. unfold tun_packet.
  destruct (ipv4_parse_total ipv4_datagram_default (of_string data)) as (r & dg & pb & -> & Hp & Hpb & _);
    [apply of_string_wf; lia|by split|].
  cbn [mbind res_bind]. destruct (negb _); [by eauto|]. destruct (negb _); [by eauto|].
  unfold IPv4Datagram.payload. rewrite Hp. cbn [to_buffer mbind res_bind].
  destruct (tcp_parse_total tcp_segment_default pb (pseudo_cksum (IPv4Datagram.header dg))) as (r' & seg & -> & _);
    [done|by split|by split|]. cbn [mbind res_bind]. destruct (negb _); by eauto.
Qed.

(** What is assumed of a capture: it is not ended by an error, and no IPv4
    header claims to be shorter than 20 bytes. *)
Record captures (p : pcap) : Prop := {
  no_failure : failure ∉ next_ex p;
  plain_packets : forall dl description, open_live p = inr (Some dl, description) ->
    forall data, packet data ∈ next_ex p -> plain dl data
}.

(** C24: udp_tcpdump survives what it captures: for every command line, every
    interface, filter and sequence of packets, on every kind of link, its
    [main] reads nothing outside of [argv] and of the captured bytes and its
    loops end, as long as no IPv4 header claims to be shorter than 20 bytes and
    the capture does not end in an error: it leaves with code 0 or 1 or goes on
    capturing, unless a packet is cut before the end of its UDP header, which
    makes it throw, or libpcap has no description for the link type, when a
    null pointer is printed. *)
Theorem packet_printers_safe (inet_ntop : bool -> list byte -> option (list byte)) (argv : list (list byte))
    (p : option (list byte) -> pcap) (st : io) :
  1 <= zlen argv -> (forall dev, captures (p dev)) ->
  (exists code st', dump_main inet_ntop argv p st = Ok (code, st') /\ (code = None \/ code = Some 0 \/ code = Some 1))
  \/ (dump_main inet_ntop argv p st = Fail LengthError
      /\ exists dev dl description data, open_live (p dev) = inr (Some dl, description)
           /\ packet data ∈ next_ex (p dev) /\ cut inet_ntop dl data)
  \/ (dump_main inet_ntop argv p st = Fail MemoryFault /\ exists dev dl, open_live (p dev) = inr (dl, None)).
Proof.
  intros Hargc Hp. unfold dump_main. destruct (parse_arguments_total argv Hargc) as (o & -> & _ & He). cbn [mbind res_bind].
  destruct o as [code text|[exp_start dev]].
  { left. eexists _, _. split; [done|]. destruct (He code text eq_refl) as [-> | ->]; auto. }
  destruct (Hp dev) as [Hf Hpl]. destruct (open_live (p dev)) as [e|[[dl|] [d|]]] eqn:Eo; cbn [not_null mbind res_bind];
    try (left; eexists _, _; split; [done|]; auto; fail); try (right; right; split; [done|]; eauto; fail).
  destruct (compile _ _) as [e|]; [left; eexists _, _; split; [done|]; auto|].
  destruct (setfilter _ _) as [e|]; [left; eexists _, _; split; [done|]; auto|].
  edestruct (capture_safe inet_ntop dl (next_ex (p dev))) as [(code & st' & E & Hc)|(E & data & Hin & Hcut)]; [done|by eapply Hpl| |].
  - left. exists code, st'. rewrite E. split; [done|]. destruct Hc as [-> | ->]; auto.
  - right; left. rewrite E. split; [done|]. by exists dev, dl, (Some d), data.
Qed.

(** An IPv4 header for UDP, the UDP header and no payload. *)
Definition sample_capture : list byte := [x45] ++ replicate 8 x00 ++ [x11] ++ replicate 18 x00.
Definition sample_io : io := mkIo (stringstream []) (stringstream []).

Definition sample_pcap (dev : option (list byte)) : pcap :=
  mkPcap (inr (Some DLT_RAW, Some (bytes "Raw IP"))) (fun _ => None) (fun _ => None) [timeout; packet sample_capture; no_more].

Lemma packet_printers_safe_witness :
  (exists code st', dump_main (fun _ _ => None) [bytes "udp_tcpdump"; bytes "-i"; bytes "lo"] sample_pcap sample_io = Ok (code, st')
     /\ (code = None \/ code = Some 0 \/ code = Some 1))
  \/ dump_main (fun _ _ => None) [bytes "udp_tcpdump"; bytes "-i"; bytes "lo"] sample_pcap sample_io = Fail LengthError.
Proof.
  destruct (packet_printers_safe (fun _ _ => None) [bytes "udp_tcpdump"; bytes "-i"; bytes "lo"] sample_pcap sample_io) as [H|[[H _]|[_ H]]].
  - vm_compute. done.
  - intros dev. split.
    + intros H. cbn [sample_pcap next_ex] in H. repeat apply elem_of_cons in H as [H|H]; try discriminate H. by apply not_elem_of_nil in H.
    + intros dl d [= <- _] data H. assert (data = sample_capture) as ->.
      { cbn [sample_pcap next_ex] in H. repeat apply elem_of_cons in H as [H|H]; try discriminate H; [by injection H|].
        by apply not_elem_of_nil in H. }
      split; [vm_compute; done|]. intros h st st' E. injection E as <- _. intros (d0 & E0 & _ & H0).
      vm_compute in E0. injection E0 as <-. vm_compute in H0. done.
  - by left.
  - by right.
  - destruct H as (dev & dl & H). discriminate H.
Defined.

(** The description of a link type that libpcap does not know is a null
    pointer, and it is printed. *)
Theorem null_description_printed (inet_ntop : bool -> list byte -> option (list byte)) (prog : list byte) (dl : option datalink)
    (c f : list byte -> option (list byte)) (l : list event) (st : io) :
  dump_main inet_ntop [prog] (fun _ => mkPcap (inr (dl, None)) c f l) st = Fail MemoryFault.
Proof. by destruct dl. Qed.

(** After an error the text is read from the closed handle. *)
Theorem error_text_after_close (inet_ntop : bool -> list byte -> option (list byte)) (dl : datalink) (st : io) :
  capture inet_ntop dl [failure] st = Fail MemoryFault.
Proof. done. Qed.

(** An IPv4 header that claims to be shorter than 20 bytes is not rejected: the
    protocol and the addresses are read beyond the end of the packet. *)
Theorem short_header_read_outside (st : io) : handle_packet (fun _ _ => None) DLT_RAW [x40] st = Fail MemoryFault.
Proof. done. Qed.

(** A packet that ends with its IPv4 header: the length of the payload wraps
    around, and the exception ends the program. *)
Theorem cut_packet_throws (st : io) :
  handle_packet (fun _ _ => None) DLT_RAW (ztake 20 sample_capture) st = Fail LengthError.
Proof. done. Qed.

(** For a segment with a wrong checksum the printed header is the default one,
    whatever the packet holds: the parser stops before the header. *)
Theorem bad_checksum_shows_default (payload : list byte) :
  value (add (internet_checksum 0) payload) <> 0 ->
  TCPSegment.parse tcp_segment_default (of_string payload) 0 = Ok (BadChecksum, tcp_segment_default).
Proof. intros Hv. unfold TCPSegment.parse. rewrite str_of_string. by rewrite (proj2 (Z.eqb_neq _ _)) by done. Qed.
