(* ===== verification/WebGet.v ===== *)
(** * The web client (get_URL of apps/webget.cc)

    The request is formatted into an array of 1024 bytes and written to the
    socket, whose writing end is then shut down; the response is read up to the
    end of file.  The socket is the application's end of the socket pair of a
    CS144TCPSocket (TCPSpongeSocket.v), connected already. *)

From Stdlib Require Import ZArith Lia.
From S2P Require Import Prelude Buffer Kernel FileDescriptor Socket Address Printing.

Definition kBufferSize : Z := 1024.
Definition crlf : list byte := [x0d; x0a].

(** The text of the format with its two arguments. *)
Definition formatted (host path : list byte) : list byte :=
  bytes "GET " ++ c_str path ++ bytes " HTTP/1.1" ++ crlf ++ bytes "Host: " ++ c_str host ++ crlf
  ++ bytes "Connection: close" ++ crlf ++ crlf.

(** [snprintf] keeps what fits in front of the terminating NUL; the array is
    then read as a C string. *)
Definition req_str (host path : list byte) : list byte := c_str (ztake (kBufferSize - 1) (formatted host path)).

Section webget.
Context {K : Type} `{Kernel K}.

(** [while (!tcp_sock.eof())]: [fuel] bounds the number of reads, which only
    the peer determines. *)
Fixpoint read_all (fuel : nat) (tcp_sock : FileDescriptor) (resp : list byte) : M (sys K) (list byte) :=
  match fuel with
  | O => lift (Fail OutOfFuel)
  | S fuel =>
    e ← FileDescriptor.eof tcp_sock;
    if e : bool then mret resp else
    data ← FileDescriptor.read tcp_sock (M64 - 1);
    read_all fuel tcp_sock (resp ++ data)
  end.

Definition get_URL (fuel : nat) (tcp_sock : FileDescriptor) (host path : list byte) : M (sys K) (list byte) :=
  _ ← write_string tcp_sock (req_str host path) true;
  _ ← shutdown tcp_sock SHUT_WR;
  read_all fuel tcp_sock [].
End webget.

(** ** Lemmas *)

Section lemmas.
Context {K : Type} `{KernelLaws K}.

Lemma read_all_spec h fuel : forall resp (s : sys K) w,
  wrappers s !! h = Some w ->
  match read_all fuel h resp s with
  | Ok (resp', s') => exists l w', resp' = resp ++ l /\ wrappers s' !! h = Some w' /\ _eof w' = true
      /\ (forall fd, consumed (kern s') fd = consumed (kern s) fd ++ if _fd w =? fd then l else [])
      /\ (forall fd, produced (kern s') fd = produced (kern s) fd)
  | Fail f => f = TaggedError \/ f = OutOfFuel
  end.
Proof.
  induction fuel as [|fuel IH]; intros resp s w Hw; cbn [read_all]; [by right|].
  unfold FileDescriptor.eof. rewrite (M_bind_Ok _ _ s (_eof w) s) by (by rewrite (M_bind_Ok _ _ _ _ _ (deref_Some _ _ _ Hw))).
  destruct (_eof w) eqn:Ee.
  - exists [], w. rewrite app_nil_r. split_and!; try done. intros fd. destruct (_ =? fd); by rewrite app_nil_r.
  - pose proof (fd_read_spec h (M64 - 1) s w Hw ltac:(lia)) as Hr. unfold mbind, M_bind.
    destruct (FileDescriptor.read h (M64 - 1) s) as [[data s1]|f]; [|by left].
    destruct Hr as [_ (k & -> & _ & Hc & Hp)]. set (w1 := did_read _ w).
    specialize (IH (resp ++ data) (set_wrapper h w1 (set_kern k s)) w1 (lookup_insert_eq _ _ _)).
    destruct (read_all fuel h (resp ++ data) _) as [[resp' s']|f]; [|done].
    destruct IH as (l & w' & -> & Hw' & He & Hc' & Hp'). exists (data ++ l), w'. rewrite app_assoc.
    split_and!; try done; intros fd; cbn [kern set_wrapper set_kern] in *.
    + rewrite Hc', Hc. change (_fd w1) with (_fd w). by destruct (_fd w =? fd); rewrite <-app_assoc.
    + by rewrite Hp', Hp.
Qed.

Lemma c_str_prefix n s : c_str (ztake n (c_str s)) = ztake n (c_str s).
Proof.
  apply c_str_id. pose proof (printable_c_str s) as Hp. unfold printable in Hp. unfold ztake. by apply Forall_take.
Qed.

Lemma formatted_printable host path : printable (formatted host path).
Proof.
  unfold formatted. repeat (apply Forall_app; split); first [apply printable_c_str|by repeat constructor].
Qed.
End lemmas.

Lemma req_str_eq host path : req_str host path = ztake (kBufferSize - 1) (formatted host path).
Proof.
  unfold req_str. apply c_str_id. pose proof (formatted_printable host path) as Hp. unfold printable in Hp.
  unfold ztake. by apply Forall_take.
Qed.

(** ** Properties *)

Section properties.
Context {K : Type} `{KernelLaws K}.

(** A fetch is an exact exchange: when [get_URL] returns, the descriptor was
    given the request and nothing else, however the kernel cut the writes, and
    what it returns are all the bytes read from the descriptor, up to the end
    of file; other descriptors are not touched.  It fails only when a system
    call fails or takes nothing. *)
Theorem get_URL_exact (s : sys K) (h : FileDescriptor) (w : FDWrapper) (host path : list byte) (fuel : nat)
    (Hh : wrappers s !! h = Some w) :
  match get_URL fuel h host path s with
  | Ok (resp, s') =>
      (forall fd, produced (kern s') fd = produced (kern s) fd ++ if _fd w =? fd then req_str host path else [])
      /\ (forall fd, consumed (kern s') fd = consumed (kern s) fd ++ if _fd w =? fd then resp else [])
      /\ exists w', wrappers s' !! h = Some w' /\ _eof w' = true
  | Fail f => f = TaggedError \/ f = RuntimeError \/ f = OutOfFuel
  end.
Proof.
  unfold get_URL. pose proof (fd_write_spec h (views_of_string (req_str host path)) true s w Hh) as Hw.
  change (concat (views_of_string (req_str host path))) with (req_str host path ++ []) in Hw. rewrite app_nil_r in Hw.
  assert (zlen (req_str host path) < M63) as Hl.
  { rewrite req_str_eq. unfold zlen, ztake. rewrite length_take. unfold kBufferSize. lia. }
  specialize (Hw Hl). unfold write_string. unfold mbind, M_bind.
  destruct (FileDescriptor.write h _ true s) as [[n s1]|f].
  2:{ destruct Hw as (? & ? & [[-> _]|[-> _]]); [by left|by right; left]. }
  destruct Hw as (_ & _ & Hn & j & _ & _ & k & -> & _ & Hp & Hc). rewrite (Hn eq_refl) in Hp.
  set (w1 := wrote j w). rewrite (shutdown_spec h SHUT_WR _ w1) by (apply lookup_insert_eq || (apply list_elem_of_In; cbn; tauto)).
  cbn zeta. cbn [kern set_wrapper set_kern].
  pose proof (produced_by _ (Shutdown (_fd w1) SHUT_WR) k) as Hps.
  pose proof (consumed_by _ (Shutdown (_fd w1) SHUT_WR) k) as Hcs.
  destruct (answer (Shutdown (_fd w1) SHUT_WR) k) as [r k2]. cbn [fst snd] in *. cbn in Hps, Hcs.
  destruct (0 <=? rv r); [|by left].
  match goal with |- match read_all _ _ _ ?st with _ => _ end => set (s2 := st) end.
  pose proof (read_all_spec h fuel [] s2 (wrote 1 w1) (lookup_insert_eq _ _ _)) as Hr.
  destruct (read_all fuel h [] s2) as [[resp s']|f]; [|by destruct Hr; auto].
  destruct Hr as (l & w' & -> & Hw' & He & Hc' & Hp'). split_and!; [| |by exists w'].
  - intros fd. rewrite Hp'. cbn [kern s2 set_wrapper set_kern]. rewrite Hps, app_nil_r, Hp.
    destruct (_fd w =? fd); [|done]. f_equal. unfold ztake, zlen. rewrite Nat2Z.id. apply take_ge. lia.
  - intros fd. rewrite Hc'. cbn [kern s2 set_wrapper set_kern]. by rewrite Hcs, app_nil_r, Hc.
Qed.
End properties.

(** A request is sent whole only if host and path leave room for it; a longer
    one is cut, without the empty line that ends it. *)
Theorem request_whole (host path : list byte) :
  req_str host path = formatted host path <-> zlen (c_str path) + zlen (c_str host) < 980.
Proof.
  rewrite req_str_eq. assert (zlen (formatted host path) = zlen (c_str path) + zlen (c_str host) + 44) as Hl.
  { unfold formatted. rewrite !zlen_app. repeat match goal with |- context [zlen (bytes ?s)] =>
      let k := eval vm_compute in (zlen (bytes s)) in change (zlen (bytes s)) with k end.
    change (zlen crlf) with 2. lia. }
  unfold kBufferSize. split.
  - intros E. apply (f_equal zlen) in E. rewrite zlen_ztake in E by lia. lia.
  - intros Hs. unfold ztake, zlen in *. apply take_ge. lia.
Qed.

(** Descriptor 5 takes 64 bytes at a time; "ok" waits at it. *)
Definition sample_web : sys machine :=
  mkSys (mkMachine {[ 5 := [x6f; x6b] ]} ∅ ∅ [] 64 0) {[ 7 := mkFDWrapper 5 false false 0 0 ]} {[ 7 := 1 ]} 8.

Lemma sample_fetch :
  match get_URL 4 7 (bytes "h") (bytes "/") sample_web with
  | Ok (resp, s') => resp = [x6f; x6b] /\ produced (kern s') 5 = req_str (bytes "h") (bytes "/")
  | Fail _ => False
  end.
Proof. vm_compute. by split. Qed.
