(* ===== verification/Startup.v ===== *)
(** * Opening descriptors and devices

    What the constructors of libsponge/util/socket.cc and tun.cc, of the
    datagram adapters and of TCPSpongeSocket leave behind, for every kernel:
    which handles they make, that they move no bytes, and that they fail only
    with an exception.  The programs of src/apps start with them. *)

From Stdlib Require Import ZArith Lia.
From S2P Require Import Prelude Buffer Ethernet Address TCPOverIP NetworkInterface Kernel FileDescriptor EventLoop Socket DatagramAdapters TCPSpongeSocket StreamCopy Printing CommandLine.

Lemma stops_thrown f : is_exception f \/ f = PollError -> thrown f = true.
Proof. intros [Hf| ->]; [by destruct f|done]. Qed.

(** ** Descriptors *)

Section startup.
Context {K : Type} `{HK : KernelLaws K}.

(** Some calls, none of which moves bytes. *)
Definition silent (k k' : K) : Prop :=
  reaches k k' /\ forall fd, consumed k' fd = consumed k fd /\ produced k' fd = produced k fd.

#[export] Instance silent_preorder : PreOrder silent.
Proof.
  split.
  - intros k. split; [constructor|done].
  - intros k1 k2 k3 [R1 S1] [R2 S2]. split; [by eapply calls_trans|]. intros fd. destruct (S2 fd) as [-> ->]. apply S1.
Qed.

Lemma silent_call {R} (c : syscall R) k :
  (forall fd, bytes_in c fd (answer c k).1 = [] /\ bytes_out c fd (answer c k).1 = []) -> silent k (answer c k).2.
Proof.
  intros Hc. split; [apply reaches_once|]. intros fd. destruct (Hc fd) as [E1 E2].
  by rewrite consumed_by, produced_by, E1, E2, !app_nil_r.
Qed.

(** The memory after [FileDescriptor{fd}]. *)
Definition opened (fd : Z) (s : sys K) : sys K :=
  mkSys (kern s) (<[next_ptr s := mkFDWrapper fd false false 0 0]> (wrappers s))
    (<[next_ptr s := 1]> (use_count s)) (next_ptr s + 1).

(** The memory [s'] is [s] after silent calls. *)
Definition called (s s' : sys K) : Prop := exists k, s' = set_kern k s /\ silent (kern s) k.

#[export] Instance called_preorder : PreOrder called.
Proof.
  split.
  - intros s. exists (kern s). split; [by destruct s|done].
  - intros s1 s2 s3 (k2 & -> & S2) (k3 & -> & S3). exists k3. split; [done|]. by transitivity k2.
Qed.

Lemma called_wrappers s s' : called s s' -> wrappers s' = wrappers s.
Proof. by intros (k & -> & _). Qed.
Lemma called_ptr s s' : called s s' -> next_ptr s' = next_ptr s.
Proof. by intros (k & -> & _). Qed.
Lemma called_opened fd s s' : called s s' -> called (opened fd s) (opened fd s').
Proof. intros (k & -> & Hk). by exists k. Qed.
Lemma opened_lookup fd s : wrappers (opened fd s) !! next_ptr s = Some (mkFDWrapper fd false false 0 0).
Proof. apply lookup_insert_eq. Qed.


(** A checked call that moves no bytes. *)
Lemma wp_checked (c : syscall sysret) s :
  status c = (fun r => r) -> (forall fd r, bytes_in c fd r = [] /\ bytes_out c fd r = []) ->
  wp (checked c) (fun v s' => (0 <= v /\ v = rv (answer c (kern s)).1) /\ called s s') is_exception s.
Proof.
  intros Hs Hb. unfold wp. rewrite checked_spec by done. cbn zeta. destruct (Z.leb_spec 0 (rv (answer c (kern s)).1)); [|done].
  split; [done|]. eexists. split; [done|]. by apply silent_call.
Qed.

Lemma wp_fd_call h x (c : Z -> syscall sysret) s :
  wrappers s !! h = Some x -> (forall fd, status (c fd) = (fun r => r)) ->
  (forall n fd r, bytes_in (c n) fd r = [] /\ bytes_out (c n) fd r = []) ->
  wp (fd ← fd_num h; _ ← checked (c fd); mret tt) (fun _ s' => called s s') is_exception s.
Proof.
  intros Hx Hs Hb. apply wp_bind. eapply wp_Ok; [by apply fd_num_Some|]. apply wp_bind.
  eapply wp_mono; [by apply wp_checked| |done]. intros v s' [_ Hc]. by apply wp_ret.
Qed.

Lemma wp_new fd s : 0 <= fd -> wp (new fd) (fun h s' => h = next_ptr s /\ s' = opened fd s) is_exception s.
Proof. intros Hfd. unfold wp, new, wrapper_new. by rewrite (proj2 (Z.ltb_ge _ _)) by done. Qed.

Lemma wp_verify h x option expected s :
  wrappers s !! h = Some x -> wp (verify_option h option expected) (fun _ s' => called s s') is_exception s.
Proof.
  intros Hx. apply wp_bind. eapply wp_Ok; [by apply fd_num_Some|]. apply wp_bind. unfold wp at 1, call.
  pose proof (silent_call (Getsockopt (_fd x) SOL_SOCKET option) (kern s)) as Hk.
  destruct (answer _ (kern s)) as [[r [v l]] k]. cbn in Hk. apply wp_bind, wp_lift.
  unfold SystemCall. destruct (_ || _); [|done]. cbn. destruct (_ || _); [done|]. exists k. split; [done|]. by apply Hk.
Qed.

Lemma wp_socket_of_fd h x domain type s :
  wrappers s !! h = Some x -> wp (socket_of_fd h domain type) (fun h' s' => h' = h /\ called s s') is_exception s.
Proof.
  intros Hx. apply wp_bind. eapply wp_mono; [by eapply wp_verify| |done]. intros ? s1 H1. apply wp_bind.
  eapply wp_mono; [eapply (wp_verify _ x); by rewrite (called_wrappers _ _ H1)| |done]. intros ? s2 H2.
  apply wp_ret. split; [done|]. by transitivity s1.
Qed.

Lemma wp_socket_new domain type s :
  wp (socket_new domain type) (fun h s' => h = next_ptr s
    /\ exists fd, (0 <= fd /\ fd = rv (answer (Socket domain type) (kern s)).1) /\ called (opened fd s) s') is_exception s.
Proof.
  apply wp_bind. eapply wp_mono; [by apply wp_checked| |done]. intros fd s1 [Hfd H1].
  eapply wp_mono; [apply wp_new, Hfd| |done]. intros h s2 [-> ->]. split; [by apply called_ptr|].
  exists fd. split; [done|]. by apply called_opened.
Qed.

Lemma wp_tuntap_new devname is_tun s :
  wp (tuntap_new devname is_tun) (fun h s' => h = next_ptr s /\ exists fd, 0 <= fd /\ called (opened fd s) s') is_exception s.
Proof.
  apply wp_bind. eapply wp_mono; [by apply wp_checked| |done]. intros fd s1 [Hfd H1]. apply wp_bind.
  eapply wp_mono; [apply wp_new, Hfd| |done]. intros h s2 [-> ->]. apply wp_bind.
  eapply wp_Ok; [apply fd_num_Some, opened_lookup|]. apply wp_bind.
  eapply wp_mono; [by apply wp_checked| |done]. intros v s2 [_ H2]. apply wp_ret. split; [by apply called_ptr|].
  exists fd. split; [apply Hfd|]. transitivity (opened fd s1); [by apply called_opened|done].
Qed.

Lemma wp_nonblocking h x b s :
  wrappers s !! h = Some x -> wp (set_blocking h b) (fun _ s' => called s s') is_exception s.
Proof.
  intros Hx. apply wp_bind. eapply wp_Ok; [by apply fd_num_Some|]. apply wp_bind.
  eapply wp_mono; [by apply wp_checked| |done]. intros v s1 [_ H1]. set (flags := if b then _ else _). apply wp_bind.
  eapply wp_mono; [by apply wp_checked| |done]. intros v' s2 [_ H2]. apply wp_ret. by transitivity s1.
Qed.

(** ** The socket pair *)

Lemma wp_socket_pair s :
  wp (socket_pair_helper SOCK_STREAM) (fun '(h0, h1) s' => h0 = next_ptr s /\ h1 = next_ptr s + 1
    /\ exists fd0 fd1, called (opened fd1 (opened fd0 s)) s') is_exception s.
Proof.
  apply wp_bind. unfold wp at 1, call.
  pose proof (silent_call (Socketpair AF_UNIX SOCK_STREAM) (kern s)) as Hk.
  destruct (answer _ (kern s)) as [[r [fd0 fd1]] k]. cbn in Hk. apply wp_bind, wp_lift.
  unfold SystemCall. destruct (_ || _); [|done]. cbn [throws]. apply wp_bind. unfold wp at 1, new, wrapper_new.
  destruct (fd0 <? 0); [done|]. cbn [mbind res_bind]. apply wp_bind. unfold wp at 1, wrapper_new.
  destruct (fd1 <? 0); [done|]. cbn [mbind res_bind]. apply wp_ret. cbn. split_and!; [done|done|].
  exists fd0, fd1, k. split; [done|]. by apply Hk.
Qed.

(** A new socket: its two ends are the next two handles. *)
Lemma wp_sponge_socket_new {T} `{!DatagramAdapter K T} (t : T) s :
  wp (sponge_socket_new t) (fun sk s' => sk = mkTCPSpongeSocket (next_ptr s) (next_ptr s + 1) t None false false false false false
    /\ exists fd0 fd1, called (opened fd1 (opened fd0 s)) s') is_exception s.
Proof.
  apply wp_bind. eapply wp_mono; [apply wp_socket_pair| |done]. intros [h0 h1] s1 (-> & -> & fd0 & fd1 & H1).
  assert (L0 : forall s', called (opened fd1 (opened fd0 s)) s' ->
    wrappers s' !! next_ptr s = Some (mkFDWrapper fd0 false false 0 0)
    /\ wrappers s' !! (next_ptr s + 1) = Some (mkFDWrapper fd1 false false 0 0)).
  { intros s' Hs'. rewrite (called_wrappers _ _ Hs'). cbn. rewrite lookup_insert_ne by lia. by rewrite !lookup_insert_eq. }
  apply wp_bind. eapply wp_mono; [eapply wp_socket_of_fd, L0, H1| |done]. intros h s2 [-> H2].
  assert (called (opened fd1 (opened fd0 s)) s2) as H2' by (by transitivity s1).
  apply wp_bind. eapply wp_mono; [eapply wp_socket_of_fd, L0, H2'| |done]. intros h s3 [-> H3].
  assert (called (opened fd1 (opened fd0 s)) s3) as H3' by (by transitivity s2).
  apply wp_bind. eapply wp_mono; [eapply wp_nonblocking, L0, H3'| |done]. intros u s4 H4.
  apply wp_ret. split; [done|]. exists fd0, fd1. by transitivity s3.
Qed.

(** ** The adapters *)

(** The handle [h] is new, and what happened since concerns only it. *)
Definition acquired (h : FileDescriptor) (s s' : sys K) : Prop :=
  h = next_ptr s /\ exists fd s1, called (opened fd s) s1 /\ only h s1 s'.

Lemma acquired_called fd s s' : called (opened fd s) s' -> acquired (next_ptr s) s s'.
Proof.
  intros Hc. split; [done|]. exists fd, s'. split; [done|]. eapply only_refl. rewrite (called_wrappers _ _ Hc). apply opened_lookup.
Qed.

Lemma acquired_facts h s s' : acquired h s s' ->
  h = next_ptr s /\ next_ptr s' = next_ptr s + 1 /\ use_count s' = <[h := 1]> (use_count s)
  /\ reaches (kern s) (kern s')
  /\ exists x, wrappers s' !! h = Some x
     /\ forall fd, fd <> _fd x -> consumed (kern s') fd = consumed (kern s) fd /\ produced (kern s') fd = produced (kern s) fd.
Proof.
  intros (-> & fd & s1 & (k & -> & Hr & Hk) & (Hu & Hn) & Hr' & _ & x & x' & Hx & Hx' & Hf & Hio).
  cbn in *. split_and!; [done|done|done|by eapply calls_trans|].
  exists x'. split; [done|]. intros n Hne. rewrite Hf in Hne. destruct (Hio n Hne) as [-> ->]. apply Hk.
Qed.

End startup.
