(* ===== verification/NativePrograms.v ===== *)
(** * The programs without a TCPSpongeSocket (src/apps/tcp_native.cc, tun.cc)

    tcp_native copies between the terminal and a TCP socket of the kernel; tun
    prints what it reads from a TUN device. *)

From Stdlib Require Import ZArith Lia.
From S2P Require Import Prelude ByteStream Buffer Address Kernel FileDescriptor EventLoop Socket DatagramAdapters StreamCopy Printing Usage CommandLine PacketDump Startup.

Section native.
Context {K : Type} `{Kernel K} `{Libc}.
Context (what : fault -> list byte).

(** The function literal of [main]: in server mode, exactly one connection. *)
Definition native_socket (server_mode : bool) (argv : list (list byte)) : M (sys K) FileDescriptor :=
  if server_mode then
    listening_socket ← socket_new AF_INET SOCK_STREAM;
    _ ← set_reuseaddr listening_socket;
    host ← lift (arg argv 2);
    port ← lift (arg argv 3);
    address ← lift (of_hostname host port);
    _ ← bind listening_socket address;
    _ ← Socket.listen listening_socket 16;
    socket ← accept listening_socket;
    _ ← release listening_socket;
    mret socket
  else
    connecting_socket ← socket_new AF_INET SOCK_STREAM;
    host ← lift (arg argv 1);
    port ← lift (arg argv 2);
    address ← lift (of_hostname host port);
    _ ← Socket.connect connecting_socket address;
    mret connecting_socket.

(** [main]; the loop of the copy has [fuel] rounds.  The result tells whether
    the copy is over: then the program leaves with [EXIT_SUCCESS]. *)
Definition native_main (fuel : nat) (argv : list (list byte)) (w : world K copier) : res (progress (bool * world K copier)) :=
  tried (exception_text what) (
    argv0 ← arg argv 0;
    server_mode ← (if zlen argv <? 3 then Ok false else a ← arg argv 1; Ok (strncmp "-l" a 3));
    if (zlen argv <? 3) || (server_mode && (zlen argv <? 4)) then Ok (Left EXIT_FAILURE (native_show_usage argv0)) else
    '(socket, s) ← native_socket server_mode argv w.1;
    '(over, (s, c)) ← bidirectional_stream_copy fuel socket (s, w.2);
    if over : bool then '(_, s) ← release socket s; Ok (Went (true, (s, c)))
    else Ok (Went (false, (s, c)))).

(** tun: [while (true)], of which [fuel] rounds are run. *)
Fixpoint tun_loop (fuel : nat) (tun : FileDescriptor) (cout : ostream) : M (sys K) ostream :=
  match fuel with
  | O => mret cout
  | S fuel =>
    buffer ← FileDescriptor.read tun SIZE_MAX;
    cout ← lift (tun_packet buffer cout);
    tun_loop fuel tun cout
  end.

Definition tun_main (fuel : nat) (cout : ostream) (s : sys K) : res (progress (ostream * sys K)) :=
  tried (exception_text what) (
    '(tun, s) ← tuntap_new (bytes "tun144") true s;
    '(cout, s) ← tun_loop fuel tun cout s;
    Ok (Went (cout, s))).
End native.

(** ** Lemmas *)

Section lemmas.
Context {K : Type} `{HK : KernelLaws K} `{Libc}.

(** The kernel answered a call with [v]. *)
Definition answered (c : syscall sysret) (k : K) (v : Z) (k' : K) : Prop :=
  0 <= v /\ v = rv (answer c k).1 /\ k' = (answer c k).2.

(** The address that two arguments name. *)
Definition resolved (argv : list (list byte)) (i j : Z) (a : Address) : Prop :=
  exists host port, arg argv i = Ok host /\ arg argv j = Ok port /\ of_hostname host port = Ok a.

(** [sfd] is a new TCP socket, connected to the address of the first two
    arguments. *)
Definition connects (argv : list (list byte)) (k : K) (sfd : Z) : Prop :=
  exists a k1 v k2, answered (Socket AF_INET SOCK_STREAM) k sfd k1 /\ resolved argv 1 2 a
    /\ answered (Connect sfd (sockaddr a)) k1 v k2.

(** [sfd] is the first connection of a new TCP socket that is bound to the
    address of the second and third argument and listens. *)
Definition accepts (argv : list (list byte)) (k : K) (sfd : Z) : Prop :=
  exists lfd a k1 v2 k2 v3 k3 v4 k4 k5, answered (Socket AF_INET SOCK_STREAM) k lfd k1
    /\ answered (Setsockopt lfd SOL_SOCKET SO_REUSEADDR 1) k1 v2 k2 /\ resolved argv 2 3 a
    /\ answered (Bind lfd (sockaddr a)) k2 v3 k3 /\ answered (Listen lfd 16) k3 v4 k4 /\ answered (Accept lfd) k4 sfd k5.

Definition made_by (server_mode : bool) (argv : list (list byte)) : K -> Z -> Prop :=
  if server_mode then accepts argv else connects argv.

(** A socket that the program alone holds, [made] without moving bytes. *)
Definition holds_socket (made : K -> Z -> Prop) (s : sys K) (h : FileDescriptor) (s' : sys K) : Prop :=
  (exists x, wrappers s' !! h = Some x /\ 1 < _fd x /\ made (kern s) (_fd x)) /\ h < next_ptr s' /\ holds [h] s'
  /\ forall fd, consumed (kern s') fd = consumed (kern s) fd /\ produced (kern s') fd = produced (kern s) fd.

(** The numbers 0 and 1 are in use: no new descriptor has one of them. *)
Definition terminal_open : Prop := forall k,
  (forall domain type, 0 <= rv (answer (Socket domain type) k).1 -> 1 < rv (answer (Socket domain type) k).1)
  /\ forall fd, 0 <= rv (answer (Accept fd) k).1 -> 1 < rv (answer (Accept fd) k).1.

Lemma wp_answered (c : syscall sysret) s :
  status c = (fun r => r) -> (forall fd r, bytes_in c fd r = [] /\ bytes_out c fd r = []) ->
  wp (checked c) (fun v s' => answered c (kern s) v (kern s') /\ called s s') is_exception s.
Proof.
  intros Hs Hb. unfold wp. rewrite checked_spec by done. cbn zeta. destruct (Z.leb_spec 0 (rv (answer c (kern s)).1)); [|done].
  split; [done|]. eexists. split; [done|]. by apply silent_call.
Qed.

Lemma wp_fd_answered h x (c : Z -> syscall sysret) s :
  wrappers s !! h = Some x -> (forall fd, status (c fd) = (fun r => r)) ->
  (forall n fd r, bytes_in (c n) fd r = [] /\ bytes_out (c n) fd r = []) ->
  wp (fd ← fd_num h; _ ← checked (c fd); mret tt)
    (fun _ s' => (exists v, answered (c (_fd x)) (kern s) v (kern s')) /\ called s s') is_exception s.
Proof.
  intros Hx Hs Hb. apply wp_bind. eapply wp_Ok; [by apply fd_num_Some|]. apply wp_bind.
  eapply wp_mono; [by apply wp_answered| |done]. intros v s' [Ha Hc]. apply wp_ret. by split; [exists v|].
Qed.

(** A new TCP socket. *)
Lemma wp_new_socket s :
  wp (socket_new AF_INET SOCK_STREAM) (fun h s' => h = next_ptr s
    /\ exists fd, answered (Socket AF_INET SOCK_STREAM) (kern s) fd (kern s') /\ called (opened fd s) s') is_exception s.
Proof.
  apply wp_bind. eapply wp_mono; [by apply wp_answered| |done]. intros fd s1 [Ha H1].
  eapply wp_mono; [apply wp_new, Ha| |done]. intros h s2 [-> ->]. split; [by apply called_ptr|].
  exists fd. split; [exact Ha|]. by apply called_opened.
Qed.

Lemma wp_resolve {B} i j argv (f : Address -> M (sys K) B) (Q : B -> sys K -> Prop) s :
  0 <= i < zlen argv -> 0 <= j < zlen argv -> (forall a, resolved argv i j a -> wp (f a) Q is_exception s) ->
  wp (host ← lift (arg argv i); port ← lift (arg argv j); address ← lift (of_hostname host port); f address) Q is_exception s.
Proof.
  intros Hi Hj Hf. destruct (arg_ok argv i Hi) as [host Eh], (arg_ok argv j Hj) as [port Ep].
  assert (throws (of_hostname host port) (fun _ => True)) as Ht.
  { unfold of_hostname, resolve. destruct (getaddrinfo _ _ _) as [e l]. destruct (negb _); [done|]. destruct l; [done|].
    eapply throws_mono; [apply of_sockaddr_throws|done]. }
  rewrite Eh, Ep. apply wp_bind, wp_lift, wp_bind, wp_lift, wp_bind, wp_lift.
  destruct (of_hostname host port) as [a|f'] eqn:Ea; [|exact Ht]. apply Hf. by exists host, port.
Qed.

Lemma holds_opened made fd s s' : 1 < fd -> made (kern s) fd -> called (opened fd s) s' -> holds_socket made s (next_ptr s) s'.
Proof.
  intros Hfd Hm (k & -> & Hk). split_and!.
  - exists (mkFDWrapper fd false false 0 0). split; [apply lookup_insert_eq|done].
  - cbn. lia.
  - intros h Hh. apply list_elem_of_singleton in Hh as ->. exists 1. cbn. rewrite lookup_insert_eq. split; [done|].
    destruct (Z.eq_dec _ _); done.
  - apply Hk.
Qed.

Lemma wp_native_client argv s : terminal_open -> 3 <= zlen argv ->
  wp (native_socket false argv) (holds_socket (connects argv) s) is_exception s.
Proof.
  intros Ht Hl. apply wp_bind. eapply wp_mono; [apply wp_new_socket| |done]. intros h s1 (-> & fd & Ha & H1).
  apply wp_resolve; [lia|lia|]. intros a Hr. apply wp_bind.
  eapply wp_mono; [eapply (wp_fd_answered _ _ (fun fd => Connect fd _)); [|done|done]| |done].
  - rewrite (called_wrappers _ _ H1). apply opened_lookup.
  - intros ? s2 [(v & Hv) H2]. apply wp_ret. apply (holds_opened _ fd); [| |by transitivity s1].
    + destruct Ha as (? & Er & _). rewrite Er in *. by apply Ht.
    + by exists a, (kern s1), v, (kern s2).
Qed.

(** [accept] makes a second descriptor; the first one is then closed. *)
Lemma wp_accept_one made fd s s1 : terminal_open -> 1 < fd -> called (opened fd s) s1 ->
  (forall sfd k', answered (Accept fd) (kern s1) sfd k' -> made (kern s) sfd) ->
  wp (socket ← accept (next_ptr s); _ ← release (next_ptr s); mret socket) (holds_socket made s) is_exception s1.
Proof.
  intros Ht Hfd (k & -> & _ & Hk) Hmade. apply wp_bind, wp_bind. eapply wp_Ok; [apply update_Some, opened_lookup|].
  apply wp_bind. eapply wp_Ok; [apply fd_num_Some; apply lookup_insert_eq|]. apply wp_bind.
  eapply wp_mono; [by apply wp_answered| |done]. intros fd' s2 [Hacc (k2 & -> & _ & Hk2)]. pose proof (Hmade _ _ Hacc) as Hm.
  destruct Hacc as (Hfd' & Er & _). assert (1 < fd') as Hnew by (rewrite Er in *; by apply Ht). clear Er.
  apply wp_bind. eapply wp_mono; [by apply wp_new| |done]. intros h s3 [-> ->].
  cbn [next_ptr set_kern set_wrapper opened kern wrappers use_count _fd] in *.
  eapply wp_mono; [eapply wp_socket_of_fd; apply opened_lookup| |done]. cbn [next_ptr set_kern set_wrapper opened wrappers use_count kern].
  intros h s4 (-> & k4 & -> & _ & Hk4). cbn [kern set_kern] in Hk4. apply wp_bind.
  match goal with |- wp _ _ _ ?st => set (s5 := st) end.
  destruct (release_one (next_ptr s) [next_ptr s + 1] s5) as (s6 & E & Hh & Hn & Hw & Hio).
  - intros h Hin. exists 1. subst s5. cbn. rewrite !elem_of_cons, elem_of_nil in Hin. destruct Hin as [->|[->|[]]].
    + rewrite lookup_insert_ne, lookup_insert_eq by lia. split; [done|].
      destruct (Z.eq_dec (next_ptr s) (next_ptr s)), (Z.eq_dec (next_ptr s + 1) (next_ptr s)); lia.
    + rewrite lookup_insert_eq. split; [done|].
      destruct (Z.eq_dec (next_ptr s) (next_ptr s + 1)), (Z.eq_dec (next_ptr s + 1) (next_ptr s + 1)); lia.
  - intros h Hin. subst s5. cbn. rewrite !elem_of_cons, elem_of_nil in Hin. destruct Hin as [->|[->|[]]].
    + by rewrite lookup_insert_ne, lookup_insert_eq by lia.
    + by rewrite lookup_insert_eq.
  - eapply wp_Ok; [exact E|]. apply wp_ret. split_and!.
    + rewrite Hw by left. exists (mkFDWrapper fd' false false 0 0). subst s5. cbn. by rewrite lookup_insert_eq.
    + rewrite Hn. subst s5. cbn. lia.
    + exact Hh.
    + intros n. destruct (Hio n) as [-> ->]. subst s5. cbn [kern set_kern]. destruct (Hk4 n) as [E1 E2], (Hk2 n) as [E3 E4], (Hk n) as [E5 E6].
      cbn in *. split; congruence.
Qed.

Lemma wp_native_server argv s : terminal_open -> 4 <= zlen argv ->
  wp (native_socket true argv) (holds_socket (accepts argv) s) is_exception s.
Proof.
  intros Ht Hl. apply wp_bind. eapply wp_mono; [apply wp_new_socket| |done]. intros h s1 (-> & fd & Ha & H1).
  assert (1 < fd) as Hnew by (destruct Ha as (? & Er & _); rewrite Er in *; by apply Ht).
  assert (Hx : forall s', called (opened fd s) s' -> wrappers s' !! next_ptr s = Some (mkFDWrapper fd false false 0 0)).
  { intros s' Hs'. rewrite (called_wrappers _ _ Hs'). apply opened_lookup. }
  apply wp_bind. eapply wp_mono; [eapply (wp_fd_answered _ _ (fun fd => Setsockopt fd _ _ _)); [by apply Hx|done|done]| |done].
  intros ? s2 [(v2 & A2) H2]. assert (called (opened fd s) s2) as H2' by (by transitivity s1).
  apply wp_resolve; [lia|lia|]. intros addr Hr. apply wp_bind.
  eapply wp_mono; [eapply (wp_fd_answered _ _ (fun fd => Bind fd _)); [by apply Hx|done|done]| |done].
  intros ? s3 [(v3 & A3) H3]. assert (called (opened fd s) s3) as H3' by (by transitivity s2). apply wp_bind.
  eapply wp_mono; [eapply (wp_fd_answered _ _ (fun fd => Listen fd _)); [by apply Hx|done|done]| |done].
  intros ? s4 [(v4 & A4) H4]. apply (wp_accept_one _ fd); [done|done|by transitivity s3|]. intros sfd k' A5.
  by exists fd, addr, (kern s1), v2, (kern s2), v3, (kern s3), v4, (kern s4), k'.
Qed.

Lemma wp_native_socket server argv s : terminal_open -> 3 <= zlen argv -> (server = true -> 4 <= zlen argv) ->
  wp (native_socket server argv) (holds_socket (made_by server argv) s) is_exception s.
Proof. intros Ht H3 H4. destruct server; [apply wp_native_server; auto|by apply wp_native_client]. Qed.

Lemma wp_tun_loop fuel h : forall cout (s : sys K) x, wrappers s !! h = Some x ->
  wp (tun_loop fuel h cout) (fun _ s' => only h s s') is_exception s.
Proof.
  induction fuel as [|fuel IH]; intros cout s x Hx; cbn [tun_loop]; [apply wp_ret; by eapply only_refl|].
  apply wp_bind. eapply wp_mono; [by eapply wp_fd_read| |done]. intros buffer s1 (Hl & Ho & x' & Hx' & _).
  apply wp_bind, wp_lift. destruct (tun_packet_safe buffer cout) as [cout' ->]; [unfold BUFFER_SIZE in Hl; lia|]. cbn [throws].
  eapply wp_mono; [by eapply IH| |done]. intros ? s2 Ho'. by eapply only_trans.
Qed.
End lemmas.

(** ** Properties *)

Section properties.
Context {K : Type} `{HK : KernelLaws K} `{Libc}.

(** What the copy has carried, seen from the start of [main]. *)
Definition piped (sfd : Z) (k : K) (s' : sys K) (c' : copier) : Prop :=
  carried k (kern s') STDIN_FILENO sfd (_outbound c') /\ carried k (kern s') sfd STDOUT_FILENO (_inbound c')
  /\ untouched sfd k (kern s').

Lemma piped_io sfd k k1 (s1 s2 : sys K) c :
  (forall fd, consumed k1 fd = consumed k fd /\ produced k1 fd = produced k fd) ->
  (forall fd, consumed (kern s2) fd = consumed (kern s1) fd /\ produced (kern s2) fd = produced (kern s1) fd) ->
  piped sfd k1 s1 c -> piped sfd k s2 c.
Proof.
  intros Ha Hb ((m & U1 & U2) & (n & D1 & D2) & Hu). split_and!.
  - exists m. rewrite (proj1 (Hb _)), (proj2 (Hb _)), U1, U2. by rewrite (proj1 (Ha _)), (proj2 (Ha _)).
  - exists n. rewrite (proj1 (Hb _)), (proj2 (Hb _)), D1, D2. by rewrite (proj1 (Ha _)), (proj2 (Ha _)).
  - intros fd Hfd. destruct (Hb fd) as [-> ->], (Hu fd Hfd) as [-> ->]. apply Ha.
Qed.

(** The copy over a socket that [main] made, and the end of [main]. *)
Lemma copy_piped made fuel s s1 socket c : holds_socket made s socket s1 ->
  match ('(over, (s, c)) ← bidirectional_stream_copy fuel socket (s1, c);
         if over : bool then '(_, s) ← release socket s; Ok (Went (true, (s, c))) else Ok (Went (false, (s, c)))) with
  | Ok (Left _ _) => False
  | Ok (Went (_, (s', c'))) => exists sfd, 1 < sfd /\ made (kern s) sfd /\ piped sfd (kern s) s' c'
  | Fail f => is_exception f \/ f = PollError
  end.
Proof.
  intros ((x & Hx & Hfd & Hmade) & Hptr & Hh & Hio). pose proof (wp_copy s1 socket (_fd x) x c fuel Hx eq_refl Hfd Hptr Hh) as Hc.
  unfold wp in Hc. destruct (bidirectional_stream_copy fuel socket (s1, c)) as [[over [s2 c2]]|f]; cbn [mbind res_bind].
  2: { destruct Hc as [[-> | ->]| ->]; [by left|by left|by right]. }
  destruct Hc as (U & D & Hu & (y & Hy & _) & Hh2). cbn [fst snd] in *. destruct over.
  - destruct (release_one socket [] s2 Hh2) as (s3 & E & _ & _ & _ & Hio3).
    { intros h Hin. apply list_elem_of_singleton in Hin as ->. by eexists. }
    rewrite E. cbn [mbind res_bind]. exists (_fd x). split_and!; [done|done|]. by eapply (piped_io _ _ (kern s1) s2).
  - exists (_fd x). split_and!; [done|done|]. by eapply (piped_io _ _ (kern s1) s2).
Qed.

(** C21: tcp_native, for every command line, whatever the kernel answers, if
    standard input and output are open.  [main] never fails otherwise than by
    leaving with [EXIT_FAILURE], with the usage or an exception; when it gets
    as far as the copy, its socket is, without "-l", the TCP socket that the
    kernel made and then connected to the address of the arguments, and with
    "-l" the connection that the kernel accepted on the TCP socket it made,
    bound to the address of the arguments and set to listen; the bytes written
    to that socket are, in order, the bytes read from standard input, and the
    bytes written to standard output those read from the socket, except for
    those that still wait in the two streams; no other descriptor is read or
    written. *)
Theorem native_faithful (what : fault -> list byte) (fuel : nat) (argv : list (list byte)) (s : sys K) (c : copier) :
  argv <> [] -> terminal_open (K := K) ->
  match native_main what fuel argv (s, c) with
  | Ok (Left code _) => code = EXIT_FAILURE
  | Ok (Went (_, (s', c'))) => exists a sfd, arg argv 1 = Ok a /\ made_by (strncmp "-l" a 3) argv (kern s) sfd
      /\ 1 < sfd /\ piped sfd (kern s) s' c'
  | Fail _ => False
  end.
Proof.
  intros Hne Ht. unfold native_main. destruct (arg_ok argv 0) as [prog ->].
  { destruct argv; [done|]. rewrite zlen_cons. pose proof (zlen_nonneg argv). lia. }
  cbn [mbind res_bind]. destruct (Z.ltb_spec (zlen argv) 3) as [|H3]; [done|].
  destruct (arg_ok argv 1) as [a1 Ea]; [lia|]. rewrite Ea. cbn [mbind res_bind orb]. set (server := strncmp "-l" a1 3).
  destruct (server && (zlen argv <? 4)) eqn:E4; [done|].
  pose proof (wp_native_socket server argv s Ht H3) as Hs. unfold wp in Hs. cbn [fst snd].
  destruct (native_socket server argv s) as [[socket s1]|f].
  - assert (Hsock : holds_socket (made_by server argv) s socket s1).
    { apply Hs. intros ->. apply Z.ltb_ge in E4. exact E4. }
    assert (Hgo : forall s' c', (exists sfd, 1 < sfd /\ made_by server argv (kern s) sfd /\ piped sfd (kern s) s' c') ->
      exists a sfd, Ok a1 = Ok a /\ made_by (strncmp "-l" a 3) argv (kern s) sfd /\ 1 < sfd /\ piped sfd (kern s) s' c').
    { intros s' c' (sfd & ? & ? & ?). by exists a1, sfd. }
    pose proof (copy_piped _ fuel s s1 socket c Hsock) as Hc. cbn [mbind res_bind fst snd] in *.
    destruct (bidirectional_stream_copy fuel socket (s1, c)) as [[over [s2 c2]]|f]; cbn [mbind res_bind tried] in *.
    + destruct over; [|by apply Hgo]. destruct (release socket s2) as [[u s3]|f]; cbn [mbind res_bind tried] in *; [by apply Hgo|].
      by rewrite (stops_thrown f Hc).
    + by rewrite (stops_thrown f Hc).
  - cbn [mbind res_bind tried]. rewrite stops_thrown; [done|]. left. apply Hs. intros ->. by apply Z.ltb_ge in E4.
Qed.

(** tun goes on printing, or an exception ends it; it reads nothing but the
    device. *)
Theorem tun_safe (what : fault -> list byte) (fuel : nat) (cout : ostream) (s : sys K) :
  match tun_main what fuel cout s with
  | Ok (Left code _) => code = EXIT_FAILURE
  | Ok (Went (_, s')) => acquired (next_ptr s) s s'
  | Fail _ => False
  end.
Proof.
  unfold tun_main. pose proof (wp_tuntap_new (bytes "tun144") true s) as Ht. unfold wp in Ht.
  destruct (tuntap_new (bytes "tun144") true s) as [[h s1]|f]; cbn [mbind res_bind tried]; [|by rewrite stops_thrown by (by left)].
  destruct Ht as (-> & fd & _ & Hs1).
  assert (Hx : wrappers s1 !! next_ptr s = Some (mkFDWrapper fd false false 0 0)).
  { rewrite (called_wrappers _ _ Hs1). apply opened_lookup. }
  pose proof (wp_tun_loop fuel (next_ptr s) cout s1 _ Hx) as Hl. unfold wp in Hl.
  destruct (tun_loop fuel (next_ptr s) cout s1) as [[cout' s']|f]; cbn [mbind res_bind tried]; [|by rewrite stops_thrown by (by left)].
  split; [done|]. by exists fd, s1.
Qed.
End properties.

(** ** Witness *)

(** A new descriptor of the machine in memory has number 5; "hi" waits at
    standard input. *)
Definition native_start : sys machine := mkSys (mkMachine {[ 0 := [x68; x69] ]} ∅ ∅ [] 2 0) ∅ ∅ 0.
Definition native_argv : list (list byte) := [bytes "tcp_native"; bytes "10.0.0.2"; bytes "9090"].

Lemma machine_terminal_open : terminal_open (K := machine).
Proof. by split. Qed.

(** The socket is descriptor 5. *)
Example native_connects :
  match native_socket false native_argv native_start with
  | Ok (socket, s') => socket = 0 /\ wrappers s' !! 0 = Some (mkFDWrapper 5 false false 0 0)
  | Fail _ => False
  end.
Proof. vm_compute. by split. Qed.

Lemma native_faithful_witness :
  match native_main (fun _ => []) 3 native_argv (native_start, sample_copier) with
  | Ok (Left code _) => code = EXIT_FAILURE
  | Ok (Went (_, (s', c'))) => exists a sfd, arg native_argv 1 = Ok a /\ made_by (strncmp "-l" a 3) native_argv (kern native_start) sfd
      /\ 1 < sfd /\ piped sfd (kern native_start) s' c'
  | Fail _ => False
  end.
Proof.
  apply (native_faithful (fun _ => []) 3 native_argv native_start sample_copier); [discriminate|exact machine_terminal_open].
Defined.
