(* ===== verification/Programs.v ===== *)
(** * The programs on a TCPSpongeSocket (src/apps/tcp_ipv4.cc, tcp_udp.cc,
    tcp_ip_ethernet.cc)

    [main] of the programs.  The three that use a TCPSpongeSocket differ in what
    they do before they have one: class [Program], with an instance for each.
    They then open it, start its thread, copy the streams and wait
    (Threads.v). *)

From Stdlib Require Import ZArith Lia.
From S2P Require Import Prelude WrappingIntegers ByteStream Buffer TCPHeader TCPSegment Ethernet TCPSender TCPReceiver TCPConnection ConnectionStatus Address TCPOverIP NetworkInterface Kernel FileDescriptor EventLoop Socket DatagramAdapters TCPSpongeSocket SocketThread StreamCopy Threads Printing Usage CommandLine PacketDump Startup RandomGenerator.

(** [exit], and the end of a function. *)
Definition as_progress {A} (r : outcome A) : progress A :=
  match r with Exit code text => Left code text | Return a => Went a end.

(** ** The three programs on a TCPSpongeSocket *)

(** The numbers a program takes from the random device: for its port, its
    Ethernet address and the seed of the generator that decides the losses. *)
Record chance : Type := mkChance { port_random : Z; ethernet_random : list Z; seed_random : nat -> Z }.

Definition missing : list byte := bytes "ERROR: required arguments are missing.".

Section setups.
Context {K : Type} `{Kernel K} `{Libc}.
Context (loss_rate : list byte -> Z).

(** [FdAdapterConfig] as an argument of [connect] and [listen_and_accept]. *)
Definition adapter_config (c : FdAdapterConfig) : FdAdapterBase Address :=
  mkFdAdapterBase (CommandLine.source c) (CommandLine.destination c)
    (CommandLine.loss_rate_dn c) (CommandLine.loss_rate_up c) false.

(** The configuration of a new adapter. *)
Definition default_base : res (FdAdapterBase Address) :=
  src ← unspecified; dst ← unspecified; Ok (mkFdAdapterBase src dst 0 0 false).

(** The adapter, the two configurations, and whether to connect. *)
Abbreviation setting_up T := (progress (T * TCPConfig * FdAdapterBase Address * bool)).

Definition ipv4_setup (ch : chance) (argv : list (list byte)) : M (sys K) (setting_up (LossyFdAdapter TunAdapter)) :=
  if zlen argv <? 3 then r ← lift (quit ipv4_show_usage argv EXIT_FAILURE (Some missing)); mret (as_progress r) else
  r ← lift (ipv4_get_config loss_rate (port_random ch) argv);
  match r with
  | Exit code text => mret (Left code text)
  | Return (c_fsm, c_filt, listen, tun_dev_name) =>
    tun ← tuntap_new (default TUN_DFLT tun_dev_name) true;
    base ← lift default_base;
    mret (Went (LossyFdAdapter_new (mkTunAdapter tun base) (seed_random ch), c_fsm, adapter_config c_filt, negb listen))
  end.

Definition udp_setup (ch : chance) (argv : list (list byte)) : M (sys K) (setting_up (LossyFdAdapter UDPAdapter)) :=
  if zlen argv <? 3 then r ← lift (quit udp_show_usage argv 1 (Some missing)); mret (as_progress r) else
  r ← lift (udp_get_config loss_rate argv);
  match r with
  | Exit code text => mret (Left code text)
  | Return (c_fsm, c_filt, listen) =>
    udp_sock ← socket_new AF_INET SOCK_DGRAM;
    _ ← (if listen : bool then bind udp_sock (CommandLine.source c_filt) else mret tt);
    base ← lift default_base;
    mret (Went (LossyFdAdapter_new (mkUDPAdapter udp_sock base) (seed_random ch), c_fsm, adapter_config c_filt, negb listen))
  end.

Definition ethernet_setup (ch : chance) (argv : list (list byte)) : M (sys K) (setting_up TapAdapter) :=
  if zlen argv <? 3 then r ← lift (quit ethernet_show_usage argv EXIT_FAILURE (Some missing)); mret (as_progress r) else
  let local_ethernet_address := random_private_ethernet_address (ethernet_random ch) in
  r ← lift (ethernet_get_config (port_random ch) argv);
  match r with
  | Exit code text => mret (Left code text)
  | Return (c_fsm, c_filt, next_hop, tap_dev_name) =>
    tap ← tuntap_new tap_dev_name false;
    base ← lift default_base;
    adapter ← tap_adapter_new tap base local_ethernet_address (CommandLine.source c_filt) next_hop;
    mret (Went (adapter, c_fsm, adapter_config c_filt, true))
  end.
End setups.

(** The programs, by the type of their adapter. *)
Class Program (K T : Type) : Type :=
  setup : (list byte -> Z) -> chance -> list (list byte) -> M (sys K) (progress (T * TCPConfig * FdAdapterBase Address * bool)).

#[export] Instance tcp_ipv4 {K} `{Kernel K} `{Libc} : Program K (LossyFdAdapter TunAdapter) := ipv4_setup.
#[export] Instance tcp_udp {K} `{Kernel K} `{Libc} : Program K (LossyFdAdapter UDPAdapter) := udp_setup.
#[export] Instance tcp_ip_ethernet {K} `{Kernel K} `{Libc} : Program K TapAdapter := fun _ => ethernet_setup.

Section sponge_main.
Context {K T : Type} `{Kernel K} `{Libc} `{!DatagramAdapter K T} `{!Program K T}.
Context (loss_rate : list byte -> Z) (what : fault -> list byte) (ch : chance).

(** Up to the constructor of the socket. *)
Definition construct (argv : list (list byte))
    : M (sys K) (progress (TCPSpongeSocket T * TCPConfig * FdAdapterBase Address * bool)) :=
  r ← setup loss_rate ch argv;
  match r with
  | Left code shown => mret (Left code shown)
  | Went (t, c_fsm, c_filt, connecting) =>
    tcp_socket ← sponge_socket_new t;
    mret (Went (tcp_socket, c_fsm, c_filt, connecting))
  end.

(** [main] up to the start of the thread: whether the socket is open (its loop
    has [fuel] rounds), the rules of its event loop and the state that the two
    threads share. *)
Definition sponge_main (fuel : nat) (rnd : Z) (argv : list (list byte)) (s : sys K)
    : res (progress (bool * list (Rule K (TCPSpongeSocket T)) * W (K := K) (T := T))) :=
  tried (exception_text what) (
    '(r, s) ← construct argv s;
    match r with
    | Left code shown => Ok (Left code shown)
    | Went (tcp_socket, c_fsm, c_filt, connecting) =>
      '((is_open, rules), w) ← open_socket connecting fuel c_fsm rnd c_filt (s, tcp_socket);
      Ok (Went (is_open, rules, w))
    end).
End sponge_main.

(** ** What the programs set up *)

Section configurations.
Context `{Libc}.

Lemma of_hostname_throws host service : throws (of_hostname host service) address_wf.
Proof.
  unfold of_hostname, resolve. destruct (getaddrinfo _ _ _) as [e l]. destruct (negb _); [done|].
  destruct l; [done|]. apply of_sockaddr_throws.
Qed.

Lemma unspecified_throws : throws unspecified address_wf.
Proof.
  unfold unspecified, of_ip_port, resolve. destruct (getaddrinfo _ _ _) as [e l]. destruct (negb _); [done|].
  destruct l; [done|]. apply of_sockaddr_throws.
Qed.

Lemma default_base_throws : throws default_base base_wf.
Proof.
  eapply throws_bind; [apply unspecified_throws|]. intros a Ha. eapply throws_bind; [apply unspecified_throws|]. intros b Hb. by split.
Qed.

(** The loop over the options, as [get_config] uses it. *)
Lemma options_throw lr option accepted `{!OptionTable lr option accepted} prog args st :
  Forall printable args -> 2 <= zlen args ->
  throws (option_loop option (length (prog :: args)) (prog :: args) 1 st)
    (fun r => match r with Exit code _ => code = 0 \/ code = 1 | Return (curr, _) => curr = zlen (prog :: args) - 2 end).
Proof.
  intros Hp H2. destruct (loop_sound lr option accepted (length (prog :: args)) [prog] args st Hp H2) as (r & E & Hr).
  { unfold zlen. cbn [length]. lia. }
  change ([prog] ++ args) with (prog :: args) in E. change (zlen [prog]) with 1 in E, Hr. rewrite E. cbn [throws].
  destruct r as [code text|[curr st']]; [done|]. destruct Hr as (opts & host & port & -> & _ & -> & _).
  rewrite zlen_cons, zlen_app. change (zlen [host; port]) with 2. lia.
Qed.

Lemma arg_throws argv i : 0 <= i < zlen argv -> throws (arg argv i) (fun _ => True).
Proof. intros Hi. by destruct (arg_ok argv i Hi) as [s ->]. Qed.

Lemma quit_throws A usage prog args code msg (Q : outcome A -> Prop) :
  Q (Exit code (usage prog msg)) -> throws (quit usage (prog :: args) code msg) Q.
Proof. by rewrite quit_ok. Qed.

(** The result of [get_config]: a code, or good addresses. *)
Definition configured {A} (config : A -> FdAdapterConfig) (r : outcome A) : Prop :=
  match r with Exit code _ => code = 0 \/ code = 1 | Return a => base_wf (adapter_config (config a)) end.

Ltac next_throws := eapply throws_bind; [first [apply unspecified_throws|apply of_hostname_throws|apply port_throws|
  apply arg_throws; rewrite ?zlen_cons in *; lia]|].

Lemma ipv4_config_throws lr random prog args : Forall printable args -> 2 <= zlen args ->
  throws (ipv4_get_config lr random (prog :: args)) (configured (fun '(_, c, _, _) => c)).
Proof.
  intros Hp H2. unfold ipv4_get_config. next_throws. intros src Hsrc. next_throws. intros dst Hdst.
  eapply throws_bind; [by apply (options_throw lr _ ipv4_accepts)|]. intros [code text|[curr st]]; [done|]. intros ->.
  destruct (CommandLine.listen st).
  - next_throws. intros service _. next_throws. intros src' Hsrc'.
    eapply throws_bind; [apply (port_throws src')|]. intros p _. destruct (p =? 0); [apply quit_throws; by right|by split].
  - next_throws. intros host _. next_throws. intros service _. next_throws. intros dst' Hdst'. next_throws. intros src' Hsrc'. by split.
Qed.

Lemma udp_config_throws lr prog args : Forall printable args -> 2 <= zlen args ->
  throws (udp_get_config lr (prog :: args)) (configured (fun '(_, c, _) => c)).
Proof.
  intros Hp H2. unfold udp_get_config. next_throws. intros src Hsrc. next_throws. intros dst Hdst.
  eapply throws_bind; [by apply (options_throw lr _ udp_accepts)|]. intros [code text|[curr st]]; [done|]. intros _.
  destruct (CommandLine.listen st).
  - next_throws. intros service _. next_throws. intros src' Hsrc'. by split.
  - next_throws. intros host _. next_throws. intros service _. next_throws. intros dst' Hdst'. by split.
Qed.

Lemma ethernet_config_throws random prog args : Forall printable args -> 2 <= zlen args ->
  throws (ethernet_get_config random (prog :: args))
    (fun r => configured (fun '(_, c, _, _) => c) r /\ forall a, r = Return a -> address_wf (a.1.2)).
Proof.
  intros Hp H2. unfold ethernet_get_config. next_throws. intros src Hsrc. next_throws. intros dst Hdst.
  eapply throws_bind; [by apply (options_throw (fun _ => 0) _ ethernet_accepts)|]. intros [code text|[curr st]]; [done|]. intros ->.
  next_throws. intros host _. next_throws. intros service _. next_throws. intros dst' Hdst'. next_throws. intros src' Hsrc'.
  next_throws. intros hop Hhop. split; [by split|]. by intros a [= <-].
Qed.

End configurations.

(** What [sponge_main] needs of a program: before it has a socket it opens one
    descriptor and configures its adapter, or leaves without a system call. *)
Definition set_up {K T} `{KernelLaws K} `{!DatagramAdapter K T} `{!DatagramAdapterLaws K T} (s : sys K)
    (r : progress (T * TCPConfig * FdAdapterBase Address * bool)) (s' : sys K) : Prop :=
  match r with
  | Left code _ => (code = 0 \/ code = 1) /\ s' = s
  | Went (t, _, c_filt, _) => ad_ok t /\ acquired (ad_fd t) s s' /\ base_wf c_filt
  end.

Class ProgramLaws (K T : Type) `{KernelLaws K} `{!DatagramAdapter K T} `{!DatagramAdapterLaws K T} `{!Program K T} : Prop :=
  setup_spec : forall lr ch argv (s : sys K), argv <> [] -> Forall printable argv ->
    wp (setup lr ch argv) (set_up s) is_exception s.

Section laws.
Context {K : Type} `{HK : KernelLaws K} `{Libc}.

(** The two ways in which a program leaves early. *)
Lemma wp_too_few {T} `{!DatagramAdapter K T} `{!DatagramAdapterLaws K T} usage prog args code msg (s : sys K) :
  code = 0 \/ code = 1 ->
  wp (r ← lift (quit usage (prog :: args) code msg); mret (as_progress r)) (set_up (T := T) s) is_exception s.
Proof. intros Hc. apply wp_bind, wp_lift, quit_throws, wp_ret. by split. Qed.

#[export] Instance tcp_ipv4_laws : ProgramLaws K (LossyFdAdapter TunAdapter).
Proof.
  intros lr ch argv s Hne Hp. destruct argv as [|prog args]; [done|]. apply Forall_cons in Hp as [_ Hp].
  unfold setup, tcp_ipv4, ipv4_setup. rewrite zlen_cons. destruct (Z.ltb_spec (1 + zlen args) 3); [apply wp_too_few; by right|].
  apply wp_bind, wp_lift. eapply throws_mono; [apply ipv4_config_throws; [done|lia]|].
  intros [code text|[[[c_fsm c_filt] l] dev]] Hc; [by apply wp_ret|]. apply wp_bind.
  eapply wp_mono; [apply wp_tuntap_new| |done]. intros h s' (-> & fd & _ & Hs). apply wp_bind, wp_lift.
  eapply throws_mono; [apply default_base_throws|]. intros base Hb. apply wp_ret. split_and!; [done| |done].
  by eapply acquired_called.
Qed.

#[export] Instance tcp_udp_laws : ProgramLaws K (LossyFdAdapter UDPAdapter).
Proof.
  intros lr ch argv s Hne Hp. destruct argv as [|prog args]; [done|]. apply Forall_cons in Hp as [_ Hp].
  unfold setup, tcp_udp, udp_setup. rewrite zlen_cons. destruct (Z.ltb_spec (1 + zlen args) 3); [apply wp_too_few; by right|].
  apply wp_bind, wp_lift. eapply throws_mono; [apply udp_config_throws; [done|lia]|].
  intros [code text|[[c_fsm c_filt] l]] Hc; [by apply wp_ret|]. apply wp_bind.
  eapply wp_mono; [apply wp_socket_new| |done]. intros h s1 (-> & fd & _ & Hs1). apply wp_bind.
  eapply (wp_mono _ (fun _ s' => called (opened fd s) s')).
  - destruct l; [|by apply wp_ret]. eapply wp_mono.
    + apply (wp_fd_call (next_ptr s) (mkFDWrapper fd false false 0 0) (fun fd => Bind fd _)); [|done|done].
      rewrite (called_wrappers _ _ Hs1). apply opened_lookup.
    + intros ? s' Hs'. by transitivity s1.
    + done.
  - intros ? s' Hs. apply wp_bind, wp_lift. eapply throws_mono; [apply default_base_throws|]. intros base Hb.
    apply wp_ret. split_and!; [done| |done]. by eapply acquired_called.
  - done.
Qed.

#[export] Instance tcp_ip_ethernet_laws : ProgramLaws K TapAdapter.
Proof.
  intros lr ch argv s Hne Hp. destruct argv as [|prog args]; [done|]. apply Forall_cons in Hp as [_ Hp].
  unfold setup, tcp_ip_ethernet, ethernet_setup. rewrite zlen_cons.
  destruct (Z.ltb_spec (1 + zlen args) 3); [apply wp_too_few; by right|].
  apply wp_bind, wp_lift. eapply throws_mono; [apply ethernet_config_throws; [done|lia]|].
  intros [code text|[[[c_fsm c_filt] hop] dev]] [Hc Hhop]; [by apply wp_ret|]. apply wp_bind.
  eapply wp_mono; [apply wp_tuntap_new| |done]. intros h s1 (-> & fd & _ & Hs1). apply wp_bind, wp_lift.
  eapply throws_mono; [apply default_base_throws|]. intros base Hb. apply wp_bind, wp_bind.
  eapply wp_mono; [eapply wp_fd_write| |done].
  - rewrite (called_wrappers _ _ Hs1). apply opened_lookup.
  - vm_compute. done.
  - intros n s2 [Ho _]. apply wp_ret, wp_ret. split_and!; [split_and!; [done|by apply (Hhop _ eq_refl)|done]| |done].
    split; [done|]. by exists fd, s1.
Qed.
End laws.

(** ** From [main] to the end of the threads *)

(** The number of a descriptor. *)
Definition number {K} (s : sys K) (h : FileDescriptor) : Z := match wrappers s !! h with Some x => _fd x | None => -1 end.

Lemma number_Some {K} (s : sys K) h x : wrappers s !! h = Some x -> number s h = _fd x.
Proof. unfold number. by intros ->. Qed.

Section sockets.
Context {T : Type} `{Libc} `{!DatagramAdapter view T} `{!DatagramAdapterLaws view T}.

(** What is assumed of the world when the socket is made: the numbers of the
    descriptors differ, the window of the configuration is not 0 ([cfg_ok]), and
    the segments that arrive are those of SocketThread.v ([environment]): resets,
    and segments of one peer that keeps to the window. *)
Record good_world (S : list byte) (pisn : WrappingInt32) (Kinv : view -> Prop) (sk : TCPSpongeSocket T) (cfg : TCPConfig)
    (s : sys view) : Prop := {
  gw_cfg : cfg_ok S cfg;
  gw_kern : Kinv (kern s);
  gw_numbers : NoDup [STDIN_FILENO; STDOUT_FILENO; number s (owner sk); number s (_thread_data sk);
                      number s (ad_fd (_datagram_adapter sk))] /\ 1 < number s (owner sk);
  gw_environment : environment S pisn cfg (_thread_data sk) (ad_fd (_datagram_adapter sk)) (owner sk)
    (number s (_thread_data sk)) (number s (ad_fd (_datagram_adapter sk))) (number s (owner sk)) (kern s) Kinv (T := T)
}.

(** The socket and the memory after [construct]. *)
Definition constructed (s : sys view) (sk : TCPSpongeSocket T) (c_filt : FdAdapterBase Address) (s' : sys view) : Prop :=
  base_wf c_filt /\ ad_ok (_datagram_adapter sk) /\ _tcp sk = None
  /\ ad_fd (_datagram_adapter sk) = next_ptr s /\ owner sk = next_ptr s + 1 /\ _thread_data sk = next_ptr s + 2
  /\ next_ptr s' = next_ptr s + 3 /\ reaches (kern s) (kern s')
  /\ (forall h, h ∈ [next_ptr s; next_ptr s + 1; next_ptr s + 2] -> is_Some (wrappers s' !! h) /\ use_count s' !! h = Some 1)
  /\ forall fd, fd <> number s' (next_ptr s) ->
       consumed (kern s') fd = consumed (kern s) fd /\ produced (kern s') fd = produced (kern s) fd.

(** The socket on an adapter that was set up. *)
Lemma wp_socket_on t c_filt s s1 : ad_ok t -> acquired (ad_fd t) s s1 -> base_wf c_filt ->
  wp (sponge_socket_new t) (fun sk s' => constructed s sk c_filt s') is_exception s1.
Proof.
  intros Hok Ha Hb. destruct (acquired_facts _ _ _ Ha) as (Eh & En & Eu & Hr & x & Hx & Hio). rewrite Eh in *.
  eapply wp_mono; [apply wp_sponge_socket_new| |done]. intros sk s2 (-> & fd0 & fd1 & k & -> & Hr' & Hk).
  rewrite En. cbn [owner _thread_data _datagram_adapter _tcp] in *.
  assert (Hx2 : wrappers (set_kern k (opened fd1 (opened fd0 s1))) !! next_ptr s = Some x).
  { cbn. rewrite En, !lookup_insert_ne by lia. exact Hx. }
  split_and!; [done|done|done|done|done|cbn; lia|cbn; lia|by eapply calls_trans| |].
  - cbn [wrappers use_count set_kern opened next_ptr]. rewrite En, Eu. intros h Hh. rewrite !elem_of_cons, elem_of_nil in Hh.
    destruct Hh as [->|[->|[->|[]]]].
    + rewrite !lookup_insert_ne, lookup_insert_eq, Hx by lia. by split.
    + rewrite !(lookup_insert_ne _ (next_ptr s + 1 + 1)), !lookup_insert_eq by lia. by split.
    + replace (next_ptr s + 2) with (next_ptr s + 1 + 1) by lia. rewrite !lookup_insert_eq. by split.
  - intros fd Hfd. rewrite (number_Some _ _ _ Hx2) in Hfd. destruct (Hk fd) as [E1 E2]. cbn [kern set_kern].
    rewrite E1, E2. by apply Hio.
Qed.

Lemma constructed_fresh S pisn Kinv sk cfg c_filt s s' :
  log (kern s) = [] -> constructed s sk c_filt s' -> good_world S pisn Kinv sk cfg s' ->
  fresh (_thread_data sk) (ad_fd (_datagram_adapter sk)) (owner sk)
    (number s' (_thread_data sk)) (number s' (ad_fd (_datagram_adapter sk))) (number s' (owner sk)) (kern s') Kinv (s', sk).
Proof.
  intros Hlog (_ & Hok & Htcp & Ea & Eo & Et & En & _ & Hh & Hio) [_ Hk Hn _].
  assert (Hw : forall h, h ∈ [next_ptr s; next_ptr s + 1; next_ptr s + 2] -> exists x, wrappers s' !! h = Some x /\ _fd x = number s' h).
  { intros h Hin. destruct (Hh h Hin) as [[x Hx] _]. exists x. by rewrite (number_Some _ _ _ Hx). }
  rewrite Ea, Eo, Et in *. split; cbn [fst snd]; try done.
  - apply Hw. right; right; left.
  - apply Hw. left.
  - apply Hw. right; left.
  - lia.
  - assert (number s' (next_ptr s + 2) <> number s' (next_ptr s)) as Hne.
    { destruct Hn as [Hn _]. rewrite !NoDup_cons, !not_elem_of_cons in Hn. tauto. }
    destruct (Hio _ Hne) as [-> ->]. cbn. by rewrite Hlog.
  - intros h Hin. exists 1. assert (h ∈ [next_ptr s; next_ptr s + 1; next_ptr s + 2]) as Hin'.
    { clear -Hin. rewrite !elem_of_cons, elem_of_nil in *. tauto. }
    split; [by apply Hh|]. cbn. clear -Hin.
    destruct (Z.eq_dec (next_ptr s + 2) h), (Z.eq_dec (next_ptr s) h), (Z.eq_dec (next_ptr s + 1) h); lia.
Qed.
Lemma constructed_handles s sk c_filt s' : constructed s sk c_filt s' ->
  _thread_data sk <> ad_fd (K := view) (_datagram_adapter sk)
  /\ (owner sk <> _thread_data sk /\ owner sk <> ad_fd (K := view) (_datagram_adapter sk)).
Proof. intros (_ & _ & _ & -> & -> & -> & _). lia. Qed.

(** The socket that was constructed, opened. *)
Lemma opened_world S pisn Kinv sk cfg c_filt connecting fuel rnd s s' is_open rules w1 :
  wi_ok pisn -> log (kern s) = [] -> constructed s sk c_filt s' -> good_world S pisn Kinv sk cfg s' ->
  open_socket connecting fuel cfg rnd c_filt (s', sk) = Ok ((is_open, rules), w1) ->
  owner w1.2 = owner sk /\ _thread_data w1.2 = _thread_data sk
  /\ number w1.1 (owner sk) = number s' (owner sk) /\ number w1.1 (_thread_data sk) = number s' (_thread_data sk).
Proof.
  intros Hp Hlog Hc Hg E. pose proof (constructed_fresh _ _ _ _ _ _ _ _ Hlog Hc Hg) as Hf.
  destruct Hg as [Hcfg _ [Hn _] Henv]. destruct (numbers_differ _ _ _ Hn) as (Hta & _).
  destruct (constructed_handles _ _ _ _ Hc) as [Hta' Hoh]. destruct Hc as [Hb _].
  destruct (open_ok S pisn cfg _ _ _ _ _ _ Kinv connecting fuel rnd c_filt (s', sk) w1 is_open rules Hp Hcfg Hta' Hoh Hta Henv Hb Hf E) as (Hok & _).
  pose proof (lo_inv _ _ _ _ _ _ Hok) as [? (x & Hx & Hxf) ? ? ? (y & Hy & Hyf) ? ? ? ? ?].
  by rewrite (number_Some _ _ _ Hx), (number_Some _ _ _ Hy).
Qed.

Lemma open_thrown S pisn Kinv sk cfg c_filt connecting fuel rnd s s' f :
  wi_ok pisn -> log (kern s) = [] -> constructed s sk c_filt s' -> good_world S pisn Kinv sk cfg s' ->
  open_socket connecting fuel cfg rnd c_filt (s', sk) = Fail f -> thrown f = true.
Proof.
  intros Hp Hlog Hc Hg E. pose proof (constructed_fresh _ _ _ _ _ _ _ _ Hlog Hc Hg) as Hf.
  destruct Hg as [Hcfg _ [Hn _] Henv]. destruct (numbers_differ _ _ _ Hn) as (Hta & _).
  destruct (constructed_handles _ _ _ _ Hc) as [Hta' Hoh]. destruct Hc as [Hb _]. apply stops_thrown. unfold open_socket in E. destruct connecting.
  - pose proof (wp_connect _ _ _ _ _ _ _ _ _ _ _ Hp Hcfg Hta' Hoh Hta Henv fuel rnd c_filt (s', sk) Hf Hb) as Hw.
    unfold wp in Hw. by rewrite E in Hw.
  - pose proof (wp_listen _ _ _ _ _ _ _ _ _ _ _ Hp Hcfg Hta' Hoh Hta Henv fuel rnd c_filt (s', sk) Hf Hb) as Hw.
    unfold wp in Hw. by rewrite E in Hw.
Qed.

(** The log only grows: a stronger invariant of the kernel. *)
Definition grown (h : history) (Kinv : view -> Prop) (v : view) : Prop := Kinv v /\ h `prefix_of` log v.

Lemma environment_grown S pisn cfg td ah oh tfd afd ofd k0 Kinv h :
  environment S pisn cfg td ah oh tfd afd ofd k0 Kinv (T := T) -> environment S pisn cfg td ah oh tfd afd ofd k0 (grown h Kinv) (T := T).
Proof.
  intros [Hc Hb Hp]. split.
  - intros R c v [Hk Hl]. split; [by apply Hc|]. cbn. by apply prefix_app_r.
  - intros v [Hk _]. by apply Hb.
  - intros w c seg a s' [? ? ? ? ? ? ? ? Hk ? ?] Ec Hac Er. apply (Hp w c seg a s'); [|done..]. split; try done. apply Hk.
Qed.

Lemma fresh_grown td ah oh tfd afd ofd k0 Kinv w :
  fresh td ah oh tfd afd ofd k0 Kinv w -> fresh td ah oh tfd afd ofd k0 (grown (log (kern w.1)) Kinv) w (T := T).
Proof. intros []. split; try done. Qed.

Lemma opened_since S pisn Kinv sk cfg c_filt connecting fuel rnd s s' is_open rules w1 :
  wi_ok pisn -> log (kern s) = [] -> constructed s sk c_filt s' -> good_world S pisn Kinv sk cfg s' ->
  open_socket connecting fuel cfg rnd c_filt (s', sk) = Ok ((is_open, rules), w1) -> exists h, since s' w1.1 h.
Proof.
  intros Hp Hlog Hc Hg E. pose proof (fresh_grown _ _ _ _ _ _ _ _ _ (constructed_fresh _ _ _ _ _ _ _ _ Hlog Hc Hg)) as Hf.
  destruct Hg as [Hcfg _ [Hn _] Henv]. destruct (numbers_differ _ _ _ Hn) as (Hta & _).
  destruct (constructed_handles _ _ _ _ Hc) as [Hta' Hoh]. destruct Hc as [Hb _].
  destruct (open_ok S pisn cfg _ _ _ _ _ _ _ connecting fuel rnd c_filt (s', sk) w1 is_open rules Hp Hcfg Hta' Hoh Hta
    (environment_grown _ _ _ _ _ _ _ _ _ _ _ _ Henv) Hb Hf E) as (Hok & _).
  destruct (si_kern _ _ _ _ _ _ _ _ _ _ _ _ (lo_inv _ _ _ _ _ _ Hok)) as [_ [h Hh]]. by exists h.
Qed.

(** The owner's thread has made the calls [a] from the start of the other
    thread on: it copies streams. *)
Definition copies (w1 : W (K := view) (T := T)) (a : history) : Prop :=
  exists o (Ho : lawful o) fuel c0 over sa ca,
    owner_thread fuel (owner w1.2) (owner_memory o Ho w1.1, c0) = Ok (over, (sa, ca)) /\ since w1.1 sa a.

(** A run of the two threads of a program, from the point where [main] starts
    the second one: [h] is what happened before, [a] and [b] are what the two
    threads do and [g] is how the kernel sees it. *)
Record threads_run (owner_did : history -> Prop) (rules : list (Rule view (TCPSpongeSocket T))) (w1 : W (K := view) (T := T))
    (over : bool) (wb : W (K := view) (T := T)) (h a b g : history) : Prop := {
  run_thread : exists fuel rules', _tcp_main fuel rules w1 = Ok ((over, rules'), wb);
  run_owner : owner_did a;
  run_before : log (kern w1.1) = h;
  run_since : since w1.1 wb.1 b;
  run_order : interleaved a b g;
  run_pair : socket_pair (number w1.1 (owner w1.2)) (number w1.1 (_thread_data w1.2)) (h ++ g)
}.

(** What the second thread does in such a run: at the descriptors of the socket
    pair, and at the others. *)
Lemma main_history S pisn Kinv sk cfg c_filt connecting fuel rnd s s' did rules w1 over wb h a b g :
  wi_ok pisn -> log (kern s) = [] -> constructed s sk c_filt s' -> good_world S pisn Kinv sk cfg s' ->
  open_socket connecting fuel cfg rnd c_filt (s', sk) = Ok ((true, rules), w1) -> threads_run did rules w1 over wb h a b g ->
  let tfd := number w1.1 (_thread_data w1.2) in
  let ofd := number w1.1 (owner w1.2) in
  exists afd m x, (NoDup [STDIN_FILENO; STDOUT_FILENO; ofd; tfd; afd] /\ 1 < ofd)
    /\ bytes_written tfd (h ++ b) = ztake m S /\ bytes_read tfd (h ++ b) = consumed (kern wb.1) tfd
    /\ (forall fd, fd <> tfd -> fd <> afd ->
         (bytes_read fd h = [] /\ bytes_written fd h = []) /\ (bytes_read fd b = [] /\ bytes_written fd b = []))
    /\ (over = false -> connection_up S pisn cfg tfd wb)
    /\ (wrappers w1.1 !! owner w1.2 = Some x /\ _fd x = ofd) /\ owner w1.2 < next_ptr w1.1 /\ holds [owner w1.2] w1.1.
Proof.
  intros Hpisn Hstart Hc Hworld Eo [(fuel_b & rules' & Eb) _ Hh Hb _ _].
  destruct (opened_world _ _ _ _ _ _ _ _ _ _ _ _ _ _ Hpisn Hstart Hc Hworld Eo) as (-> & -> & -> & ->).
  destruct (opened_since _ _ _ _ _ _ _ _ _ _ _ _ _ _ Hpisn Hstart Hc Hworld Eo) as [h1 Hh1].
  pose proof (constructed_fresh _ _ _ _ _ _ _ _ Hstart Hc Hworld) as Hf.
  pose proof (constructed_handles _ _ _ _ Hc) as Hhandles.
  destruct Hc as (Hbase & _ & _ & Eah & _ & _ & _ & _ & _ & Hidle), Hworld as [Hcfg _ Hn Henv]. rewrite <-Eah in Hidle. cbn zeta.
  set (tfd := number s' (_thread_data sk)) in *. set (ofd := number s' (owner sk)) in *. set (afd := number s' (ad_fd _)) in *.
  assert (Hquiet : forall fd, fd <> afd -> bytes_read fd (log (kern s')) = [] /\ bytes_written fd (log (kern s')) = []).
  { intros fd Hfd. destruct (Hidle fd Hfd) as [C1 C2]. cbn in C1, C2. by rewrite Hstart in C1, C2. }
  destruct (numbers_differ _ _ _ (proj1 Hn)) as (Hta & _).
  destruct (thread_history S pisn cfg _ _ _ tfd afd ofd Kinv connecting fuel fuel_b rnd c_filt (s', sk) w1 wb rules rules' over h1 b
    Hpisn Hcfg Hhandles Hta Henv Hbase Hf Eo Eb Hh1 Hb) as ([m Hm] & Hr & Hidle' & Hup & x & Hx & Hptr & Hhold).
  assert (h = log (kern s') ++ h1) as -> by (rewrite <-Hh; exact Hh1).
  exists afd, m, x. rewrite <-app_assoc, bytes_read_app, bytes_written_app. destruct (Hquiet tfd Hta) as [-> ->].
  split_and!; try done; try apply Hn; try apply Hx.
  intros fd N1 N2. rewrite bytes_read_app, bytes_written_app. destruct (Hquiet fd N2) as [-> ->]. by apply Hidle'.
Qed.

End sockets.

Section whole.
Context {T : Type} `{Libc} `{!DatagramAdapter view T} `{!DatagramAdapterLaws view T} `{!Program view T} `{!ProgramLaws view T}.
Context (loss_rate : list byte -> Z) (ch : chance).

Lemma wp_construct argv s : argv <> [] -> Forall printable argv ->
  wp (construct loss_rate ch argv) (fun r s' =>
    match r with
    | Left code _ => (code = 0 \/ code = 1) /\ s' = s
    | Went (sk, _, c_filt, _) => constructed s sk c_filt s'
    end) is_exception s.
Proof.
  intros Hne Hp. apply wp_bind. eapply wp_mono; [by apply setup_spec| |done].
  intros [code text|[[[t cfg] c_filt] connecting]] s1; [intros Hl; by apply wp_ret|]. intros (Hok & Ha & Hb).
  apply wp_bind. eapply wp_mono; [by eapply wp_socket_on| |done]. intros sk s2 Hc. by apply wp_ret.
Qed.

(** C6: the three programs built on a TCPSpongeSocket, from [main] on, whatever
    the command line says, whatever the kernel answers and in whatever way the
    calls of the two threads interleave, under the assumptions of [good_world]
    when the command line makes a socket: the kernel carries the bytes of the
    socket pair in order and gives different descriptors, the window asked for
    is not 0, streams and buffers are shorter than 2^63 bytes, and each segment
    that arrives is a reset or one of the peer's stream inside the receiver's
    window, the probe of its closed window or a pure acknowledgment (beyond the
    window the code fails an assertion).  [main] shows the usage or an exception
    and leaves with code 0 or 1, or it opens a socket and starts the thread.
    The program is then a faithful pipe between the terminal and the peer: the
    bytes written to standard output are a prefix of the peer's stream; the
    bytes that the thread took from the application are a prefix of the bytes
    read from standard input, and while the thread goes on, they are the
    outbound stream of its connection, unless that was reset. *)
Theorem program_faithful (what : fault -> list byte) (S : list byte) (pisn : WrappingInt32) (Kinv : view -> Prop) (fuel : nat)
    (rnd : Z) (argv : list (list byte)) (s : sys view)
    (Hpisn : wi_ok pisn)
    (Hargv : argv <> [] /\ Forall printable argv)
    (Hstart : log (kern s) = [])
    (Hworld : forall sk cfg c_filt connecting s',
       construct loss_rate ch argv s = Ok (Went (sk, cfg, c_filt, connecting), s') -> good_world S pisn Kinv sk cfg s') :
  match sponge_main loss_rate what ch fuel rnd argv s with
  | Fail _ => False
  | Ok (Left code _) => code = 0 \/ code = 1
  | Ok (Went (is_open, rules, w1)) =>
      let tfd := number w1.1 (_thread_data w1.2) in
      is_open = true -> forall over wb h a b g, threads_run (copies w1) rules w1 over wb h a b g ->
      (exists m, bytes_written STDOUT_FILENO (h ++ g) = ztake m S)
      /\ bytes_read tfd (h ++ g) `prefix_of` bytes_read STDIN_FILENO (h ++ g)
      /\ consumed (kern wb.1) tfd = bytes_read tfd (h ++ g)
      /\ (over = false -> exists sk cfg c_filt connecting s',
            construct loss_rate ch argv s = Ok (Went (sk, cfg, c_filt, connecting), s') /\ connection_up S pisn cfg tfd wb)
  end.
Proof.
  destruct Hargv as [Hne Hpr]. pose proof (wp_construct argv s Hne Hpr) as Hc. unfold wp in Hc. unfold sponge_main.
  destruct (construct loss_rate ch argv s) as [[r s']|f] eqn:E; cbn [mbind res_bind tried].
  2: { rewrite stops_thrown by (by left). by right. }
  destruct r as [code text|[[[sk cfg] c_filt] connecting]]; [by destruct Hc|]. specialize (Hworld sk cfg c_filt connecting s' eq_refl).
  destruct (open_socket connecting fuel cfg rnd c_filt (s', sk)) as [[[is_open rules] w1]|f] eqn:Eo; cbn [mbind res_bind tried].
  2: { assert (thrown f = true) as -> by (by eapply open_thrown). by right. }
  intros -> over wb h a b g Hrun.
  destruct (main_history _ _ _ _ _ _ _ _ _ _ _ _ _ _ _ _ _ _ _ _ Hpisn Hstart Hc Hworld Eo Hrun)
    as (afd & m & x & [Hnd Hofd] & Hm & Hr & Hidle & Hup & (Hx & Hxf) & Hptr & Hhold).
  set (tfd := number w1.1 (_thread_data w1.2)) in *. set (ofd := number w1.1 (owner w1.2)) in *.
  destruct Hrun as [_ (o & Ho & fuel_a & c0 & over_a & sa & ca & Ea & Ha) _ _ Hg Hp].
  destruct (numbers_differ _ _ _ Hnd) as (_ & Htn & Hin).
  pose proof (wp_owner_thread (owner_memory o Ho w1.1) (owner w1.2) ofd x c0 fuel_a Hx Hxf Hofd Hptr Hhold) as Hcp.
  unfold wp in Hcp. rewrite Ea in Hcp. destruct Hcp as (Hcu & Hcd & Hun & _). cbn [fst snd] in *.
  destruct (pipes_compose S ofd tfd h a b g m) as (H1 & H2 & H3); try done.
  - intros fd Hfd. destruct (Hin fd Hfd) as [N1 N2]. by apply Hidle.
  - eapply (since_idle (owner_memory o Ho w1.1)); [exact Ha|by apply Hun].
  - by eapply since_carried.
  - by eapply since_carried.
  - split_and!; [exact H1|exact H2|congruence|]. intros Hov. exists sk, cfg, c_filt, connecting, s'. split; [done|by apply Hup].
Qed.
End whole.

(** ** Witness *)

(** A client.  At first (in the first [n] calls) the peer's datagrams are its
    SYN, and (in the first [m] calls) [poll] does not find descriptor 4
    readable; then the world answers as the machine in memory does, with the
    peer's datagram that has the bytes "ab". *)

(** The peer's address, 10.0.0.2 with port 9090. *)
Definition peer : list byte := sockaddr_in 167772162 9090.

Definition at_first (n m : nat) (h : history) {R} (c : syscall R) : R -> R :=
  match c in syscall R return R -> R with
  | Poll fds _ => fun r =>
      if Nat.ltb (length h) m
      then (mkRet 1 0, zip_with (fun p x => if p_fd p =? 4 then Z.land x POLLOUT else x) fds r.2) else r
  | Recvfrom _ size _ => fun r =>
      let data := take (Z.to_nat size `min` 4096) first_datagram in
      if Nat.ltb (length h) n then (mkRet (zlen data) 0, (data, peer)) else (r.1, (r.2.1, peer))
  | _ => fun r => r
  end.

Definition replay (k : machine) (h : history) : machine := fold_left (fun k e => (answer (ev_call e) k).2) h k.

Definition machine_oracle (n m : nat) (k : machine) : oracle := fun R h c => at_first n m h c (answer c (replay k h)).1.

Lemma machine_oracle_lawful n m k : lawful (machine_oracle n m k).
Proof.
  split; intros R c h; unfold machine_oracle.
  - pose proof (answers_ok R c (replay k h)) as Ha. destruct c; try exact Ha; cbn [answer_ok at_first fst snd] in *.
    + destruct (Nat.ltb _ _); [cbn [snd]; rewrite length_zip_with; lia|exact Ha].
    + intros Hc. destruct (Ha Hc) as (H1 & _ & H3). assert (Hp : zlen peer <= 128) by (by vm_compute).
      destruct (Nat.ltb _ _); [|split_and!; [exact H1|exact Hp|exact H3]].
      unfold zlen in *. cbn [fst snd rv]. rewrite length_take. cbn [length]. lia.
  - pose proof (returns_int R c (replay k h)) as Ha. destruct c; try exact Ha; cbn [status at_first]; destruct (Nat.ltb _ _); try exact Ha.
    + cbn. lia.
    + cbn [fst rv]. unfold zlen. rewrite length_take. lia.
  - pose proof (errno_set R c (replay k h)) as Ha. destruct c; try exact Ha; cbn [status at_first]; destruct (Nat.ltb _ _); try exact Ha.
    + cbn. lia.
    + cbn [fst rv]. unfold zlen. lia.
Qed.

Definition client_oracle : oracle := machine_oracle 14 26 sample_machine.
Definition client_start : sys view := mkSys (mkView [] client_oracle (machine_oracle_lawful _ _ _)) ∅ ∅ 0.
Definition client_argv : list (list byte) := [bytes "tcp_udp"; bytes "10.0.0.2"; bytes "9090"].
Definition client_chance : chance := mkChance 0 [] (fun _ => 0).

(** The view follows the machine. *)
Definition client_kinv (v : view) : Prop :=
  world_of v = client_oracle /\ sample_kinv (replay sample_machine (log v))
  /\ bytes_read 4 (log v) = at_fd (taken (replay sample_machine (log v))) 4.

Lemma replay_snoc k h e : replay k (h ++ [e]) = (answer (ev_call e) (replay k h)).2.
Proof. unfold replay. by rewrite fold_left_app. Qed.

Lemma at_first_in n m h {R} (c : syscall R) r fd : bytes_in c fd (at_first n m h c r) = bytes_in c fd r.
Proof. by destruct c. Qed.

Lemma client_kinv_closed R (c : syscall R) v : client_kinv v -> client_kinv (answer c v).2.
Proof.
  intros (Hw & Hk & Hb). unfold client_kinv. cbn [answer view_kernel snd world_of log].
  change (log (answer c v).2) with (log v ++ [mkEvent R c (world_of v R (log v) c)]). rewrite replay_snoc. cbn [ev_call].
  split_and!; [done|by apply sample_kinv_closed|].
  rewrite bytes_read_app, Hb, Hw. unfold bytes_read. cbn [map concat]. rewrite app_nil_r. unfold event_in. cbn [ev_call ev_answer].
  unfold client_oracle, machine_oracle. rewrite at_first_in. symmetry.
  generalize (replay sample_machine (log v)). intros k. exact (consumed_by (K := machine) R c k 4).
Qed.

Lemma first_datagram_whole : take (Z.to_nat 65536 `min` 4096) first_datagram = first_datagram.
Proof. apply take_ge. replace (length first_datagram) with 20%nat by (by vm_compute). lia. Qed.

Lemma machine_received n m k h fd :
  (machine_oracle n m k _ h (Recvfrom fd 65536 MSG_TRUNC)).2.1 = take (Z.to_nat 65536 `min` 4096) (datagram (replay k h))
  \/ (machine_oracle n m k _ h (Recvfrom fd 65536 MSG_TRUNC)).2.1 = take (Z.to_nat 65536 `min` 4096) first_datagram.
Proof. unfold machine_oracle, at_first. generalize first_datagram. intros d. destruct (Nat.ltb _ _); [by right|by left]. Qed.

Lemma client_received v fd :
  client_kinv v ->
  (world_of v _ (log v) (Recvfrom fd 65536 MSG_TRUNC)).2.1 = sample_datagram
  \/ (world_of v _ (log v) (Recvfrom fd 65536 MSG_TRUNC)).2.1 = first_datagram.
Proof.
  intros (-> & [Hd _] & _). destruct (machine_received 14 26 sample_machine (log v) fd) as [E|E]; [left|right].
  - exact (eq_trans E (eq_trans (f_equal (take _) Hd) sample_datagram_whole)).
  - exact (eq_trans E first_datagram_whole).
Qed.

(** What the lossy adapter returns came from the adapter in it. *)
Lemma lossy_read_some {K T} `{Kernel K} `{Libc} `{!DatagramAdapter K T} (l l' : LossyFdAdapter T) (s s' : sys K) seg :
  lossy_adapter_read l s = Ok ((Some seg, l'), s') -> exists t', ad_read (_adapter l) s = Ok ((Some seg, t'), s').
Proof.
  unfold lossy_adapter_read, mbind, M_bind. intros E. destruct (ad_read (_adapter l) s) as [[[ret t] s1]|]; [|done].
  destruct (should_drop _ _ _) as [drop l1]. cbv in E. destruct drop; [done|]. injection E as -> _ ->. by exists t.
Qed.

Lemma client_environment k0 :
  environment [x61; x62] (mkWrappingInt32 7) default_tcp 2 0 1 4 5 3 k0 client_kinv (T := LossyFdAdapter UDPAdapter).
Proof.
  split.
  - apply client_kinv_closed.
  - intros v (_ & [_ Hb] & Hr). change (consumed v 4) with (bytes_read 4 (log v)). rewrite Hr. clear Hr.
    pose proof (f_equal zlen Hb) as Hl. rewrite zlen_app in Hl. change (zlen [x6f; x6b]) with 2 in Hl.
    pose proof (zlen_nonneg (at_fd (waiting (replay sample_machine (log v))) 4)). lia.
  - intros [s sk] c seg a s' Hi Ec Hac Er. right. exists 0. cbn [fst snd] in Ec, Er. apply lossy_read_some in Er as [t' Er].
    destruct (si_ah_fd _ _ _ _ _ _ _ _ _ _ _ _ Hi) as (y & Hy & _). pose proof (si_ah _ _ _ _ _ _ _ _ _ _ _ _ Hi) as Hah. cbn in Hy, Hah.
    pose proof (client_received _ (_fd y) (si_kern _ _ _ _ _ _ _ _ _ _ _ _ Hi)) as Hrec.
    pose proof (udp_adapter_read_segment _ t' s s' seg y (eq_trans (f_equal (fun h => wrappers s !! h) Hah) Hy) Er) as Hseg.
    destruct (si_conn _ _ _ _ _ _ _ _ _ _ _ _ Hi) as (c0 & Ec0 & Hst & _). cbn in Ec0. assert (c0 = c) as -> by congruence.
    destruct (st_mode _ _ _ _ _ _ Hst) as [Hal|(Hna & _)]; [|unfold active in Hac; congruence].
    eapply stream_start_from_peer; [|apply sample_starts_stream|exact Hal]; [by cbn|]. clear Hst Hal Er Hi.
    destruct Hrec as [E|E]; [left|right]; rewrite Hseg; exact (f_equal segment_of E).
Qed.

(** The owner's world: "ok" at standard input, "ab" at descriptor 3.  The
    socket's thread writes "ab" first and reads "ok" last. *)
Definition owner_machine : machine := mkMachine {[ 0 := [x6f; x6b]; 3 := [x61; x62] ]} ∅ ∅ [] 2 0.
Definition owner_oracle : oracle := machine_oracle 0 0 owner_machine.

Definition client_order (a b : history) : history := take 10 b ++ a ++ drop 10 b.

Lemma client_order_interleaved a b : interleaved a b (client_order a b).
Proof.
  assert (Hm : forall b1 b2, interleaved a (b1 ++ b2) (b1 ++ a ++ b2)).
  { intros b1 b2. induction b1 as [|e b1 IH]; [exact (inter_app a b2)|by constructor]. }
  specialize (Hm (take 10 b) (drop 10 b)). by rewrite take_drop in Hm.
Qed.

(** The program up to the thread, and the runs of the two threads, as computed. *)
Definition client_built : res (progress (TCPSpongeSocket (LossyFdAdapter UDPAdapter) * TCPConfig * FdAdapterBase Address * bool) * sys view) :=
  construct (fun _ => 0) client_chance client_argv client_start.

Lemma client_built_ok :
  match client_built with
  | Ok (Went (sk, cfg, _, _), s') => cfg = default_tcp /\ (owner sk = 1 /\ _thread_data sk = 2 /\ ad_fd (K := view) (_datagram_adapter sk) = 0)
      /\ (number s' 1 = 3 /\ number s' 2 = 4 /\ number s' 0 = 5)
  | _ => False
  end.
Proof. vm_compute. repeat split. Qed.

Lemma client_start_kinv : client_kinv (kern client_start).
Proof. split; [done|]. split; [by split|done]. Qed.

Lemma client_argv_ok : client_argv <> [] /\ Forall printable client_argv.
Proof. split; [done|by apply printable_all]. Qed.

Lemma client_world sk cfg c_filt connecting s' :
  client_built = Ok (Went (sk, cfg, c_filt, connecting), s') -> good_world [x61; x62] (mkWrappingInt32 7) client_kinv sk cfg s'.
Proof.
  intros E. pose proof client_built_ok as H. rewrite E in H.
  destruct H as (-> & (E1 & E2 & E3) & N1 & N2 & N3). destruct client_argv_ok as [A1 A2].
  pose proof (wp_construct (T := LossyFdAdapter UDPAdapter) (fun _ => 0) client_chance client_argv client_start A1 A2) as Hc.
  unfold wp in Hc. fold client_built in Hc. rewrite E in Hc. destruct Hc as (_ & _ & _ & _ & _ & _ & _ & Hr & _).
  assert (Hk : client_kinv (kern s')).
  { eapply (reaches_ind_inv client_kinv); [apply client_kinv_closed|exact Hr|exact client_start_kinv]. }
  split; [|exact Hk| |].
  - unfold cfg_ok. cbn. split_and!; try lia; done.
  - rewrite E1, E2, E3, N1, N2, N3. split; [by apply (bool_decide_unpack _)|done].
  - rewrite E1, E2, E3, N1, N2, N3. apply client_environment.
Qed.

Definition client_main : res (progress (bool * list (Rule view (TCPSpongeSocket (LossyFdAdapter UDPAdapter)))
    * W (K := view) (T := LossyFdAdapter UDPAdapter))) :=
  sponge_main (fun _ => 0) (fun _ => []) client_chance 12 100 client_argv client_start.

Definition client_runs (Q : list (Rule view (TCPSpongeSocket (LossyFdAdapter UDPAdapter))) ->
    W (K := view) (T := LossyFdAdapter UDPAdapter) -> bool -> W (K := view) (T := LossyFdAdapter UDPAdapter) -> sys view -> Prop) : Prop :=
  match client_main with
  | Ok (Went (true, rules, w1)) =>
      match _tcp_main 4 rules w1,
            owner_thread 2 (owner w1.2) (owner_memory owner_oracle (machine_oracle_lawful _ _ _) w1.1, sample_copier) with
      | Ok ((over, _), wb), Ok (_, (sa, _)) => Q rules w1 over wb sa
      | _, _ => False
      end
  | _ => False
  end.

Lemma client_computed : client_runs (fun _ w1 over wb sa =>
  let h := log (kern w1.1) in
  let b := drop 14 (log (kern wb.1)) in
  let a := drop 14 (log (kern sa)) in
  let g := client_order a b in
  over = false /\ number w1.1 (owner w1.2) = 3 /\ number w1.1 (_thread_data w1.2) = 4
  /\ log (kern wb.1) = h ++ b /\ log (kern sa) = h ++ a
  /\ in_order 3 4 [] (h ++ g) = true /\ in_order 4 3 [] (h ++ g) = true
  /\ bytes_written 1 (h ++ g) = [x61; x62] /\ bytes_read 4 (h ++ g) = [x6f; x6b]).
Proof. vm_compute. repeat split. Qed.

Lemma program_faithful_witness : client_runs (fun _ w1 _ wb sa =>
  let h := log (kern w1.1) in
  let g := client_order (drop 14 (log (kern sa))) (drop 14 (log (kern wb.1))) in
  bytes_written 1 (h ++ g) = [x61; x62] /\ bytes_read 4 (h ++ g) = [x6f; x6b]
  /\ (bytes_read 4 (h ++ g)) `prefix_of` (bytes_read 0 (h ++ g))
  /\ exists cfg, connection_up [x61; x62] (mkWrappingInt32 7) cfg 4 wb).
Proof.
  assert (Hp : wi_ok (mkWrappingInt32 7)) by done. pose proof client_computed as Hc.
  pose proof (program_faithful (T := LossyFdAdapter UDPAdapter) (fun _ => 0) client_chance (fun _ => []) [x61; x62] (mkWrappingInt32 7)
    client_kinv 12 100 client_argv client_start Hp client_argv_ok eq_refl client_world) as Hm.
  fold client_main in Hm. unfold client_runs in *.
  destruct client_main as [[code text|[[[|] rules] w1]]|f]; [exact Hc| |exact Hc|exact Hc].
  destruct (_tcp_main 4 rules w1) as [[[over rules'] wb]|f] eqn:Eb; [|exact Hc].
  destruct (owner_thread 2 _ _) as [[over_a [sa ca]]|f] eqn:Ea; [|exact Hc].
  destruct Hc as (Hov & N1 & N2 & Hb & Ha & P1 & P2 & Hout & Hin). cbn zeta in Hm. rewrite N2 in Hm.
  destruct (Hm eq_refl over wb (log (kern w1.1)) (drop 14 (log (kern sa))) (drop 14 (log (kern wb.1)))
    (client_order (drop 14 (log (kern sa))) (drop 14 (log (kern wb.1))))) as (_ & H2 & _ & H4).
  - split; [exists 4%nat, rules'; exact Eb| |reflexivity|exact Hb|apply client_order_interleaved|rewrite N1, N2; exact (conj P1 P2)].
    exists owner_oracle, (machine_oracle_lawful _ _ _), 2%nat, sample_copier, over_a, sa, ca. exact (conj Ea Ha).
  - destruct (H4 Hov) as (sk & cfg & _ & _ & _ & _ & Hup). exact (conj Hout (conj Hin (conj H2 (ex_intro _ cfg Hup)))).
Defined.
