(* ===== verification/WebProgram.v ===== *)
(** * The program webget (src/apps/webget.cc)

    [main] and [get_URL] as a whole: a CS144TCPSocket is made and connected to
    the host, its thread is started, and the owner's thread sends the request,
    reads the response up to the end and prints it. *)

From Stdlib Require Import ZArith Lia.
From S2P Require Import Prelude WrappingIntegers ByteStream Buffer Parser TCPHeader TCPSegment IPv4Header IPv4Datagram TCPSender TCPReceiver TCPConnection ConnectionStatus Address TCPOverIP Kernel FileDescriptor EventLoop Socket DatagramAdapters TCPSpongeSocket SocketThread StreamCopy WebGet Threads Printing Usage CommandLine Startup Programs.

Section web.
Context {K : Type} `{Kernel K} `{Libc}.
Context (what : fault -> list byte).

(** [CS144TCPSocket tcp_sock; Address addr(host, "http");] *)
Definition web_socket (host : list byte) : M (sys K) (TCPSpongeSocket TunAdapter * Address) :=
  base ← lift default_base;
  tcp_sock ← cs144_socket_new base;
  addr ← lift (of_hostname host (bytes "http"));
  mret (tcp_sock, addr).

(** [main] up to the start of the thread; [abort()] is not an exception. *)
Definition web_main (fuel : nat) (port_rnd rnd : Z) (argv : list (list byte)) (s : sys K)
    : res (progress (bool * list (Rule K (TCPSpongeSocket TunAdapter)) * W (K := K) (T := TunAdapter))) :=
  tried (fun f => what f ++ [newline]) (
    if zlen argv <=? 0 then Fail AssertionFailure else
    argv0 ← arg argv 0;
    if negb (zlen argv =? 3) then Ok (Left EXIT_FAILURE (webget_usage argv0)) else
    host ← arg argv 1;
    '((tcp_sock, addr), s) ← web_socket host s;
    '((is_open, rules), w) ← cs144_connect fuel addr port_rnd rnd [] (s, tcp_sock);
    Ok (Went (is_open, rules, w))).

(** The rest of [get_URL] in the owner's thread; what it returns is printed.
    The join of [wait_until_closed] does nothing but wait. *)
Definition web_owner (fuel : nat) (tcp_sock : FileDescriptor) (host path : list byte) : M (sys K) (list byte) :=
  resp ← get_URL fuel tcp_sock host path;
  _ ← shutdown tcp_sock SHUT_RDWR;
  mret resp.
End web.

(** ** The two threads *)

Section whole.
Context `{Libc}.

(** The owner's thread has fetched [resp]. *)
Definition fetches (host path resp : list byte) (w1 : W (K := view) (T := TunAdapter)) (a : history) : Prop :=
  exists o (Ho : lawful o) fuel sa,
    web_owner fuel (owner w1.2) host path (owner_memory o Ho w1.1) = Ok (resp, sa) /\ since w1.1 sa a.

Lemma fetches_spec host path resp (w1 : W (K := view) (T := TunAdapter)) a x :
  wrappers w1.1 !! owner w1.2 = Some x -> fetches host path resp w1 a ->
  forall fd, bytes_written fd a = (if _fd x =? fd then req_str host path else [])
    /\ bytes_read fd a = (if _fd x =? fd then resp else []).
Proof.
  intros Hx (o & Ho & fuel & sa & E & Ha) fd. unfold web_owner, mbind, M_bind in E.
  pose proof (get_URL_exact (owner_memory o Ho w1.1) (owner w1.2) x host path fuel Hx) as Hg.
  destruct (get_URL _ _ _ _ _) as [[r s1]|]; [|done]. destruct Hg as (Hp & Hc & y & Hy & _).
  rewrite (shutdown_spec _ SHUT_RDWR s1 y Hy) in E by (right; right; left). cbn zeta in E.
  pose proof (consumed_by _ (Shutdown (_fd y) SHUT_RDWR) (kern s1) fd) as Kc.
  pose proof (produced_by _ (Shutdown (_fd y) SHUT_RDWR) (kern s1) fd) as Kp.
  destruct (answer (Shutdown (_fd y) SHUT_RDWR) (kern s1)) as [r2 k2]. cbn [bytes_in bytes_out fst snd] in Kc, Kp.
  destruct (0 <=? _); [|done]. injection E as -> <-.
  destruct (since_bytes w1.1 _ a fd Ha) as [Bc Bp]. cbn [kern set_wrapper set_kern snd] in Bc, Bp.
  rewrite Kc, app_nil_r, Hc in Bc. rewrite Kp, app_nil_r, Hp in Bp. clear Kc Kp.
  split; [exact (eq_sym (app_inv_head _ _ _ Bp))|exact (eq_sym (app_inv_head _ _ _ Bc))].
Qed.

Lemma wp_web_socket host s :
  wp (web_socket host) (fun '(sk, addr) s' => exists base, base_wf base /\ address_wf addr /\ constructed s sk base s') is_exception s.
Proof.
  apply wp_bind, wp_lift. eapply throws_mono; [apply default_base_throws|]. intros base Hb. apply wp_bind, wp_bind.
  eapply wp_mono; [apply wp_tuntap_new| |done]. intros h s1 (-> & fd & _ & Hs1).
  eapply wp_mono; [eapply (wp_socket_on (mkTunAdapter (next_ptr s) base) base s); [exact Hb|by eapply acquired_called|exact Hb]| |done].
  intros sk s2 Hc. apply wp_bind, wp_lift. eapply throws_mono; [apply of_hostname_throws|]. intros addr Ha.
  apply wp_ret. by exists base.
Qed.

(** The configuration of the connection, and the call of [connect]. *)
Lemma web_connect_open fuel addr port_rnd rnd (w : W (K := view) (T := TunAdapter)) : address_wf addr ->
  match cs144_connect fuel addr port_rnd rnd [] w with
  | Ok r => exists c, base_wf c /\ open_socket true fuel socket_config rnd c w = Ok r
  | Fail f => is_exception f \/ exists c, base_wf c /\ open_socket true fuel socket_config rnd c w = Fail f
  end.
Proof.
  intros Ha. unfold cs144_connect, multiplexer_config, mbind, M_bind, on_sys, lift.
  pose proof (of_hostname_throws LOCAL_TUN_IP_ADDRESS (to_string (u16 port_rnd))) as Hs.
  destruct (of_hostname _ _) as [src|f]; cbn [mbind res_bind throws] in *; [|by left].
  assert (base_wf (mkFdAdapterBase src addr 0 0 false)) as Hb by (by split).
  destruct w as [s sk]. change (open_socket true fuel socket_config rnd) with (fun c => connect (K := view) (T := TunAdapter) fuel socket_config rnd c []).
  cbn [fst snd]. destruct (connect fuel socket_config rnd _ [] (s, sk)) as [r|f] eqn:E; [|right]; by exists (mkFdAdapterBase src addr 0 0 false).
Qed.

(** The two threads of a fetch: two pipes, one behind the other. *)
Lemma fetch_history S ofd tfd h a b g m req resp :
  (bytes_read ofd h = [] /\ bytes_written ofd h = []) /\ (bytes_read ofd b = [] /\ bytes_written ofd b = []) ->
  bytes_read tfd a = [] /\ bytes_written tfd a = [] -> bytes_written ofd a = req -> bytes_read ofd a = resp ->
  interleaved a b g -> socket_pair ofd tfd (h ++ g) -> bytes_written tfd (h ++ b) = ztake m S ->
  (exists n, resp = ztake n S) /\ bytes_read tfd (h ++ g) `prefix_of` req /\ bytes_read tfd (h ++ g) = bytes_read tfd (h ++ b).
Proof.
  intros [[E1 E2] Eb] Ht Hw Hr Hg [P1 P2] HS. apply in_order_prefix in P1, P2. cbn [app] in P1, P2.
  destruct (inter_left a b g ofd Hg Eb) as [Or Ow]. destruct (inter_left b a g tfd (inter_sym _ _ _ Hg) Ht) as [Tr Tw].
  rewrite bytes_written_app, E2, Ow, Hw in P1. rewrite bytes_read_app, E1, Or, Hr in P2. cbn [app] in P1, P2.
  rewrite bytes_written_app, Tw, <-bytes_written_app, HS in P2.
  split_and!; [by apply (ztake_prefix _ _ m)|exact P1|by rewrite !bytes_read_app, Tr].
Qed.

(** C20: webget, from [main] on, whatever the command line says, whatever the
    kernel answers and in whatever way the calls of the two threads interleave,
    if the kernel carries the bytes of the socket pair in order and the segments
    that arrive are those of one peer that keeps to the window, or resets
    ([good_world] of Programs.v).  [main] leaves with [EXIT_FAILURE] behind the
    usage or an exception, or it connects to the host and starts the thread.
    The response that it then prints is a prefix of the peer's stream, and the
    bytes that the thread took from it are a prefix of the request, cut to 1023
    bytes; while the thread goes on, they are the outbound stream of its
    connection, unless that was reset. *)
Theorem webget_faithful (what : fault -> list byte) (S : list byte) (pisn : WrappingInt32) (Kinv : view -> Prop) (fuel : nat)
    (port_rnd rnd : Z) (argv : list (list byte)) (s : sys view)
    (Hpisn : wi_ok pisn)
    (Hargv : argv <> [])
    (Hstart : log (kern s) = [])
    (Hworld : forall host sk addr s', arg argv 1 = Ok host -> web_socket host s = Ok ((sk, addr), s') -> good_world S pisn Kinv sk socket_config s') :
  match web_main what fuel port_rnd rnd argv s with
  | Fail _ => False
  | Ok (Left code _) => code = EXIT_FAILURE
  | Ok (Went (is_open, rules, w1)) =>
      let tfd := number w1.1 (_thread_data w1.2) in
      is_open = true -> forall host path resp over wb h a b g,
      threads_run (fetches host path resp w1) rules w1 over wb h a b g ->
      (exists n, resp = ztake n S)
      /\ bytes_read tfd (h ++ g) `prefix_of` ztake (kBufferSize - 1) (formatted host path)
      /\ consumed (kern wb.1) tfd = bytes_read tfd (h ++ g)
      /\ (over = false -> connection_up S pisn socket_config tfd wb)
  end.
Proof.
  unfold web_main. assert (0 < zlen argv) as Hl.
  { destruct argv; [done|]. rewrite zlen_cons. pose proof (zlen_nonneg argv). lia. }
  rewrite (proj2 (Z.leb_gt _ _)) by lia. destruct (arg_ok argv 0) as [argv0 ->]; [lia|]. cbn [mbind res_bind].
  destruct (Z.eqb_spec (zlen argv) 3) as [H3|]; [|done]. cbn [negb]. destruct (arg_ok argv 1) as [host Eh]; [lia|]. rewrite Eh. cbn [mbind res_bind].
  pose proof (wp_web_socket host s) as Hs. unfold wp in Hs. specialize (fun sk addr s' => Hworld host sk addr s' Eh).
  destruct (web_socket host s) as [[[sk addr] s']|f]; cbn [mbind res_bind tried]; [|by rewrite stops_thrown by (by left)].
  destruct Hs as (base & _ & Haddr & _ & Hc). specialize (Hworld sk addr s' eq_refl).
  assert (Hc' : forall c, base_wf c -> constructed s sk c s') by (intros c Hb; split; [exact Hb|exact Hc]). clear Hc.
  pose proof (web_connect_open fuel addr port_rnd rnd (s', sk) Haddr) as Ho.
  destruct (cs144_connect fuel addr port_rnd rnd [] (s', sk)) as [[[is_open rules] w1]|f]; cbn [mbind res_bind tried].
  2: { assert (thrown f = true) as ->; [|done]. destruct Ho as [Ho|(c & Hb & Eo)]; [apply stops_thrown; by left|].
       exact (open_thrown S pisn Kinv sk socket_config c true fuel rnd s s' f Hpisn Hstart (Hc' c Hb) Hworld Eo). }
  destruct Ho as (c & Hb & Eo). intros -> host' path resp over wb h a b g Hrun.
  destruct (main_history S pisn Kinv sk socket_config c true fuel rnd s s' _ rules w1 over wb h a b g Hpisn Hstart (Hc' c Hb) Hworld Eo Hrun)
    as (afd & m & x & [Hnd Hofd] & Hm & Hr & Hidle & Hup & (Hx & Hxf) & _).
  set (tfd := number w1.1 (_thread_data w1.2)) in *. set (ofd := number w1.1 (owner w1.2)) in *.
  destruct Hrun as [_ Hfetch _ _ Hg Hp]. pose proof (fetches_spec host' path resp w1 a x Hx Hfetch) as Hdid.
  assert (ofd <> tfd /\ ofd <> afd) as [Hot Hoa] by (apply (numbers_differ _ _ _ Hnd); right; right; left).
  destruct (Hdid ofd) as [Dw Dr]. destruct (Hdid tfd) as [Tw Tr]. rewrite Hxf, Z.eqb_refl in Dw, Dr.
  rewrite Hxf, (proj2 (Z.eqb_neq _ _) Hot) in Tw, Tr.
  destruct (fetch_history S ofd tfd h a b g m (req_str host' path) resp) as (R1 & R2 & R3); try done; [by apply Hidle|].
  rewrite <-req_str_eq. split_and!; [exact R1|exact R2|by rewrite R3|exact Hup].
Qed.
End whole.

(** ** Witness *)

(** A fetch from 10.0.0.2.  The TUN device (descriptor 5) gives the peer's SYN in
    the first [n] calls and then a datagram with the bytes "ab"; descriptor 4
    gives the request, once, and [poll] does not find it readable in the first
    [m] calls; everything else is as in the machine in memory. *)
Definition server_base : FdAdapterBase Address :=
  mkFdAdapterBase (mkAddress 16 (sockaddr_in 167772162 0 ++ zreplicate 112 x00))
    (mkAddress 16 (sockaddr_in 2852032521 1234 ++ zreplicate 112 x00)) 0 0 false.
Definition in_ip (seg : TCPSegment) : list byte :=
  match wrap_tcp_in_ip server_base seg with
  | Ok (d, _) => match IPv4Datagram.serialize d with Ok bl => concatenate bl | Fail _ => [] end
  | Fail _ => []
  end.
Definition first_ip : list byte := in_ip (segment_of first_datagram).
Definition second_ip : list byte := in_ip (segment_of sample_datagram).
Definition web_request : list byte := req_str (bytes "10.0.0.2") (bytes "/").

Definition at_web (n m : nat) (h : history) {R} (c : syscall R) : R -> R :=
  match c in syscall R return R -> R with
  | Poll fds _ => fun r =>
      if Nat.ltb (length h) m
      then (mkRet 1 0, zip_with (fun p x => if p_fd p =? 4 then Z.land x POLLOUT else x) fds r.2) else r
  | Read fd size => fun r =>
      if fd =? 5 then
        let data := ztake size (if Nat.ltb (length h) n then first_ip else second_ip) in (mkRet (zlen data) 0, data)
      else if fd =? 4 then
        let data := ztake size (if bool_decide (bytes_read 4 h = []) then web_request else []) in (mkRet (zlen data) 0, data)
      else r
  | _ => fun r => r
  end.

Definition web_oracle (n m : nat) (k : machine) : oracle := fun R h c => at_web n m h c (answer c (replay k h)).1.

(** What the two descriptors give is short. *)
Lemma web_data n (h : history) size (d : list byte) :
  d = (if Nat.ltb (length h) n then first_ip else second_ip) \/ d = (if bool_decide (bytes_read 4 h = []) then web_request else []) ->
  (0 <= size -> zlen (ztake size d) <= size) /\ 0 <= zlen (ztake size d) < M31.
Proof.
  intros Hd. assert (zlen d < M31) as Hs.
  { destruct Hd as [-> | ->]; [destruct (Nat.ltb _ _); by vm_compute|case_bool_decide; by vm_compute]. }
  clear Hd. unfold zlen, ztake in *. rewrite length_take. split; [intros; lia|]. split; [lia|]. eapply Z.le_lt_trans; [|exact Hs]. lia.
Qed.

Lemma web_lawful n m k : lawful (web_oracle n m k).
Proof.
  split; intros R c h; unfold web_oracle.
  - pose proof (answers_ok R c (replay k h)) as Ha. destruct c; try exact Ha; cbn [answer_ok at_web fst snd] in *.
    + destruct (fd =? 5); [|destruct (fd =? 4); [|exact Ha]]; cbn [fst snd rv]; intros Hc.
      * split; [apply (web_data n h count _ (or_introl eq_refl)), Hc|reflexivity].
      * split; [apply (web_data n h count _ (or_intror eq_refl)), Hc|reflexivity].
    + destruct (Nat.ltb _ _); [cbn [snd]; rewrite length_zip_with; lia|exact Ha].
  - pose proof (returns_int R c (replay k h)) as Ha. destruct c; try exact Ha; cbn [status at_web].
    + destruct (fd =? 5); [|destruct (fd =? 4); [|exact Ha]]; cbn [fst rv].
      * pose proof (proj2 (web_data n h count _ (or_introl eq_refl))) as Hd. revert Hd. generalize (ztake count (if Nat.ltb (length h) n then first_ip else second_ip)). intros; lia.
      * pose proof (proj2 (web_data n h count _ (or_intror eq_refl))) as Hd. revert Hd. generalize (ztake count (if bool_decide (bytes_read 4 h = []) then web_request else [])). intros; lia.
    + destruct (Nat.ltb _ _); [cbn; lia|exact Ha].
  - pose proof (errno_set R c (replay k h)) as Ha. destruct c; try exact Ha; cbn [status at_web].
    + destruct (fd =? 5); [|destruct (fd =? 4); [|exact Ha]]; cbn [fst rv err].
      * generalize (ztake count (if Nat.ltb (length h) n then first_ip else second_ip)). intros l Hl. pose proof (zlen_nonneg l). lia.
      * generalize (ztake count (if bool_decide (bytes_read 4 h = []) then web_request else [])). intros l Hl. pose proof (zlen_nonneg l). lia.
    + destruct (Nat.ltb _ _); [cbn; lia|exact Ha].
Qed.

Definition web_machine : machine := mkMachine ∅ ∅ ∅ [] 100 0.
Definition web_world : oracle := web_oracle 15 27 web_machine.
Definition web_start : sys view := mkSys (mkView [] web_world (web_lawful _ _ _)) ∅ ∅ 0.
Definition web_argv : list (list byte) := [bytes "webget"; bytes "10.0.0.2"; bytes "/"].

Definition web_kinv (v : view) : Prop := world_of v = web_world /\ exists i, bytes_read 4 (log v) = ztake i web_request.

Lemma web_read_4 h size : bytes_in (Read 4 size) 4 (web_world _ h (Read 4 size))
  = ztake size (if bool_decide (bytes_read 4 h = []) then web_request else []).
Proof.
  unfold web_world, web_oracle, at_web. change (4 =? 5) with false. change (4 =? 4) with true. cbn [bytes_in fst snd rv].
  rewrite Z.eqb_refl. rewrite (proj2 (Z.leb_le _ _)) by apply zlen_nonneg. reflexivity.
Qed.

Lemma web_kinv_closed R (c : syscall R) v : web_kinv v -> web_kinv (answer c v).2.
Proof.
  intros (Hw & i & Hb). split; [exact Hw|]. change (log (answer c v).2) with (log v ++ [mkEvent R c (world_of v R (log v) c)]).
  rewrite Hw, bytes_read_app. unfold bytes_read at 2. cbn [map concat]. unfold event_in. cbn [ev_call ev_answer]. rewrite app_nil_r.
  destruct c; cbn [bytes_in]; try (rewrite app_nil_r; by exists i).
  destruct (Z.eqb_spec fd 4) as [->|Hne]; [|cbn [andb]; rewrite app_nil_r; by exists i].
  pose proof (web_read_4 (log v) count) as E. cbn [bytes_in] in E. rewrite Z.eqb_refl in E. rewrite E. clear E.
  case_bool_decide as Hn; [rewrite Hn; by exists count|]. exists i. rewrite Hb. unfold ztake at 2. rewrite take_nil. apply app_nil_r.
Qed.

(** The segment in an IPv4 datagram. *)
Definition ip_segment (raw : list byte) : TCPSegment :=
  match IPv4Datagram.parse ipv4_datagram_default (of_string raw) with
  | Ok (_, d) =>
    match to_buffer (IPv4Datagram.payload d) with
    | Ok pb => match TCPSegment.parse tcp_segment_default pb (pseudo_cksum (IPv4Datagram.header d)) with
               | Ok (_, seg) => seg
               | Fail _ => tcp_segment_default
               end
    | Fail _ => tcp_segment_default
    end
  | Fail _ => tcp_segment_default
  end.

Lemma tun_read_segment `{Libc} raw b seg b' : tun_read raw b = Ok (Some seg, b') -> seg = ip_segment raw.
Proof.
  unfold tun_read, ip_segment. intros E. destruct (IPv4Datagram.parse _ _) as [[r d]|]; [|done]. cbn [mbind res_bind] in E.
  destruct (negb _); [done|]. unfold unwrap_tcp_in_ip in E.
  destruct (wrong_address b _ (TCPOverIP.source b)) as [[|]|]; [done| |done]. cbn [mbind res_bind] in E.
  destruct (wrong_address b _ (TCPOverIP.destination b)) as [[|]|]; [done| |done]. cbn [mbind res_bind] in E.
  destruct (negb (proto _ =? _)); [done|]. destruct (to_buffer _) as [pb|]; [|done]. cbn [mbind res_bind] in E.
  destruct (TCPSegment.parse _ _ _) as [[r' sg]|]; [|done]. cbn [mbind res_bind] in E.
  destruct (negb (bool_decide _)); [done|]. destruct (port (TCPOverIP.source b)) as [our_port|]; [|done]. cbn [mbind res_bind] in E.
  destruct (negb (dport _ =? _)); [done|]. destruct (listening b && _); [done|].
  match type of E with (?m ≫= _) = _ => destruct m as [b1|]; [|done] end. cbn [mbind res_bind] in E.
  destruct (port (TCPOverIP.destination b1)) as [peer_port|]; [|done]. cbn [mbind res_bind] in E.
  destruct (negb _); [done|]. by injection E as -> _.
Qed.

Lemma tun_adapter_read_segment {K} `{KernelLaws K} `{Libc} (t t' : TunAdapter) (s s' : sys K) seg y :
  wrappers s !! _tun t = Some y -> tun_adapter_read t s = Ok ((Some seg, t'), s') ->
  seg = ip_segment (answer (Read (_fd y) BUFFER_SIZE) (kern s)).1.2.
Proof.
  intros Hy Er. unfold tun_adapter_read, mbind, M_bind, FileDescriptor.read in Er. rewrite (read_into_eq _ _ SIZE_MAX s y Hy) in Er by done.
  change (Z.min BUFFER_SIZE SIZE_MAX) with BUFFER_SIZE in Er.
  destruct (answer (Read (_fd y) BUFFER_SIZE) (kern s)) as [[r data] k]. cbn [fst snd]. destruct (0 <=? rv r); [|done].
  unfold lift in Er. destruct (tun_read data (tun_base t)) as [[o b]|] eqn:E; [|done]. cbn in Er. injection Er as -> _ _.
  by eapply tun_read_segment.
Qed.

Lemma web_starts_stream h fd : fd = 5 -> starts_stream (ip_segment (web_world _ h (Read fd BUFFER_SIZE)).2).
Proof.
  intros ->. unfold web_world, web_oracle, at_web. change (5 =? 5) with true. cbn [snd].
  destruct (Nat.ltb (length h) 15); (split; [by vm_compute|split; [split; [by vm_compute|done|by vm_compute]|by vm_compute]]).
Qed.

Lemma web_environment k0 :
  environment [x61; x62] (mkWrappingInt32 7) socket_config 2 0 1 4 5 3 k0 web_kinv (T := TunAdapter).
Proof.
  split.
  - apply web_kinv_closed.
  - intros v (_ & i & Hb). change (consumed v 4) with (bytes_read 4 (log v)). rewrite Hb. clear Hb.
    assert (zlen (ztake i web_request) <= zlen web_request) by (unfold zlen, ztake; rewrite length_take; lia).
    assert (zlen web_request < 1024) by (by vm_compute). lia.
  - intros [s sk] c seg a s' Hi Ec Hac Er. right. exists 0. cbn [fst snd] in Ec, Er.
    destruct (si_ah_fd _ _ _ _ _ _ _ _ _ _ _ _ Hi) as (y & Hy & Hyf). pose proof (si_ah _ _ _ _ _ _ _ _ _ _ _ _ Hi) as Hah. cbn in Hy, Hah.
    pose proof (tun_adapter_read_segment _ a s s' seg y (eq_trans (f_equal (fun h => wrappers s !! h) Hah) Hy) Er) as Hseg.
    destruct (si_conn _ _ _ _ _ _ _ _ _ _ _ _ Hi) as (c0 & Ec0 & Hst & _). cbn in Ec0. assert (c0 = c) as -> by congruence.
    destruct (st_mode _ _ _ _ _ _ Hst) as [Hal|(Hna & _)]; [|unfold active in Hac; congruence].
    destruct (si_kern _ _ _ _ _ _ _ _ _ _ _ _ Hi) as [Hw _]. cbn [fst] in Hw.
    eapply stream_start_from_peer; [|rewrite Hseg|exact Hal]; [by cbn|]. clear Hst Hal Er Hi Hseg.
    change (answer (Read (_fd y) BUFFER_SIZE) (kern s)).1.2 with (world_of (kern s) _ (log (kern s)) (Read (_fd y) BUFFER_SIZE)).2.
    rewrite Hw. by apply web_starts_stream.
Qed.

Definition web_built : res (TCPSpongeSocket TunAdapter * Address * sys view) := web_socket (bytes "10.0.0.2") web_start.

Lemma web_built_ok :
  match web_built with
  | Ok ((sk, _), s') => (owner sk = 1 /\ _thread_data sk = 2 /\ ad_fd (K := view) (_datagram_adapter sk) = 0)
      /\ (number s' 1 = 3 /\ number s' 2 = 4 /\ number s' 0 = 5)
  | Fail _ => False
  end.
Proof. vm_compute. repeat split. Qed.

Lemma web_good host sk addr s' : arg web_argv 1 = Ok host ->
  web_socket host web_start = Ok ((sk, addr), s') -> good_world [x61; x62] (mkWrappingInt32 7) web_kinv sk socket_config s'.
Proof.
  intros [= <-] E. pose proof web_built_ok as H. pose proof (wp_web_socket (bytes "10.0.0.2") web_start) as Hc. unfold wp in Hc.
  fold web_built in E, Hc. rewrite E in H, Hc. destruct H as ((E1 & E2 & E3) & N1 & N2 & N3).
  destruct Hc as (base & _ & _ & _ & _ & _ & _ & _ & _ & _ & Hr & _).
  assert (Hk : web_kinv (kern s')).
  { eapply (reaches_ind_inv web_kinv); [apply web_kinv_closed|exact Hr|]. split; [done|]. by exists 0. }
  split; [|exact Hk| |].
  - unfold cfg_ok. cbn. split_and!; try lia; done.
  - rewrite E1, E2, E3, N1, N2, N3. split; [by apply (bool_decide_unpack _)|done].
  - rewrite E1, E2, E3, N1, N2, N3. apply web_environment.
Qed.

(** The owner's world: "ab" at descriptor 3. *)
Definition page_oracle : oracle := machine_oracle 0 0 (mkMachine {[ 3 := [x61; x62] ]} ∅ ∅ [] 100 0).

Definition web_opened : res (progress (bool * list (Rule view (TCPSpongeSocket TunAdapter)) * W (K := view) (T := TunAdapter))) :=
  web_main (fun _ => []) 4 1234 100 web_argv web_start.

Definition web_runs (Q : list (Rule view (TCPSpongeSocket TunAdapter)) -> W (K := view) (T := TunAdapter) ->
    bool -> W (K := view) (T := TunAdapter) -> list byte -> sys view -> Prop) : Prop :=
  match web_opened with
  | Ok (Went (true, rules, w1)) =>
      match _tcp_main 4 rules w1,
            web_owner 3 (owner w1.2) (bytes "10.0.0.2") (bytes "/") (owner_memory page_oracle (machine_oracle_lawful _ _ _) w1.1) with
      | Ok ((over, _), wb), Ok (resp, sa) => Q rules w1 over wb resp sa
      | _, _ => False
      end
  | _ => False
  end.

Lemma web_computed : web_runs (fun _ w1 over wb resp sa =>
  let h := log (kern w1.1) in
  let b := drop 15 (log (kern wb.1)) in
  let a := drop 15 (log (kern sa)) in
  let g := client_order a b in
  number w1.1 (owner w1.2) = 3 /\ number w1.1 (_thread_data w1.2) = 4
  /\ log (kern wb.1) = h ++ b /\ log (kern sa) = h ++ a
  /\ in_order 3 4 [] (h ++ g) = true /\ in_order 4 3 [] (h ++ g) = true
  /\ over = false /\ resp = [x61; x62] /\ bytes_read 4 (h ++ g) = web_request).
Proof. vm_compute. repeat split. Qed.

Lemma webget_faithful_witness : web_runs (fun _ w1 _ wb resp sa =>
  let h := log (kern w1.1) in
  let g := client_order (drop 15 (log (kern sa))) (drop 15 (log (kern wb.1))) in
  resp = [x61; x62] /\ bytes_read 4 (h ++ g) = web_request
  /\ (bytes_read 4 (h ++ g)) `prefix_of` ztake 1023 (formatted (bytes "10.0.0.2") (bytes "/"))
  /\ connection_up [x61; x62] (mkWrappingInt32 7) socket_config 4 wb).
Proof.
  assert (Hp : wi_ok (mkWrappingInt32 7)) by done. assert (Ha : web_argv <> []) by discriminate. pose proof web_computed as Hc.
  pose proof (webget_faithful (fun _ => []) [x61; x62] (mkWrappingInt32 7) web_kinv 4 1234 100 web_argv web_start Hp Ha eq_refl web_good) as Hm.
  fold web_opened in Hm. unfold web_runs in *.
  destruct web_opened as [[code text|[[[|] rules] w1]]|f]; [exact Hc| |exact Hc|exact Hc].
  destruct (_tcp_main 4 rules w1) as [[[over rules'] wb]|f] eqn:Eb; [|exact Hc].
  destruct (web_owner 3 _ _ _ _) as [[resp sa]|f] eqn:Ea; [|exact Hc].
  destruct Hc as (N1 & N2 & Hb & Hsa & P1 & P2 & Hov & Hresp & Hreq). cbn zeta in Hm. rewrite N2 in Hm.
  destruct (Hm eq_refl (bytes "10.0.0.2") (bytes "/") resp over wb (log (kern w1.1)) (drop 15 (log (kern sa))) (drop 15 (log (kern wb.1)))
    (client_order (drop 15 (log (kern sa))) (drop 15 (log (kern wb.1))))) as (_ & H2 & _ & H4).
  - split; [exists 4%nat, rules'; exact Eb| |reflexivity|exact Hb|apply client_order_interleaved|rewrite N1, N2; exact (conj P1 P2)].
    exists page_oracle, (machine_oracle_lawful _ _ _), 3%nat, sa. exact (conj Ea Hsa).
  - exact (conj Hresp (conj Hreq (conj H2 (H4 Hov)))).
Defined.
