(* ===== verification/Benchmark.v ===== *)
(** * The throughput benchmark (apps/tcp_benchmark.cc)

    Two connections in one process exchange their segments directly, in order
    or with the segments of the first one reversed; one sends a string, the
    other ends its stream at once.  The program checks that the string arrives
    and throws if not.  The random bytes, the initial sequence numbers and the
    configuration are arguments, time measurement and output are left out.

    With ReliableLink.v the program is shown to succeed: what one connection
    queues is received and acknowledged in the same round, so that nothing is
    sent more than twice, every round gets on ([achieved]), and the two loops
    end. *)

From Stdlib Require Import ZArith Lia.
From S2P Require Import Prelude WrappingIntegers Ring ByteStream UnAssembleBuffer StreamReassembler Buffer Parser TCPHeader TCPSegment TCPReceiver TCPSender Transfer TCPState TCPConnection ConnectionStatus Duplex ReliableLink Printing CommandLine.

Fixpoint receive_all (segments : list TCPSegment) (y : TCPConnection) : res TCPConnection :=
  match segments with
  | [] => Ok y
  | seg :: segments => y ← segment_received y seg; receive_all segments y
  end.

(** The vector is empty again afterwards. *)
Definition move_segments (x y : TCPConnection) (segments : list TCPSegment) (reorder : bool)
    : res (TCPConnection * TCPConnection * list TCPSegment) :=
  let segments := segments ++ segments_out x in
  let x := set_out [] x in
  y ← receive_all (if reorder then rev segments else segments) y;
  Ok (x, y, []).

(** The variables of [main_loop]. *)
Record bench : Type := mkBench {
  bx : TCPConnection;
  by_ : TCPConnection;
  bytes_to_send : Buffer;
  x_closed : bool;
  string_received : list byte
}.

(** The inner [while]: every round sends a byte at least, so the number of
    bytes bounds them. *)
Fixpoint write_input (fuel : nat) (x : TCPConnection) (bytes : Buffer) : res (TCPConnection * Buffer) :=
  match fuel with
  | O => Fail OutOfFuel
  | S fuel =>
    if negb (size bytes =? 0) && negb (remaining_outbound_capacity x =? 0) then
      let want := Z.min (remaining_outbound_capacity x) (size bytes) in
      '(written, x) ← write x (ztake want (str bytes));
      if negb (want =? written) then Fail RuntimeError else
      bytes ← remove_prefix bytes written;
      write_input fuel x bytes
    else Ok (x, bytes)
  end.

Definition loop (reorder : bool) (st : bench) : res bench :=
  '(x, bytes) ← write_input (S (length (str (bytes_to_send st)))) (bx st) (bytes_to_send st);
  '(x, closed) ←
    (if (size bytes =? 0) && negb (x_closed st) then x ← end_input_stream x; Ok (x, true) else Ok (x, x_closed st));
  '(x, y, segments) ← move_segments x (by_ st) [] reorder;
  '(y, x, _) ← move_segments y x segments false;
  let available_output := ByteStream.buffer_size (inbound_stream y) in
  '(received, y) ←
    (if 0 <? available_output
     then '(l, y) ← read_inbound y available_output; Ok (string_received st ++ l, y)
     else Ok (string_received st, y));
  x ← tick x 1000;
  y ← tick y 1000;
  Ok (mkBench x y bytes closed received).

Fixpoint loop_until (stop : bench -> bool) (fuel : nat) (reorder : bool) (st : bench) : res bench :=
  if stop st then Ok st else
  match fuel with
  | O => Fail OutOfFuel
  | S fuel => st ← loop reorder st; loop_until stop fuel reorder st
  end.

Definition start (config : TCPConfig) (rndx rndy : Z) (string_to_send : list byte) : res bench :=
  x ← connect (new config rndx);
  y ← end_input_stream (new config rndy);
  Ok (mkBench x y (of_string string_to_send) false []).

(** [fuel] bounds the rounds of each of the two loops. *)
Definition main_loop (config : TCPConfig) (rndx rndy : Z) (string_to_send : list byte) (reorder : bool) (fuel : nat) : res bench :=
  st ← start config rndx rndy string_to_send;
  st ← loop_until (fun st => eof (inbound_stream (by_ st))) fuel reorder st;
  if negb (bool_decide (string_received st = string_to_send)) then Fail RuntimeError else
  loop_until (fun st => negb (active (bx st) || active (by_ st))) fuel reorder st.

(** [main]: in order, then with reordering.  The numbers are those the four
    connections draw for their initial sequence numbers. *)
Definition benchmark_main (what : fault -> list byte) (config : TCPConfig) (rnd1 rnd2 rnd3 rnd4 : Z) (string1 string2 : list byte)
    (fuel : nat) : res (progress unit) :=
  tried (fun f => what f ++ [newline]) (
    _ ← main_loop config rnd1 rnd2 string1 false fuel;
    _ ← main_loop config rnd3 rnd4 string2 true fuel;
    Ok (Left EXIT_SUCCESS [])).

(** A connection that has given up after too many retransmissions. *)
Definition gave_up (st : bench) : bool := need_send_rst_ (bx st) || need_send_rst_ (by_ st).

Definition bench_cfg : TCPConfig := mkTCPConfig 1000 4 5 (Some (mkWrappingInt32 4294967290)).
Definition sample_text : list byte := [x61; x62; x63; x64; x65; x66; x67; x68; x69; x6a; x6b].

(** ** Lemmas *)

(** *** Calls do not end the stream *)

Lemma enqueue_ended c c' : enqueue_segments c = Ok c' -> ended (sender_ c') = ended (sender_ c).
Proof. unfold enqueue_segments. intros E. apply bind_Ok in E as ([q out] & _ & E). by injection E as <-. Qed.

Lemma write_ended c data n c' : write c data = Ok (n, c') -> ended (sender_ c') = ended (sender_ c).
Proof.
  unfold write. intros E. apply bind_Ok in E as ([k bs] & Ew & E). apply bind_Ok in E as (s & Ef & E).
  apply bind_Ok in E as (c1 & Ee & E). injection E as <- <-. rewrite (enqueue_ended _ _ Ee). cbn [sender_ set_sender] in *.
  rewrite (proj1 (fill_window_ended _ _ Ef)). unfold ByteStream.write in Ew. destruct (_ =? 0); [by injection Ew as <- <-|].
  simplify_res. done.
Qed.

(** ** Deliveries *)

(** [q] was queued by [x] in answer to [segs]. *)
Definition answered (segs : list TCPSegment) (x x' y : endpoint) : Prop :=
  finished x y -> finished x' y /\ exists q, segments_out (conn x') = segments_out (conn x) ++ q
    /\ Forall pure_ack q /\ (Forall pure_ack segs -> q = []).

Section ends.
Context (isnx isny : WrappingInt32) (capx capy : Z).
Context (Hcapx : 0 < capx) (Hcapx2 : 2 * capx < M63) (Hisnx : wi_ok isnx).
Context (Hcapy : 0 < capy) (Hcapy2 : 2 * capy < M63) (Hisny : wi_ok isny).

Lemma receive_all_wire y : forall segs x,
  dinv isnx capx isny capy x y -> zlen (written x) + 2 <= M31 -> zlen (written y) + 2 <= M31 ->
  Forall (fun seg => exists a b, (a, b, seg) ∈ sent y) segs -> up x -> syn_first (sender_ (conn y)) ->
  roomy capx y x segs -> wire y x segs -> wire x y (segments_out (conn x)) ->
  exists x', receive_all segs (conn x) = Ok (conn x') /\ dinv isnx capx isny capy x' y /\ kept x x' /\ moved x x' /\ up x'
    /\ wire y x' [] /\ wire x' y (segments_out (conn x')) /\ answered segs x x' y.
Proof using All.
  induction segs as [|f segs IH]; intros x H Hx Hy Hs Hu Hsf Hroom Hyx Hxy; cbn [receive_all].
  { exists x. split_and!; try done; [apply moved_refl|]. intros Hf. split; [done|]. exists []. by rewrite app_nil_r. }
  apply Forall_cons in Hs as [Hf Hs]. destruct Hu as [U1 U2 U3].
  destruct (wire_segment isnx isny capx capy Hcapx Hcapx2 Hisnx Hcapy Hcapy2 Hisny x y f segs H Hx Hy Hf U1 Hsf Hroom Hyx Hxy)
    as (c & E & H' & Hm & Hfill & Hroom' & Hyx' & Hxy'). rewrite E. cbn [mbind res_bind].
  assert (up (called c x)) as Hu'.
  { split; [|by apply (mv_syn _ _ Hm)|done]. pose proof (mv_next _ _ Hm). lia. }
  destruct (IH (called c x) H' Hx Hy Hs Hu' Hsf Hroom' Hyx' Hxy') as (x' & E' & Hd & [K1 K2 K3] & Hm' & Hu2 & W1 & W2 & Han).
  exists x'. split_and!; try done; [| by eapply moved_trans|].
  - split; [done|done|]. rewrite K3. exact (segment_received_ended _ _ _ E).
  - intros Hfin. destruct (finished_segment isnx isny capx capy Hcapx Hcapx2 Hisnx Hcapy Hcapy2 Hisny x y f c H Hx Hy Hf H' Hm E Hfin)
      as (q & Eq & Hq & Hnil & Hfin'). destruct (Han Hfin') as (Hfin2 & q' & Eq' & Hq' & Hnil'). split; [done|].
    exists (q ++ q'). split_and!.
    + rewrite Eq'. cbn [conn called]. by rewrite Eq, app_assoc.
    + by apply Forall_app.
    + intros [Hp1 Hp2]%Forall_cons. by rewrite Hnil, Hnil'.
Qed.

(** Time passes. *)
Lemma tick_up x y F :
  dinv isnx capx isny capy x y -> retransmission_count_ (sender_ (conn x)) = 0 -> up x ->
  wire x y (segments_out (conn x)) -> wire y x F ->
  exists c, tick (conn x) 1000 = Ok c /\ let x' := called c x in
    dinv isnx capx isny capy x' y /\ wire x' y (segments_out c) /\ wire y x' F /\ up x' /\ receiver_ c = receiver_ (conn x)
    /\ next_seq_no_ (sender_ c) = next_seq_no_ (sender_ (conn x)) /\ last_ack_no_ (sender_ c) = last_ack_no_ (sender_ (conn x))
    /\ ended (sender_ c) = ended (sender_ (conn x)) /\ cfg_ c = cfg_ (conn x)
    /\ (retransmission_count_ (sender_ c) = 0
        \/ retransmission_count_ (sender_ c) = 1 /\ last_ack_no_ (sender_ c) < next_seq_no_ (sender_ c))
    /\ (last_ack_no_ (sender_ (conn x)) = next_seq_no_ (sender_ (conn x)) -> segments_out c = segments_out (conn x)).
Proof using All.
  intros H Hz Hu Wo Wi.
  destruct (wire_tick isnx isny capx capy Hcapx Hcapx2 Hisnx Hcapy Hcapy2 Hisny x y F H Hz Wo Wi)
    as (s & c & E & Es & H' & W1 & W2 & S & R & _ & Hnil & Hct & G & _).
  destruct (tick_fields isnx capy Hcapy Hcapy2 Hisnx _ _ _ Es) as (_ & En & Ea & _ & _ & Ee & _).
  destruct (dinv_sender _ _ _ _ _ _ H) as (Hs & _ & _ & _). pose proof (base_front _ _ Hs) as Hbf. pose proof (si_acked _ _ Hs) as Hak.
  exists c. split; [done|]. cbv zeta. rewrite S. cbn. split_and!; try done; [|destruct Hct as [?|[? Hne]]; [by left|right]|].
  - by eapply (up_tick isnx capy).
  - split; [done|]. rewrite En, Ea. assert (last_ack_no_ (sender_ (conn x)) <> next_seq_no_ (sender_ (conn x))) by (by rewrite <-Hbf). lia.
  - intros Hall. apply Hnil, Hbf, Hall.
Qed.

(** The reader takes everything there is. *)
Lemma read_wire x y F G :
  dinv isnx capx isny capy x y -> wire x y F -> wire y x G ->
  let n := ByteStream.buffer_size (inbound_stream (conn x)) in
  exists l x', (if 0 <? n then '(l, c) ← read_inbound (conn x) n; Ok (read_bytes x ++ l, c) else Ok (read_bytes x, conn x))
      = Ok (read_bytes x', conn x')
    /\ dinv isnx capx isny capy x' y /\ written x' = written x /\ read_bytes x' = read_bytes x ++ l
    /\ wire x' y F /\ wire y x' G /\ abs_ack_no (receiver_ (conn x')) = abs_ack_no (receiver_ (conn x))
    /\ contents (inbound_stream (conn x')) = [] /\ sender_ (conn x') = sender_ (conn x) /\ cfg_ (conn x') = cfg_ (conn x)
    /\ segments_out (conn x') = segments_out (conn x).
Proof using All.
  intros H Wo Wi n. assert (ByteStream.wf (inbound_stream (conn x))) as Hwf.
  { destruct H as (? & ? & ? & ? & ? & ? & ? & ? & _ & H2 & _). pose proof (iv_rcv _ _ _ _ _ H2) as Hr. apply Hr. }
  pose proof (ByteStream.wf_used _ Hwf). pose proof (ByteStream.wf_cap _ Hwf).
  destruct (Z.ltb_spec 0 n) as [Hn|Hn].
  - destruct (duplex_read isnx isny capx capy Hcapx Hcapx2 Hisnx Hcapy Hcapy2 Hisny x y n H) as (l & c & E & H');
      [subst n; unfold buffer_size; lia|]. rewrite E. cbn [mbind res_bind]. unfold read_inbound in E.
    apply bind_Ok in E as ([l' out] & Er & E). injection E as -> <-.
    destruct (wire_read isnx isny capx capy Hcapx Hcapx2 Hisnx Hcapy Hcapy2 Hisny x y F G l out H Er Wo Wi) as (W1 & W2 & Hab & Hct).
    exists l, (mkEndpoint (set_receiver (set_stream_out (receiver_ (conn x)) out) (conn x)) (written x) (read_bytes x ++ l) (sent x)).
    by split_and!.
  - exists [], x. rewrite app_nil_r. split_and!; try done. apply zlen_0_inv. rewrite length_contents by done.
    unfold n, buffer_size in Hn. lia.
Qed.

(** [j] ticks after it fell silent, a finished connection is closed or has
    waited that long. *)
Definition waited (j : nat) (c : TCPConnection) : Prop :=
  match j with
  | O => True
  | S j => active c = false \/ 1000 * Z.of_nat j <= ms_since_last_recv_ c < 10 * rt_timeout (cfg_ c)
  end.

Lemma tick_waited x y F j c :
  dinv isnx capx isny capy x y -> retransmission_count_ (sender_ (conn x)) = 0 -> finished x y ->
  wire x y (segments_out (conn x)) -> wire y x F -> rt_timeout (cfg_ (conn x)) < M16 ->
  waited j (conn x) -> tick (conn x) 1000 = Ok c -> waited (S j) c.
Proof using All.
  intros H Hz Hf Wo Wi Hrt Hj E.
  destruct (wire_tick isnx isny capx capy Hcapx Hcapx2 Hisnx Hcapy Hcapy2 Hisny x y F H Hz Wo Wi)
    as (s & c' & E' & Es & H' & _ & _ & S & R & _ & _ & _ & G & M & L & A). rewrite E in E'. injection E' as <-.
  assert (finished (called c x) y) as Hf'.
  { destruct (tick_fields isnx capy Hcapy Hcapy2 Hisnx _ _ _ Es) as (_ & _ & Ea & _). destruct Hf as [F1 F2].
    split; cbn [conn called written]; [rewrite S; cbn; by rewrite Ea|by rewrite R]. }
  pose proof (finished_receiver isnx isny capx capy Hcapx Hcapx2 Hisnx Hcapy Hcapy2 Hisny x y H Hf) as Hr.
  destruct (finished_sender isnx isny capx capy Hcapx Hcapx2 Hisnx Hcapy Hcapy2 Hisny _ _ H' Hf') as (Hs & _ & _). cbn [conn called] in Hs.
  rewrite S in Hs. change (TCPSender.state s = TCPSender.kFinAcked) in Hs.
  cbn [waited]. unfold active. rewrite A, G, M. unfold try_clean_shutdown. cbn [receiver_ sender_ set_sender set_ms linger_after_stream_finish_ cfg_ ms_since_last_recv_].
  rewrite Hr, Hs, !bool_decide_true by done. pose proof (u64_range (ms_since_last_recv_ (conn x) + 1000)) as Hu.
  destruct (linger_after_stream_finish_ (conn x)); cbn [andb orb negb]; [|by left].
  destruct (Z.leb_spec (10 * rt_timeout (cfg_ (conn x))) (u64 (ms_since_last_recv_ (conn x) + 1000))) as [Hle|Hgt]; [by left|]. cbn [orb].
  destruct j as [|j]; [right; lia|]. destruct Hj as [Hj|Hj]; [left; exact Hj|right]. rewrite u64_small in *; lia.
Qed.
End ends.

(** The segments [x] has queued go to [y]. *)
Lemma move_wire isnx isny capx capy x y reorder :
  0 < capx -> 2 * capx < M63 -> wi_ok isnx -> 0 < capy -> 2 * capy < M63 -> wi_ok isny ->
  dinv isnx capx isny capy x y -> zlen (written x) + 2 <= M31 -> zlen (written y) + 2 <= M31 ->
  up x -> up y -> contents (inbound_stream (conn y)) = [] \/ written x = [] ->
  wire x y (segments_out (conn x)) -> wire y x (segments_out (conn y)) ->
  exists x' y', move_segments (conn x) (conn y) [] reorder = Ok (conn x', conn y', []) /\ dinv isnx capx isny capy x' y'
    /\ x' = mkEndpoint (set_out [] (conn x)) (written x) (read_bytes x) (sent x) /\ kept y y' /\ moved y y' /\ up y'
    /\ wire x' y' [] /\ wire y' x' (segments_out (conn y')) /\ answered (segments_out (conn x)) y y' x'
    /\ abs_ack_no (receiver_ (conn y')) = next_seq_no_ (sender_ (conn x))
    /\ last_ack_no_ (sender_ (conn y')) = abs_ack_no (receiver_ (conn x)).
Proof.
  intros ? ? ? ? ? ? H Hx Hy Hux Huy Hroom Hxy Hyx. unfold move_segments. cbn [app].
  set (x' := mkEndpoint (set_out [] (conn x)) (written x) (read_bytes x) (sent x)).
  assert (dinv isnx capx isny capy x' y) as H'.
  { eapply (dinv_act isnx isny capx capy); [done..|exact H|]. subst x'.
    rewrite <-(drop_all (segments_out (conn x))) at 1. apply act_take. }
  assert (Forall (fun seg => exists a b, (a, b, seg) ∈ sent x) (segments_out (conn x))) as Hq.
  { destruct H as (? & ? & ? & ? & ? & ? & ? & ? & _ & _ & [Hq _ _ _] & _). exact Hq. }
  set (segs := if reorder then rev (segments_out (conn x)) else segments_out (conn x)).
  assert (forall seg, seg ∈ segs <-> seg ∈ segments_out (conn x)) as Hperm.
  { intros seg. subst segs. destruct reorder; [|done]. rewrite !list_elem_of_In. symmetry. apply in_rev. }
  destruct (receive_all_wire isny isnx capy capx ltac:(done) ltac:(done) ltac:(done) ltac:(done) ltac:(done) ltac:(done)
    x' segs y) as (y' & E & Hd & Hk & Hm & Hu & W1 & W2 & Han); try done.
  - by apply dinv_sym.
  - apply Forall_forall. intros seg Hin%Hperm. rewrite Forall_forall in Hq. by apply Hq.
  - apply Hux.
  - eapply (wire_roomy isnx isny capx capy); try done.
  - apply (wire_subset x' y (segments_out (conn x))); [|by destruct Hxy]. intros seg. apply Hperm.
  - by destruct Hyx.
  - destruct (wire_empty isnx isny capx capy ltac:(done) ltac:(done) ltac:(done) ltac:(done) ltac:(done) ltac:(done) x' y' (dinv_sym _ _ _ _ _ _ Hd) W1)
      as [A1 A2]. rewrite E. cbn [mbind res_bind]. exists x', y'. split_and!; try done; [by apply dinv_sym|].
    intros Hf. destruct (Han Hf) as (Hf' & q & Eq & Hp & Hnil). split; [done|]. exists q. split_and!; try done. intros Hpa. apply Hnil.
    apply Forall_forall. intros seg Hin%Hperm. rewrite Forall_forall in Hpa. by apply Hpa.
Qed.

(** Both queues are delivered, first the one of [x]. *)
Record exchanged (isnx isny : WrappingInt32) (capx capy : Z) (x y x' y' : endpoint) : Prop := {
  xc_inv : dinv isnx capx isny capy x' y';
  xc_up_x : up x';
  xc_up_y : up y';
  xc_out : wire x' y' (segments_out (conn x'));
  xc_in : wire y' x' [];
  xc_queue : segments_out (conn y') = [];
  xc_kept_x : kept x x';
  xc_kept_y : kept y y';
  xc_moved_x : moved x x';
  xc_moved_y : moved y y';
  xc_ack_x : last_ack_no_ (sender_ (conn x')) = next_seq_no_ (sender_ (conn x));
  xc_recv_y : abs_ack_no (receiver_ (conn y')) = next_seq_no_ (sender_ (conn x));
  xc_ack_y : last_ack_no_ (sender_ (conn y')) = abs_ack_no (receiver_ (conn x));
  xc_recv_x : abs_ack_no (receiver_ (conn x')) = next_seq_no_ (sender_ (conn y'));
  xc_silent : finished x y -> finished y x -> finished x' y' /\ finished y' x' /\ Forall pure_ack (segments_out (conn x'))
    /\ (Forall pure_ack (segments_out (conn x)) -> segments_out (conn y) = [] -> segments_out (conn x') = [])
}.

Lemma exchange isnx isny capx capy x y reorder :
  0 < capx -> 2 * capx < M63 -> wi_ok isnx -> 0 < capy -> 2 * capy < M63 -> wi_ok isny ->
  dinv isnx capx isny capy x y -> zlen (written x) + 2 <= M31 -> written y = [] -> up x -> up y ->
  contents (inbound_stream (conn y)) = [] -> wire x y (segments_out (conn x)) -> wire y x (segments_out (conn y)) ->
  exists x' y', ('(x, y, segments) ← move_segments (conn x) (conn y) [] reorder; move_segments y x segments false)
      = Ok (conn y', conn x', []) /\ exchanged isnx isny capx capy x y x' y'.
Proof.
  intros P1 P2 P3 P4 P5 P6 H Lx Hsi Hux Huy Hct Hxy Hyx.
  assert (forall z, written z = [] -> zlen (written z) + 2 <= M31) as Ly by (intros z ->; change (zlen (@nil byte)) with 0; lia).
  destruct (move_wire isnx isny capx capy x y reorder) as
    (x2 & y2 & E2 & H2 & Ex2 & Kp2 & Hm2 & Hu2 & Wx2 & Wy2 & An2 & A1 & A2); auto.
  rewrite E2. cbn [mbind res_bind]. pose proof (kp_written _ _ Kp2) as Kw2. assert (up x2) as Hux2 by (subst x2; by destruct Hux).
  destruct (move_wire isny isnx capy capx y2 x2 false) as
    (y3 & x3 & E3 & H3 & Ey3 & Kp3 & Hm3 & Hu3 & Wy3 & Wx3 & An3 & B1 & B2);
    [done|done|done|done|done|done|by apply dinv_sym|apply Ly; by rewrite Kw2|by subst x2|done|done|right; by rewrite Kw2|done|by subst x2|].
  exists x3, y3. split; [done|]. pose proof (kp_written _ _ Kp3) as Kw3. split; try done.
  - by apply dinv_sym.
  - subst y3. by destruct Hu2.
  - by subst y3.
  - subst x2. destruct Kp3. by split.
  - subst y3. destruct Kp2. by split.
  - subst x2. destruct Hm3. by split.
  - subst y3. destruct Hm2. by split.
  - by rewrite B2, A1.
  - by subst y3.
  - by subst y3.
  - by subst y3.
  - intros Fx Fy. assert (finished y x2) as Fy2 by (subst x2; exact Fy). destruct (An2 Fy2) as (Fy3 & q & Eq & Hq & Hnil).
    assert (finished x2 y3) as Fx2.
    { subst x2 y3. destruct Fx as [Fa Fb]. split; cbn [conn written]; [exact Fa|]. rewrite Kw2. exact Fb. }
    destruct (An3 Fx2) as (Fx3 & q' & Eq' & Hq' & Hnil'). subst x2. cbn [conn segments_out set_out] in Eq'. split_and!; [done| | |].
    + subst y3. destruct Fy3 as [Fa Fb]. split; cbn [conn written]; [exact Fa|]. rewrite Kw3. exact Fb.
    + by rewrite Eq'.
    + intros Hp Hn. rewrite Eq'. apply Hnil'. rewrite Eq, Hn, (Hnil Hp). constructor.
Qed.

Section rounds.
Context (string : list byte) (isnx isny : WrappingInt32) (capx capy : Z).
Context (Hcapx : 0 < capx) (Hcapx2 : 2 * capx < M63) (Hisnx : wi_ok isnx).
Context (Hcapy : 0 < capy) (Hcapy2 : 2 * capy < M63) (Hisny : wi_ok isny).
Context (Hstring : zlen string + 2 <= M31).

(** [x] has written or closed; [F] are the segments on their way to it. *)
Record spoken (F : list TCPSegment) (y x x' : endpoint) : Prop := {
  sp_inv : dinv isnx capx isny capy x' y;
  sp_up : up x';
  sp_out : wire x' y (segments_out (conn x'));
  sp_in : wire y x' F;
  sp_moved : moved x x';
  sp_receiver : receiver_ (conn x') = receiver_ (conn x);
  sp_ack : last_ack_no_ (sender_ (conn x')) = last_ack_no_ (sender_ (conn x));
  sp_read : read_bytes x' = read_bytes x
}.

Lemma spoken_trans F y x x1 x2 : spoken F y x x1 -> spoken F y x1 x2 -> spoken F y x x2.
Proof using. intros [] []. split; try done; try congruence. by eapply moved_trans. Qed.

Lemma write_input_wire F y : forall fuel x bytes,
  spoken F y x x -> buffer_wf bytes -> written x ++ str bytes = string ->
  (str bytes <> [] -> ended (sender_ (conn x)) = false) -> (length (str bytes) < fuel)%nat ->
  exists x' bytes', write_input fuel (conn x) bytes = Ok (conn x', bytes') /\ spoken F y x x'
    /\ buffer_wf bytes' /\ written x' ++ str bytes' = string
    /\ ended (sender_ (conn x')) = ended (sender_ (conn x)) /\ (str bytes = [] -> x' = x /\ bytes' = bytes)
    /\ (str bytes' = [] \/ remaining_outbound_capacity (conn x') = 0).
Proof using All.
  induction fuel as [|fuel IH]; intros x bytes Hsp Hb Hst He Hf; [lia|]. cbn [write_input]. unfold size.
  destruct (Z.eqb_spec (zlen (str bytes)) 0) as [E0|E0]; cbn [negb andb].
  { exists x, bytes. split_and!; try done. left. by apply zlen_0_inv. }
  destruct (Z.eqb_spec (remaining_outbound_capacity (conn x)) 0) as [Er|Er]; cbn [negb].
  { exists x, bytes. split_and!; try done. by right. }
  assert (str bytes <> []) as Hne by (intros E; rewrite E in E0; done). specialize (He Hne).
  set (want := Z.min _ _). set (data := ztake want (str bytes)). destruct (Hsp) as [H [U1 U2 U3] Hout Hin _ _ _ _].
  assert (ByteStream.wf (stream_in (sender_ (conn x)))) as Hwf by apply (si_stream _ _ (proj1 (dinv_sender _ _ _ _ _ _ H))).
  assert (0 <= remaining_outbound_capacity (conn x)) as Hr0 by apply u64_range. pose proof (zlen_nonneg (str bytes)).
  assert (zlen data = want) as Hd by (subst data want; rewrite zlen_ztake; lia).
  assert (accepted (stream_in (sender_ (conn x))) data = data) as Hacc.
  { apply accepted_all; [done|]. rewrite Hd. unfold want, remaining_outbound_capacity in *. lia. }
  assert (zlen (written x) + zlen (str bytes) = zlen string) as Hlen by (rewrite <-Hst, zlen_app; done).
  destruct (wire_write isnx isny capx capy Hcapx Hcapx2 Hisnx Hcapy Hcapy2 Hisny x y F data H He ltac:(lia) U1 Hout Hin)
    as (c & Ew & H' & Hm & Hfill & Hrc & Hla & W1 & W2).
  cbn zeta in *. rewrite Hacc, Hd in *. rewrite Ew. cbn [mbind res_bind]. rewrite Z.eqb_refl. cbn [negb].
  destruct (remove_prefix_ok bytes want Hb) as (b' & -> & Hb' & Es); [lia|]. cbn [mbind res_bind].
  set (x1 := called c _) in *. pose proof (write_ended _ _ _ _ Ew) as Hend.
  assert (ztake want data = data) as Ht by (unfold ztake, zlen in *; apply take_ge; lia).
  assert (up x1) as Hu1 by (split; [pose proof (mv_next _ _ Hm); lia|by apply (mv_syn _ _ Hm)|done]).
  destruct (IH x1 b') as (x' & bytes' & E' & Hsp' & Hx'); [|done|..].
  - split; try done. apply moved_refl.
  - subst x1. cbn. rewrite Ht, Es, <-app_assoc. subst data. by rewrite ztake_zdrop.
  - intros _. change (conn x1) with c. by rewrite Hend.
  - rewrite Es. unfold zdrop. rewrite length_drop. unfold zlen in *. lia.
  - exists x', bytes'. destruct Hx' as (? & ? & Hk & _ & ?). split_and!; try done.
    + eapply spoken_trans; [|exact Hsp']. by split.
    + change (conn x1) with c in Hk. by rewrite Hk, Hend.
Qed.

(** The state between two rounds is one of the two connections' runs. *)
Record sim (st : bench) (x y : endpoint) : Prop := {
  sim_x : conn x = bx st;
  sim_y : conn y = by_ st;
  sim_inv : dinv isnx capx isny capy x y;
  sim_buffer : buffer_wf (bytes_to_send st);
  sim_string : written x ++ str (bytes_to_send st) = string;
  sim_silent : written y = [];
  sim_received : read_bytes y = string_received st;
  sim_closed : x_closed st = ended (sender_ (bx st));
  sim_sent : x_closed st = true -> str (bytes_to_send st) = []
}.

(** The first half of a round: writing and closing.  Either everything is
    written and the stream ended, or there is no capacity left. *)
Lemma input_wire F st x y :
  sim st x y -> spoken F y x x ->
  exists x' bytes closed,
    ('(x, bytes) ← write_input (S (length (str (bytes_to_send st)))) (bx st) (bytes_to_send st);
     '(x, closed) ←
       (if (size bytes =? 0) && negb (x_closed st) then x ← end_input_stream x; Ok (x, true) else Ok (x, x_closed st));
     Ok (x, bytes, closed)) = Ok (conn x', bytes, closed)
    /\ spoken F y x x' /\ buffer_wf bytes /\ written x' ++ str bytes = string
    /\ closed = ended (sender_ (conn x')) /\ (closed = true -> str bytes = [])
    /\ (closed = true \/ remaining_outbound_capacity (conn x') = 0) /\ (x_closed st = true -> x' = x).
Proof using All.
  intros [Ex Ey H Hb Hst Hsi Hre Hc Hz] Hsp. rewrite <-Ex in *.
  destruct (write_input_wire F y (S (length (str (bytes_to_send st)))) x (bytes_to_send st) Hsp Hb Hst) as
    (x1 & bytes & -> & Hs1 & Hb1 & Hst1 & He1 & Hn1 & Hr1); [|lia|].
  { intros Hne. rewrite <-Hc. destruct (x_closed st); [by destruct (Hne (Hz eq_refl))|done]. }
  cbn [mbind res_bind]. destruct (x_closed st) eqn:Ecl; cbn [negb].
  - rewrite andb_false_r. cbn [mbind res_bind]. exists x1, bytes, true. destruct (Hn1 (Hz eq_refl)) as [-> ->].
    split_and!; try done; by left.
  - rewrite andb_true_r. unfold size. destruct (Z.eqb_spec (zlen (str bytes)) 0) as [E0|E0].
    + destruct (Hs1) as [H1 [U1 U2 U3] Wo Wi _ _ _ _].
      destruct (wire_end isnx isny capx capy Hcapx Hcapx2 Hisnx Hcapy Hcapy2 Hisny x1 y F H1 U1 Wo Wi)
        as (c & Ec & H2 & Hm & Hfill & Hrc & Hen & Hla & W1 & W2).
      rewrite Ec. cbn [mbind res_bind]. exists (called c x1), bytes, true. split_and!; try done.
      * eapply spoken_trans; [exact Hs1|]. split; try done. split; [|by apply (mv_syn _ _ Hm)|done]. pose proof (mv_next _ _ Hm). lia.
      * intros _. by apply zlen_0_inv.
      * by left.
    + cbn [mbind res_bind]. exists x1, bytes, false. split_and!; try done; [by rewrite He1|].
      destruct Hr1 as [E|]; [rewrite E in E0; done|by right].
Qed.

(** *** Rounds *)

(** Between two rounds the reader has taken everything, the receiver has
    acknowledged everything and the sender knows; nothing was sent more than
    twice, and what was sent twice is acknowledged in the next round. *)
Record live (st : bench) (x y : endpoint) : Prop := {
  lv_sim : sim st x y;
  lv_xy : wire x y (segments_out (conn x));
  lv_yx : wire y x (segments_out (conn y));
  lv_up_x : up x;
  lv_up_y : up y;
  lv_empty : contents (inbound_stream (conn y)) = [];
  lv_acked : last_ack_no_ (sender_ (conn x)) = abs_ack_no (receiver_ (conn y));
  lv_ended : ended (sender_ (conn y)) = true;
  lv_count_x : retransmission_count_ (sender_ (conn x)) = 0
    \/ retransmission_count_ (sender_ (conn x)) = 1 /\ last_ack_no_ (sender_ (conn x)) < next_seq_no_ (sender_ (conn x));
  lv_count_y : retransmission_count_ (sender_ (conn y)) = 0
    \/ retransmission_count_ (sender_ (conn y)) = 1 /\ last_ack_no_ (sender_ (conn y)) < abs_ack_no (receiver_ (conn x));
  lv_heard : last_ack_no_ (sender_ (conn x)) = 0 \/ abs_ack_no (receiver_ (conn x)) = next_seq_no_ (sender_ (conn y));
  lv_cfg : rt_timeout (cfg_ (conn x)) < M16 /\ rt_timeout (cfg_ (conn y)) < M16
}.

(** What a round achieves: both ends get on, and finished ends fall silent. *)
Record achieved (x y x' y' : endpoint) : Prop := {
  ac_x : zlen string + 2 <= last_ack_no_ (sender_ (conn x')) \/ last_ack_no_ (sender_ (conn x)) < last_ack_no_ (sender_ (conn x'));
  ac_y : last_ack_no_ (sender_ (conn x)) = 0 \/ 2 <= last_ack_no_ (sender_ (conn y'))
    \/ last_ack_no_ (sender_ (conn y)) < last_ack_no_ (sender_ (conn y'));
  ac_silent : finished x y -> finished y x -> finished x' y' /\ finished y' x'
    /\ segments_out (conn y') = [] /\ Forall pure_ack (segments_out (conn x'))
    /\ (Forall pure_ack (segments_out (conn x)) -> segments_out (conn y) = [] -> segments_out (conn x') = [])
}.

(** An end whose window is filled and whose segments are all acknowledged has
    ended its stream, unless it has no capacity left. *)
Lemma nothing_left x' y bytes (closed : bool) :
  dinv isnx capx isny capy x' y -> up x' -> written x' ++ str bytes = string ->
  closed = ended (sender_ (conn x')) -> (closed = true -> str bytes = []) ->
  (closed = true \/ remaining_outbound_capacity (conn x') = 0) ->
  last_ack_no_ (sender_ (conn x')) = next_seq_no_ (sender_ (conn x')) -> last_ack_no_ (sender_ (conn x')) = zlen string + 2.
Proof using All.
  intros H [U1 U2 U3] Hst Hc Hz Hor Hall. destruct (dinv_sender _ _ _ _ _ _ H) as (Hs & _ & _ & _).
  destruct (idle _ _ Hs U3 U1 Hall) as [Hu Hd]. destruct Hor as [->|Hr].
  - rewrite Hall, Hd by done. rewrite <-Hst, Hz, app_nil_r by done. done.
  - pose proof (si_stream _ _ Hs) as Hwf. pose proof (ByteStream.wf_cap _ Hwf) as Hcap.
    unfold remaining_outbound_capacity, remaining_capacity, stream_in in Hr. rewrite Hu in Hr. rewrite u64_small in Hr; lia.
Qed.

(** The second half of a round: reading and time. *)
Lemma closing_wire st x1 y x3 y3 bytes closed :
  exchanged isnx isny capx capy x1 y x3 y3 -> buffer_wf bytes -> written x1 ++ str bytes = string ->
  written y = [] -> read_bytes y = string_received st -> ended (sender_ (conn y)) = true ->
  closed = ended (sender_ (conn x1)) -> (closed = true -> str bytes = []) ->
  retransmission_count_ (sender_ (conn x3)) = 0 -> retransmission_count_ (sender_ (conn y3)) = 0 ->
  rt_timeout (cfg_ (conn x3)) < M16 -> rt_timeout (cfg_ (conn y3)) < M16 ->
  exists st' x' y',
    ('(received, y) ←
      (let n := ByteStream.buffer_size (inbound_stream (conn y3)) in
       if 0 <? n then '(l, y) ← read_inbound (conn y3) n; Ok (string_received st ++ l, y) else Ok (string_received st, conn y3));
     x ← tick (conn x3) 1000;
     y ← tick y 1000;
     Ok (mkBench x y bytes closed received)) = Ok st'
    /\ live st' x' y'
    /\ last_ack_no_ (sender_ (conn x')) = last_ack_no_ (sender_ (conn x3)) /\ last_ack_no_ (sender_ (conn y')) = last_ack_no_ (sender_ (conn y3))
    /\ (finished x3 y3 -> finished y3 x3 -> finished x' y' /\ finished y' x'
         /\ segments_out (conn y') = [] /\ segments_out (conn x') = segments_out (conn x3)).
Proof using All.
  intros [H Hux Huy Wo Wi Hq Kx Ky _ _ Ax Ry Ay Rx _] Hb Hst Hsi Hre Hen Hc Hz Cx Cy Gx Gy.
  rewrite <-Hre, <-(kp_read _ _ Ky).
  destruct (read_wire isny isnx capy capx ltac:(done) ltac:(done) ltac:(done) ltac:(done) ltac:(done) ltac:(done) y3 x3 _ _
    (dinv_sym _ _ _ _ _ _ H) Wi Wo) as (l & y4 & E4 & H4 & Kw4 & Kr4 & V1 & V2 & Hab & Hct & Es & Eg & Eq4).
  cbv zeta in E4 |- *. rewrite E4. cbn [mbind res_bind].
  rewrite <-Hq, <-Eq4 in V1. assert (up y4) as Huy4 by (destruct Huy; split; by rewrite Es).
  destruct (tick_up isnx isny capx capy ltac:(done) ltac:(done) ltac:(done) ltac:(done) ltac:(done) ltac:(done) x3 y4 _
    (dinv_sym _ _ _ _ _ _ H4) Cx Hux V2 V1) as (cx & Ex & H5 & W1 & W2 & Hux5 & Rx5 & Nx5 & Lx5 & Ex5 & Gx5 & Cx5 & Qx5).
  rewrite Ex. cbn [mbind res_bind]. rewrite <-Es in Cy.
  destruct (tick_up isny isnx capy capx ltac:(done) ltac:(done) ltac:(done) ltac:(done) ltac:(done) ltac:(done) y4 (called cx x3) _
    (dinv_sym _ _ _ _ _ _ H5) Cy Huy4 W2 W1) as (cy & Ey & H6 & X1 & X2 & Huy6 & Ry6 & Ny6 & Ly6 & Ey6 & Gy6 & Cy6 & Qy6).
  rewrite Ey. cbn [mbind res_bind]. rewrite Es in Ny6, Ly6, Ey6, Qy6. exists (mkBench cx cy bytes closed (read_bytes y4)), (called cx x3), (called cy y4).
  split_and!; [done| |done|done|].
  - split; cbn [conn called]; try done.
    + split; cbn; try done; [by apply dinv_sym|by rewrite (kp_written _ _ Kx)|by rewrite Kw4, (kp_written _ _ Ky)|].
      rewrite Ex5, (kp_ended _ _ Kx). exact Hc.
    + unfold inbound_stream. rewrite Ry6. exact Hct.
    + rewrite Lx5, Ax, Ry6, Hab. by rewrite Ry.
    + by rewrite Ey6, (kp_ended _ _ Ky).
    + destruct Cy6 as [?|[? ?]]; [by left|right]. split; [done|]. rewrite Rx5, Rx. lia.
    + right. by rewrite Rx5, Rx, Ny6.
    + rewrite Gx5, Gy6, Eg. done.
  - intros Fx Fy. destruct (finished_sender isnx isny capx capy ltac:(done) ltac:(done) ltac:(done) ltac:(done) ltac:(done) ltac:(done) x3 y3 H Fx) as (_ & _ & Nx).
    destruct (finished_sender isny isnx capy capx ltac:(done) ltac:(done) ltac:(done) ltac:(done) ltac:(done) ltac:(done) y3 x3 (dinv_sym _ _ _ _ _ _ H) Fy) as (_ & _ & Ny).
    destruct Fx as [Fa Fb], Fy as [Fc Fd]. unfold finished. cbn [conn called written]. rewrite Rx5, Lx5, Ry6, Ly6, Kw4, Hab.
    split_and!; try done; [rewrite Qy6, Eq4, Hq by lia; done|]. apply Qx5. lia.
Qed.

(** A finished [x] has written everything and does not speak. *)
Lemma finished_closed st x y : sim st x y -> finished x y -> x_closed st = true.
Proof using All.
  intros [Ex _ H _ _ _ _ Hc _] [Hf _]. rewrite Hc, <-Ex. destruct (dinv_sender _ _ _ _ _ _ H) as (Hs & _ & _ & _).
  pose proof (si_acked _ _ Hs). pose proof (si_sent _ _ Hs). pose proof (ByteStream.wf_used _ (si_stream _ _ Hs)).
  destruct (si_next _ _ Hs) as [[? ?]|[?|(_ & _ & He)]]; [pose proof (zlen_nonneg (written x)); lia|lia|exact He].
Qed.

(** A round never fails, and both ends get on. *)
Lemma round_live reorder st x y :
  live st x y -> exists st' x' y', loop reorder st = Ok st' /\ live st' x' y' /\ achieved x y x' y'.
Proof using All.
  intros [Hsim Hxy Hyx Hux Huy Hct Hak Hen Hcx Hcy Hhe [Gx Gy]]. destruct (Hsim) as [Ex Ey H Hb0 Hst0 Hsi Hre _ _].
  assert (spoken (segments_out (conn y)) y x x) as Hsp0 by (split; try done; apply moved_refl).
  destruct (input_wire _ st x y Hsim Hsp0) as (x1 & bytes & closed & E1 & [H1 Hu1 W1 V1 Hm1 Hrc1 Hla1 Hrd1] & Hb & Hst & Hc & Hz & Hor & Hstill).
  unfold loop. destruct (write_input _ _ _) as [[xa ba]|] eqn:Ew; [|done]. cbn [mbind res_bind] in E1 |- *.
  destruct (if (size ba =? 0) && _ then _ else _) as [[xb cb]|]; [|done]. cbn [mbind res_bind] in E1 |- *.
  injection E1 as -> -> ->. rewrite <-Ey.
  assert (zlen (written x1) + 2 <= M31) as Lx by (rewrite <-Hst, zlen_app in Hstring; pose proof (zlen_nonneg (str bytes)); lia).
  destruct (exchange isnx isny capx capy x1 y reorder) as (x3 & y3 & E3 & Hxc); try done. destruct (Hxc) as [_ _ _ _ _ _ _ _ Mx My Ax _ Ay _ Hq].
  destruct (move_segments (conn x1) (conn y) [] reorder) as [[[xa' ya] sa]|]; [|done]. cbn [mbind res_bind] in E3 |- *. rewrite E3. cbn [mbind res_bind].
  pose proof (mv_next _ _ Hm1) as Hn1. destruct (dinv_sender _ _ _ _ _ _ H1) as (Hs1 & _ & _ & _). pose proof (si_acked _ _ Hs1) as Hk1.
  destruct (dinv_sender _ _ _ _ _ _ (dinv_sym _ _ _ _ _ _ H)) as (Hsy & _ & _ & _). pose proof (si_acked _ _ Hsy) as Hky.
  destruct (closing_wire st x1 y x3 y3 bytes closed) as (st' & x' & y' & E & Hlive & Lx' & Ly' & Hfin); try done.
  - destruct (Z.eq_dec (last_ack_no_ (sender_ (conn x3))) (last_ack_no_ (sender_ (conn x1)))) as [Es|]; [|apply (mv_reset _ _ Mx); pose proof (mv_ack _ _ Mx); lia].
    rewrite (mv_same _ _ Mx Es), (mv_same _ _ Hm1 Hla1). destruct Hcx as [?|[_ ?]]; [done|lia].
  - destruct (Z.eq_dec (last_ack_no_ (sender_ (conn y3))) (last_ack_no_ (sender_ (conn y)))) as [Es|]; [|apply (mv_reset _ _ My); pose proof (mv_ack _ _ My); lia].
    rewrite (mv_same _ _ My Es). destruct Hcy as [?|[_ ?]]; [done|]. rewrite Ay, Hrc1 in Es. lia.
  - by rewrite (mv_cfg _ _ Mx), (mv_cfg _ _ Hm1).
  - by rewrite (mv_cfg _ _ My).
  - exists st', x', y'. split_and!; [exact E|done|]. split.
    + rewrite Lx', Ax. destruct (Z.eq_dec (last_ack_no_ (sender_ (conn x1))) (next_seq_no_ (sender_ (conn x1)))) as [Ea|]; [left|right; lia].
      rewrite <-Ea, (nothing_left x1 y bytes closed) by done. lia.
    + rewrite Ly', Ay, Hrc1. destruct Hhe as [?|Hhe]; [by left|right].
      destruct (Z.eq_dec (last_ack_no_ (sender_ (conn y))) (next_seq_no_ (sender_ (conn y)))) as [Ea|]; [left|right; lia].
      destruct Huy as [U1 U2 U3]. destruct (idle _ _ Hsy U3 U1 Ea) as [_ Hd]. rewrite Hsi in Hd. rewrite Hhe, Hd by done. done.
    + intros Fx Fy. rewrite (Hstill (finished_closed st x y Hsim Fx)) in Hq.
      destruct (Hq Fx Fy) as (Fx3 & Fy3 & Hp & Hs). destruct (Hfin Fx3 Fy3) as (? & ? & ? & ->). by split_and!.
Qed.

(** *** The first loop *)

Lemma live_bounds st x y :
  live st x y -> 0 <= last_ack_no_ (sender_ (conn x)) <= zlen string + 2 /\ 0 <= last_ack_no_ (sender_ (conn y)) <= 2
  /\ zlen (written x) <= zlen string.
Proof using All.
  intros H. destruct (lv_sim _ _ _ H) as [_ _ Hi _ Hst Hsi _ _ _]. destruct (dinv_sender _ _ _ _ _ _ Hi) as (Hx & _).
  destruct (dinv_sender _ _ _ _ _ _ (dinv_sym _ _ _ _ _ _ Hi)) as (Hy & _). pose proof (next_seq_range _ _ Hx). pose proof (next_seq_range _ _ Hy) as Hn.
  pose proof (si_acked _ _ Hx). pose proof (si_acked _ _ Hy). rewrite Hsi in Hn. change (zlen (@nil byte)) with 0 in Hn.
  assert (zlen (written x) <= zlen string) by (rewrite <-Hst, zlen_app; pose proof (zlen_nonneg (str (bytes_to_send st))); lia). lia.
Qed.

(** Once everything is acknowledged, the reader has it all. *)
Lemma live_done st x y :
  live st x y -> last_ack_no_ (sender_ (conn x)) = zlen string + 2 ->
  eof (inbound_stream (by_ st)) = true /\ string_received st = string.
Proof using All.
  intros H Ha. destruct (live_bounds _ _ _ H) as (_ & _ & Hw). destruct (lv_sim _ _ _ H) as [Ex Ey Hi Hb Hst Hsi Hre Hc Hz].
  pose proof (lv_acked _ _ _ H) as Hak. pose proof (lv_empty _ _ _ H) as Hct. rewrite <-Ey.
  assert (eof (inbound_stream (conn y)) = true) as He.
  { destruct Hi as (sx & ax & sy & ay & rcx & fnx & rcy & fny & H1 & _).
    destruct (room isnx capy Hcapy Hcapy2 Hisnx _ _ (iv_snd _ _ _ _ _ H1)) as [Hcp HS]. pose proof (iv_rcv _ _ _ _ _ H1) as Hr.
    destruct (state_spec _ _ _ Hcp HS Hisnx _ _ _ _ Hr) as [_ Hab]. destruct (written_range _ _ _ Hcp HS Hisnx _ _ _ _ Hr) as [_ Hn].
    cbn [link sys_receiver sys_written] in *. pose proof (ri_inv _ _ _ _ _ _ _ Hr) as Hinv. pose proof (zlen_nonneg (written x)).
    destruct (is_listen_ _); [lia|]. destruct (fnx && _) eqn:Ef; [|lia]. unfold eof, inbound_stream, stream_out, StreamReassembler.stream_out.
    rewrite (inv_ended _ _ _ _ _ _ Hinv), Ef, andb_true_r. apply Z.eqb_eq.
    change (contents (output_ (reassembler_ (receiver_ (conn y)))) = []) in Hct.
    by rewrite <-(length_contents _ (wf_output _ (inv_wf _ _ _ _ _ _ Hinv))), Hct. }
  split; [done|]. destruct (dinv_delivered _ _ _ _ _ _ Hi) as [_ Hd]. destruct (Hd He) as [Hr Hen]. rewrite Ex, <-Hc in Hen.
  by rewrite <-Hre, Hr, <-Hst, Hz, app_nil_r.
Qed.

(** A loop whose rounds count down ends. *)
Lemma loop_until_ends (stop : bench -> bool) (P : nat -> bench -> Prop) reorder :
  (forall n st, P n st -> stop st = true \/ exists m st', n = S m /\ loop reorder st = Ok st' /\ P m st') ->
  forall fuel n st, P n st -> (n <= fuel)%nat -> exists m st', loop_until stop fuel reorder st = Ok st' /\ stop st' = true /\ P m st'.
Proof using.
  intros HP. induction fuel as [|fuel IH]; intros n st H Hn; cbn [loop_until];
    (destruct (stop st) eqn:Es; [by exists n, st|]); destruct (HP n st H) as [?|(m & st' & -> & E & H')]; try congruence; [lia|].
  rewrite E. cbn [mbind res_bind]. by apply (IH m); [|lia].
Qed.

(** [n] rounds are left at most. *)
Definition sending (n : nat) (st : bench) : Prop :=
  exists x y, live st x y /\ zlen string + 2 - last_ack_no_ (sender_ (conn x)) <= Z.of_nat n.

Lemma sending_step reorder n st :
  sending n st -> eof (inbound_stream (by_ st)) = true \/ exists m st', n = S m /\ loop reorder st = Ok st' /\ sending m st'.
Proof using All.
  intros (x & y & H & Hn). destruct (live_bounds _ _ _ H) as (Hb & _).
  destruct (Z.eq_dec (last_ack_no_ (sender_ (conn x))) (zlen string + 2)) as [Ea|]; [left; by eapply live_done|right].
  destruct n as [|n]; [lia|]. destruct (round_live reorder st x y H) as (st' & x' & y' & E & H' & [Hx _ _]).
  exists n, st'. split_and!; [done|done|]. exists x', y'. split; [done|]. lia.
Qed.

(** At the end of file everything is acknowledged. *)
Lemma live_eof st x y : live st x y -> eof (inbound_stream (by_ st)) = true -> last_ack_no_ (sender_ (conn x)) = zlen string + 2.
Proof using All.
  intros H He. destruct (lv_sim _ _ _ H) as [Ex Ey Hi Hb Hst Hsi Hre Hc Hz]. rewrite (lv_acked _ _ _ H).
  destruct (dinv_delivered _ _ _ _ _ _ Hi) as [_ Hd]. rewrite Ey in Hd. destruct (Hd He) as [_ Hen]. rewrite Ex, <-Hc in Hen.
  rewrite Hz, app_nil_r in Hst by done. rewrite <-Ey in He. unfold eof, inbound_stream in He. apply andb_true_iff in He as [_ He].
  destruct Hi as (sx & ax & sy & ay & rcx & fnx & rcy & fny & H1 & _).
  destruct (room isnx capy Hcapy Hcapy2 Hisnx _ _ (iv_snd _ _ _ _ _ H1)) as [Hcp HS]. pose proof (iv_rcv _ _ _ _ _ H1) as Hr.
  destruct (state_spec _ _ _ Hcp HS Hisnx _ _ _ _ Hr) as [_ Hab]. cbn [link sys_receiver sys_written] in *.
  pose proof (ri_inv _ _ _ _ _ _ _ Hr) as Hinv. change (input_ended_ (output_ (reassembler_ (receiver_ (conn y)))) = true) in He.
  rewrite (inv_ended _ _ _ _ _ _ Hinv) in He. rewrite Hab, He. apply andb_true_iff in He as [Hf Hn%Z.eqb_eq].
  destruct (is_listen_ (receiver_ (conn y))) eqn:El; [destruct (ri_listen _ _ _ _ _ _ _ Hr El); congruence|]. rewrite <-Hst. lia.
Qed.

(** *** The second loop *)

(** A round of two silent, finished connections only lets time pass. *)
Lemma silent_loop reorder st st' :
  loop reorder st = Ok st' -> str (bytes_to_send st) = [] -> x_closed st = true ->
  segments_out (bx st) = [] -> segments_out (by_ st) = [] -> ByteStream.buffer_size (inbound_stream (by_ st)) = 0 ->
  tick (bx st) 1000 = Ok (bx st') /\ tick (by_ st) 1000 = Ok (by_ st').
Proof using.
  intros E Hb Hc Hx Hy Hn. assert (forall c, segments_out c = [] -> set_out [] c = c) as Hid by (intros [] Hc'; cbn in *; by subst).
  unfold loop in E. rewrite Hb, Hc in E. cbn [length write_input] in E. unfold size in E. rewrite Hb in E. change (zlen (@nil byte) =? 0) with true in E. cbn [mbind res_bind negb andb] in E.
  rewrite andb_false_r in E. cbn [mbind res_bind] in E. unfold move_segments in E. rewrite Hx in E. cbn [app] in E.
  destruct reorder; cbn [rev receive_all mbind res_bind] in E; rewrite Hy in E; cbn [app receive_all mbind res_bind] in E;
    rewrite !Hid in E by done; rewrite Hn in E; change (0 <? 0) with false in E; cbn [mbind res_bind] in E;
    apply bind_Ok in E as (cx & Ex & E); apply bind_Ok in E as (cy & Ey & E); injection E as <-; done.
Qed.

(** [n] rounds are left at most: the end of [y] is on its way ([k] rounds), the
    last answers are delivered (two rounds), time passes. *)
Definition closing (n : nat) (st : bench) : Prop :=
  exists x y, live st x y /\ last_ack_no_ (sender_ (conn x)) = zlen string + 2 /\
    ((exists k, n = (659 + k)%nat /\ 2 <= last_ack_no_ (sender_ (conn y)) + Z.of_nat k)
     \/ (finished x y /\ finished y x /\ n = 658%nat /\ segments_out (conn y) = [] /\ Forall pure_ack (segments_out (conn x)))
     \/ (finished x y /\ finished y x /\ segments_out (conn y) = [] /\ segments_out (conn x) = []
         /\ exists j, (n + j)%nat = 657%nat /\ waited j (conn x) /\ waited j (conn y))).

Lemma live_finished st x y :
  live st x y -> last_ack_no_ (sender_ (conn x)) = zlen string + 2 -> 2 <= last_ack_no_ (sender_ (conn y)) -> finished x y /\ finished y x.
Proof using All.
  intros H Ha Hy. destruct (live_bounds _ _ _ H) as (_ & Hb & Hw). destruct (lv_sim _ _ _ H) as [_ _ Hi _ _ Hsi _ _ _].
  destruct (dinv_sender _ _ _ _ _ _ Hi) as (Hx & _). pose proof (next_seq_range _ _ Hx). pose proof (si_acked _ _ Hx).
  destruct (dinv_sender _ _ _ _ _ _ (dinv_sym _ _ _ _ _ _ Hi)) as (Hsy & _). pose proof (next_seq_range _ _ Hsy) as Hn. pose proof (si_acked _ _ Hsy).
  rewrite Hsi in Hn. change (zlen (@nil byte)) with 0 in Hn. pose proof (lv_acked _ _ _ H). pose proof (zlen_nonneg string).
  unfold finished. rewrite Hsi. change (zlen (@nil byte)) with 0. destruct (lv_heard _ _ _ H); lia.
Qed.

(** One round of silence. *)
Lemma silent_round reorder st st' x y x' y' j :
  live st x y -> finished x y -> finished y x -> segments_out (conn y) = [] -> segments_out (conn x) = [] ->
  waited j (conn x) -> waited j (conn y) -> loop reorder st = Ok st' -> live st' x' y' ->
  waited (S j) (conn x') /\ waited (S j) (conn y').
Proof using All.
  intros H Fx Fy Qy Qx Jx Jy E H'. destruct (lv_sim _ _ _ H) as [Ex Ey Hi _ _ _ _ _ Hz]. destruct (lv_sim _ _ _ H') as [Ex' Ey' _ _ _ _ _ _ _].
  pose proof (finished_closed _ _ _ (lv_sim _ _ _ H) Fx) as Hc.
  destruct (silent_loop reorder st st' E (Hz Hc) Hc) as [Tx Ty]; [by rewrite <-Ex|by rewrite <-Ey| |].
  { rewrite <-Ey. destruct Hi as (? & ? & ? & ? & ? & ? & ? & ? & H1 & _).
    pose proof (wf_output _ (inv_wf _ _ _ _ _ _ (ri_inv _ _ _ _ _ _ _ (iv_rcv _ _ _ _ _ H1)))) as Hwf.
    change (ByteStream.wf (inbound_stream (conn y))) in Hwf. unfold buffer_size. rewrite <-(length_contents _ Hwf). by rewrite (lv_empty _ _ _ H). }
  rewrite <-Ex, <-Ex' in Tx. rewrite <-Ey, <-Ey' in Ty. destruct (lv_cfg _ _ _ H) as [Gx Gy]. pose proof Fx as [F1 F2]. pose proof Fy as [F3 F4].
  destruct (finished_sender isnx isny capx capy Hcapx Hcapx2 Hisnx Hcapy Hcapy2 Hisny x y Hi Fx) as (_ & _ & Nx). split.
  - eapply (tick_waited isnx isny capx capy ltac:(done) ltac:(done) ltac:(done) ltac:(done) ltac:(done) ltac:(done) x y); try done; try apply H.
    destruct (lv_count_x _ _ _ H) as [?|[_ ?]]; [done|lia].
  - eapply (tick_waited isny isnx capy capx ltac:(done) ltac:(done) ltac:(done) ltac:(done) ltac:(done) ltac:(done) y x); try done; try apply H.
    + by apply dinv_sym.
    + destruct (lv_count_y _ _ _ H) as [?|[_ ?]]; [done|lia].
Qed.

Lemma closing_step reorder n st :
  closing n st ->
  negb (active (bx st) || active (by_ st)) = true \/ exists m st', n = S m /\ loop reorder st = Ok st' /\ closing m st'.
Proof using All.
  intros (x & y & H & Ha & Hph). destruct (round_live reorder st x y H) as (st' & x' & y' & E & H' & [Cx Cy Cs]).
  destruct (live_bounds _ _ _ H) as (_ & Hby & _). destruct (live_bounds _ _ _ H') as (Hbx' & Hby' & _). pose proof (zlen_nonneg string).
  assert (last_ack_no_ (sender_ (conn x')) = zlen string + 2) as Ha' by lia.
  destruct Hph as [(k & -> & Hk)|[(Fx & Fy & -> & Qy & Qx)|(Fx & Fy & Qy & Qx & j & Hj & Jx & Jy)]].
  - right. destruct k as [|k].
    + exists 658%nat, st'. split_and!; [done|done|]. exists x', y'. split_and!; [done|done|right; left].
      destruct (live_finished _ _ _ H Ha) as [Fx Fy]; [lia|]. destruct (Cs Fx Fy) as (? & ? & ? & ? & _). by split_and!.
    + exists (659 + k)%nat, st'. split_and!; [lia|done|]. exists x', y'. split_and!; [done|done|left]. exists k. split; [done|]. lia.
  - right. exists 657%nat, st'. split_and!; [done|done|]. exists x', y'. split_and!; [done|done|right; right].
    destruct (Cs Fx Fy) as (? & ? & ? & _ & Hs). split_and!; [done|done|done|by apply Hs|]. by exists 0%nat.
  - destruct n as [|n].
    + left. cbn in Hj. subst j. destruct (lv_cfg _ _ _ H) as [Gx Gy]. destruct (lv_sim _ _ _ H) as [<- <- _ _ _ _ _ _ _].
      destruct Jx as [Jx|?]; [|lia]. destruct Jy as [Jy|?]; [|lia]. by rewrite Jx, Jy.
    + right. exists n, st'. split_and!; [done|done|]. exists x', y'. split_and!; [done|done|right; right].
      destruct (Cs Fx Fy) as (? & ? & ? & Hp & Hs). split_and!; [done|done|done|apply Hs; [by rewrite Qx|done]|].
      exists (S j). split; [lia|]. by apply (silent_round reorder st st' x y x' y' j).
Qed.
End rounds.

(** ** The start *)

Section beginning.
Context (isnx isny : WrappingInt32) (capx capy : Z).
Context (Hcapx : 0 < capx) (Hcapx2 : 2 * capx < M63) (Hisnx : wi_ok isnx).
Context (Hcapy : 0 < capy) (Hcapy2 : 2 * capy < M63) (Hisny : wi_ok isny).

(** A connection that sends its SYN. *)
Lemma first_call x y F s1 s c :
  dinv isnx capx isny capy x y -> dinv isnx capx isny capy (called c x) y ->
  sinv s1 (written x) -> TCPSender.segments_out_ s1 = [] -> outstanding_segments_ s1 = outstanding_segments_ (sender_ (conn x)) ->
  base s1 = base (sender_ (conn x)) -> last_ack_no_ s1 = last_ack_no_ (sender_ (conn x)) ->
  next_seq_no_ s1 = 0 -> window_size_ s1 = 1 ->
  fill_window s1 = Ok s -> enqueue_segments (set_sender s (set_sender s1 (conn x))) = Ok c ->
  wire x y (segments_out (conn x)) -> wire y x F ->
  up (called c x) /\ wire (called c x) y (segments_out c) /\ wire y (called c x) F
  /\ last_ack_no_ (sender_ c) = last_ack_no_ (sender_ (conn x)) /\ retransmission_count_ (sender_ c) = retransmission_count_ s1
  /\ receiver_ c = receiver_ (conn x) /\ cfg_ c = cfg_ (conn x) /\ ended (sender_ c) = ended s1.
Proof using All.
  intros H H' Hs Ho Eo Eb Ea Hn Hw Ef Ee Wo Wi. destruct (dinv_sender _ _ _ _ _ _ H) as (_ & _ & _ & Hr).
  destruct (dinv_ackno isnx isny capx capy Hcapx Hcapx2 Hisnx Hcapy Hcapy2 Hisny x y H) as [o Ha].
  destruct (fill_effect (set_sender s1 (conn x)) _ s c o Hs Ho Hr Ha Ef Ee) as (new & Hex & _ & Es & Er & Ec & Hq).
  cbn [receiver_ sender_ cfg_ set_sender] in *. destruct (first_fill _ _ _ Hs Hn Hw Ef) as (Fn & Fl & Fw & Ff).
  destruct (wire_fill isnx isny capx capy Hcapx Hcapx2 Hisnx Hcapy Hcapy2 Hisny x x y F c s1 s new) as [W1 W2]; try done.
  rewrite Es. cbn. split_and!; try done; [|congruence|apply (ex_count _ _ _ Hex)|apply (ex_ended _ _ _ Hex)].
  split; cbn [conn called]; rewrite Es; cbn; [lia| |done]. intros _. cbn. lia.
Qed.
End beginning.

Lemma start_live config rndx rndy string :
  usable config -> zlen string + 2 <= M31 ->
  exists st x y, start config rndx rndy string = Ok st
    /\ live string (first_isn config rndx) (first_isn config rndy) (recv_capacity config) (recv_capacity config) st x y.
Proof.
  intros Hu Hlen. pose proof (dinv_steps config rndx config rndy _ Hu Hu (duplex_refl _)) as H0. cbn [fst snd] in H0.
  pose proof (first_isn_ok config rndx Hu) as Hix. pose proof (first_isn_ok config rndy Hu) as Hiy.
  destruct (Hu) as (Hrt & _ & Hc1 & Hc2 & _). set (cap := recv_capacity config) in *. set (x := endpoint_new config rndx) in *.
  set (y := endpoint_new config rndy) in *.
  assert (forall u v, conn u = new config rndx \/ conn u = new config rndy -> last_ack_no_ (sender_ (conn v)) = 0 -> wire u v []) as W0.
  { intros u v Hn Hv. split; [|left; rewrite Hv; by destruct Hn as [->| ->]]. intros p. destruct Hn as [->| ->]; by intros ?%elem_of_nil. }
  destruct (duplex_connect _ _ cap cap Hc1 Hc2 Hix Hc1 Hc2 Hiy _ _ H0) as (cx & Ex & H1).
  pose proof Ex as Ex'. unfold connect in Ex'. apply bind_Ok in Ex' as (sx & Fx & Qx).
  destruct (dinv_sender _ _ _ _ _ _ H0) as (Sx & _).
  destruct (first_call _ _ cap cap Hc1 Hc2 Hix Hc1 Hc2 Hiy x y [] (sender_ (conn x)) sx cx H0 H1 Sx) as (Ux & Wx & Vx & Ax & Nx & Rx & Gx & Edx);
    try done; [by apply W0; [left|]|by apply W0; [right|]|].
  pose proof (dinv_sym _ _ _ _ _ _ H1) as H1'. destruct (duplex_end _ _ cap cap Hc1 Hc2 Hiy Hc1 Hc2 Hix _ _ H1') as (cy & Ecy & H2).
  pose proof Ecy as Ey'. unfold end_input_stream in Ey'. apply bind_Ok in Ey' as (sy & Fy & Qy).
  destruct (dinv_sender _ _ _ _ _ _ H1') as (Sy & _). apply sinv_end in Sy.
  destruct (first_call _ _ cap cap Hc1 Hc2 Hiy Hc1 Hc2 Hix y (called cx x) (segments_out cx) (end_input (sender_ (conn y))) sy cy H1' H2 Sy)
    as (Uy & Wy & Vy & Ay & Ny & Ry & Gy & Edy); try done.
  unfold start. cbn [conn x y endpoint_new] in Ex, Ecy. rewrite Ex, Ecy. cbn [mbind res_bind].
  exists (mkBench cx cy (of_string string) false []), (called cx x), (called cy y). split; [done|].
  split; cbn [conn called]; try done.
  - split; cbn; try done; [by apply dinv_sym|apply of_string_wf; lia].
  - unfold inbound_stream. by rewrite Ry.
  - by rewrite Ax, Ry.
  - by left.
  - by left.
  - left. by rewrite Ax.
  - rewrite Gx, Gy. cbn. lia.
Qed.

(** [main_loop] ends, with the string received and both connections closed. *)
Definition completed (config : TCPConfig) (rndx rndy : Z) (string : list byte) (reorder : bool) (fuel : nat) : Prop :=
  exists st, main_loop config rndx rndy string reorder fuel = Ok st /\ string_received st = string
    /\ active (bx st) = false /\ active (by_ st) = false /\ gave_up st = false.

Lemma main_loop_completes config rndx rndy string reorder fuel :
  usable config -> zlen string + 2 <= M31 -> (length string + 700 <= fuel)%nat ->
  completed config rndx rndy string reorder fuel.
Proof.
  intros Hu Hlen Hfuel. destruct (start_live config rndx rndy string Hu Hlen) as (st & x & y & Es & H).
  pose proof (first_isn_ok config rndx Hu) as Hix. pose proof (first_isn_ok config rndy Hu) as Hiy.
  destruct (Hu) as (_ & _ & Hc1 & Hc2 & _). set (cap := recv_capacity config) in *.
  unfold completed, main_loop. rewrite Es. cbn [mbind res_bind].
  destruct (loop_until_ends (fun st => eof (inbound_stream (by_ st))) _ reorder
    (fun n st => sending_step string _ _ cap cap Hc1 Hc2 Hix Hc1 Hc2 Hiy Hlen reorder n st) fuel (length string + 2)%nat st)
    as (m & st1 & -> & He & x1 & y1 & H1 & _); [|lia|].
  { exists x, y. split; [done|]. destruct (live_bounds string _ _ cap cap Hc1 Hc2 Hix Hc1 Hc2 Hiy Hlen _ _ _ H) as (? & _). unfold zlen in *. lia. }
  cbn [mbind res_bind]. pose proof (live_eof string _ _ cap cap Hc1 Hc2 Hix Hc1 Hc2 Hiy Hlen _ _ _ H1 He) as Ha.
  destruct (live_done string _ _ cap cap Hc1 Hc2 Hix Hc1 Hc2 Hiy Hlen _ _ _ H1 Ha) as [_ Hrec].
  rewrite bool_decide_true by done. cbn [negb].
  destruct (loop_until_ends (fun st => negb (active (bx st) || active (by_ st))) _ reorder
    (fun n st => closing_step string _ _ cap cap Hc1 Hc2 Hix Hc1 Hc2 Hiy Hlen reorder n st) fuel 661%nat st1)
    as (m' & st2 & -> & Hs & x2 & y2 & H2 & Ha2 & _); [|lia|].
  { exists x1, y1. split_and!; [done|done|left]. exists 2%nat. split; [done|].
    destruct (live_bounds string _ _ cap cap Hc1 Hc2 Hix Hc1 Hc2 Hiy Hlen _ _ _ H1) as (_ & ? & _). lia. }
  exists st2. split; [done|]. apply negb_true_iff, orb_false_iff in Hs as [? ?].
  destruct (live_done string _ _ cap cap Hc1 Hc2 Hix Hc1 Hc2 Hiy Hlen _ _ _ H2 Ha2) as [_ ?]. split_and!; try done.
  destruct (lv_sim _ _ _ _ _ _ _ _ H2) as [Ex Ey Hi _ _ _ _ _ _]. unfold gave_up. rewrite <-Ex, <-Ey.
  destruct (dinv_sender _ _ _ _ _ _ Hi) as (_ & _ & _ & ->). by destruct (dinv_sender _ _ _ _ _ _ (dinv_sym _ _ _ _ _ _ Hi)) as (_ & _ & _ & ->).
Qed.

(** ** Properties *)

(** C5: the benchmark succeeds: for every two strings and every configuration
    with positive buffers, however small, [main] returns success; each of its
    runs, in order or with reordering, ends within a number of rounds that is
    the length of the string plus a constant, without any exception, fault or
    failed check, with the string received the string sent, both connections
    closed, and no connection given up after too many retransmissions. *)
Theorem benchmark_succeeds (what : fault -> list byte) (config : TCPConfig) (rnd1 rnd2 rnd3 rnd4 : Z) (string1 string2 : list byte) (fuel : nat) :
  usable config -> zlen string1 + 2 <= M31 -> zlen string2 + 2 <= M31 ->
  (length string1 + 700 <= fuel)%nat -> (length string2 + 700 <= fuel)%nat ->
  completed config rnd1 rnd2 string1 false fuel /\ completed config rnd3 rnd4 string2 true fuel
  /\ benchmark_main what config rnd1 rnd2 rnd3 rnd4 string1 string2 fuel = Ok (Left EXIT_SUCCESS []).
Proof.
  intros Hu L1 L2 F1 F2. pose proof (main_loop_completes config rnd1 rnd2 string1 false fuel Hu L1 F1) as C1.
  pose proof (main_loop_completes config rnd3 rnd4 string2 true fuel Hu L2 F2) as C2. split_and!; [done|done|].
  destruct C1 as (st1 & E1 & _), C2 as (st2 & E2 & _). unfold benchmark_main. rewrite E1, E2. done.
Qed.

(** The program's own parameters are within the bounds. *)
Lemma default_parameters :
  usable (mkTCPConfig TIMEOUT_DFLT DEFAULT_CAPACITY DEFAULT_CAPACITY None) /\ 100 * 1024 * 1024 + 2 <= M31.
Proof. split; [|lia]. unfold usable, TIMEOUT_DFLT, DEFAULT_CAPACITY; cbn. split_and!; done || lia. Qed.

(** Eleven bytes through a window of four, in order and reordered. *)
Lemma benchmark_succeeds_witness :
  completed bench_cfg 0 0 sample_text false 711 /\ completed bench_cfg 0 0 sample_text true 711
  /\ benchmark_main (fun _ => []) bench_cfg 0 0 0 0 sample_text sample_text 711 = Ok (Left EXIT_SUCCESS []).
Proof.
  apply (benchmark_succeeds (fun _ => []) bench_cfg 0 0 0 0 sample_text sample_text 711); [|vm_compute; done|vm_compute; done|cbn; lia|cbn; lia].
  unfold usable; cbn. split_and!; try lia; done.
Defined.
